(* ===== verification/_CoqProject ===== *)
-Q . S2P
Prelude.v
Errors.v
Host.v
Keeps.v
Primitives.v
SampleSdk.v
Helpers.v
Storage.v
HostAuth.v
Auth.v
ChannelAuth.v
UtxoCore.v
Channel.v
ChannelSpec.v
ChannelLive.v
ChannelBounds.v
ChannelRefinement.v
ChannelHistory.v
ChannelOrder.v
Lifetimes.v
UtxoTestContract.v
AuthTestContract.v
Keys.v
Snapshot.v
OperationBuilder.v
ChannelOperationBuilder.v
Token.v
System.v
Binding.v
SystemLive.v
SystemClient.v
SystemRefinement.v
SampleWorld.v
Regression.v
Witnesses.v
