(* ===== verification/Prelude.v ===== *)
(** * Moonlight core, verified

    A model of the Soroban contracts of this repository and the theorems that make them correct.
    File names below are under src/.

    ** The program

    A _privacy channel_ (contracts/privacy-channel) holds the tokens of one asset and keeps
    unspent outputs, each under the hash of a 65-byte P256 key.  Its one operation that moves
    value, [transact], takes a bundle: outputs to spend and outputs to create, deposits that
    bring tokens in and withdrawals that take tokens out.  Who may do this is decided elsewhere:
    the channel asks its _Quorum Auth_ contract (contracts/channel-auth) to authorize the bundle's
    requirements, and that contract's [__check_auth] wants the signature of a registered
    provider over the transaction and, for each spent output, the signature of its key over the
    conditions of the spend.  The conditions say what must happen in the same bundle.  The
    accounting is the trait of modules/utxo-core over the entries of modules/storage; the two
    checks are the traits of modules/auth; conditions, conflicts and the signed payload are
    modules/primitives; error codes are modules/errors.  contracts/token is the token the
    tests use as the asset, and the test support code holds the client side: builders of
    operations and key pairs.

    ** The files

    - [Prelude]: fixed-length byte arrays, machine integers with their bounds, little-endian
      encoding, sums over finite maps and lists.  [Errors]: modules/errors/src/lib.rs.
    - [Host]: failing invocations ([res], and [M] over a state), persistent, temporary and
      instance storage with a time to live, the SDK as a parameter ([Sdk], [SdkLaws]).
      [Keeps]: frame rules for code in [M], what every path through it preserves.
    - [Primitives]: modules/primitives/src/lib.rs.  [Helpers]: modules/helpers/src/parser.rs.
    - [Storage]: modules/storage/src/lib.rs, with the abstract ledger it implements: a map from
      keys to amounts, an unspent output positive, a spent one zero.
    - [HostAuth]: [require_auth_for_args] and the access-control library, as interfaces.
    - [Auth]: modules/auth/src/core.rs.  [ChannelAuth]: contracts/channel-auth/src/contract.rs.
    - [UtxoCore]: modules/utxo-core/src/core.rs and events.rs, with a bundle's specification on
      the ledger.
    - [Channel]: contracts/privacy-channel/src/{contract,transact,treasury,storage}.rs.
      [ChannelSpec], [ChannelLive] and [ChannelBounds]: its theorems, what has happened when
      [transact] returns, its outcomes and errors, and how large its amounts and unsigned effects
      can be.
      [ChannelRefinement] and [ChannelHistory]: an abstract machine, the channel's simulation by
      it, and what that says of whole histories.  [ChannelOrder]: transactions that compete and
      transactions that commute.  [Lifetimes]: the time to live of the instance and the entries.
    - [Token]: contracts/token/src.
    - [System], [SystemLive] and [SystemClient]: the channel, the Quorum Auth contract and the
      token put together, the way out of them, and the way from a client's builder to settlement.
      [SystemRefinement]: an abstract bank, a ledger and a balance per account, and the
      simulation of the three contracts by it.
      [Binding]: how a signed payload can be read, and what that leaves an owner.
    - [UtxoTestContract], [AuthTestContract], [Keys], [Snapshot], [OperationBuilder],
      [ChannelOperationBuilder]: the test contracts, key pairs, recorded accounts and builders.
    - [SampleSdk], [SampleWorld], [Witnesses]: a concrete SDK and world that satisfy every
      interface's laws, executable scenarios, and one instance of each theorem that has
      hypotheses.  [Regression]: the audit regressions of
      contracts/privacy-channel/src/test/{moon01,moon05,moon06}.rs, evaluated on the model.

    ** How state and operations correspond to the code

    The storage of a contract is a record ([UtxoState], [ChannelState], [AuthState],
    [TokenState]) with a field per storage slot and the events published so far.  An entry
    point is a function in the monad [M (state * X)], where [X] is the world outside the
    contract; it keeps the source's name, the order of its checks and its early returns.  A
    panic, a returned error and a trap of the host are values of [failure]; a failed invocation
    carries no state, which is the host's rollback.  Integers are [Z] with the range checks of
    [checked_add] and of the release profile's overflow checks written out.  A storage map is a
    [gmap]; an SDK map is one too, iterated in the order of its keys.

    The asset of the channel is an arbitrary program ([asset_run]): during a transfer it may
    call any entry point of the channel back, see the outcome and go on.  Nesting is bounded by
    a depth, the host's limit on nested calls; [reentrancy_is_shut] shows that with the guard up
    two levels already decide every call, so no theorem depends on the bound, and
    [nested_calls_terminate] that two levels compute the one solution of the recursion itself.

    ** What the theorems show

    - The ledger.  The storage operations refine the abstract ledger on every branch; over any
      history no record is lost, an amount never changes while unspent, and a spent key stays
      spent.  [process_bundle] is sound and complete for its specification, conserves value,
      and fails with the errors listed, in their order.
    - The channel.  [transact_sound]: everything a returning [transact] has done, against any
      asset.  [transact_binds_signed_effects]: the creates and withdrawals that were signed are
      executed.  [channel_refines_machine]: the calls that return and their answers are a trace
      of a machine that has only a ledger and two bindings.  [ledger_is_history]: each output is
      created once, before it is spent at most once, and the ledger says nothing else.
      [channel_history_invariant]: the recorded supply is the sum of the unspent outputs in
      every reachable state.  [transact_complete]: what a valid, balanced operation
      comes to when it is authorized and the asset settles its transfers without calling back: it
      returns, unless its amounts overflow, and then with which failure.  [transact_rejects]: which
      operations the checks refuse, with which error.  [transaction_order]: of two transactions
      that spend or create the same entry only one goes through, for good; two that share none
      run in either order, with one result, when the outside world accepts both; and only an
      operation that touches no entry can be replayed.  [calls_keep_alive]: no call
      shortens the life of anything, and what a call touched stays live for twenty-nine days.
      [channel_amounts_bounded]: in every reachable state the supply is an [i128] that bounds
      every amount; at the points of a [transact] where the supply is updated, taking off a
      withdrawal never underflows and adding a deposit overflows exactly when it must.  [unsigned_effects_bounded_by_residual]:
      what nobody signed is worth what comes in less what was signed for, no more.
    - Authorization. [check_auth_decides]: [__check_auth] accepts exactly what its two checks
      mean, and its error names a defect that is there; the provider registry is what its events
      say; governance is gated by the owner.
    - The whole.  [transact_needs_owner_and_provider]: nothing is spent without the key holder's
      signature over its conditions and a provider's.  [signed_exit_executes]: with these
      signatures a valid bundle that takes funds out is executed by the three contracts and its
      recipients are paid.  [system_solvent]: the channel always holds at least as many tokens as
      its unspent outputs are worth, whatever anybody calls.  [system_refines_bank]: whatever is
      called, every step is one an abstract bank allows, with a provider's, the owners' and the
      depositors' agreement, and the bank's ledger and balances are the system's.
      [losses_are_agreed]: whoever else than the channel ends with less agreed to a transfer, a
      burn or a deposit.
      [built_transaction_executes]: what a client's channel operation builder lays out, signed as
      it says by owners, provider and depositors, settles, deposits and withdrawals included.
      [withdrawal_can_be_redirected]: the limit of the binding.  The payload does not tell a
      withdrawal from a deposit, nor from an integration without keys, and neither condition is
      enforced, so with a signature on a withdrawal a provider can have the three contracts pay
      somebody else; [SampleWorld.redirect_scenario] and [integration_scenario] run it.
      [payload_ambiguity_exact]: without integrations, the first is all the payload loses.
      [owner_is_protected]: whatever an owner meant by what it signed, its expiry is enforced,
      its creates are in the ledger, a payload of creates only is read in one way, and a
      withdrawal it meant is paid unless the bundle's conditions hold one of four things in its
      place: a deposit or an integration without keys of the same address and amount, an
      integration with keys, or a create under a key that is not an SEC1 point.
    - The token: conservation, the administrator's succession, protection of balances, transfers, approvals and delegation.
    - The client side: a complete builder's authorization entry is accepted, its signatures are
      of their keys' curves, its bundles pass the structural checks, key pairs sign what the host
      verifies, and recorded secrets in hexadecimal are read back.

    ** Parameters

    Code outside the repository is never defined, only assumed: addresses, hashing, signature
    verification and [extend_ttl] ([Sdk], laws in [SdkLaws]); the canonical XDR of a condition
    ([ConditionXdr], injective); the host's authorization ([HostAuth]; for the auth contract's
    address [System.CouncilLaws], and for a transaction that carries its entry
    [SystemLive.TransactionLaws], for other accounts' entries [SystemClient.AccountLaws]);
    stellar_access's ownable and upgradeable ([Ownable]); the token SDK's metadata and muxed
    addresses ([TokenSdk]); the ed25519 and p256 crates ([SigningKeys]); the decoding of strkeys
    ([StrKey]); the preimage of an authorization entry ([AuthPreimage]). Nothing is assumed of
    the hash or of the signature schemes beyond this: the theorems speak of the payload that was
    verified.

    ** What is not modelled

    The unit tests, the scenarios of [Regression] apart; the loading of ledger snapshots,
    contract registration in the test environment and the clients the SDK's macros generate,
    which are I/O or generated code; metering. After an upgrade the code is another program's:
    histories are those of this code. A persistent entry past its life counts as restored before
    it is read, which the host enforces. *)
From stdpp Require Export prelude gmap strings sorting list.
From Stdlib Require Export ZArith Lia.
From Stdlib Require Strings.Byte.

#[global] Open Scope Z_scope.

(** ** Bytes and byte arrays of a fixed length *)

Abbreviation byte := Init.Byte.byte.

#[global] Instance byte_eq_dec : EqDecision byte := Strings.Byte.byte_eq_dec.
#[global] Instance byte_countable : Countable byte :=
  inj_countable Strings.Byte.to_N Strings.Byte.of_N Strings.Byte.of_to_N.

Abbreviation Bytes := (list byte).

(** [BytesN n] is the SDK's [BytesN<n>]: a byte array whose length is [n]. *)
Record BytesN (n : nat) := mkBytesN {
  to_array : Bytes;
  to_array_ok : Nat.eqb (length to_array) n = true;
}.
Arguments mkBytesN {n} _ _.
Arguments to_array {n} _.
Arguments to_array_ok {n} _.

(** [from_array n l] is [l] cut, or padded with zeros, to [n] bytes. *)
Definition resize_bytes (n : nat) (l : Bytes) : Bytes := resize n Init.Byte.x00 l.

Definition resize_bytes_ok n l : Nat.eqb (length (resize_bytes n l)) n = true :=
  proj2 (Nat.eqb_eq _ _) (length_resize l n Init.Byte.x00).

Definition from_array (n : nat) (l : Bytes) : BytesN n :=
  mkBytesN (resize_bytes n l) (resize_bytes_ok n l).

Lemma BytesN_eq {n} (a b : BytesN n) : to_array a = to_array b → a = b.
Proof.
  destruct a as [a Ha], b as [b Hb]; simpl; intros ->. f_equal. apply proof_irrel.
Qed.

#[global] Instance to_array_inj n : Inj (=) (=) (@to_array n).
Proof. intros a b. apply BytesN_eq. Qed.

Lemma length_to_array {n} (a : BytesN n) : length (to_array a) = n.
Proof. apply Nat.eqb_eq, to_array_ok. Qed.

#[global] Instance BytesN_eq_dec n : EqDecision (BytesN n) := λ a b,
  match decide (to_array a = to_array b) with
  | left H => left (BytesN_eq a b H)
  | right H => right (λ E, H (f_equal to_array E))
  end.

#[global] Instance BytesN_inhabited n : Inhabited (BytesN n) :=
  populate (from_array n []).

(** [decode] only serves the [Countable] instance. *)
Definition BytesN_decode n (l : Bytes) : option (BytesN n) :=
  if decide (length l = n) then Some (from_array n l) else None.

Lemma BytesN_decode_to_array n (a : BytesN n) : BytesN_decode n (to_array a) = Some a.
Proof.
  unfold BytesN_decode. rewrite decide_True by apply length_to_array.
  f_equal. apply BytesN_eq. simpl. unfold resize_bytes.
  rewrite resize_all_alt; [done | by rewrite length_to_array].
Qed.

#[global] Instance BytesN_countable n : Countable (BytesN n) :=
  inj_countable to_array (BytesN_decode n) (BytesN_decode_to_array n).

(** ** Machine integers: [i128] and [u32] as [Z] with their bounds *)

Definition i128_min : Z := - 2 ^ 127.
Definition i128_max : Z := 2 ^ 127 - 1.
Definition in_i128 (z : Z) : bool := (i128_min <=? z) && (z <=? i128_max).

Definition u32_max : Z := 2 ^ 32 - 1.
Definition in_u32 (z : Z) : bool := (0 <=? z) && (z <=? u32_max).

(** [i128::checked_add], [i128::checked_sub], [u32::checked_sub]. *)
Definition checked_add (a b : Z) : option Z := if in_i128 (a + b) then Some (a + b) else None.
Definition checked_sub (a b : Z) : option Z := if in_i128 (a - b) then Some (a - b) else None.
Definition checked_sub_u32 (a b : Z) : option Z := if in_u32 (a - b) then Some (a - b) else None.

(** ** Little-endian encoding *)

Definition byte_of_Z (z : Z) : byte :=
  default Init.Byte.x00 (Strings.Byte.of_N (Z.to_N (z mod 256))).
Definition byte_to_Z (b : byte) : Z := Z.of_N (Strings.Byte.to_N b).

(** The [n] low bytes of the two's complement of [z], least significant first. *)
Fixpoint le_bytes (n : nat) (z : Z) : Bytes :=
  match n with
  | O => []
  | S n => byte_of_Z z :: le_bytes n (z / 256)
  end.

(** [i128::to_le_bytes] and [u32::to_le_bytes]. *)
Definition i128_to_le_bytes (z : Z) : Bytes := le_bytes 16 z.
Definition u32_to_le_bytes (z : Z) : Bytes := le_bytes 4 z.

(** ** The sum of a measure over a finite map, and over a list *)

Definition map_sumZ `{Countable K} {V} (f : V → Z) (m : gmap K V) : Z :=
  map_fold (λ _ v acc, f v + acc) 0 m.

Definition sumZ {A} (f : A → Z) (l : list A) : Z := foldr (λ x acc, f x + acc) 0 l.

(** ** The lexicographic order on byte strings, which orders [BytesN] keys *)

Fixpoint bytes_leb (a b : Bytes) : bool :=
  match a, b with
  | [], _ => true
  | _ :: _, [] => false
  | x :: a, y :: b =>
      (byte_to_Z x <? byte_to_Z y) || ((byte_to_Z x =? byte_to_Z y) && bytes_leb a b)
  end.

(** ** Lemmas *)

Lemma in_i128_spec z : in_i128 z = true ↔ i128_min ≤ z ≤ i128_max.
Proof. unfold in_i128. rewrite andb_true_iff, !Z.leb_le. done. Qed.

Lemma checked_add_Some a b c :
  checked_add a b = Some c ↔ c = a + b ∧ in_i128 (a + b) = true.
Proof. unfold checked_add. destruct (in_i128 (a + b)); naive_solver. Qed.

Lemma checked_sub_Some a b c :
  checked_sub a b = Some c ↔ c = a - b ∧ in_i128 (a - b) = true.
Proof. unfold checked_sub. destruct (in_i128 (a - b)); naive_solver. Qed.

Lemma checked_sub_u32_Some a b c :
  checked_sub_u32 a b = Some c ↔ c = a - b ∧ in_u32 (a - b) = true.
Proof. unfold checked_sub_u32. destruct (in_u32 (a - b)); naive_solver. Qed.

Lemma byte_to_Z_range b : 0 ≤ byte_to_Z b < 256.
Proof. unfold byte_to_Z. pose proof (Strings.Byte.to_N_bounded b). lia. Qed.

Lemma byte_to_of_Z z : byte_to_Z (byte_of_Z z) = z mod 256.
Proof.
  unfold byte_of_Z, byte_to_Z.
  pose proof (Z.mod_pos_bound z 256 eq_refl) as Hz.
  destruct (Strings.Byte.of_N (Z.to_N (z mod 256))) as [b|] eqn:E; simpl.
  - apply Strings.Byte.to_of_N in E. rewrite E. lia.
  - apply Strings.Byte.of_N_None_iff in E. lia.
Qed.

Lemma byte_to_Z_inj a b : byte_to_Z a = byte_to_Z b → a = b.
Proof.
  unfold byte_to_Z. intros E%N2Z.inj.
  pose proof (Strings.Byte.of_to_N a) as Ha. pose proof (Strings.Byte.of_to_N b) as Hb.
  congruence.
Qed.

Lemma length_le_bytes n z : length (le_bytes n z) = n.
Proof. revert z; induction n; intros z; simpl; auto. Qed.

Lemma le_bytes_inj n a b :
  le_bytes n a = le_bytes n b → a mod 256 ^ Z.of_nat n = b mod 256 ^ Z.of_nat n.
Proof.
  revert a b; induction n as [|n IH]; intros a b; simpl; [by rewrite !Z.mod_1_r|].
  intros [=Hb Hr]. apply (f_equal byte_to_Z) in Hb. rewrite !byte_to_of_Z in Hb.
  apply IH in Hr.
  replace (256 ^ Z.of_nat (S n)) with (256 * 256 ^ Z.of_nat n)
    by (rewrite Nat2Z.inj_succ, Z.pow_succ_r; lia).
  assert (0 < 256 ^ Z.of_nat n) by (apply Z.pow_pos_nonneg; lia).
  rewrite !Z.rem_mul_r by lia. congruence.
Qed.

Lemma i128_to_le_bytes_inj a b :
  in_i128 a = true → in_i128 b = true → i128_to_le_bytes a = i128_to_le_bytes b → a = b.
Proof.
  rewrite !in_i128_spec. unfold i128_min, i128_max. intros Ha Hb E%le_bytes_inj.
  change (256 ^ Z.of_nat 16) with (2 ^ 128) in E.
  rewrite (Z.mod_eq a), (Z.mod_eq b) in E by lia.
  assert (2 ^ 128 * (a / 2 ^ 128 - b / 2 ^ 128) = a - b) by lia.
  change (2 ^ 127) with 170141183460469231731687303715884105728 in *.
  change (2 ^ 128) with 340282366920938463463374607431768211456 in *. lia.
Qed.

Lemma u32_to_le_bytes_inj a b :
  in_u32 a = true → in_u32 b = true → u32_to_le_bytes a = u32_to_le_bytes b → a = b.
Proof.
  unfold in_u32, u32_max. rewrite !andb_true_iff, !Z.leb_le. intros Ha Hb E%le_bytes_inj.
  change (256 ^ Z.of_nat 4) with (2 ^ 32) in E. rewrite !Z.mod_small in E; lia.
Qed.

Section map_sumZ.
Context `{Countable K} {V : Type} (f : V → Z).
Implicit Types m : gmap K V.

Lemma map_sumZ_empty : map_sumZ f (∅ : gmap K V) = 0.
Proof. apply map_fold_empty. Qed.

Lemma map_sumZ_insert_new m k v :
  m !! k = None → map_sumZ f (<[k := v]> m) = f v + map_sumZ f m.
Proof. intros Hk. unfold map_sumZ. rewrite map_fold_insert_L; [done | lia | done]. Qed.

Lemma map_sumZ_delete m k v :
  m !! k = Some v → map_sumZ f m = f v + map_sumZ f (delete k m).
Proof.
  intros Hk. rewrite <- (insert_delete_id m k v Hk) at 1.
  apply map_sumZ_insert_new, lookup_delete_eq.
Qed.

Lemma map_sumZ_insert_old m k v v' :
  m !! k = Some v → map_sumZ f (<[k := v']> m) = map_sumZ f m - f v + f v'.
Proof.
  intros Hk. rewrite (map_sumZ_delete m k v Hk).
  rewrite <- insert_delete_eq, map_sumZ_insert_new by apply lookup_delete_eq. lia.
Qed.

(** Writing under one key moves the sum by the difference at that key. *)
Lemma map_sumZ_insert m k v :
  map_sumZ f (<[k := v]> m) = map_sumZ f m - from_option f 0 (m !! k) + f v.
Proof.
  destruct (m !! k) as [w|] eqn:Hk; simpl.
  - by apply map_sumZ_insert_old.
  - rewrite map_sumZ_insert_new by done. lia.
Qed.

Lemma map_sumZ_nonneg m : (∀ k v, m !! k = Some v → 0 ≤ f v) → 0 ≤ map_sumZ f m.
Proof.
  induction m as [|k v m Hk IH] using map_ind; intros Hf.
  - by rewrite map_sumZ_empty.
  - rewrite map_sumZ_insert_new by done.
    pose proof (Hf k v (lookup_insert_eq _ _ _)).
    assert (0 ≤ map_sumZ f m); [|lia].
    apply IH. intros j w Hj. apply (Hf j w).
    rewrite lookup_insert_ne; [done | congruence].
Qed.

(** With non-negative values, each one is at most the sum. *)
Lemma map_sumZ_lookup_le m k v :
  (∀ j w, m !! j = Some w → 0 ≤ f w) → m !! k = Some v → f v ≤ map_sumZ f m.
Proof.
  intros Hf Hk. rewrite (map_sumZ_delete m k v Hk).
  assert (0 ≤ map_sumZ f (delete k m)); [|lia].
  apply map_sumZ_nonneg. intros j w [_ Hj]%lookup_delete_Some. eauto.
Qed.
End map_sumZ.

Lemma sumZ_app {A} (f : A → Z) l1 l2 : sumZ f (l1 ++ l2) = sumZ f l1 + sumZ f l2.
Proof. induction l1; simpl; lia. Qed.

Lemma sumZ_nonneg {A} (f : A → Z) l : Forall (λ x, 0 ≤ f x) l → 0 ≤ sumZ f l.
Proof. induction 1; simpl; lia. Qed.

Lemma sumZ_perm {A} (f : A → Z) l k : l ≡ₚ k → sumZ f l = sumZ f k.
Proof. induction 1; simpl; lia. Qed.

Lemma sumZ_fmap {A B} (f : B → Z) (g : A → B) l : sumZ f (g <$> l) = sumZ (f ∘ g) l.
Proof. induction l as [|x l IH]; [done|]. rewrite fmap_cons. simpl. lia. Qed.

Lemma sumZ_zero {A} (f : A → Z) l :
  Forall (λ x, 0 < f x) l → sumZ f l = 0 → l = [].
Proof.
  intros Hpos Hz. destruct Hpos as [|x l Hx Hl]; [done|]. simpl in Hz.
  assert (0 ≤ sumZ f l); [|lia]. apply sumZ_nonneg. by eapply Forall_impl; [exact Hl|]; intros y Hy; simpl in Hy; lia.
Qed.

Lemma sumZ_ext {A} (f g : A → Z) l : (∀ x, x ∈ l → f x = g x) → sumZ f l = sumZ g l.
Proof.
  induction l as [|x l IH]; intros Hfg; [done|]. simpl. rewrite Hfg by (by left).
  rewrite IH; [done|]. intros y Hy. apply Hfg. by right.
Qed.

(** A key of a list with distinct keys has one value. *)
Lemma NoDup_fst_eq `{Countable K} {V} (l : list (K * V)) k a b :
  NoDup (l.*1) → (k, a) ∈ l → (k, b) ∈ l → a = b.
Proof.
  intros Hnd Ha Hb. apply (elem_of_list_to_map_1 (M:=gmap K) l k) in Ha, Hb; [|done..].
  congruence.
Qed.

#[global] Arguments i128_to_le_bytes : simpl never.
#[global] Arguments u32_to_le_bytes : simpl never.
#[global] Arguments from_array : simpl never.
