(* ===== verification/Errors.v ===== *)
(** The error codes of the protocol: modules/errors/src/lib.rs.

    [MoonlightError] is the enum with its explicit discriminants as [code]; the theorems say
    that the codes are pairwise distinct and that each family stays in its reserved range. *)
From S2P Require Import Prelude.

Definition AUTH_ERROR_RANGE_START : Z := 1000.
Definition AUTH_ERROR_RANGE_END : Z := 1099.
Definition UTXO_ERROR_RANGE_START : Z := 2000.
Definition UTXO_ERROR_RANGE_END : Z := 2099.
Definition CHANNEL_ERROR_RANGE_START : Z := 3000.
Definition CHANNEL_ERROR_RANGE_END : Z := 3099.
Definition HELPER_ERROR_RANGE_START : Z := 4000.
Definition HELPER_ERROR_RANGE_END : Z := 4099.

Inductive MoonlightError :=
  (* authorization *)
  | BadArg
  | UnexpectedVariant
  | MissingSignature
  | ExtraSignature
  | InvalidSignatureFormat
  | UnsupportedSignatureFormat
  | MismatchedContract
  | UnsupportedSigner
  | NoConditions
  | UnexpectedContext
  | SignatureExpired
  | ProviderThresholdNotMet
  | ProviderAlreadyRegistered
  | ProviderNotRegistered
  (* UTXO module *)
  | UtxoAlreadyExists
  | UtxoDoesNotExist
  | UtxoAlreadySpent
  | UnbalancedBundle
  | InvalidCreateAmount
  | RepeatedCreateUtxo
  | RepeatedSpendUtxo
  | UtxoNotFound
  | AuthContractNotSet
  (* privacy channel *)
  | RepeatedAccountForDeposit
  | RepeatedAccountForWithdraw
  | ConflictingConditionsForAccount
  | AmountOverflow
  | BundleHasConflictingConditions
  | AmountUnderflow
  | UnauthorizedOperation
  | InvalidExternalAmount
  | ReentrantCall
  (* helpers *)
  | NotEd25519AccountAddress
  | UnsupportedAddressPayload.

Definition code (e : MoonlightError) : Z :=
  match e with
  | BadArg => 1000
  | UnexpectedVariant => 1001
  | MissingSignature => 1002
  | ExtraSignature => 1003
  | InvalidSignatureFormat => 1004
  | UnsupportedSignatureFormat => 1005
  | MismatchedContract => 1006
  | UnsupportedSigner => 1007
  | NoConditions => 1008
  | UnexpectedContext => 1009
  | SignatureExpired => 1010
  | ProviderThresholdNotMet => 1011
  | ProviderAlreadyRegistered => 1012
  | ProviderNotRegistered => 1013
  | UtxoAlreadyExists => 2000
  | UtxoDoesNotExist => 2001
  | UtxoAlreadySpent => 2002
  | UnbalancedBundle => 2003
  | InvalidCreateAmount => 2004
  | RepeatedCreateUtxo => 2005
  | RepeatedSpendUtxo => 2006
  | UtxoNotFound => 2007
  | AuthContractNotSet => 2008
  | RepeatedAccountForDeposit => 3000
  | RepeatedAccountForWithdraw => 3001
  | ConflictingConditionsForAccount => 3002
  | AmountOverflow => 3003
  | BundleHasConflictingConditions => 3004
  | AmountUnderflow => 3005
  | UnauthorizedOperation => 3006
  | InvalidExternalAmount => 3007
  | ReentrantCall => 3008
  | NotEd25519AccountAddress => 4000
  | UnsupportedAddressPayload => 4001
  end.

#[global] Instance MoonlightError_eq_dec : EqDecision MoonlightError.
Proof. solve_decision. Defined.

(** The four families the source separates with its range constants. *)
Inductive error_family := AuthFamily | UtxoFamily | ChannelFamily | HelperFamily.

Definition family (e : MoonlightError) : error_family :=
  match e with
  | BadArg | UnexpectedVariant | MissingSignature | ExtraSignature | InvalidSignatureFormat
  | UnsupportedSignatureFormat | MismatchedContract | UnsupportedSigner | NoConditions
  | UnexpectedContext | SignatureExpired | ProviderThresholdNotMet
  | ProviderAlreadyRegistered | ProviderNotRegistered => AuthFamily
  | UtxoAlreadyExists | UtxoDoesNotExist | UtxoAlreadySpent | UnbalancedBundle
  | InvalidCreateAmount | RepeatedCreateUtxo | RepeatedSpendUtxo | UtxoNotFound
  | AuthContractNotSet => UtxoFamily
  | RepeatedAccountForDeposit | RepeatedAccountForWithdraw | ConflictingConditionsForAccount
  | AmountOverflow | BundleHasConflictingConditions | AmountUnderflow | UnauthorizedOperation
  | InvalidExternalAmount | ReentrantCall => ChannelFamily
  | NotEd25519AccountAddress | UnsupportedAddressPayload => HelperFamily
  end.

Definition family_range (f : error_family) : Z * Z :=
  match f with
  | AuthFamily => (AUTH_ERROR_RANGE_START, AUTH_ERROR_RANGE_END)
  | UtxoFamily => (UTXO_ERROR_RANGE_START, UTXO_ERROR_RANGE_END)
  | ChannelFamily => (CHANNEL_ERROR_RANGE_START, CHANNEL_ERROR_RANGE_END)
  | HelperFamily => (HELPER_ERROR_RANGE_START, HELPER_ERROR_RANGE_END)
  end.

(** A code identifies its error, and an error code lies in the reserved range of a
    family exactly when the error belongs to that family: the ranges do not overlap and no
    discriminant was put in the wrong one. *)
Theorem code_identifies_error (a b : MoonlightError) (f : error_family) :
  (code a = code b ↔ a = b) ∧
  ((family_range f).1 ≤ code a ≤ (family_range f).2 ↔ family a = f).
Proof.
  split.
  - split; [|by intros ->]. destruct a, b; simpl; first [reflexivity | discriminate].
  - destruct a, f; cbv -[Z.le]; split; intros; first [reflexivity | lia | discriminate].
Qed.
