(* ===== verification/Host.v ===== *)
(** The Soroban host as the contracts see it: failing invocations, state passing, storage
    entries with their time to live, and the SDK functions the source calls.

    The SDK and the host are not part of the repository.  What they compute (addresses,
    hashing, signature verification, the effect of [extend_ttl]) is a parameter, the class
    [Sdk]; what the development relies on of them is the class [SdkLaws]. *)
From S2P Require Import Prelude Errors.

(** ** Failing invocations *)

(** A trap is a failure without a contract error code. *)
Inductive panic :=
  | ArithmeticOverflow         (* overflow checks are on in the release profile *)
  | UnwrapNone                 (* [Option::unwrap] on [None] *)
  | CryptoError                (* an invalid signature traps the verifier *)
  | AuthError                  (* the host refuses an authorization *)
  | StorageError               (* [extend_ttl] on a missing entry or out of bounds *)
  | CallDepthExceeded          (* the host's limit on nested calls *)
  | LibraryPanic (n : Z)       (* a failure inside a third-party crate *)
  | Panic (msg : string).      (* [panic!("...")] *)

Inductive failure :=
  | ContractError (e : MoonlightError)   (* [panic_with_error!], or a returned [Err(e)] *)
  | Trap (p : panic).

(** The result of an invocation.  A failed one carries no state: the host rolls back. *)
Inductive res (A : Type) :=
  | Ok (a : A)
  | Err (f : failure).
Arguments Ok {A} _.
Arguments Err {A} _.

#[global] Instance res_ret : MRet res := @Ok.
#[global] Instance res_bind : MBind res := λ A B k r,
  match r with Ok a => k a | Err f => Err f end.

Definition is_Ok {A} (r : res A) : bool := match r with Ok _ => true | Err _ => false end.

(** Code running in a state [S]. *)
Definition M (S A : Type) : Type := S → res (A * S).

#[global] Instance M_ret S : MRet (M S) := λ A a s, Ok (a, s).
#[global] Instance M_bind S : MBind (M S) := λ A B k m s,
  match m s with Ok (a, s') => k a s' | Err f => Err f end.

Section monad.
Context {S : Type}.

Definition get_state : M S S := λ s, Ok (s, s).
Definition put_state (s : S) : M S unit := λ _, Ok (tt, s).
Definition modify (f : S → S) : M S unit := λ s, Ok (tt, f s).
Definition fail_with {A} (f : failure) : M S A := λ _, Err f.
Definition lift {A} (r : res A) : M S A := λ s,
  match r with Ok a => Ok (a, s) | Err f => Err f end.

(** [panic_with_error!(e, err)] and [assert_with_error!(e, cond, err)]. *)
Definition panic_with_error {A} (err : MoonlightError) : M S A :=
  fail_with (ContractError err).
Definition assert_with_error (cond : bool) (err : MoonlightError) : M S unit :=
  if cond then mret tt else panic_with_error err.

(** [for x in l { body }]. *)
Fixpoint for_each {A} (l : list A) (body : A → M S unit) : M S unit :=
  match l with
  | [] => mret tt
  | x :: l => body x ;; for_each l body
  end.

(** [for x in l { acc = body(acc, x) }]. *)
Fixpoint fold_loop {A B} (body : B → A → M S B) (l : list A) (acc : B) : M S B :=
  match l with
  | [] => mret acc
  | x :: l => acc' ← body acc x; fold_loop body l acc'
  end.
End monad.

(** The same loops over pure fallible code. *)
Fixpoint each {A} (l : list A) (body : A → res unit) : res unit :=
  match l with
  | [] => Ok tt
  | x :: l => body x ;; each l body
  end.

Fixpoint fold_res {A B} (body : B → A → res B) (l : list A) (acc : B) : res B :=
  match l with
  | [] => Ok acc
  | x :: l => acc' ← body acc x; fold_res body l acc'
  end.

(** [panic_with_error!] and [assert_with_error!] in pure fallible code. *)
Definition throw {A} (err : MoonlightError) : res A := Err (ContractError err).
Definition ensure (cond : bool) (err : MoonlightError) : res unit :=
  if cond then Ok tt else throw err.

(** [panic!(msg)] and [assert!(cond, msg)]. *)
Definition panics {A} (msg : string) : res A := Err (Trap (Panic msg)).
Definition asserts (cond : bool) (msg : string) : res unit :=
  if cond then Ok tt else panics msg.

(** [opt.ok_or(err)?]. *)
Definition ok_or {A} (o : option A) (err : MoonlightError) : res A :=
  match o with Some a => Ok a | None => Err (ContractError err) end.

(** Running code of one component inside a larger state. *)
Definition zoom {S T A} (get : T → S) (set : S → T → T) (m : M S A) : M T A := λ t,
  match m (get t) with Ok (a, s) => Ok (a, set s t) | Err f => Err f end.

Definition on_fst {S X A} (m : M S A) : M (S * X) A := zoom fst (λ s p, (s, p.2)) m.
Definition on_snd {S X A} (m : M X A) : M (S * X) A := zoom snd (λ x p, (p.1, x)) m.

(** Rust's [+], [-] on [i128] with overflow checks. *)
Definition add_i128 (a b : Z) : res Z :=
  match checked_add a b with Some c => Ok c | None => Err (Trap ArithmeticOverflow) end.
Definition sub_i128 (a b : Z) : res Z :=
  match checked_sub a b with Some c => Ok c | None => Err (Trap ArithmeticOverflow) end.
Definition unwrap {A} (o : option A) : res A :=
  match o with Some a => Ok a | None => Err (Trap UnwrapNone) end.

(** ** The SDK *)

(** [soroban_sdk::address_payload::AddressPayload]. *)
Inductive AddressPayload :=
  | AccountIdPublicKeyEd25519 (pk : BytesN 32)
  | ContractIdHash (h : BytesN 32).

Inductive durability := Persistent | Temporary | InstanceStorage.

Class Sdk := {
  Address : Type;
  Address_eq_dec :: EqDecision Address;
  Address_countable :: Countable Address;
  (** [Address::from_payload], [Address::to_payload], [Address::to_string().to_bytes()]. *)
  from_payload : AddressPayload → Address;
  to_payload : Address → option AddressPayload;
  address_to_string : Address → Bytes;
  (** [Env::crypto()]. The two verifiers say whether they return; they trap otherwise. *)
  sha256 : Bytes → BytesN 32;
  secp256r1_verify : BytesN 65 → BytesN 32 → BytesN 64 → bool;
  ed25519_verify : BytesN 32 → Bytes → BytesN 64 → bool;
  (** [extend_ttl]: durability, current ledger, current [live_until], threshold and
      extension; the new [live_until], or [None] when the host refuses. *)
  ttl_extend : durability → Z → Z → Z → Z → option Z;
  (** The network's bound on the time to live of an entry. *)
  max_entry_ttl : Z;
}.

(** The ledger and the frame a contract runs in.  Fixed during one invocation. *)
Record Env `{Sdk} := mkEnv {
  ledger_sequence : Z;
  max_live_until_ledger : Z;
  min_persistent_ttl : Z;
  min_temporary_ttl : Z;
  current_contract_address : Address;
  invoked_function : string;
}.

(** What the development relies on of the SDK: payload conversion and the strkey form of an
    address are faithful (the strkey of an account or contract has 56 characters, the first
    one 'G' or 'C'), and
    [extend_ttl] never shortens a life, leaves an entry above the threshold alone, and brings
    an entry below the threshold to the requested time to live when the network's maximum
    allows it, and is then not refused; that maximum is at least thirty days. *)
Class SdkLaws `{Sdk} : Prop := {
  to_from_payload p : to_payload (from_payload p) = Some p;
  from_to_payload a p : to_payload a = Some p → from_payload p = a;
  address_to_string_inj :: Inj (=) (=) address_to_string;
  length_address_to_string a : length (address_to_string a) = 56%nat;
  address_to_string_head a :
    head (address_to_string a) = Some Init.Byte.x47 ∨
    head (address_to_string a) = Some Init.Byte.x43;
  ttl_extend_mono d seq live thr ext live' :
    ttl_extend d seq live thr ext = Some live' → live ≤ live';
  ttl_extend_above d seq live thr ext live' :
    thr < live - seq → ttl_extend d seq live thr ext = Some live' → live' = live;
  ttl_extend_below d seq live thr ext live' :
    live - seq < thr → thr ≤ ext ≤ max_entry_ttl → ttl_extend d seq live thr ext = Some live' →
    live' = seq + ext;
  ttl_extend_accepts d seq live thr ext :
    thr ≤ ext ≤ max_entry_ttl → is_Some (ttl_extend d seq live thr ext);
  max_entry_ttl_bound : 30 * 17280 ≤ max_entry_ttl;
}.

(** ** Storage *)

(** A stored value with the last ledger it is live at. *)
Record Entry (V : Type) := mkEntry { entry_value : V; live_until : Z }.
Arguments mkEntry {V} _ _.
Arguments entry_value {V} _.
Arguments live_until {V} _.

Section storage.
Context `{Sdk} `{Countable K} {V : Type}.
Implicit Types (k : K) (v : V) (m : gmap K (Entry V)) (e : Env).

(** [storage().persistent()]: an entry whose time to live has run out is archived, not
    lost; the host restores it before a transaction may read it. *)
Definition persistent_get k m : option V := entry_value <$> m !! k.

Definition persistent_set e k v m : gmap K (Entry V) :=
  match m !! k with
  | Some old => <[k := mkEntry v (live_until old)]> m
  | None => <[k := mkEntry v (ledger_sequence e + min_persistent_ttl e - 1)]> m
  end.

(** [storage().temporary()]: an expired entry is gone. *)
Definition temporary_get e k m : option V :=
  match m !! k with
  | Some old => if live_until old <? ledger_sequence e then None else Some (entry_value old)
  | None => None
  end.

Definition temporary_set e k v m : gmap K (Entry V) :=
  match temporary_get e k m, m !! k with
  | Some _, Some old => <[k := mkEntry v (live_until old)]> m
  | _, _ => <[k := mkEntry v (ledger_sequence e + min_temporary_ttl e - 1)]> m
  end.

Definition extend_ttl e (d : durability) k (threshold extend_to : Z) m :
    res (gmap K (Entry V)) :=
  match m !! k with
  | None => Err (Trap StorageError)
  | Some old =>
      match ttl_extend d (ledger_sequence e) (live_until old) threshold extend_to with
      | None => Err (Trap StorageError)
      | Some live => Ok (<[k := mkEntry (entry_value old) live]> m)
      end
  end.
End storage.

(** [storage().instance().extend_ttl]: the instance entry always exists. *)
Definition extend_instance_ttl `{Sdk} (e : Env) (threshold extend_to live : Z) : res Z :=
  match ttl_extend InstanceStorage (ledger_sequence e) live threshold extend_to with
  | None => Err (Trap StorageError)
  | Some live' => Ok live'
  end.

(** ** Lemmas on the monad *)

Lemma M_bind_Ok {S A B} (m : M S A) (k : A → M S B) s b s' :
  mbind k m s = Ok (b, s') ↔ ∃ a s1, m s = Ok (a, s1) ∧ k a s1 = Ok (b, s').
Proof.
  unfold mbind, M_bind. destruct (m s) as [[a s1]|f]; naive_solver.
Qed.

Lemma res_bind_Ok {A B} (r : res A) (k : A → res B) b :
  mbind k r = Ok b ↔ ∃ a, r = Ok a ∧ k a = Ok b.
Proof. unfold mbind, res_bind. destruct r; naive_solver. Qed.

Lemma M_ret_Ok {S A} (a : A) (s : S) b s' :
  (mret a : M S A) s = Ok (b, s') ↔ a = b ∧ s = s'.
Proof. unfold mret, M_ret. naive_solver. Qed.

Lemma lift_Ok {S A} (r : res A) (s : S) a s' :
  lift r s = Ok (a, s') ↔ r = Ok a ∧ s = s'.
Proof. unfold lift. destruct r; naive_solver. Qed.

Lemma get_state_Ok {S} (s a s' : S) : get_state s = Ok (a, s') ↔ a = s ∧ s' = s.
Proof. unfold get_state. naive_solver. Qed.

Lemma put_state_Ok {S} (s t s' : S) u : put_state t s = Ok (u, s') ↔ s' = t.
Proof. unfold put_state. destruct u. naive_solver. Qed.

Lemma modify_Ok {S} (f : S → S) s u s' : modify f s = Ok (u, s') ↔ s' = f s.
Proof. unfold modify. destruct u. naive_solver. Qed.

Lemma fail_with_Ok {S A} f (s : S) (a : A) s' : fail_with f s = Ok (a, s') ↔ False.
Proof. unfold fail_with. naive_solver. Qed.

Lemma panic_with_error_Ok {S A} err (s : S) (a : A) s' :
  panic_with_error err s = Ok (a, s') ↔ False.
Proof. apply fail_with_Ok. Qed.

Lemma assert_with_error_Ok {S} (c : bool) err (s : S) u s' :
  assert_with_error c err s = Ok (u, s') ↔ c = true ∧ s' = s.
Proof. destruct c, u; simpl; unfold mret, M_ret; naive_solver. Qed.

Lemma zoom_Ok {S T A} (get : T → S) set (m : M S A) t a t' :
  zoom get set m t = Ok (a, t') ↔ ∃ s', m (get t) = Ok (a, s') ∧ t' = set s' t.
Proof. unfold zoom. destruct (m (get t)) as [[a' s']|f]; naive_solver. Qed.

Lemma on_fst_Ok {S X A} (m : M S A) (s : S) (x : X) a s' x' :
  on_fst m (s, x) = Ok (a, (s', x')) ↔ m s = Ok (a, s') ∧ x' = x.
Proof. unfold on_fst. rewrite zoom_Ok. naive_solver. Qed.

Lemma on_snd_Ok {S X A} (m : M X A) (s : S) (x : X) a s' x' :
  on_snd m (s, x) = Ok (a, (s', x')) ↔ m x = Ok (a, x') ∧ s' = s.
Proof. unfold on_snd. rewrite zoom_Ok. naive_solver. Qed.

Lemma unwrap_Ok {A} (o : option A) a : unwrap o = Ok a ↔ o = Some a.
Proof. destruct o; simpl; naive_solver. Qed.

Lemma ok_or_Ok {A} (o : option A) err a : ok_or o err = Ok a ↔ o = Some a.
Proof. destruct o; simpl; naive_solver. Qed.

Lemma ensure_Ok c err u : ensure c err = Ok u ↔ c = true.
Proof. unfold ensure, throw. destruct c, u; naive_solver. Qed.

Lemma asserts_Ok c msg u : asserts c msg = Ok u ↔ c = true.
Proof. unfold asserts, panics. destruct c, u; naive_solver. Qed.

Lemma each_Ok {A} (l : list A) (body : A → res unit) :
  each l body = Ok tt ↔ ∀ x, x ∈ l → body x = Ok tt.
Proof.
  induction l as [|x l IH]; [set_solver|]. cbn [each]. rewrite res_bind_Ok. setoid_rewrite IH. split.
  - intros ([] & Hx & Hl) y [->|Hy]%elem_of_cons; auto.
  - intros Hall. exists tt. split; [apply Hall; by left | intros y Hy; apply Hall; by right].
Qed.

(** A loop that fails, fails in one of its steps. *)
Lemma each_Err {A} (l : list A) (body : A → res unit) f :
  each l body = Err f → ∃ x, x ∈ l ∧ body x = Err f.
Proof.
  induction l as [|x l IH]; [done|]. cbn [each]. destruct (body x) as [[]|g] eqn:E; simpl.
  - intros (y & Hy & Hf)%IH. exists y. split; [by right | done].
  - intros [= ->]. exists x. split; [by left | done].
Qed.

Lemma fold_res_Err {A B} (body : B → A → res B) (l : list A) acc f :
  fold_res body l acc = Err f → ∃ acc' x, x ∈ l ∧ body acc' x = Err f.
Proof.
  revert acc. induction l as [|x l IH]; intros acc; [done|]. cbn [fold_res].
  destruct (body acc x) as [acc'|g] eqn:E; simpl.
  - intros (acc2 & y & Hy & Hf)%IH. exists acc2, y. split; [by right | done].
  - intros [= ->]. exists acc, x. split; [by left | done].
Qed.

Lemma add_i128_Ok a b c : add_i128 a b = Ok c ↔ c = a + b ∧ in_i128 (a + b) = true.
Proof.
  unfold add_i128. rewrite <- checked_add_Some. destruct (checked_add a b); naive_solver.
Qed.

Lemma sub_i128_Ok a b c : sub_i128 a b = Ok c ↔ c = a - b ∧ in_i128 (a - b) = true.
Proof.
  unfold sub_i128. rewrite <- checked_sub_Some. destruct (checked_sub a b); naive_solver.
Qed.

(** [inv_M] takes apart every hypothesis saying that code returned. *)
Ltac inv_M_step :=
  match goal with
  | H : mbind _ _ _ = Ok (_, _) |- _ =>
      apply M_bind_Ok in H; let a := fresh "a" in let s := fresh "s" in
      let H1 := fresh "H" in destruct H as (a & s & H1 & H)
  | H : mbind _ _ = Ok _ |- _ =>
      apply res_bind_Ok in H; let a := fresh "a" in let H1 := fresh "H" in
      destruct H as (a & H1 & H)
  | H : (mret _) _ = Ok (_, _) |- _ => apply M_ret_Ok in H; destruct H
  | H : get_state _ = Ok (_, _) |- _ => apply get_state_Ok in H; destruct H
  | H : put_state _ _ = Ok (_, _) |- _ => apply put_state_Ok in H
  | H : modify _ _ = Ok (_, _) |- _ => apply modify_Ok in H
  | H : lift _ _ = Ok (_, _) |- _ => apply lift_Ok in H; destruct H
  | H : fail_with _ _ = Ok (_, _) |- _ => apply fail_with_Ok in H; destruct H
  | H : panic_with_error _ _ = Ok (_, _) |- _ => apply panic_with_error_Ok in H; destruct H
  | H : assert_with_error _ _ _ = Ok (_, _) |- _ =>
      apply assert_with_error_Ok in H; destruct H
  | H : on_fst _ (_, _) = Ok (_, (_, _)) |- _ => apply on_fst_Ok in H; destruct H
  | H : on_snd _ (_, _) = Ok (_, (_, _)) |- _ => apply on_snd_Ok in H; destruct H
  | H : unwrap _ = Ok _ |- _ => apply unwrap_Ok in H
  | H : ok_or _ _ = Ok _ |- _ => apply ok_or_Ok in H
  | H : ensure _ _ = Ok _ |- _ => apply ensure_Ok in H
  | H : add_i128 _ _ = Ok _ |- _ => apply add_i128_Ok in H; destruct H
  | H : sub_i128 _ _ = Ok _ |- _ => apply sub_i128_Ok in H; destruct H
  | H : Ok _ = Ok _ |- _ => injection H as H
  | H : Err _ = Ok _ |- _ => discriminate H
  | H : Ok _ = Err _ |- _ => discriminate H
  end.
Ltac inv_M := repeat (inv_M_step; simplify_eq).

(** Loops: an invariant of the body is an invariant of the loop. *)
Lemma fold_loop_invariant {S A B} (I : B → S → Prop) (body : B → A → M S B) l acc s acc' s' :
  (∀ b x st b' st', x ∈ l → I b st → body b x st = Ok (b', st') → I b' st') →
  I acc s → fold_loop body l acc s = Ok (acc', s') → I acc' s'.
Proof.
  revert acc s. induction l as [|x l IH]; intros acc s Hbody Hi Hrun; simpl in Hrun; inv_M.
  - done.
  - eapply IH; [|by eapply Hbody; [left| |]|done].
    intros; eapply Hbody; [by right|done..].
Qed.

Lemma for_each_invariant {S A} (I : S → Prop) (body : A → M S unit) l s u s' :
  (∀ x st v st', x ∈ l → I st → body x st = Ok (v, st') → I st') →
  I s → for_each l body s = Ok (u, s') → I s'.
Proof.
  revert s. induction l as [|x l IH]; intros s Hbody Hi Hrun; simpl in Hrun; inv_M.
  - done.
  - eapply IH; [|by eapply Hbody; [left| |]|done].
    intros; eapply Hbody; [by right|done..].
Qed.

Lemma for_each_app {S A} (body : A → M S unit) l1 l2 s :
  for_each (l1 ++ l2) body s = (for_each l1 body ;; for_each l2 body) s.
Proof.
  revert s. induction l1 as [|x l1 IH]; intros s; [done|].
  simpl. unfold mbind, M_bind in *. destruct (body x s) as [[a s1]|]; [|done]. apply IH.
Qed.

(** ** Lemmas on storage *)

Section storage_lemmas.
Context `{Sdk} `{Countable K} {V : Type}.
Implicit Types (k : K) (v : V) (m : gmap K (Entry V)) (e : Env).

(** Both ways of writing insert under the key they are given. *)
Lemma persistent_set_insert e k v m :
  ∃ l, persistent_set e k v m = <[k := mkEntry v l]> m.
Proof. unfold persistent_set. destruct (m !! k); eauto. Qed.

Lemma extend_ttl_Ok e d k thr ext m m' :
  extend_ttl e d k thr ext m = Ok m' ↔
  ∃ old live, m !! k = Some old ∧
    ttl_extend d (ledger_sequence e) (live_until old) thr ext = Some live ∧
    m' = <[k := mkEntry (entry_value old) live]> m.
Proof.
  unfold extend_ttl. destruct (m !! k) as [old|]; [|naive_solver].
  destruct (ttl_extend _ _ _ _ _) eqn:E; [|naive_solver]. split; [|naive_solver].
  intros [= <-]. eauto.
Qed.

Lemma persistent_get_set e k v m k' :
  persistent_get k' (persistent_set e k v m) =
  if decide (k = k') then Some v else persistent_get k' m.
Proof.
  destruct (persistent_set_insert e k v m) as [l ->]. unfold persistent_get.
  rewrite lookup_insert. by case_decide.
Qed.

(** Extending a life changes no value. *)
Lemma persistent_get_extend e d k thr ext m m' k' :
  extend_ttl e d k thr ext m = Ok m' → persistent_get k' m' = persistent_get k' m.
Proof.
  rewrite extend_ttl_Ok. intros (old & live & Hk & _ & ->). unfold persistent_get.
  rewrite lookup_insert. case_decide; [subst; by rewrite Hk | done].
Qed.

Lemma extend_ttl_sum (f : V → Z) e d k thr ext m m' :
  extend_ttl e d k thr ext m = Ok m' →
  map_sumZ (λ en, f (entry_value en)) m' = map_sumZ (λ en, f (entry_value en)) m.
Proof.
  rewrite extend_ttl_Ok. intros (old & live & Hk & _ & ->).
  rewrite (map_sumZ_insert_old _ _ _ _ _ Hk). simpl. lia.
Qed.

Lemma persistent_set_sum (f : V → Z) e k v m :
  map_sumZ (λ en, f (entry_value en)) (persistent_set e k v m) =
  map_sumZ (λ en, f (entry_value en)) m - from_option f 0 (persistent_get k m) + f v.
Proof.
  destruct (persistent_set_insert e k v m) as [l ->]. rewrite map_sumZ_insert.
  unfold persistent_get. by destruct (m !! k).
Qed.
End storage_lemmas.

(** Extending the life of the instance never shortens it, and leaves it above the threshold. *)
Lemma extend_instance_ttl_lives `{SdkLaws} e thr ext live live' :
  thr ≤ ext ≤ max_entry_ttl → extend_instance_ttl e thr ext live = Ok live' →
  live ≤ live' ∧ ledger_sequence e + thr ≤ live'.
Proof.
  intros Hthr. unfold extend_instance_ttl.
  destruct (ttl_extend _ _ _ _ _) as [l|] eqn:E; [|done]. intros [= <-].
  pose proof (ttl_extend_mono _ _ _ _ _ _ E). split; [done|].
  destruct (Z.lt_ge_cases (live - ledger_sequence e) thr) as [Hlt|]; [|lia].
  pose proof (ttl_extend_below _ _ _ _ _ _ Hlt Hthr E). lia.
Qed.
