(* ===== verification/Keeps.v ===== *)
(** Frame rules for code in the monad: [keeps R m] says that a run of [m] that returns relates
    the state before to the state after by [R].  For a preorder [R] it is closed under
    sequencing, loops and running inside a larger state, so that a claim about every path
    through the contract is proved by going through the code once, with the hint database
    [keeps]. *)
From S2P Require Import Prelude Errors Host.

Definition keeps {S A} (R : S → S → Prop) (m : M S A) : Prop :=
  ∀ s a s', m s = Ok (a, s') → R s s'.

(** The relation on a component of the state, and on the first of a pair. *)
Definition through {S T} (get : T → S) (R : S → S → Prop) : T → T → Prop :=
  λ t t', R (get t) (get t').

#[export] Instance through_preorder {S T} (get : T → S) (R : S → S → Prop) `{!PreOrder R} :
  PreOrder (through get R).
Proof. split; unfold through; [by intros t|]. intros t1 t2 t3 H12 H23. by etrans. Qed.

Section rules.
Context {S : Type} (R : S → S → Prop) `{!PreOrder R}.

Lemma keeps_ret {A} (a : A) : keeps R (mret a : M S A).
Proof. intros s b s' [_ <-]%M_ret_Ok. reflexivity. Qed.

Lemma keeps_bind {A B} (m : M S A) (k : A → M S B) :
  keeps R m → (∀ a, keeps R (k a)) → keeps R (m ≫= k).
Proof. intros Hm Hk s b s' (a & s1 & H1 & H2)%M_bind_Ok. etrans; [by eapply Hm | by eapply Hk]. Qed.

Lemma keeps_get_state : keeps R get_state.
Proof. intros s a s' [_ ->]%get_state_Ok. reflexivity. Qed.

Lemma keeps_lift {A} (r : res A) : keeps R (lift r).
Proof. intros s a s' [_ <-]%lift_Ok. reflexivity. Qed.

Lemma keeps_fail {A} f : keeps R (fail_with f : M S A).
Proof. by intros s a s' ?%fail_with_Ok. Qed.

Lemma keeps_panic {A} err : keeps R (panic_with_error err : M S A).
Proof. apply keeps_fail. Qed.

Lemma keeps_assert c err : keeps R (assert_with_error c err).
Proof. intros s a s' [_ ->]%assert_with_error_Ok. reflexivity. Qed.

Lemma keeps_modify (f : S → S) : (∀ s, R s (f s)) → keeps R (modify f).
Proof. intros Hf s a s' ->%modify_Ok. apply Hf. Qed.

(** A state read and then used. *)
Lemma keeps_read {A} (k : S → M S A) :
  (∀ s a s', k s s = Ok (a, s') → R s s') → keeps R (s ← get_state; k s).
Proof. intros Hk s b s' (a & s1 & [-> ->]%get_state_Ok & H2)%M_bind_Ok. by eapply Hk. Qed.

Lemma keeps_for_each {A} (l : list A) (body : A → M S unit) :
  (∀ x, keeps R (body x)) → keeps R (for_each l body).
Proof. intros Hb. induction l as [|x l IH]; simpl; [apply keeps_ret | by apply keeps_bind]. Qed.

Lemma keeps_fold_loop {A B} (body : B → A → M S B) (l : list A) (acc : B) :
  (∀ b x, keeps R (body b x)) → keeps R (fold_loop body l acc).
Proof.
  intros Hb. revert acc.
  induction l as [|x l IH]; intros acc; simpl; [apply keeps_ret | by apply keeps_bind].
Qed.

(** What each pass of a loop establishes for its element, and [R] preserves, holds for every
    element when the loop is over. *)
Lemma fold_loop_establishes {A B} (P : A → S → Prop) (body : B → A → M S B)
    (l : list A) (acc acc' : B) (s s' : S) :
  (∀ b x, keeps R (body b x)) →
  (∀ b x st b' st', R s st → body b x st = Ok (b', st') → P x st') →
  (∀ x st st', R st st' → P x st → P x st') →
  fold_loop body l acc s = Ok (acc', s') → ∀ x, x ∈ l → P x s'.
Proof.
  intros Hk Hp Hmono. revert acc s Hp.
  induction l as [|x l IH]; intros acc s Hp Hrun y Hy; [by apply not_elem_of_nil in Hy|].
  simpl in Hrun. apply M_bind_Ok in Hrun as (acc1 & s1 & Hx & Hl). pose proof (Hk _ _ _ _ _ Hx).
  apply elem_of_cons in Hy as [->|Hy].
  - eapply Hmono; [by eapply (keeps_fold_loop body l acc1 Hk) | eapply (Hp _ _ s); [done|exact Hx]].
  - eapply IH; [|exact Hl|exact Hy]. intros b z st b' st' Hst. apply Hp. by transitivity s1.
Qed.
End rules.

(** Code of a component, inside the larger state. *)
Lemma keeps_zoom {S T A} (R : S → S → Prop) (R' : T → T → Prop) get set (m : M S A) :
  (∀ t s, R (get t) s → R' t (set s t)) → keeps R m → keeps R' (zoom get set m).
Proof. intros Hset Hm t a t' (s & Hr & ->)%zoom_Ok. by eapply Hset, Hm. Qed.

Lemma keeps_on_fst {S X A} (R : S → S → Prop) (m : M S A) :
  keeps R m → keeps (through (fst : S * X → S) R) (on_fst m).
Proof. by apply keeps_zoom. Qed.

Lemma keeps_on_snd {S X A} (R : S → S → Prop) `{!Reflexive R} (m : M X A) :
  keeps (through (fst : S * X → S) R) (on_snd m).
Proof. intros [s x] a [s' x'] [_ ->]%on_snd_Ok. unfold through. simpl. reflexivity. Qed.

Create HintDb keeps discriminated.
#[export] Hint Resolve keeps_ret keeps_bind keeps_get_state keeps_lift keeps_fail keeps_panic
  keeps_assert keeps_for_each keeps_fold_loop keeps_on_fst keeps_on_snd : keeps.
#[export] Hint Extern 1 (PreOrder _) => apply _ : keeps.
#[export] Hint Extern 1 (Reflexive _) => apply _ : keeps.

(** Go through the code: take apart its branches, apply the rules. *)
Ltac keeps :=
  repeat first
    [ progress intros
    | progress cbv beta
    | solve [auto with nocore keeps]
    | match goal with
      | |- keeps _ (match ?b with _ => _ end) => destruct b
      | |- keeps _ (let '_ := ?p in _) => destruct p
      | |- keeps _ (mbind _ _) => apply keeps_bind; [apply _ | |]
      | |- keeps _ (for_each _ _) => apply keeps_for_each; [apply _ |]
      | |- keeps _ (fold_loop _ _ _) => apply keeps_fold_loop; [apply _ |]
      | |- keeps _ (on_fst _) => apply keeps_on_fst
      end ].
