(* ===== verification/Primitives.v ===== *)
(** The shared types and checks: modules/primitives/src/lib.rs.

    [Condition] with its conflict relation, the authorization types, the payload a UTXO owner
    signs ([hash_payload]), the duplicate checks and the comparison of condition sequences. *)
From S2P Require Import Prelude Errors Host.

Section types.
Context `{Sdk}.

Inductive Condition :=
  | Create (utxo : BytesN 65) (amount : Z)
  | ExtDeposit (addr : Address) (amount : Z)
  | ExtWithdraw (addr : Address) (amount : Z)
  | ExtIntegration (adapter : Address) (utxos : list (BytesN 65)) (amount : Z).

#[export] Instance Condition_eq_dec : EqDecision Condition.
Proof. solve_decision. Defined.
End types.

Inductive SignerKey :=
  | SKP256 (pk : BytesN 65)
  | SKEd25519 (pk : BytesN 32)
  | SKProvider (pk : BytesN 32).

Inductive Signature :=
  | SigP256 (sig : BytesN 64)
  | SigEd25519 (sig : BytesN 64)
  | SigSecp256k1 (sig : BytesN 65)
  | SigBLS12_381 (sig : BytesN 96).

#[export] Instance SignerKey_eq_dec : EqDecision SignerKey.
Proof. solve_decision. Defined.

#[export] Instance SignerKey_countable : Countable SignerKey.
Proof.
  refine (inj_countable'
    (λ k, match k with SKP256 p => inl p | SKEd25519 p => inr (inl p)
                     | SKProvider p => inr (inr p) end)
    (λ s, match s with inl p => SKP256 p | inr (inl p) => SKEd25519 p
                     | inr (inr p) => SKProvider p end) _).
  by intros [].
Defined.

#[export] Instance Signature_eq_dec : EqDecision Signature.
Proof. solve_decision. Defined.

(** [AuthRequirements(Map<SignerKey, Vec<Condition>>)] and
    [Signatures(Map<SignerKey, (Signature, u32)>)]. *)
Abbreviation AuthRequirements := (gmap SignerKey (list Condition)).
Abbreviation Signatures := (gmap SignerKey (Signature * Z)).

Record AuthPayload `{Sdk} := mkAuthPayload {
  conditions : list Condition;
  live_until_ledger : Z;
}.

(** The SDK's [Map] iterates over its keys in increasing order; an enum value is ordered by the
    name of its variant and then by its fields. *)
Definition signer_key_rank (k : SignerKey) : Z :=
  match k with SKEd25519 _ => 0 | SKP256 _ => 1 | SKProvider _ => 2 end.
Definition signer_key_bytes (k : SignerKey) : Bytes :=
  match k with SKEd25519 p => to_array p | SKP256 p => to_array p | SKProvider p => to_array p end.
Definition signer_key_le (a b : SignerKey) : Prop :=
  (signer_key_rank a <? signer_key_rank b)
  || ((signer_key_rank a =? signer_key_rank b)
      && bytes_leb (signer_key_bytes a) (signer_key_bytes b)) = true.
#[export] Instance signer_key_le_dec : RelDecision signer_key_le.
Proof. intros a b. unfold signer_key_le. apply _. Defined.

Definition map_keys {V} (m : gmap SignerKey V) : list SignerKey :=
  merge_sort signer_key_le (map_to_list m).*1.

Section primitives.
Context `{Sdk}.
Implicit Types (c : Condition) (cs : list Condition).

Fixpoint contains_utxo (l : list (BytesN 65)) (u : BytesN 65) : bool :=
  match l with
  | [] => false
  | v :: l => bool_decide (v = u) || contains_utxo l u
  end.

(** The two loops of the integration case: does a utxo of [l] lie in [r], or outside it. *)
Fixpoint any_contained (l r : list (BytesN 65)) : bool :=
  match l with
  | [] => false
  | u :: l => if contains_utxo r u then true else any_contained l r
  end.

Fixpoint any_missing (l r : list (BytesN 65)) : bool :=
  match l with
  | [] => false
  | u :: l => if negb (contains_utxo r u) then true else any_missing l r
  end.

Definition conflicts_with c (other : Condition) : bool :=
  match c, other with
  | Create utxo1 amount1, Create utxo2 amount2 =>
      bool_decide (utxo1 = utxo2) && negb (amount1 =? amount2)
  | ExtDeposit addr1 amount1, ExtDeposit addr2 amount2 =>
      bool_decide (addr1 = addr2) && negb (amount1 =? amount2)
  | ExtWithdraw addr1 amount1, ExtWithdraw addr2 amount2 =>
      bool_decide (addr1 = addr2) && negb (amount1 =? amount2)
  | ExtIntegration adapter1 utxos1 amount1, ExtIntegration adapter2 utxos2 amount2 =>
      if negb (bool_decide (adapter1 = adapter2)) then any_contained utxos1 utxos2
      else if negb (amount1 =? amount2) then true
      else if negb (Nat.eqb (length utxos1) (length utxos2)) then true
      else if any_missing utxos1 utxos2 then true
      else any_missing utxos2 utxos1
  | _, _ => false
  end.

(** The part of [hash_payload]'s loop that appends one condition to the buffer of its kind:
    create, deposit, withdraw, integrate. *)
Definition append_condition (bufs : Bytes * Bytes * Bytes * Bytes) c :
    Bytes * Bytes * Bytes * Bytes :=
  let '(b_create, b_deposit, b_withdraw, b_integrate) := bufs in
  match c with
  | Create utxo amount =>
      (b_create ++ to_array utxo ++ i128_to_le_bytes amount,
       b_deposit, b_withdraw, b_integrate)
  | ExtDeposit addr amount =>
      (b_create, b_deposit ++ address_to_string addr ++ i128_to_le_bytes amount,
       b_withdraw, b_integrate)
  | ExtWithdraw addr amount =>
      (b_create, b_deposit,
       b_withdraw ++ address_to_string addr ++ i128_to_le_bytes amount, b_integrate)
  | ExtIntegration adapter utxos amount =>
      (b_create, b_deposit, b_withdraw,
       b_integrate ++ address_to_string adapter
         ++ mjoin (to_array <$> utxos) ++ i128_to_le_bytes amount)
  end.

(** The bytes [hash_payload] hashes. *)
Definition payload_bytes (auth_payload : AuthPayload) (contract : Bytes) : Bytes :=
  let '(b_create, b_deposit, b_withdraw, b_integrate) :=
    foldl append_condition ([], [], [], []) (conditions auth_payload) in
  contract ++ b_create ++ b_deposit ++ b_withdraw ++ b_integrate
    ++ u32_to_le_bytes (live_until_ledger auth_payload).

Definition hash_payload (auth_payload : AuthPayload) (contract : Bytes) : BytesN 32 :=
  sha256 (payload_bytes auth_payload contract).

(** [no_duplicate_keys] and [no_duplicate_addresses]: the same loop over two key types. *)
Fixpoint no_duplicates_loop {A} `{Countable K} (key_fn : A → K) (iter : list A)
    (seen : gmap K bool) : bool :=
  match iter with
  | [] => true
  | item :: iter =>
      let k := key_fn item in
      match seen !! k with
      | Some _ => false
      | None => no_duplicates_loop key_fn iter (<[k := true]> seen)
      end
  end.

Definition no_duplicate_keys {A} (iter : list A) (key_fn : A → BytesN 65) : bool :=
  no_duplicates_loop key_fn iter ∅.

Definition no_duplicate_addresses {A} (iter : list A) (key_fn : A → Address) : bool :=
  no_duplicates_loop key_fn iter ∅.

Fixpoint condition_does_not_conflict_with_set c (condition_set : list Condition) : bool :=
  match condition_set with
  | [] => true
  | cond :: rest =>
      if conflicts_with cond c then false else condition_does_not_conflict_with_set c rest
  end.

Fixpoint has_no_conflicting_conditions_in_sets (conditions_a conditions_b : list Condition)
    : bool :=
  match conditions_a with
  | [] => true
  | cond :: rest =>
      if negb (condition_does_not_conflict_with_set cond conditions_b) then false
      else has_no_conflicting_conditions_in_sets rest conditions_b
  end.
End primitives.

(** The canonical XDR form of a condition, which the SDK computes: equal bytes mean equal
    conditions. *)
Class ConditionXdr `{Sdk} := to_xdr : Condition → Bytes.
Class ConditionXdrLaws `{ConditionXdr} : Prop := to_xdr_inj :: Inj (=) (=) to_xdr.

Section xdr.
Context `{ConditionXdr}.

Fixpoint condition_sequence_loop (a b : list Condition) : bool :=
  match a with
  | [] => true
  | ca :: a =>
      match b with
      | cb :: b =>
          if negb (bool_decide (to_xdr ca = to_xdr cb)) then false
          else condition_sequence_loop a b
      | [] => false
      end
  end.

Definition equal_condition_sequence (a b : list Condition) : bool :=
  if negb (Nat.eqb (length a) (length b)) then false else condition_sequence_loop a b.
End xdr.

(** ** What the definitions mean *)

(** When two conditions conflict, in words: the same target with another amount; two
    integrations that share a utxo across adapters, or disagree within one adapter. *)
Definition conflict `{Sdk} (c d : Condition) : Prop :=
  match c, d with
  | Create u a, Create v b => u = v ∧ a ≠ b
  | ExtDeposit u a, ExtDeposit v b => u = v ∧ a ≠ b
  | ExtWithdraw u a, ExtWithdraw v b => u = v ∧ a ≠ b
  | ExtIntegration p us a, ExtIntegration q vs b =>
      (p ≠ q ∧ ∃ u, u ∈ us ∧ u ∈ vs) ∨
      (p = q ∧ (a ≠ b ∨ length us ≠ length vs ∨ ¬ (∀ u, u ∈ us ↔ u ∈ vs)))
  | _, _ => False
  end.

(** The encodings of the four kinds, and the conditions of each kind in a list. *)
Section encoding.
Context `{Sdk}.
Implicit Types cs : list Condition.

Definition enc_create (p : BytesN 65 * Z) : Bytes :=
  to_array p.1 ++ i128_to_le_bytes p.2.
Definition enc_external (p : Address * Z) : Bytes :=
  address_to_string p.1 ++ i128_to_le_bytes p.2.
Definition enc_integration (p : Address * list (BytesN 65) * Z) : Bytes :=
  address_to_string p.1.1 ++ mjoin (to_array <$> p.1.2) ++ i128_to_le_bytes p.2.

Definition creates cs : list (BytesN 65 * Z) :=
  omap (λ c, match c with Create u a => Some (u, a) | _ => None end) cs.
Definition deposits cs : list (Address * Z) :=
  omap (λ c, match c with ExtDeposit u a => Some (u, a) | _ => None end) cs.
Definition withdraws cs : list (Address * Z) :=
  omap (λ c, match c with ExtWithdraw u a => Some (u, a) | _ => None end) cs.
Definition integrations cs : list (Address * list (BytesN 65) * Z) :=
  omap (λ c, match c with ExtIntegration p us a => Some (p, us, a) | _ => None end) cs.

(** A create whose key is a SEC1 uncompressed point (first byte 4), amounts in [i128]. *)
Definition wf_create (p : BytesN 65 * Z) : Prop :=
  head (to_array p.1) = Some Init.Byte.x04 ∧ in_i128 p.2 = true.
Definition wf_external (p : Address * Z) : Prop := in_i128 p.2 = true.

(** The same condition with its withdrawal read as a deposit. *)
Definition withdraw_to_deposit (c : Condition) : Condition :=
  match c with ExtWithdraw a x => ExtDeposit a x | _ => c end.
End encoding.

(** ** Lemmas *)

Section conflicts.
Context `{Sdk}.
Implicit Types (us vs : list (BytesN 65)) (c d : Condition).

Lemma contains_utxo_true us u : contains_utxo us u = true ↔ u ∈ us.
Proof.
  induction us as [|v us IH]; simpl; [set_solver|].
  rewrite orb_true_iff, bool_decide_eq_true, IH, elem_of_cons. naive_solver.
Qed.

Lemma any_contained_true us vs : any_contained us vs = true ↔ ∃ u, u ∈ us ∧ u ∈ vs.
Proof.
  induction us as [|v us IH]; simpl; [set_solver|].
  destruct (contains_utxo vs v) eqn:E.
  - apply contains_utxo_true in E. set_solver.
  - assert (v ∉ vs) by (rewrite <- contains_utxo_true; congruence). set_solver.
Qed.

Lemma any_missing_true us vs : any_missing us vs = true ↔ ∃ u, u ∈ us ∧ u ∉ vs.
Proof.
  induction us as [|v us IH]; simpl; [set_solver|].
  destruct (contains_utxo vs v) eqn:E; simpl.
  - apply contains_utxo_true in E. set_solver.
  - assert (v ∉ vs) by (rewrite <- contains_utxo_true; congruence). set_solver.
Qed.

Lemma any_missing_false us vs : any_missing us vs = false ↔ us ⊆ vs.
Proof.
  rewrite <- not_true_iff_false, any_missing_true. split.
  - intros Hn u Hu. destruct (decide (u ∈ vs)); [done|]. destruct Hn; eauto.
  - set_solver.
Qed.

Lemma conflicts_with_conflict c d : conflicts_with c d = true ↔ conflict c d.
Proof.
  destruct c, d; simpl; try (split; done);
    try (rewrite andb_true_iff, negb_true_iff, Z.eqb_neq, bool_decide_eq_true; done).
  case_bool_decide as Ha; simpl.
  - destruct (Z.eqb_spec amount amount0) as [|Hn]; simpl; [|naive_solver].
    destruct (Nat.eqb_spec (length utxos) (length utxos0)); simpl; [|naive_solver].
    assert (¬ (∀ u, u ∈ utxos ↔ u ∈ utxos0) ↔
            (if any_missing utxos utxos0 then true else any_missing utxos0 utxos) = true);
      [|naive_solver].
    destruct (any_missing utxos utxos0) eqn:E1.
    { apply any_missing_true in E1. naive_solver. }
    apply any_missing_false in E1. destruct (any_missing utxos0 utxos) eqn:E2.
    { apply any_missing_true in E2. naive_solver. }
    apply any_missing_false in E2. split; [|done]. intros []. set_solver.
  - rewrite any_contained_true. naive_solver.
Qed.

Lemma conflict_sym c d : conflict c d → conflict d c.
Proof. destruct c, d; simpl; naive_solver. Qed.

Lemma conflict_irrefl c : ¬ conflict c c.
Proof. destruct c; simpl; naive_solver. Qed.

Lemma does_not_conflict_true c cs :
  condition_does_not_conflict_with_set c cs = true ↔ Forall (λ d, ¬ conflict d c) cs.
Proof.
  induction cs as [|d cs IH]; simpl; [by split|].
  rewrite Forall_cons, <- IH, <- conflicts_with_conflict.
  destruct (conflicts_with d c); naive_solver.
Qed.

Lemma no_conflicting_sets_true cs ds :
  has_no_conflicting_conditions_in_sets cs ds = true ↔
  ∀ c d, c ∈ cs → d ∈ ds → ¬ conflict c d.
Proof.
  induction cs as [|c cs IH]; simpl; [set_solver|].
  destruct (condition_does_not_conflict_with_set c ds) eqn:E; simpl.
  - apply does_not_conflict_true in E. rewrite Forall_forall in E. rewrite IH.
    split; [|set_solver]. intros Hr c' d Hc Hd.
    apply elem_of_cons in Hc as [->|Hc]; [|by apply Hr].
    intros Hx%conflict_sym. by eapply E.
  - split; [done|]. intros Hall. rewrite <- E. apply does_not_conflict_true, Forall_forall.
    intros d Hd Hx%conflict_sym. eapply Hall; [by left|done..].
Qed.
End conflicts.

Section duplicates.
Context {A : Type} `{Countable K} (key_fn : A → K).

Lemma no_duplicates_loop_true l (seen : gmap K bool) :
  no_duplicates_loop key_fn l seen = true ↔
  NoDup (key_fn <$> l) ∧ ∀ x, x ∈ l → seen !! key_fn x = None.
Proof.
  revert seen. induction l as [|x l IH]; intros seen; simpl.
  { split; [|done]. intros _. split; [constructor | set_solver]. }
  rewrite NoDup_cons. destruct (seen !! key_fn x) eqn:E.
  { split; [done|]. intros [_ Hs]. specialize (Hs x). rewrite Hs in E; [done | by left]. }
  rewrite IH. split.
  - intros [Hnd Hs]. split; [split; [|done]|].
    + intros (y & Hy & Hin)%list_elem_of_fmap. specialize (Hs y Hin).
      rewrite <- Hy, lookup_insert_eq in Hs. done.
    + intros y [->|Hin]%elem_of_cons; [done|]. specialize (Hs y Hin).
      by apply lookup_insert_None in Hs as [? _].
  - intros [[Hx Hnd] Hs]. split; [done|]. intros y Hin.
    rewrite lookup_insert_ne; [apply Hs; by right|]. intros E'. apply Hx.
    rewrite E'. apply list_elem_of_fmap. eauto.
Qed.

Lemma no_duplicates_true l :
  no_duplicates_loop key_fn l ∅ = true ↔ NoDup (key_fn <$> l).
Proof. rewrite no_duplicates_loop_true. naive_solver. Qed.
End duplicates.

Section map_keys.
Context {V : Type}.
Implicit Types m : gmap SignerKey V.

Lemma elem_of_map_keys m k : k ∈ map_keys m ↔ is_Some (m !! k).
Proof.
  unfold map_keys. rewrite merge_sort_Permutation, list_elem_of_fmap. split.
  - intros ([k' v] & -> & Hin%elem_of_map_to_list). eauto.
  - intros [v Hv]. exists (k, v). by rewrite elem_of_map_to_list.
Qed.
End map_keys.

Section xdr_lemmas.
Context `{ConditionXdrLaws}.

Lemma condition_sequence_loop_true a b :
  length a = length b → condition_sequence_loop a b = true ↔ a = b.
Proof.
  revert b. induction a as [|c a IH]; intros [|d b]; simpl; try done.
  intros [= Hl]. case_bool_decide as Hx; simpl.
  - apply to_xdr_inj in Hx as ->. rewrite IH by done. naive_solver.
  - naive_solver.
Qed.

Lemma equal_condition_sequence_true a b : equal_condition_sequence a b = true ↔ a = b.
Proof.
  unfold equal_condition_sequence. destruct (Nat.eqb_spec (length a) (length b)) as [E|E];
    simpl; [by apply condition_sequence_loop_true | naive_solver].
Qed.
End xdr_lemmas.

Section payload_lemmas.
Context `{Sdk}.
Implicit Types cs : list Condition.

Lemma append_condition_app cs bc bd bw bi :
  foldl append_condition (bc, bd, bw, bi) cs =
  (bc ++ mjoin (enc_create <$> creates cs), bd ++ mjoin (enc_external <$> deposits cs),
   bw ++ mjoin (enc_external <$> withdraws cs),
   bi ++ mjoin (enc_integration <$> integrations cs)).
Proof.
  revert bc bd bw bi. induction cs as [|c cs IH]; intros bc bd bw bi.
  - cbn. by rewrite !app_nil_r.
  - destruct c; cbn [foldl append_condition]; rewrite IH; cbn;
      unfold enc_create, enc_external, enc_integration; simpl; by rewrite <- !app_assoc.
Qed.

(** The payload is the contract, the four groups in order of kind, and the expiry. *)
Lemma payload_bytes_groups (p : AuthPayload) contract :
  payload_bytes p contract =
  contract ++ mjoin (enc_create <$> creates (conditions p))
    ++ mjoin (enc_external <$> deposits (conditions p))
    ++ mjoin (enc_external <$> withdraws (conditions p))
    ++ mjoin (enc_integration <$> integrations (conditions p))
    ++ u32_to_le_bytes (live_until_ledger p).
Proof. unfold payload_bytes. by rewrite append_condition_app. Qed.

Lemma withdraw_to_deposit_groups cs :
  let cs' := withdraw_to_deposit <$> cs in
  deposits cs = [] →
  creates cs' = creates cs ∧ deposits cs' = withdraws cs ∧
  withdraws cs' = [] ∧ integrations cs' = integrations cs.
Proof.
  induction cs as [|[] cs IH]; simpl; intros Hd; [done|..]; try discriminate Hd;
    destruct (IH Hd) as (E1 & E2 & E3 & E4);
    split_and!; first [eassumption | cbn; f_equal; assumption].
Qed.
End payload_lemmas.

Section payload_injective.
Context `{SdkLaws}.

Lemma length_enc_create p : length (enc_create p) = 81%nat.
Proof.
  unfold enc_create, i128_to_le_bytes. by rewrite length_app, length_to_array, length_le_bytes.
Qed.

Lemma length_enc_external p : length (enc_external p) = 72%nat.
Proof.
  unfold enc_external, i128_to_le_bytes.
  by rewrite length_app, length_address_to_string, length_le_bytes.
Qed.

Lemma enc_create_inj p q :
  wf_create p → wf_create q → enc_create p = enc_create q → p = q.
Proof.
  intros [_ Hp] [_ Hq] E. destruct p as [u a], q as [v b]. simpl in *.
  apply app_inj_1 in E as [E1 E2]; [|by rewrite !length_to_array].
  apply BytesN_eq in E1. apply i128_to_le_bytes_inj in E2; simpl in *; congruence.
Qed.

Lemma enc_external_inj p q :
  wf_external p → wf_external q → enc_external p = enc_external q → p = q.
Proof.
  intros Hp Hq E. destruct p as [u a], q as [v b]. simpl in *.
  apply app_inj_1 in E as [E1 E2]; [|by rewrite !length_address_to_string].
  apply (inj address_to_string) in E1. unfold wf_external in *. apply i128_to_le_bytes_inj in E2; simpl in *; congruence.
Qed.

(** A create block cannot be read as the start of a withdrawal block. *)
Lemma create_block_not_external p q l l' :
  wf_create p → enc_create p ++ l = enc_external q ++ l' → False.
Proof.
  intros [Hp _] E. apply (f_equal head) in E. unfold enc_create, enc_external in E.
  destruct (to_array p.1) as [|x xs]; [done|]. injection Hp as ->.
  destruct (address_to_string_head q.1) as [Hq|Hq];
    destruct (address_to_string q.1); by simplify_eq/=.
Qed.

Lemma external_blocks_inj ws ws' t t' :
  Forall wf_external ws → Forall wf_external ws' → length t = 4%nat → length t' = 4%nat →
  mjoin (enc_external <$> ws) ++ t = mjoin (enc_external <$> ws') ++ t' →
  ws = ws' ∧ t = t'.
Proof.
  intros Hws Hws' Ht Ht'. revert ws' Hws'.
  induction Hws as [|w ws Hw _ IH]; intros ws' [|w' ws'' Hw' Hws'']; simpl; [done|..];
    rewrite <- ?app_assoc; intros E.
  - apply (f_equal length) in E. rewrite length_app, length_enc_external in E. lia.
  - apply (f_equal length) in E. rewrite length_app, length_enc_external in E. lia.
  - apply app_inj_1 in E as [E1 E2]; [|by rewrite !length_enc_external].
    apply enc_external_inj in E1 as ->; [|done..].
    by destruct (IH _ Hws'' E2) as [-> ->].
Qed.

Lemma create_blocks_inj us us' ws ws' t t' :
  Forall wf_create us → Forall wf_create us' →
  Forall wf_external ws → Forall wf_external ws' → length t = 4%nat → length t' = 4%nat →
  mjoin (enc_create <$> us) ++ mjoin (enc_external <$> ws) ++ t =
  mjoin (enc_create <$> us') ++ mjoin (enc_external <$> ws') ++ t' →
  us = us' ∧ ws = ws' ∧ t = t'.
Proof.
  intros Hus Hus' Hws Hws' Ht Ht'.
  assert (Hno : ∀ u l vs t, wf_create u → length t = 4%nat →
    enc_create u ++ l = mjoin (enc_external <$> vs) ++ t → False).
  { intros u l [|v vs] t0 Hu Hl E; simpl in E.
    - apply (f_equal length) in E. rewrite length_app, length_enc_create in E. lia.
    - rewrite <- app_assoc in E. by eapply create_block_not_external. }
  revert us' Hus'. induction Hus as [|u us Hu _ IH]; intros us' [|u' us'' Hu' Hus''];
    simpl; rewrite <- ?app_assoc; intros E.
  - by destruct (external_blocks_inj ws ws' t t') as [-> ->].
  - symmetry in E. by destruct (Hno _ _ _ _ Hu' Ht E).
  - by destruct (Hno _ _ _ _ Hu Ht' E).
  - apply app_inj_1 in E as [E1 E2]; [|by rewrite !length_enc_create].
    apply enc_create_inj in E1 as ->; [|done..].
    by destruct (IH _ Hus'' E2) as (-> & -> & ->).
Qed.
End payload_injective.

(** ** Properties *)

(** [conflicts_with] holds exactly in the documented cases (same target and another
    amount; integrations sharing a key across adapters, or differing within one adapter); it
    is symmetric and no condition conflicts with itself, so the order in which a bundle lists
    its conditions cannot change the verdict. *)
Theorem conflicts_with_correct `{Sdk} (c d : Condition) :
  (conflicts_with c d = true ↔ conflict c d) ∧
  conflicts_with c d = conflicts_with d c ∧ conflicts_with c c = false.
Proof.
  split_and!.
  - apply conflicts_with_conflict.
  - apply eq_true_iff_eq. rewrite !conflicts_with_conflict. split; apply conflict_sym.
  - apply not_true_iff_false. rewrite conflicts_with_conflict. apply conflict_irrefl.
Qed.

(** The duplicate scans, which remember the keys seen in a map, accept a sequence exactly
    when its keys are pairwise distinct, for utxo keys and for addresses. *)
Theorem duplicate_scans_correct `{Sdk} {A : Type} (iter : list A)
    (key_fn : A → BytesN 65) (addr_fn : A → Address) :
  (no_duplicate_keys iter key_fn = true ↔ NoDup (key_fn <$> iter)) ∧
  (no_duplicate_addresses iter addr_fn = true ↔ NoDup (addr_fn <$> iter)).
Proof. split; apply no_duplicates_true. Qed.

(** Comparing two condition sequences by their canonical bytes decides their equality,
    order and content included. *)
Theorem equal_condition_sequence_decides `{ConditionXdrLaws} (a b : list Condition) :
  equal_condition_sequence a b = true ↔ a = b.
Proof. apply equal_condition_sequence_true. Qed.

(** What the signed payload does bind: among condition lists made of creates (on SEC1
    keys) and withdrawals only, with amounts in [i128] and an expiry in [u32], two lists with
    the same payload bytes have the same creates in the same order, the same withdrawals in
    the same order and the same expiry. *)
Theorem payload_binds_creates_and_withdraws `{SdkLaws} (p q : AuthPayload) (contract : Bytes)
    (Hp : deposits (conditions p) = [] ∧ integrations (conditions p) = [])
    (Hq : deposits (conditions q) = [] ∧ integrations (conditions q) = [])
    (Hpc : Forall wf_create (creates (conditions p)))
    (Hqc : Forall wf_create (creates (conditions q)))
    (Hpw : Forall wf_external (withdraws (conditions p)))
    (Hqw : Forall wf_external (withdraws (conditions q)))
    (Hl : in_u32 (live_until_ledger p) = true ∧ in_u32 (live_until_ledger q) = true)
    (E : payload_bytes p contract = payload_bytes q contract) :
  creates (conditions p) = creates (conditions q) ∧
  withdraws (conditions p) = withdraws (conditions q) ∧
  live_until_ledger p = live_until_ledger q.
Proof.
  destruct Hp as [Hp1 Hp2], Hq as [Hq1 Hq2], Hl as [Hl1 Hl2].
  rewrite !payload_bytes_groups, Hp1, Hp2, Hq1, Hq2 in E. simpl in E.
  apply app_inv_head in E. apply create_blocks_inj in E as (-> & -> & E);
    [| done.. | apply length_le_bytes | apply length_le_bytes].
  by apply u32_to_le_bytes_inj in E.
Qed.

(** What it does not bind: deposits and withdrawals are encoded alike and nothing marks
    the kind of a group, so a list without deposits and the same list with every withdrawal
    turned into a deposit of the same address and amount have the same payload. *)
Theorem payload_confuses_withdraw_with_deposit `{Sdk} (cs : list Condition) (live : Z)
    (contract : Bytes) (Hcs : deposits cs = []) :
  hash_payload (mkAuthPayload _ (withdraw_to_deposit <$> cs) live) contract =
  hash_payload (mkAuthPayload _ cs live) contract.
Proof.
  unfold hash_payload. f_equal. rewrite !payload_bytes_groups. simpl.
  destruct (withdraw_to_deposit_groups cs Hcs) as (-> & -> & -> & ->).
  by rewrite Hcs.
Qed.
