(* ===== verification/SampleSdk.v ===== *)
(** A concrete SDK, used by the witnesses and by the executable scenarios only.

    It satisfies [SdkLaws], so the laws are consistent.  Nothing here is meant to be the real
    cryptography: the digest is a polynomial hash, a signature is the key and the digest. *)
From S2P Require Import Prelude Errors Host Primitives.

Inductive SampleAddress :=
  | SamplePayload (p : AddressPayload)
  | SampleOther (id : BytesN 32).

#[export] Instance AddressPayload_eq_dec : EqDecision AddressPayload.
Proof. solve_decision. Defined.
#[export] Instance SampleAddress_eq_dec : EqDecision SampleAddress.
Proof. solve_decision. Defined.

Definition sample_encode (a : SampleAddress) : BytesN 32 + BytesN 32 + BytesN 32 :=
  match a with
  | SamplePayload (AccountIdPublicKeyEd25519 k) => inl (inl k)
  | SamplePayload (ContractIdHash h) => inl (inr h)
  | SampleOther i => inr i
  end.
Definition sample_decode (s : BytesN 32 + BytesN 32 + BytesN 32) : SampleAddress :=
  match s with
  | inl (inl k) => SamplePayload (AccountIdPublicKeyEd25519 k)
  | inl (inr h) => SamplePayload (ContractIdHash h)
  | inr i => SampleOther i
  end.
Lemma sample_decode_encode a : sample_decode (sample_encode a) = a.
Proof. by destruct a as [[]|]. Qed.

#[export] Instance SampleAddress_countable : Countable SampleAddress :=
  inj_countable' sample_encode sample_decode sample_decode_encode.

(** 56 bytes: the letter of the kind, the 32 bytes, a marker, zeros. *)
Definition sample_string (a : SampleAddress) : Bytes :=
  match a with
  | SamplePayload (AccountIdPublicKeyEd25519 k) =>
      Init.Byte.x47 :: to_array k ++ replicate 23 Init.Byte.x00
  | SamplePayload (ContractIdHash h) =>
      Init.Byte.x43 :: to_array h ++ replicate 23 Init.Byte.x00
  | SampleOther i =>
      Init.Byte.x43 :: to_array i ++ Init.Byte.x01 :: replicate 22 Init.Byte.x00
  end.

(** A digest of 32 bytes: the bytes read as digits of a polynomial modulo [2 ^ 256]. *)
Definition sample_digest (b : Bytes) : BytesN 32 :=
  from_array 32 (le_bytes 32 (foldl (λ acc x, (acc * 65599 + byte_to_Z x + 1) mod 2 ^ 256) 7 b)).

Definition sample_p256_sig (pk : BytesN 65) (h : BytesN 32) : BytesN 64 :=
  from_array 64 (take 32 (drop 1 (to_array pk)) ++ to_array h).
Definition sample_ed25519_sig (pk : BytesN 32) (msg : Bytes) : BytesN 64 :=
  from_array 64 (to_array pk ++ msg).

Definition sample_ttl (_ : durability) (seq live thr ext : Z) : option Z :=
  if live - seq <? thr then Some (Z.max live (seq + Z.min ext 3110400)) else Some live.

#[export] Instance sample_sdk : Sdk := {|
  Address := SampleAddress;
  from_payload := SamplePayload;
  to_payload a := match a with SamplePayload p => Some p | SampleOther _ => None end;
  address_to_string := sample_string;
  sha256 := sample_digest;
  secp256r1_verify pk h sig := bool_decide (sig = sample_p256_sig pk h);
  ed25519_verify pk msg sig := bool_decide (sig = sample_ed25519_sig pk msg);
  ttl_extend := sample_ttl;
  max_entry_ttl := 3110400;
|}.

Lemma sample_string_inj : Inj (=) (=) sample_string.
Proof.
  assert (Hl : ∀ a b : BytesN 32, length (to_array a) = length (to_array b))
    by (intros; by rewrite !length_to_array).
  intros [[k|h]|i] [[k'|h']|i'] E; injection E as E; try discriminate;
    apply app_inj_1 in E as [E1 E2]; auto; try discriminate E2;
    apply BytesN_eq in E1; by subst.
Qed.

#[export] Instance sample_sdk_laws : SdkLaws.
Proof.
  split; simpl.
  - done.
  - intros [q|i] p; naive_solver.
  - apply sample_string_inj.
  - intros [[k|h]|i]; simpl; rewrite length_app, length_to_array; done.
  - intros [[k|h]|i]; simpl; auto.
  - unfold sample_ttl. intros d seq live thr ext live'.
    destruct (Z.ltb_spec (live - seq) thr); intros [= <-]; lia.
  - unfold sample_ttl. intros d seq live thr ext live'.
    destruct (Z.ltb_spec (live - seq) thr); intros ? [= <-]; lia.
  - unfold sample_ttl. intros d seq live thr ext live'.
    destruct (Z.ltb_spec (live - seq) thr); intros ? ? [= <-]; lia.
  - unfold sample_ttl. intros d seq live thr ext _. destruct (live - seq <? thr); eauto.
  - lia.
Qed.

(** A canonical encoding of conditions: a number, written bit by bit. *)
Fixpoint positive_bits (p : positive) : Bytes :=
  match p with
  | xH => [Init.Byte.x02]
  | xO p => Init.Byte.x00 :: positive_bits p
  | xI p => Init.Byte.x01 :: positive_bits p
  end.

Lemma positive_bits_inj : Inj (=) (=) positive_bits.
Proof.
  intros p; induction p as [p IH|p IH|]; intros [q|q|] E; simpl in E;
    first [discriminate E | reflexivity | injection E as E; by rewrite (IH q E)].
Qed.

Definition condition_code (c : Condition) :
    (BytesN 65 * Z) + (Address * Z) + (Address * Z) + (Address * list (BytesN 65) * Z) :=
  match c with
  | Create u a => inl (inl (inl (u, a)))
  | ExtDeposit u a => inl (inl (inr (u, a)))
  | ExtWithdraw u a => inl (inr (u, a))
  | ExtIntegration p us a => inr (p, us, a)
  end.

#[export] Instance sample_xdr : ConditionXdr := λ c, positive_bits (encode (condition_code c)).

#[export] Instance sample_xdr_laws : ConditionXdrLaws.
Proof.
  intros c d E. apply positive_bits_inj, (inj encode) in E. by destruct c, d; simplify_eq/=.
Qed.
