(* ===== verification/Helpers.v ===== *)
(** Address parsing: modules/helpers/src/parser.rs. *)
From S2P Require Import Prelude Errors Host.

Section parser.
Context `{Sdk}.

Definition address_from_ed25519_pk_bytes (provider_pk32 : BytesN 32) : Address :=
  from_payload (AccountIdPublicKeyEd25519 provider_pk32).

Definition address_to_ed25519_pk_bytes (addr : Address) : res (BytesN 32) :=
  match to_payload addr with
  | Some (AccountIdPublicKeyEd25519 provider_pk32) => Ok provider_pk32
  | Some (ContractIdHash _) => Err (ContractError NotEd25519AccountAddress)
  | None => Err (ContractError UnsupportedAddressPayload)
  end.

End parser.

(** Parsing an address back gives the key it was made from, and a key is returned only for
    the address made from it: parsing succeeds exactly on the images of the conversion, which
    is therefore injective. *)
Theorem ed25519_address_roundtrip `{SdkLaws} (pk : BytesN 32) (addr : Address) :
  address_to_ed25519_pk_bytes addr = Ok pk ↔ addr = address_from_ed25519_pk_bytes pk.
Proof.
  unfold address_to_ed25519_pk_bytes, address_from_ed25519_pk_bytes. split.
  - destruct (to_payload addr) as [[pk'|h]|] eqn:E; intros [= <-].
    by rewrite (from_to_payload _ _ E).
  - intros ->. by rewrite to_from_payload.
Qed.
