(* ===== verification/Storage.v ===== *)
(** Per-UTXO spend state: modules/storage/src/lib.rs.

    [Store.balance], [Store.create] and [Store.spend] over the persistent entries, keyed by the
    hash of a 65-byte key.  An amount is unspent when positive, spent when zero, and the key is
    free when there is no entry. *)
From S2P Require Import Prelude Errors Host.

Inductive UTXOCoreDataKey := UTXO (h : BytesN 32).

#[export] Instance UTXOCoreDataKey_eq_dec : EqDecision UTXOCoreDataKey.
Proof. solve_decision. Defined.
#[export] Instance UTXOCoreDataKey_countable : Countable UTXOCoreDataKey.
Proof. refine (inj_countable' (λ '(UTXO h), h) UTXO _). by intros []. Defined.

(** The persistent entries of the storage module. *)
Abbreviation UtxoStorage := (gmap UTXOCoreDataKey (Entry Z)).

Module Store.
Section Store.
Context `{Sdk}.
Implicit Types (e : Env) (st : UtxoStorage).

Definition DAY_IN_LEDGERS : Z := 17280.
Definition PERSISTENT_BUMP_AMOUNT : Z := 30 * DAY_IN_LEDGERS.
Definition PERSISTENT_LIFETIME_THRESHOLD : Z := PERSISTENT_BUMP_AMOUNT - DAY_IN_LEDGERS.

Definition hash_utxo_key (utxo65 : BytesN 65) : BytesN 32 := sha256 (to_array utxo65).

Definition utxo_key (utxo65 : BytesN 65) : UTXOCoreDataKey := UTXO (hash_utxo_key utxo65).

Definition bump_ttl e (key : UTXOCoreDataKey) : M UtxoStorage unit :=
  st ← get_state;
  st' ← lift (extend_ttl e Persistent key PERSISTENT_LIFETIME_THRESHOLD
                PERSISTENT_BUMP_AMOUNT st);
  put_state st'.

Definition balance e (utxo65 : BytesN 65) : M UtxoStorage Z :=
  let k := utxo_key utxo65 in
  st ← get_state;
  match persistent_get k st with
  | Some amount => bump_ttl e k ;; mret amount
  | None => mret (-1)
  end.

Definition create e (utxo65 : BytesN 65) (amount : Z) : M UtxoStorage unit :=
  (if amount <=? 0 then panic_with_error InvalidCreateAmount else mret tt) ;;
  let k := utxo_key utxo65 in
  st ← get_state;
  (if persistent_get k st is Some _ then panic_with_error UtxoAlreadyExists else mret tt) ;;
  put_state (persistent_set e k amount st) ;;
  bump_ttl e k.

Definition spend e (utxo65 : BytesN 65) : M UtxoStorage Z :=
  let k := utxo_key utxo65 in
  st ← get_state;
  match persistent_get k st with
  | Some amount =>
      if amount >? 0 then
        put_state (persistent_set e k 0 st) ;;
        bump_ttl e k ;;
        mret amount
      else panic_with_error UtxoAlreadySpent
  | None => panic_with_error UtxoDoesNotExist
  end.

(** [Store::apply]: runs the closure on the scoped store. *)
Definition apply {R} (f : M UtxoStorage R) : M UtxoStorage R := f.
End Store.
End Store.

(** ** The specification: a ledger of amounts

    [amounts] forgets the time to live.  The specification of the module is three operations
    on a map from keys to amounts. *)

Abbreviation Ledger := (gmap UTXOCoreDataKey Z).

Definition amounts (st : UtxoStorage) : Ledger := entry_value <$> st.

Definition ledger_balance (k : UTXOCoreDataKey) (L : Ledger) : Z := default (-1) (L !! k).

Definition ledger_create (k : UTXOCoreDataKey) (amount : Z) (L : Ledger) : res Ledger :=
  if amount <=? 0 then Err (ContractError InvalidCreateAmount)
  else match L !! k with
       | Some _ => Err (ContractError UtxoAlreadyExists)
       | None => Ok (<[k := amount]> L)
       end.

Definition ledger_spend (k : UTXOCoreDataKey) (L : Ledger) : res (Z * Ledger) :=
  match L !! k with
  | None => Err (ContractError UtxoDoesNotExist)
  | Some amount => if amount >? 0 then Ok (amount, <[k := 0]> L)
                   else Err (ContractError UtxoAlreadySpent)
  end.

(** What one run of the code shows of the storage. *)
Definition observe {A} (r : res (A * UtxoStorage)) : res (A * Ledger) :=
  match r with Ok (a, st) => Ok (a, amounts st) | Err f => Err f end.

(** The sum of the unspent amounts. *)
Definition total_unspent (L : Ledger) : Z := map_sumZ (λ a, a) L.

(** No stored amount is negative. *)
Definition wf_ledger (L : Ledger) : Prop := map_Forall (λ _ a, 0 ≤ a) L.

(** How an entry may change: free, then unspent with an amount that never changes, then spent
    forever. *)
Definition entry_evolves (old new : option Z) : Prop :=
  match old, new with
  | None, None => True
  | None, Some a => 0 ≤ a
  | Some a, Some b => b = a ∨ (0 < a ∧ b = 0)
  | Some _, None => False
  end.
Definition ledger_evolves (L L' : Ledger) : Prop := ∀ k, entry_evolves (L !! k) (L' !! k).

(** The entry of [k] stays live for at least [n] more ledgers. *)
Definition lives_for `{Sdk} (e : Env) (n : Z) (k : UTXOCoreDataKey) (st : UtxoStorage) : Prop :=
  ∃ en, st !! k = Some en ∧ ledger_sequence e + n ≤ live_until en.

(** Two storages with the same amounts differ only in the lives of their entries. *)
#[export] Instance utxo_storage_equiv : Equiv UtxoStorage := λ s t, amounts s = amounts t.

(** One successful operation, whatever its ledger. *)
Inductive store_step `{Sdk} : UtxoStorage → UtxoStorage → Prop :=
  | step_balance e u st a st' : Store.balance e u st = Ok (a, st') → store_step st st'
  | step_create e u a st st' : Store.create e u a st = Ok (tt, st') → store_step st st'
  | step_spend e u st a st' : Store.spend e u st = Ok (a, st') → store_step st st'.

(** ** Lemmas *)

Section ledger.
Implicit Types (L : Ledger) (k : UTXOCoreDataKey).

#[export] Instance ledger_evolves_preorder : PreOrder ledger_evolves.
Proof.
  split.
  - intros L k. unfold entry_evolves. destruct (L !! k); auto.
  - intros L1 L2 L3 H12 H23 k. specialize (H12 k). specialize (H23 k).
    unfold entry_evolves in *. destruct (L1 !! k), (L2 !! k), (L3 !! k); naive_solver lia.
Qed.

Lemma ledger_create_Ok k a L L' :
  ledger_create k a L = Ok L' ↔ 0 < a ∧ L !! k = None ∧ L' = <[k := a]> L.
Proof.
  unfold ledger_create. destruct (Z.leb_spec a 0); [split; [done|lia]|].
  destruct (L !! k); naive_solver.
Qed.

Lemma ledger_spend_Ok k L a L' :
  ledger_spend k L = Ok (a, L') ↔ 0 < a ∧ L !! k = Some a ∧ L' = <[k := 0]> L.
Proof.
  unfold ledger_spend. destruct (L !! k) as [b|]; [|naive_solver].
  destruct (Z.gtb_spec b 0); split; try naive_solver lia.
Qed.

Lemma ledger_create_evolves k a L L' :
  ledger_create k a L = Ok L' → ledger_evolves L L'.
Proof.
  rewrite ledger_create_Ok. intros (Ha & Hk & ->) j. rewrite lookup_insert.
  case_decide as E; [subst; rewrite Hk; simpl; lia|]. unfold entry_evolves.
  destruct (L !! j); auto.
Qed.

Lemma ledger_spend_evolves k L a L' :
  ledger_spend k L = Ok (a, L') → ledger_evolves L L'.
Proof.
  rewrite ledger_spend_Ok. intros (Ha & Hk & ->) j. rewrite lookup_insert.
  case_decide as E; [subst; rewrite Hk; simpl; lia|]. unfold entry_evolves.
  destruct (L !! j); auto.
Qed.

Lemma ledger_create_total k a L L' :
  ledger_create k a L = Ok L' → total_unspent L' = total_unspent L + a.
Proof.
  rewrite ledger_create_Ok. intros (_ & Hk & ->). unfold total_unspent.
  rewrite map_sumZ_insert_new by done. lia.
Qed.

Lemma ledger_spend_total k L a L' :
  ledger_spend k L = Ok (a, L') → total_unspent L' = total_unspent L - a.
Proof.
  rewrite ledger_spend_Ok. intros (_ & Hk & ->). unfold total_unspent.
  rewrite (map_sumZ_insert_old _ _ _ _ _ Hk). lia.
Qed.

Lemma ledger_create_wf k a L L' : ledger_create k a L = Ok L' → wf_ledger L → wf_ledger L'.
Proof.
  rewrite ledger_create_Ok. intros (? & ? & ->) Hwf. apply map_Forall_insert_2; [lia | done].
Qed.

Lemma ledger_spend_wf k L a L' : ledger_spend k L = Ok (a, L') → wf_ledger L → wf_ledger L'.
Proof.
  rewrite ledger_spend_Ok. intros (? & ? & ->) Hwf. apply map_Forall_insert_2; [lia | done].
Qed.
End ledger.

Create HintDb ledger discriminated.
#[export] Hint Resolve ledger_create_evolves ledger_spend_evolves ledger_create_wf
  ledger_spend_wf : ledger.

Section store_lemmas.
Context `{SdkLaws}.
Implicit Types (e : Env) (st : UtxoStorage) (k : UTXOCoreDataKey).

Lemma amounts_lookup st k : amounts st !! k = persistent_get k st.
Proof. unfold amounts, persistent_get. apply lookup_fmap. Qed.

Lemma amounts_set e k a st : amounts (persistent_set e k a st) = <[k := a]> (amounts st).
Proof.
  unfold amounts. destruct (persistent_set_insert e k a st) as [l ->]. by rewrite fmap_insert.
Qed.

(** On an existing entry the bump succeeds, changes no amount and gives it a life of at least
    the threshold. *)
Lemma bump_ttl_exists e k st :
  is_Some (st !! k) →
  ∃ st', Store.bump_ttl e k st = Ok (tt, st') ∧ amounts st' = amounts st ∧
         lives_for e Store.PERSISTENT_LIFETIME_THRESHOLD k st'.
Proof.
  intros [old Hk]. unfold Store.bump_ttl.
  destruct (ttl_extend_accepts Persistent (ledger_sequence e) (live_until old)
    Store.PERSISTENT_LIFETIME_THRESHOLD Store.PERSISTENT_BUMP_AMOUNT) as [live Hl].
  { pose proof max_entry_ttl_bound. unfold Store.PERSISTENT_LIFETIME_THRESHOLD,
      Store.PERSISTENT_BUMP_AMOUNT, Store.DAY_IN_LEDGERS. lia. }
  assert (He : extend_ttl e Persistent k Store.PERSISTENT_LIFETIME_THRESHOLD
    Store.PERSISTENT_BUMP_AMOUNT st = Ok (<[k := mkEntry (entry_value old) live]> st))
    by (apply extend_ttl_Ok; eauto).
  exists (<[k := mkEntry (entry_value old) live]> st). split_and!.
  - unfold mbind, M_bind, get_state, lift, put_state. by rewrite He.
  - apply map_eq. intros j. rewrite !amounts_lookup. by eapply persistent_get_extend.
  - exists (mkEntry (entry_value old) live). rewrite lookup_insert_eq. split; [done|]. simpl.
    pose proof (ttl_extend_mono _ _ _ _ _ _ Hl).
    destruct (Z.lt_ge_cases (live_until old - ledger_sequence e)
      Store.PERSISTENT_LIFETIME_THRESHOLD) as [Hlt|]; [|lia].
    eapply ttl_extend_below in Hl as ->; [|done|].
    + unfold Store.PERSISTENT_LIFETIME_THRESHOLD, Store.DAY_IN_LEDGERS. lia.
    + pose proof max_entry_ttl_bound. unfold Store.PERSISTENT_LIFETIME_THRESHOLD,
        Store.PERSISTENT_BUMP_AMOUNT, Store.DAY_IN_LEDGERS. lia.
Qed.

Lemma persistent_set_exists e k a st : is_Some (persistent_set e k a st !! k).
Proof.
  destruct (persistent_set_insert e k a st) as [l ->]. rewrite lookup_insert_eq. eauto.
Qed.

Lemma persistent_get_exists k st a : persistent_get k st = Some a → is_Some (st !! k).
Proof. unfold persistent_get. destruct (st !! k); [eauto | done]. Qed.

(** The three operations, run: their result, the ledger they leave and the life they give. *)
Lemma balance_run e u st :
  ∃ st', Store.balance e u st = Ok (ledger_balance (Store.utxo_key u) (amounts st), st') ∧
    amounts st' = amounts st ∧
    (is_Some (amounts st !! Store.utxo_key u) →
     lives_for e Store.PERSISTENT_LIFETIME_THRESHOLD (Store.utxo_key u) st').
Proof.
  unfold Store.balance, ledger_balance, mbind at 1, M_bind at 1, get_state.
  rewrite amounts_lookup. destruct (persistent_get (Store.utxo_key u) st) as [a|] eqn:E.
  - destruct (bump_ttl_exists e (Store.utxo_key u) st) as (st' & Hr & Ha & Hl);
      [by eapply persistent_get_exists|].
    exists st'. unfold mbind, M_bind. rewrite Hr. done.
  - exists st. split_and!; [done|done|]. by intros [].
Qed.

Lemma create_run e u a st :
  observe (Store.create e u a st) =
    match ledger_create (Store.utxo_key u) a (amounts st) with
    | Ok L => Ok (tt, L) | Err f => Err f end ∧
  ∀ v st', Store.create e u a st = Ok (v, st') →
    lives_for e Store.PERSISTENT_LIFETIME_THRESHOLD (Store.utxo_key u) st'.
Proof.
  unfold Store.create, ledger_create. destruct (a <=? 0); [done|].
  unfold mbind at 1 2 5 6, M_bind at 1 2 5 6, get_state, mret, M_ret.
  rewrite amounts_lookup. destruct (persistent_get (Store.utxo_key u) st); [done|].
  unfold mbind, M_bind, put_state.
  destruct (bump_ttl_exists e (Store.utxo_key u)
    (persistent_set e (Store.utxo_key u) a st)) as (st' & -> & Ha & Hl);
    [apply persistent_set_exists|].
  simpl. rewrite Ha, amounts_set. split; [done|]. by intros [] ? [= <-].
Qed.

Lemma spend_run e u st :
  observe (Store.spend e u st) = ledger_spend (Store.utxo_key u) (amounts st) ∧
  ∀ v st', Store.spend e u st = Ok (v, st') →
    lives_for e Store.PERSISTENT_LIFETIME_THRESHOLD (Store.utxo_key u) st'.
Proof.
  unfold Store.spend, ledger_spend. unfold mbind at 1 4, M_bind at 1 4, get_state.
  rewrite amounts_lookup. destruct (persistent_get (Store.utxo_key u) st) as [a|]; [|done].
  destruct (a >? 0); [|done]. unfold mbind, M_bind, put_state.
  destruct (bump_ttl_exists e (Store.utxo_key u)
    (persistent_set e (Store.utxo_key u) 0 st)) as (st' & -> & Ha & Hl);
    [apply persistent_set_exists|].
  simpl. rewrite Ha, amounts_set. split; [done|]. by intros ? ? [= <- <-].
Qed.
End store_lemmas.

Section store_laws.
Context `{SdkLaws}.
Implicit Types (e : Env) (st : UtxoStorage).

Lemma balance_amounts e u st a st' :
  Store.balance e u st = Ok (a, st') →
  a = ledger_balance (Store.utxo_key u) (amounts st) ∧ amounts st' = amounts st.
Proof. intros Hr. destruct (balance_run e u st) as (st2 & E & Ha & _). rewrite E in Hr. by simplify_eq. Qed.

Lemma create_amounts e u a st v st' :
  Store.create e u a st = Ok (v, st') →
  ledger_create (Store.utxo_key u) a (amounts st) = Ok (amounts st').
Proof.
  intros Hr. destruct (create_run e u a st) as [E _]. rewrite Hr in E. simpl in E.
  destruct (ledger_create _ _ _); by simplify_eq.
Qed.

Lemma spend_amounts e u st a st' :
  Store.spend e u st = Ok (a, st') →
  ledger_spend (Store.utxo_key u) (amounts st) = Ok (a, amounts st').
Proof. intros Hr. destruct (spend_run e u st) as [E _]. by rewrite Hr in E. Qed.

(** The operations do not see the lives: they respect the equivalence. *)
#[export] Instance balance_proper e u :
  Proper ((≡@{UtxoStorage}) ==> (=)) (λ st, observe (Store.balance e u st)).
Proof.
  intros s t E. destruct (balance_run e u s) as (s' & -> & Hs & _).
  destruct (balance_run e u t) as (t' & -> & Ht & _). simpl. unfold equiv, utxo_storage_equiv in E.
  congruence.
Qed.

#[export] Instance create_proper e u a :
  Proper ((≡@{UtxoStorage}) ==> (=)) (λ st, observe (Store.create e u a st)).
Proof.
  intros s t E. destruct (create_run e u a s) as [-> _], (create_run e u a t) as [-> _].
  unfold equiv, utxo_storage_equiv in E. by rewrite E.
Qed.

#[export] Instance spend_proper e u :
  Proper ((≡@{UtxoStorage}) ==> (=)) (λ st, observe (Store.spend e u st)).
Proof.
  intros s t E. destruct (spend_run e u s) as [-> _], (spend_run e u t) as [-> _].
  unfold equiv, utxo_storage_equiv in E. by rewrite E.
Qed.

Lemma store_step_evolves st st' :
  store_step st st' → ledger_evolves (amounts st) (amounts st').
Proof.
  intros [e u st1 a st2 E|e u a st1 st2 E|e u st1 a st2 E].
  - apply balance_amounts in E as [_ ->]. reflexivity.
  - apply create_amounts in E. eauto with ledger.
  - apply spend_amounts in E. eauto with ledger.
Qed.

Lemma store_steps_evolve st st' :
  rtc store_step st st' → ledger_evolves (amounts st) (amounts st').
Proof. induction 1; [reflexivity|]. etrans; [by apply store_step_evolves | done]. Qed.

Lemma store_step_wf st st' :
  store_step st st' → wf_ledger (amounts st) → wf_ledger (amounts st').
Proof.
  intros [e u st1 a st2 E|e u a st1 st2 E|e u st1 a st2 E].
  - by apply balance_amounts in E as [_ ->].
  - apply create_amounts in E. eauto with ledger.
  - apply spend_amounts in E. eauto with ledger.
Qed.

Lemma store_steps_wf st st' :
  rtc store_step st st' → wf_ledger (amounts st) → wf_ledger (amounts st').
Proof. induction 1; eauto using store_step_wf. Qed.
End store_laws.

(** ** Properties *)

(** C22. The storage module implements the ledger: what each operation returns, the error it
    ends with and the amounts it leaves are those of the specification on the amounts before,
    on every branch, and no operation fails for a reason the ledger does not have. *)
Theorem store_refines_ledger `{SdkLaws} (e : Env) (u : BytesN 65) (a : Z) (st : UtxoStorage) :
  let k := Store.utxo_key u in
  observe (Store.balance e u st) = Ok (ledger_balance k (amounts st), amounts st) ∧
  observe (Store.create e u a st) =
    match ledger_create k a (amounts st) with Ok L => Ok (tt, L) | Err f => Err f end ∧
  observe (Store.spend e u st) = ledger_spend k (amounts st).
Proof.
  split_and!.
  - destruct (balance_run e u st) as (st' & -> & Ha & _). simpl. by rewrite Ha.
  - apply create_run.
  - apply spend_run.
Qed.

(** Keep-alive: an operation that returns leaves the entry it touched live for at least
    twenty-nine more days; reading keeps it alive too, and a spent record as well as an
    unspent one. *)
Theorem store_keeps_alive `{SdkLaws} (e : Env) (u : BytesN 65) (st st' : UtxoStorage) (a b : Z)
    (Hrun : Store.create e u a st = Ok (tt, st') ∨ Store.spend e u st = Ok (b, st') ∨
            (Store.balance e u st = Ok (b, st') ∧ b ≠ -1)) :
  lives_for e (29 * 17280) (Store.utxo_key u) st'.
Proof.
  change (29 * 17280) with Store.PERSISTENT_LIFETIME_THRESHOLD.
  destruct Hrun as [Hr|[Hr|[Hr Hb]]].
  - by eapply create_run.
  - by eapply spend_run.
  - destruct (balance_run e u st) as (st2 & E & _ & Hl). rewrite E in Hr. simplify_eq.
    apply Hl. unfold ledger_balance in Hb. destruct (amounts st !! _); [eauto | done].
Qed.

(** Over any sequence of operations of any length, a record is never lost, its amount
    never changes while it is unspent, no amount becomes negative, and a spent key stays
    spent: every later spend and every later creation of it is rejected. *)
Theorem store_history_safe `{SdkLaws} (st st' : UtxoStorage)
    (Hwf : wf_ledger (amounts st)) (Hsteps : rtc store_step st st') :
  wf_ledger (amounts st') ∧ ledger_evolves (amounts st) (amounts st') ∧
  ∀ e u a, amounts st !! Store.utxo_key u = Some 0 → 0 < a →
    Store.spend e u st' = Err (ContractError UtxoAlreadySpent) ∧
    Store.create e u a st' = Err (ContractError UtxoAlreadyExists).
Proof.
  pose proof (store_steps_evolve _ _ Hsteps) as He. split_and!; [by eapply store_steps_wf|done|].
  intros e u a Hk Ha. specialize (He (Store.utxo_key u)). rewrite Hk in He.
  destruct (amounts st' !! Store.utxo_key u) as [b|] eqn:Hb; [|done].
  assert (b = 0) as -> by (simpl in He; lia).
  destruct (spend_run e u st') as [Hs _], (create_run e u a st') as [Hc _].
  unfold ledger_spend in Hs. unfold ledger_create in Hc. rewrite Hb in Hs, Hc.
  destruct (Z.leb_spec a 0); [lia|].
  destruct (Store.spend e u st') as [[]|], (Store.create e u a st') as [[]|]; by simplify_eq/=.
Qed.
