(* ===== verification/HostAuth.v ===== *)
(** Authorization as the contracts ask for it, and the libraries that use it.

    [HostAuth] is the host's side of [require_auth_for_args]: given the address and the
    invocation it must authorize, it lets the invocation go on, with what it consumed
    recorded in the outside state [X], or ends it.  [Ownable] is the access-control library
    both contracts use for their owner, with its documented behaviour as [OwnableLaws]. *)
From S2P Require Import Prelude Errors Host Primitives.

(** The host values that travel as authorization arguments. *)
Inductive Val `{Sdk} :=
  | VRequirements (r : AuthRequirements)
  | VConditions (cs : list Condition)
  | VAddress (a : Address)
  | VI128 (z : Z)
  | VU32 (z : Z)
  | VOther (b : Bytes).

(** [soroban_sdk::auth::ContractContext] and [soroban_sdk::auth::Context]. *)
Record ContractContext `{Sdk} := mkContractContext {
  contract : Address;
  fn_name : string;
  args : list Val;
}.

Inductive Context `{Sdk} :=
  | Contract (cc : ContractContext)
  | CreateContractHostFn
  | CreateContractWithCtorHostFn.

#[export] Instance Val_eq_dec `{Sdk} : EqDecision Val.
Proof. solve_decision. Defined.
#[export] Instance ContractContext_eq_dec `{Sdk} : EqDecision ContractContext.
Proof. solve_decision. Defined.
#[export] Instance Context_eq_dec `{Sdk} : EqDecision Context.
Proof. solve_decision. Defined.

(** [Val::try_into_val::<AuthRequirements>]. *)
Definition try_into_requirements `{Sdk} (v : Val) : option AuthRequirements :=
  match v with VRequirements r => Some r | _ => None end.

Class HostAuth `{Sdk} (X : Type) := {
  require_auth_for : Address → ContractContext → X → res X;
  authorize_as_current_contract : Env → list ContractContext → X → res X;
}.

(** [addr.require_auth_for_args(args)] in the frame of [e]. *)
Definition require_auth_for_args `{HostAuth X} (e : Env) (addr : Address) (args : list Val)
    : M X unit := λ x,
  x' ← require_auth_for addr
         (mkContractContext _ (current_contract_address e) (invoked_function e) args) x;
  Ok (tt, x').

(** [stellar_access::ownable] and [stellar_contract_utils::upgradeable]: their state, and the
    functions the contracts call.  The functions that authorize take the frame's
    [require_auth]. *)
Class Ownable `{Sdk} := {
  OwnState : Type;
  own_init : OwnState;
  get_owner : OwnState → option Address;
  pending_owner : Env → OwnState → option Address;
  set_owner : Env → Address → OwnState → res OwnState;
  enforce_owner_auth {X} : (Address → X → res X) → Env → OwnState * X → res (OwnState * X);
  transfer_ownership {X} :
    (Address → X → res X) → Env → Address → Z → OwnState * X → res (OwnState * X);
  accept_ownership {X} : (Address → X → res X) → Env → OwnState * X → res (OwnState * X);
  UpgradeState : Type;
  upgrade_init : UpgradeState;
  upgrade_wasm : Env → BytesN 32 → UpgradeState → res UpgradeState;
}.

(** The documented contract of the library: the owner is the address set; owner-gated calls
    need the current owner's authorization; a transfer only proposes; the pending owner's own
    authorization completes it. *)
Class OwnableLaws `{Ownable} : Prop := {
  set_owner_spec e a o o' : set_owner e a o = Ok o' → get_owner o' = Some a;
  enforce_owner_auth_spec X (ra : Address → X → res X) e o x o' x' :
    enforce_owner_auth ra e (o, x) = Ok (o', x') ↔
    o' = o ∧ ∃ a, get_owner o = Some a ∧ ra a x = Ok x';
  transfer_ownership_spec X (ra : Address → X → res X) e new live o x o' x' :
    transfer_ownership ra e new live (o, x) = Ok (o', x') →
    get_owner o' = get_owner o ∧ ∃ a, get_owner o = Some a ∧ ra a x = Ok x';
  accept_ownership_spec X (ra : Address → X → res X) e o x o' x' :
    accept_ownership ra e (o, x) = Ok (o', x') →
    ∃ p, pending_owner e o = Some p ∧ ra p x = Ok x' ∧ get_owner o' = Some p;
}.

(** The frame's [require_auth]: the address authorizes the current call with its arguments. *)
Definition frame_auth `{HostAuth X} (e : Env) (args : list Val) (a : Address) (x : X) : res X :=
  require_auth_for a
    (mkContractContext _ (current_contract_address e) (invoked_function e) args) x.

Lemma require_auth_for_args_Ok `{HostAuth X} e a args (x : X) u x' :
  require_auth_for_args e a args x = Ok (u, x') ↔ frame_auth e args a x = Ok x'.
Proof.
  unfold require_auth_for_args, frame_auth. destruct u. rewrite res_bind_Ok. naive_solver.
Qed.
