(* ===== verification/Auth.v ===== *)
(** Signature verification and the provider registry: modules/auth/src/core.rs.

    [UtxoAuthorizable.handle_utxo_auth] and [ProviderAuthorizable] (the registry and
    [require_provider]) as traits: definitions over the provider set in instance storage. *)
From S2P Require Import Prelude Errors Host Primitives Helpers HostAuth.

Section verify.
Context `{Sdk}.

(** The verifiers return nothing and trap on an invalid signature. *)
Definition verify_p256_signature (public_key : BytesN 65) (signature : BytesN 64)
    (payload_hash : BytesN 32) : res unit :=
  if secp256r1_verify public_key payload_hash signature then Ok tt
  else Err (Trap CryptoError).

Definition verify_ed25519_signature (public_key : BytesN 32) (signature : BytesN 64)
    (payload_hash : BytesN 32) : res unit :=
  if ed25519_verify public_key (to_array payload_hash) signature then Ok tt
  else Err (Trap CryptoError).

Definition verify_signature (signer : SignerKey) (signature : Signature)
    (payload_hash : BytesN 32) : res unit :=
  match signer, signature with
  | SKP256 pk, SigP256 sig => verify_p256_signature pk sig payload_hash
  | SKProvider pk, SigEd25519 sig => verify_ed25519_signature pk sig payload_hash
  | SKEd25519 pk, SigEd25519 sig => verify_ed25519_signature pk sig payload_hash
  | _, _ => Err (ContractError InvalidSignatureFormat)
  end.
End verify.

Module UtxoAuthorizable.
Section UtxoAuthorizable.
Context `{Sdk}.

(** The body of the inner loop: one signer of one context. *)
Definition check_signer (e : Env) (sig_map : Signatures) (caller_contract_bytes : Bytes)
    (inner : AuthRequirements) (signer : SignerKey) : res unit :=
  conds ← unwrap (inner !! signer);
  match conds with
  | [] => Err (ContractError NoConditions)
  | _ =>
      match signer with
      | SKP256 _ =>
          '(sig_variant, valid_until_ledger) ← ok_or (sig_map !! signer) MissingSignature;
          if valid_until_ledger <? ledger_sequence e then Err (ContractError SignatureExpired)
          else
            let msg := hash_payload (mkAuthPayload _ conds valid_until_ledger)
                         caller_contract_bytes in
            verify_signature signer sig_variant msg
      | _ => Ok tt
      end
  end.

(** The body of the outer loop: one context. *)
Definition check_context (e : Env) (signatures : Signatures) (c : Context) : res unit :=
  match c with
  | Contract cc =>
      match args cc with
      | [] => Ok tt
      | v_req :: _ =>
          inner ← ok_or (try_into_requirements v_req) BadArg;
          each (map_keys inner)
            (check_signer e signatures (address_to_string (contract cc)) inner)
      end
  | _ => Err (ContractError UnexpectedContext)
  end.

Definition handle_utxo_auth (e : Env) (signatures : Signatures) (contexts : list Context)
    : res unit :=
  each contexts (check_context e signatures).
End UtxoAuthorizable.
End UtxoAuthorizable.

(** The entries [ProviderDataKey::AuthorizedProvider(addr) -> ()] of instance storage. *)
Abbreviation ProviderSet := (gset Address).

Module ProviderAuthorizable.
Section ProviderAuthorizable.
Context `{Sdk}.
Implicit Types providers : ProviderSet.

Definition is_provider (provider : Address) providers : bool :=
  bool_decide (provider ∈ providers).

Definition register_provider (provider : Address) : M ProviderSet unit :=
  providers ← get_state;
  assert_with_error (negb (is_provider provider providers)) ProviderAlreadyRegistered ;;
  put_state ({[provider]} ∪ providers).

Definition deregister_provider (provider : Address) : M ProviderSet unit :=
  providers ← get_state;
  assert_with_error (is_provider provider providers) ProviderNotRegistered ;;
  put_state (providers ∖ {[provider]}).

Definition PROVIDER_THRESHOLD : Z := 1.

(** The body of [require_provider]'s loop: the quorum counter is a [u32]. *)
Definition count_provider (e : Env) (payload : BytesN 32) (sig_map : Signatures) providers
    (provider_quorum : Z) (signer : SignerKey) : res Z :=
  match signer with
  | SKProvider pk32 =>
      let provider_addr := address_from_ed25519_pk_bytes pk32 in
      (if is_provider provider_addr providers then Ok tt
       else Err (ContractError ProviderNotRegistered)) ;;
      '(sig_variant, valid_until_ledger) ← ok_or (sig_map !! signer) MissingSignature;
      if valid_until_ledger <? ledger_sequence e then Err (ContractError SignatureExpired)
      else
        verify_signature signer sig_variant payload ;;
        if in_u32 (provider_quorum + 1) then Ok (provider_quorum + 1)
        else Err (Trap ArithmeticOverflow)
  | _ => Ok provider_quorum
  end.

Definition require_provider (e : Env) (payload : BytesN 32) (signatures : Signatures) providers
    : res unit :=
  provider_quorum ← fold_res (count_provider e payload signatures providers)
                      (map_keys signatures) 0;
  if provider_quorum <? PROVIDER_THRESHOLD then Err (ContractError ProviderThresholdNotMet)
  else Ok tt.
End ProviderAuthorizable.
End ProviderAuthorizable.

(** ** What the checks mean *)

Section meaning.
Context `{Sdk}.

(** The signature fits the signer's curve and verifies. *)
Definition signature_valid (signer : SignerKey) (sig : Signature) (h : BytesN 32) : Prop :=
  match signer, sig with
  | SKP256 pk, SigP256 s => secp256r1_verify pk h s = true
  | SKProvider pk, SigEd25519 s | SKEd25519 pk, SigEd25519 s =>
      ed25519_verify pk (to_array h) s = true
  | _, _ => False
  end.

(** The signature is of the signer's curve, and every entry of a signature map is. *)
Definition signature_fits (signer : SignerKey) (sig : Signature) : bool :=
  match signer, sig with
  | SKP256 _, SigP256 _ | SKProvider _, SigEd25519 _ | SKEd25519 _, SigEd25519 _ => true
  | _, _ => false
  end.

Definition signatures_well_typed (sigs : Signatures) : Prop :=
  map_Forall (λ signer entry, signature_fits signer entry.1 = true) sigs.

(** The owner of [pk] signed the conditions for this contract, and the signature is live. *)
Definition owner_signed (e : Env) (sigs : Signatures) (caller : Address) (pk : BytesN 65)
    (conds : list Condition) : Prop :=
  ∃ sig valid_until, sigs !! SKP256 pk = Some (SigP256 sig, valid_until) ∧
    ledger_sequence e ≤ valid_until ∧
    secp256r1_verify pk
      (hash_payload (mkAuthPayload _ conds valid_until) (address_to_string caller)) sig = true.

(** Every utxo owner the context names signed its conditions, and no entry is empty. *)
Definition context_authorized (e : Env) (sigs : Signatures) (c : Context) : Prop :=
  ∃ cc, c = Contract cc ∧
    (args cc = [] ∨ ∃ reqs rest, args cc = VRequirements reqs :: rest ∧
       (∀ signer conds, reqs !! signer = Some conds → conds ≠ []) ∧
       ∀ pk conds, reqs !! SKP256 pk = Some conds →
         owner_signed e sigs (contract cc) pk conds).

(** The provider entry is of a registered provider, live, and signs the payload. *)
Definition provider_entry_valid (e : Env) (payload : BytesN 32) (providers : ProviderSet)
    (pk : BytesN 32) (entry : Signature * Z) : Prop :=
  address_from_ed25519_pk_bytes pk ∈ providers ∧ ledger_sequence e ≤ entry.2 ∧
  signature_valid (SKProvider pk) entry.1 payload.

(** The signatures hold a provider entry, and every provider entry is valid. *)
Definition providers_valid (e : Env) (payload : BytesN 32) (providers : ProviderSet)
    (sigs : Signatures) : Prop :=
  (∃ pk, is_Some (sigs !! SKProvider pk)) ∧
  ∀ pk entry, sigs !! SKProvider pk = Some entry →
    provider_entry_valid e payload providers pk entry.

(** What can be wrong with one entry of a signature map, and the error that says so. *)
Inductive entry_defect (e : Env) (signer : SignerKey) (h : Z → BytesN 32) :
    Signature * Z → failure → Prop :=
  | entry_expired sig vu : vu < ledger_sequence e →
      entry_defect e signer h (sig, vu) (ContractError SignatureExpired)
  | entry_misfit sig vu : signature_fits signer sig = false →
      entry_defect e signer h (sig, vu) (ContractError InvalidSignatureFormat)
  | entry_forged sig vu : signature_fits signer sig = true →
      ~ signature_valid signer sig (h vu) →
      entry_defect e signer h (sig, vu) (Trap CryptoError).

(** What can be wrong with the providers' entries. *)
Inductive provider_defect (e : Env) (payload : BytesN 32) (providers : ProviderSet)
    (sigs : Signatures) : failure → Prop :=
  | provider_unregistered pk entry : sigs !! SKProvider pk = Some entry →
      address_from_ed25519_pk_bytes pk ∉ providers →
      provider_defect e payload providers sigs (ContractError ProviderNotRegistered)
  | provider_bad_entry pk entry f : sigs !! SKProvider pk = Some entry →
      entry_defect e (SKProvider pk) (λ _, payload) entry f →
      provider_defect e payload providers sigs f
  | provider_missing : (∀ pk, sigs !! SKProvider pk = None) →
      provider_defect e payload providers sigs (ContractError ProviderThresholdNotMet).

(** What can be wrong with the owners' entries for one context. *)
Inductive context_defect (e : Env) (sigs : Signatures) : Context → failure → Prop :=
  | context_not_a_call c : (∀ cc, c ≠ Contract cc) →
      context_defect e sigs c (ContractError UnexpectedContext)
  | context_bad_arg cc v rest : args cc = v :: rest → try_into_requirements v = None →
      context_defect e sigs (Contract cc) (ContractError BadArg)
  | context_no_conditions cc reqs rest signer : args cc = VRequirements reqs :: rest →
      reqs !! signer = Some [] →
      context_defect e sigs (Contract cc) (ContractError NoConditions)
  | context_unsigned cc reqs rest pk conds : args cc = VRequirements reqs :: rest →
      reqs !! SKP256 pk = Some conds → sigs !! SKP256 pk = None →
      context_defect e sigs (Contract cc) (ContractError MissingSignature)
  | context_bad_entry cc reqs rest pk conds entry f : args cc = VRequirements reqs :: rest →
      reqs !! SKP256 pk = Some conds → sigs !! SKP256 pk = Some entry →
      entry_defect e (SKP256 pk)
        (λ vu, hash_payload (mkAuthPayload _ conds vu) (address_to_string (contract cc))) entry f →
      context_defect e sigs (Contract cc) f.
End meaning.

(** ** Lemmas *)

Section auth_lemmas.
Context `{Sdk}.

Lemma verify_signature_Ok signer sig h :
  verify_signature signer sig h = Ok tt ↔ signature_valid signer sig h.
Proof.
  destruct signer, sig; simpl; unfold verify_p256_signature, verify_ed25519_signature;
    try done; by destruct (secp256r1_verify _ _ _) || destruct (ed25519_verify _ _ _).
Qed.

Lemma verify_signature_fits signer sig h :
  verify_signature signer sig h = Err (ContractError InvalidSignatureFormat) ↔
  signature_fits signer sig = false.
Proof.
  destruct signer, sig; simpl; unfold verify_p256_signature, verify_ed25519_signature;
    try done; destruct (secp256r1_verify _ _ _) || destruct (ed25519_verify _ _ _); done.
Qed.

(** A signature of the signer's curve verifies or traps. *)
Lemma verify_signature_bool signer sig h :
  signature_fits signer sig = true →
  verify_signature signer sig h = Ok tt ∨ verify_signature signer sig h = Err (Trap CryptoError).
Proof.
  destruct signer, sig; simpl; unfold verify_p256_signature, verify_ed25519_signature;
    try done; destruct (secp256r1_verify _ _ _) || destruct (ed25519_verify _ _ _); auto.
Qed.

(** Over a well-typed signature map neither check meets a signature of the wrong curve. *)
Lemma handle_utxo_auth_typed e sigs contexts :
  signatures_well_typed sigs →
  UtxoAuthorizable.handle_utxo_auth e sigs contexts ≠ Err (ContractError InvalidSignatureFormat).
Proof.
  intros Hty (c & _ & Hc)%each_Err. destruct c as [cc| |]; [|done..]. simpl in Hc.
  destruct (args cc) as [|v vs]; [done|].
  destruct (try_into_requirements v) as [inner|]; [|done]. cbn in Hc.
  apply each_Err in Hc as (signer & _ & Hc). unfold UtxoAuthorizable.check_signer in Hc.
  destruct (inner !! signer) as [[|cd conds]|]; [done| |done]. cbn [mbind res_bind unwrap] in Hc.
  destruct signer as [pk|pk|pk]; [|done..].
  destruct (sigs !! SKP256 pk) as [[sig live]|] eqn:Es; [|done]. cbn [mbind res_bind ok_or] in Hc.
  destruct (live <? _); [done|]. apply verify_signature_fits in Hc.
  specialize (Hty _ _ Es). simpl in Hc, Hty. congruence.
Qed.

Lemma require_provider_typed e payload sigs providers :
  signatures_well_typed sigs →
  ProviderAuthorizable.require_provider e payload sigs providers
    ≠ Err (ContractError InvalidSignatureFormat).
Proof.
  intros Hty. unfold ProviderAuthorizable.require_provider.
  destruct (fold_res _ _ _) as [q|f] eqn:Hf; simpl; [by case_match|]. intros [= ->].
  apply fold_res_Err in Hf as (q & signer & _ & Hc). destruct signer as [pk|pk|pk]; [done|done|].
  unfold ProviderAuthorizable.count_provider in Hc.
  destruct (ProviderAuthorizable.is_provider _ _); [|done]. cbn [mbind res_bind] in Hc.
  destruct (sigs !! SKProvider pk) as [[sig live]|] eqn:Es; [|done].
  cbn [mbind res_bind ok_or] in Hc. destruct (live <? _); [done|].
  destruct (verify_signature _ _ _) as [[]|g] eqn:Hv; cbn [mbind res_bind] in Hc; [by case_match|].
  injection Hc as ->. apply verify_signature_fits in Hv. specialize (Hty _ _ Es).
  simpl in Hv, Hty. congruence.
Qed.

(** One signer passes when its entry is not empty and, for a utxo, its owner signed. *)
Lemma check_signer_Ok e sigs caller inner signer :
  UtxoAuthorizable.check_signer e sigs (address_to_string caller) inner signer = Ok tt ↔
  ∃ conds, inner !! signer = Some conds ∧ conds ≠ [] ∧
    ∀ pk, signer = SKP256 pk → owner_signed e sigs caller pk conds.
Proof.
  unfold UtxoAuthorizable.check_signer. destruct (inner !! signer) as [conds|] eqn:E;
    [|split; [done | naive_solver]].
  cbn [mbind res_bind unwrap]. destruct conds as [|c conds]; [naive_solver|].
  destruct signer as [pk|pk|pk]; [|naive_solver..].
  destruct (sigs !! SKP256 pk) as [[sig vu]|] eqn:Es; cbn [mbind res_bind ok_or].
  - destruct (Z.ltb_spec vu (ledger_sequence e)) as [Hlt|Hge].
    + split; [done|]. intros (? & [= <-] & _ & Hs).
      destruct (Hs pk eq_refl) as (s & v & Hl & Hv & _). simplify_eq. lia.
    + rewrite verify_signature_Ok. unfold owner_signed. split.
      * intros Hv. exists (c :: conds). split_and!; [done|done|]. intros ? [= <-].
        destruct sig; try done. eauto.
      * intros (? & [= <-] & _ & Hs). destruct (Hs pk eq_refl) as (s & v & Hl & _ & Hv).
        by simplify_eq.
  - split; [done|]. intros (? & [= <-] & _ & Hs).
    destruct (Hs pk eq_refl) as (s & v & Hl & _). congruence.
Qed.

Lemma check_context_Ok e sigs c :
  UtxoAuthorizable.check_context e sigs c = Ok tt ↔ context_authorized e sigs c.
Proof.
  unfold UtxoAuthorizable.check_context, context_authorized.
  destruct c as [cc| |]; [|split; [done|naive_solver]..].
  destruct (args cc) as [|v rest] eqn:Ea; [naive_solver|].
  destruct v as [reqs|cs|a|z|z|b]; cbn [try_into_requirements ok_or mbind res_bind];
    try (split; [done|]; intros (? & [= <-] & [Hn|(? & ? & Hn & _)]); congruence).
  rewrite each_Ok. setoid_rewrite elem_of_map_keys. setoid_rewrite check_signer_Ok. split.
  - intros Hall. exists cc. split; [done|]. right. exists reqs, rest. split_and!; [done|..].
    + intros signer conds Hs. destruct (Hall signer) as (conds' & ? & ? & _); [eauto|].
      congruence.
    + intros pk conds Hs. destruct (Hall (SKP256 pk)) as (conds' & ? & _ & Ho); [eauto|].
      simplify_eq. by apply Ho.
  - intros (? & [= <-] & [Hn|(reqs' & rest' & Hn & Hne & Ho)]); [congruence|].
    rewrite Ea in Hn. simplify_eq. intros signer [conds Hs]. exists conds.
    split_and!; [done | by eapply Hne |]. intros pk ->. by apply Ho.
Qed.

(** One signature adds at most one to the quorum. *)
Lemma count_provider_step e payload sigs providers q k q' :
  ProviderAuthorizable.count_provider e payload sigs providers q k = Ok q' → q ≤ q' ≤ q + 1.
Proof.
  destruct k as [pk|pk|pk]; [intros [= <-]; lia..|].
  unfold ProviderAuthorizable.count_provider. intros Hc.
  repeat (case_match || apply res_bind_Ok in Hc as (? & ? & Hc)); simplify_eq; lia.
Qed.

Lemma handle_utxo_auth_Ok e sigs contexts :
  UtxoAuthorizable.handle_utxo_auth e sigs contexts = Ok tt ↔
  ∀ c, c ∈ contexts → context_authorized e sigs c.
Proof.
  unfold UtxoAuthorizable.handle_utxo_auth. rewrite each_Ok.
  by setoid_rewrite check_context_Ok.
Qed.

Lemma fold_count_provider e payload sigs providers l q q' :
  (∀ k, k ∈ l → is_Some (sigs !! k)) →
  fold_res (ProviderAuthorizable.count_provider e payload sigs providers) l q = Ok q' →
  (∀ pk entry, SKProvider pk ∈ l → sigs !! SKProvider pk = Some entry →
     provider_entry_valid e payload providers pk entry) ∧
  q ≤ q' ∧ (q < q' → ∃ pk, SKProvider pk ∈ l).
Proof.
  revert q. induction l as [|k l IH]; intros q Hl Hr; simpl in Hr.
  { simplify_eq. split_and!; [set_solver | lia | lia]. }
  apply res_bind_Ok in Hr as (q1 & Hk & Hr).
  destruct (IH q1) as (Hv & Hle & Hex); [set_solver | done |].
  destruct k as [pk|pk|pk]; simpl in Hk; [simplify_eq; set_solver..|].
  destruct (ProviderAuthorizable.is_provider _ _) eqn:Ep; [|done].
  unfold ProviderAuthorizable.is_provider in Ep. apply bool_decide_eq_true in Ep.
  cbn [mbind res_bind] in Hk. destruct (sigs !! SKProvider pk) as [[sig vu]|] eqn:Es; [|done].
  cbn [ok_or mbind res_bind] in Hk. destruct (Z.ltb_spec vu (ledger_sequence e)); [done|].
  apply res_bind_Ok in Hk as ([] & Hsig & Hk). destruct (in_u32 (q + 1)); [|done].
  simplify_eq. split_and!; [|lia|intros _; exists pk; by left].
  intros pk' entry [[= ->]|Hin]%elem_of_cons He; [|by apply Hv].
  rewrite Es in He. simplify_eq. split_and!; [done|done|]. by apply verify_signature_Ok.
Qed.

Lemma require_provider_Ok e payload sigs providers :
  ProviderAuthorizable.require_provider e payload sigs providers = Ok tt →
  (∃ pk, is_Some (sigs !! SKProvider pk)) ∧
  ∀ pk entry, sigs !! SKProvider pk = Some entry →
    provider_entry_valid e payload providers pk entry.
Proof.
  unfold ProviderAuthorizable.require_provider. rewrite res_bind_Ok. intros (q & Hf & Hq).
  destruct (Z.ltb_spec q ProviderAuthorizable.PROVIDER_THRESHOLD) as [|Ht]; [done|].
  apply fold_count_provider in Hf as (Hv & _ & Hex); [|intros k; apply elem_of_map_keys].
  unfold ProviderAuthorizable.PROVIDER_THRESHOLD in Ht. split.
  - destruct Hex as [pk Hpk]; [lia|]. exists pk. by apply elem_of_map_keys.
  - intros pk entry He. apply Hv; [apply elem_of_map_keys; eauto | done].
Qed.

Lemma fold_count_provider_complete e payload sigs providers l q :
  0 ≤ q → q + Z.of_nat (length l) ≤ u32_max →
  (∀ pk, SKProvider pk ∈ l → ∃ entry, sigs !! SKProvider pk = Some entry ∧
     provider_entry_valid e payload providers pk entry) →
  ∃ q', fold_res (ProviderAuthorizable.count_provider e payload sigs providers) l q = Ok q' ∧
    q ≤ q' ∧ (∀ pk, SKProvider pk ∈ l → q < q').
Proof.
  revert q. induction l as [|k l IH]; intros q Hq Hlen Hv; simpl in *.
  { exists q. split_and!; [done | lia | set_solver]. }
  assert (∃ d, 0 ≤ d ≤ 1 ∧ (∀ pk, k = SKProvider pk → d = 1) ∧
    ProviderAuthorizable.count_provider e payload sigs providers q k = Ok (q + d))
    as (d & Hd & Hd1 & Hk).
  { destruct k as [pk|pk|pk]; [exists 0; simpl; split_and!; [lia|lia|done|by rewrite Z.add_0_r]..|].
    exists 1. split_and!; [lia|lia|done|]. simpl.
    destruct (Hv pk) as (entry & He & Hp & Hlive & Hsig); [by left|].
    unfold ProviderAuthorizable.is_provider. rewrite bool_decide_eq_true_2 by done.
    cbn [mbind res_bind]. rewrite He. destruct entry as [sig vu].
    cbn [ok_or mbind res_bind]. simpl in Hlive.
    destruct (Z.ltb_spec vu (ledger_sequence e)); [lia|].
    apply verify_signature_Ok in Hsig. simpl in Hsig. rewrite Hsig. cbn [mbind res_bind].
    unfold in_u32. destruct (Z.leb_spec 0 (q + 1)), (Z.leb_spec (q + 1) u32_max);
      simpl; [done|lia..]. }
  destruct (IH (q + d)) as (q' & Hf & Hle & Hlt); [lia|lia|set_solver|].
  exists q'. rewrite Hk. cbn [mbind res_bind]. split_and!; [done|lia|].
  intros pk [<-|Hin]%elem_of_cons; [rewrite (Hd1 pk eq_refl) in Hle; lia|].
  specialize (Hlt pk Hin). lia.
Qed.

Lemma require_provider_accepts e payload sigs providers :
  Z.of_nat (length (map_keys sigs)) ≤ u32_max →
  (∃ pk, is_Some (sigs !! SKProvider pk)) →
  (∀ pk entry, sigs !! SKProvider pk = Some entry →
     provider_entry_valid e payload providers pk entry) →
  ProviderAuthorizable.require_provider e payload sigs providers = Ok tt.
Proof.
  intros Hsize [pk Hpk] Hv.
  destruct (fold_count_provider_complete e payload sigs providers (map_keys sigs) 0)
    as (q & Hf & _ & Hlt); [done|lia|..].
  { intros pk' [entry He]%elem_of_map_keys. eauto. }
  unfold ProviderAuthorizable.require_provider. rewrite Hf. cbn [mbind res_bind].
  assert (0 < q) by (apply (Hlt pk), elem_of_map_keys, Hpk).
  unfold ProviderAuthorizable.PROVIDER_THRESHOLD. destruct (Z.ltb_spec q 1); [lia | done].
Qed.

(** The check of one entry fails for a defect of the entry. *)
Lemma verify_entry_Err e signer h sig vu f :
  (if vu <? ledger_sequence e then Err (ContractError SignatureExpired)
   else verify_signature signer sig (h vu)) = Err f →
  entry_defect e signer h (sig, vu) f.
Proof.
  destruct (Z.ltb_spec vu (ledger_sequence e)); [intros [= <-]; by constructor|]. intros Hv.
  destruct (signature_fits signer sig) eqn:Hfit.
  - destruct (verify_signature_bool signer sig (h vu) Hfit) as [Hs|Hs]; [by rewrite Hs in Hv|].
    rewrite Hs in Hv. injection Hv as <-. constructor; [done|].
    rewrite <-verify_signature_Ok, Hs. done.
  - pose proof (proj2 (verify_signature_fits signer sig (h vu)) Hfit) as Hs. rewrite Hs in Hv.
    injection Hv as <-. by constructor.
Qed.

(** A defect of an entry is what makes it invalid. *)
Lemma entry_defect_invalid e signer h sig vu f :
  entry_defect e signer h (sig, vu) f →
  ledger_sequence e ≤ vu → signature_valid signer sig (h vu) → False.
Proof.
  intros Hd Hle Hv. inversion Hd as [? ? Hlt|? ? Hfit|? ? Hfit Hn]; subst; [lia| |done].
  destruct signer, sig; done.
Qed.

Lemma count_provider_Err e payload sigs providers q k f :
  is_Some (sigs !! k) → 0 ≤ q < u32_max →
  ProviderAuthorizable.count_provider e payload sigs providers q k = Err f →
  provider_defect e payload providers sigs f.
Proof.
  intros [[sig vu] Hk] Hq Hc. destruct k as [pk|pk|pk]; [done|done|].
  unfold ProviderAuthorizable.count_provider, ProviderAuthorizable.is_provider in Hc.
  case_bool_decide as Hp; cbn [mbind res_bind] in Hc;
    [|injection Hc as <-; by eapply provider_unregistered].
  rewrite Hk in Hc. cbn [ok_or mbind res_bind] in Hc.
  eapply provider_bad_entry; [done|]. apply verify_entry_Err.
  destruct (vu <? _); [by injection Hc as <-|].
  destruct (verify_signature _ _ _) as [[]|g]; cbn [mbind res_bind] in Hc; [|by injection Hc as <-].
  unfold in_u32 in Hc. destruct (Z.leb_spec 0 (q + 1)), (Z.leb_spec (q + 1) u32_max);
    [done|lia..].
Qed.

Lemma fold_count_provider_Err e payload sigs providers l q f :
  (∀ k, k ∈ l → is_Some (sigs !! k)) → 0 ≤ q → q + Z.of_nat (length l) ≤ u32_max →
  fold_res (ProviderAuthorizable.count_provider e payload sigs providers) l q = Err f →
  provider_defect e payload providers sigs f.
Proof.
  revert q. induction l as [|k l IH]; intros q Hl Hq Hlen Hr; [done|]. cbn in Hlen, Hr.
  destruct (ProviderAuthorizable.count_provider _ _ _ _ _ _) as [q1|g] eqn:Hc.
  - apply count_provider_step in Hc. apply (IH q1); [set_solver|lia..|exact Hr].
  - injection Hr as <-. eapply count_provider_Err; [|  |exact Hc]; [apply Hl; by left|lia].
Qed.

(** Below 2^32 signatures the provider check fails only for a defect of the providers'
    entries. *)
Lemma require_provider_Err e payload sigs providers f :
  Z.of_nat (length (map_keys sigs)) ≤ u32_max →
  ProviderAuthorizable.require_provider e payload sigs providers = Err f →
  provider_defect e payload providers sigs f.
Proof.
  intros Hsize. unfold ProviderAuthorizable.require_provider.
  destruct (fold_res _ _ _) as [q|g] eqn:Hf.
  - cbn [mbind res_bind]. destruct (Z.ltb_spec q ProviderAuthorizable.PROVIDER_THRESHOLD) as [Hq|];
      [|done].
    intros [= <-]. apply provider_missing. intros pk.
    destruct (sigs !! SKProvider pk) as [entry|] eqn:Hk; [|done].
    pose proof Hf as Hf'.
    apply fold_count_provider in Hf as (Hv & _ & _); [|intros k; apply elem_of_map_keys].
    destruct (fold_count_provider_complete e payload sigs providers (map_keys sigs) 0)
      as (q' & Hq' & _ & Hlt); [done|lia|..].
    { intros pk' [entry' He]%elem_of_map_keys. exists entry'. split; [done|].
      apply Hv; [apply elem_of_map_keys; eauto | done]. }
    rewrite Hf' in Hq'. injection Hq' as <-. unfold ProviderAuthorizable.PROVIDER_THRESHOLD in Hq.
    specialize (Hlt pk). rewrite elem_of_map_keys in Hlt. specialize (Hlt (ex_intro _ _ Hk)). lia.
  - intros [= <-]. eapply fold_count_provider_Err in Hf; [done| |done|lia].
    intros k; apply elem_of_map_keys.
Qed.

Lemma provider_defect_invalid e payload sigs providers f :
  provider_defect e payload providers sigs f → ~ providers_valid e payload providers sigs.
Proof.
  intros Hd [[pk [entry Hpk]] Hv]. destruct Hd as [pk' entry' He Hp|pk' [sig vu] f He Hd|Hn].
  - by destruct (Hv _ _ He) as [? _].
  - destruct (Hv _ _ He) as (_ & Hle & Hs). by eapply entry_defect_invalid.
  - by rewrite Hn in Hpk.
Qed.

(** The utxo check fails only for a defect of the owners' entries for a context. *)
Lemma check_context_Err e sigs c f :
  UtxoAuthorizable.check_context e sigs c = Err f → context_defect e sigs c f.
Proof.
  destruct c as [cc| |]; [|intros [= <-]; by constructor..]. simpl.
  destruct (args cc) as [|v rest] eqn:Ha; [done|].
  destruct (try_into_requirements v) as [reqs|] eqn:Hv; [|intros [= <-]; by eapply context_bad_arg].
  assert (v = VRequirements reqs) as -> by (destruct v; naive_solver).
  cbn [ok_or mbind res_bind]. intros (signer & [conds Hr]%elem_of_map_keys & Hc)%each_Err.
  unfold UtxoAuthorizable.check_signer in Hc. rewrite Hr in Hc. cbn [unwrap mbind res_bind] in Hc.
  destruct conds as [|cd conds]; [injection Hc as <-; by eapply context_no_conditions|].
  destruct signer as [pk|pk|pk]; [|done..].
  destruct (sigs !! SKP256 pk) as [[sig vu]|] eqn:Hs; cbn [ok_or mbind res_bind] in Hc;
    [|injection Hc as <-; by eapply context_unsigned].
  eapply context_bad_entry; [done..|]. by apply verify_entry_Err.
Qed.

Lemma context_defect_unauthorized e sigs c f :
  context_defect e sigs c f → ~ context_authorized e sigs c.
Proof.
  intros Hd (cc & -> & Hc).
  inversion Hd as [? Hno|? v rest Ha Hv|? reqs rest signer Ha Hr|? reqs rest pk conds Ha Hr Hs
    |? reqs rest pk conds [sig vu] ? Ha Hr Hs Hd']; subst; [by apply (Hno cc)|..];
    (destruct Hc as [Hc|(reqs' & rest' & Hc & Hne & Ho)]; [congruence|]);
    rewrite Hc in Ha; simplify_eq.
  - by eapply Hne.
  - destruct (Ho _ _ Hr) as (? & ? & ? & _). congruence.
  - destruct (Ho _ _ Hr) as (s & v & Hs' & Hle & Hok). simplify_eq.
    by eapply entry_defect_invalid.
Qed.
End auth_lemmas.

(** ** Properties *)

(** C23. The utxo check accepts exactly when every context is a contract call that either
    carries no requirements or carries a requirements map with no empty entry, in which the
    owner of every utxo key signed its conditions for the calling contract with a P256
    signature that has not expired.  A context without arguments skips only itself. *)
Theorem handle_utxo_auth_sound_complete `{Sdk} (e : Env) (signatures : Signatures)
    (contexts : list Context) :
  UtxoAuthorizable.handle_utxo_auth e signatures contexts = Ok tt ↔
  ∀ c, c ∈ contexts → context_authorized e signatures c.
Proof. apply handle_utxo_auth_Ok. Qed.

(** The provider check accepts exactly when the signatures hold a provider entry and every
    provider entry is of a registered provider, has not expired and signs the payload.  The
    quorum counter cannot overflow below 2^32 signatures. *)
Theorem require_provider_sound_complete `{Sdk} (e : Env) (payload : BytesN 32)
    (signatures : Signatures) (providers : ProviderSet)
    (Hsize : Z.of_nat (length (map_keys signatures)) ≤ u32_max) :
  ProviderAuthorizable.require_provider e payload signatures providers = Ok tt ↔
  (∃ pk, is_Some (signatures !! SKProvider pk)) ∧
  ∀ pk entry, signatures !! SKProvider pk = Some entry →
    provider_entry_valid e payload providers pk entry.
Proof.
  split; [apply require_provider_Ok|]. intros [Hpk Hv]. by apply require_provider_accepts.
Qed.
