(* ===== verification/ChannelAuth.v ===== *)
(** The Quorum Auth contract: contracts/channel-auth/src/contract.rs.

    Its instance storage is the record [AuthState]: the owner state of the access-control
    library, the provider set, the life of the instance, the upgrade state, and the published
    events in order.  Each entry point is a definition over [AuthState * X], where [X] is the
    state of the world outside the contract. *)
From S2P Require Import Prelude Errors Host Primitives HostAuth Auth.

Inductive AuthEvent `{Sdk} :=
  | ContractInitialized (admin : Address)
  | ProviderAdded (provider : Address)
  | ProviderRemoved (provider : Address)
  | ChannelStateChanged (channel asset : Address) (enabled : bool)
  | Upgraded (wasm_hash : BytesN 32).

Record AuthState `{Ownable} := mkAuthState {
  au_own : OwnState;
  au_providers : ProviderSet;
  au_live_until : Z;
  au_upgrade : UpgradeState;
  au_events : list AuthEvent;
}.

Module ChannelAuthContract.
Section contract.
Context `{Ownable} {X : Type} `{!HostAuth X}.
Implicit Types (e : Env) (s : AuthState).

Definition DAY_IN_LEDGERS : Z := 17280.
Definition INSTANCE_BUMP_AMOUNT : Z := 7 * DAY_IN_LEDGERS.
Definition INSTANCE_LIFETIME_THRESHOLD : Z := INSTANCE_BUMP_AMOUNT - DAY_IN_LEDGERS.

Definition with_own (o : OwnState) s : AuthState :=
  mkAuthState _ _ o (au_providers s) (au_live_until s) (au_upgrade s) (au_events s).
Definition with_providers (p : ProviderSet) s : AuthState :=
  mkAuthState _ _ (au_own s) p (au_live_until s) (au_upgrade s) (au_events s).
Definition with_live_until (l : Z) s : AuthState :=
  mkAuthState _ _ (au_own s) (au_providers s) l (au_upgrade s) (au_events s).
Definition with_upgrade (u : UpgradeState) s : AuthState :=
  mkAuthState _ _ (au_own s) (au_providers s) (au_live_until s) u (au_events s).
Definition publish (ev : AuthEvent) : M AuthState unit :=
  modify (λ s, mkAuthState _ _ (au_own s) (au_providers s) (au_live_until s) (au_upgrade s)
                 (au_events s ++ [ev])).

(** A call of the ownable library with this contract's owner state. *)
Definition own_call (f : OwnState * X → res (OwnState * X)) : M (AuthState * X) unit :=
  λ '(s, x), '(o, x') ← f (au_own s, x); Ok (tt, (with_own o s, x')).

Definition bump_instance_ttl e : M AuthState unit :=
  s ← get_state;
  live ← lift (extend_instance_ttl e INSTANCE_LIFETIME_THRESHOLD INSTANCE_BUMP_AMOUNT
                 (au_live_until s));
  put_state (with_live_until live s).

(** Registry operations of the trait, on this contract's instance storage. *)
Definition on_providers {A} (m : M ProviderSet A) : M AuthState A :=
  zoom au_providers with_providers m.

Definition __constructor e (admin : Address) : M AuthState unit :=
  s ← get_state;
  o ← lift (set_owner e admin (au_own s));
  put_state (with_own o s) ;;
  bump_instance_ttl e ;;
  publish (ContractInitialized admin).

Definition admin e : M AuthState Address :=
  s ← get_state; lift (unwrap (get_owner (au_own s))).

Definition set_admin e (new_admin : Address) : M (AuthState * X) unit :=
  own_call (transfer_ownership (frame_auth e [VAddress new_admin]) e new_admin
              (max_live_until_ledger e)).

Definition accept_admin e : M (AuthState * X) unit :=
  own_call (accept_ownership (frame_auth e []) e).

Definition upgrade e (wasm_hash : BytesN 32) : M (AuthState * X) unit :=
  own_call (enforce_owner_auth (frame_auth e [VOther (to_array wasm_hash)]) e) ;;
  on_fst (publish (Upgraded wasm_hash)) ;;
  on_fst (s ← get_state;
          u ← lift (upgrade_wasm e wasm_hash (au_upgrade s));
          put_state (with_upgrade u s)).

Definition is_provider e (provider : Address) : M AuthState bool :=
  s ← get_state; mret (ProviderAuthorizable.is_provider provider (au_providers s)).

Definition add_provider e (provider : Address) : M (AuthState * X) unit :=
  own_call (enforce_owner_auth (frame_auth e [VAddress provider]) e) ;;
  on_fst (on_providers (ProviderAuthorizable.register_provider provider)) ;;
  on_fst (publish (ProviderAdded provider)).

Definition remove_provider e (provider : Address) : M (AuthState * X) unit :=
  own_call (enforce_owner_auth (frame_auth e [VAddress provider]) e) ;;
  on_fst (on_providers (ProviderAuthorizable.deregister_provider provider)) ;;
  on_fst (publish (ProviderRemoved provider)).

Definition enable_channel e (channel asset : Address) : M (AuthState * X) unit :=
  own_call (enforce_owner_auth (frame_auth e [VAddress channel; VAddress asset]) e) ;;
  on_fst (publish (ChannelStateChanged channel asset true)).

Definition disable_channel e (channel asset : Address) : M (AuthState * X) unit :=
  own_call (enforce_owner_auth (frame_auth e [VAddress channel; VAddress asset]) e) ;;
  on_fst (publish (ChannelStateChanged channel asset false)).

Definition __check_auth e (payload : BytesN 32) (signatures : Signatures)
    (contexts : list Context) : M AuthState unit :=
  bump_instance_ttl e ;;
  s ← get_state;
  lift (ProviderAuthorizable.require_provider e payload signatures (au_providers s)) ;;
  lift (UtxoAuthorizable.handle_utxo_auth e signatures contexts).
End contract.
End ChannelAuthContract.

(** The state before the constructor runs, and the calls the host can make afterwards. *)
Definition auth_blank `{Ownable} (live : Z) : AuthState :=
  mkAuthState _ _ own_init ∅ live upgrade_init [].

Inductive AuthCall `{Sdk} :=
  | AuSetAdmin (new_admin : Address)
  | AuAcceptAdmin
  | AuUpgrade (wasm_hash : BytesN 32)
  | AuAddProvider (provider : Address)
  | AuRemoveProvider (provider : Address)
  | AuEnableChannel (channel asset : Address)
  | AuDisableChannel (channel asset : Address)
  | AuCheckAuth (payload : BytesN 32) (signatures : Signatures) (contexts : list Context).

Section calls.
Context `{Ownable} {X : Type} `{!HostAuth X}.

Definition auth_call (e : Env) (c : AuthCall) : M (AuthState * X) unit :=
  match c with
  | AuSetAdmin a => ChannelAuthContract.set_admin e a
  | AuAcceptAdmin => ChannelAuthContract.accept_admin e
  | AuUpgrade h => ChannelAuthContract.upgrade e h
  | AuAddProvider p => ChannelAuthContract.add_provider e p
  | AuRemoveProvider p => ChannelAuthContract.remove_provider e p
  | AuEnableChannel c a => ChannelAuthContract.enable_channel e c a
  | AuDisableChannel c a => ChannelAuthContract.disable_channel e c a
  | AuCheckAuth p sigs ctxs => on_fst (ChannelAuthContract.__check_auth e p sigs ctxs)
  end.

(** The arguments of a call, as its owner authorizes them. *)
Definition auth_call_args (c : AuthCall) : list Val :=
  match c with
  | AuSetAdmin a | AuAddProvider a | AuRemoveProvider a => [VAddress a]
  | AuUpgrade h => [VOther (to_array h)]
  | AuEnableChannel c a | AuDisableChannel c a => [VAddress c; VAddress a]
  | AuAcceptAdmin | AuCheckAuth _ _ _ => []
  end.

Definition auth_step (s s' : AuthState) : Prop :=
  ∃ e c x x', auth_call e c (s, x) = Ok (tt, (s', x')).

(** A deployed contract after any number of calls. *)
Definition auth_reachable (s : AuthState) : Prop :=
  ∃ e live admin s0,
    ChannelAuthContract.__constructor e admin (auth_blank live) = Ok (tt, s0) ∧
    rtc auth_step s0 s.
End calls.

(** The provider set an observer of the events computes. *)
Definition replay_event `{Sdk} (ps : ProviderSet) (ev : AuthEvent) : ProviderSet :=
  match ev with
  | ProviderAdded p => {[p]} ∪ ps
  | ProviderRemoved p => ps ∖ {[p]}
  | _ => ps
  end.
Definition replay `{Sdk} (evs : list AuthEvent) : ProviderSet := foldl replay_event ∅ evs.

(** ** Lemmas *)

Section auth_contract_lemmas.
Context `{Ownable} `{!OwnableLaws} {X : Type} `{!HostAuth X}.
Implicit Types (e : Env) (s : AuthState) (x : X).
Import ChannelAuthContract.

Lemma own_call_Ok (f : OwnState * X → res (OwnState * X)) s x u s' x' :
  own_call f (s, x) = Ok (u, (s', x')) ↔
  ∃ o, f (au_own s, x) = Ok (o, x') ∧ s' = with_own o s.
Proof.
  unfold own_call. destruct (f (au_own s, x)) as [[o y]|] eqn:E; cbn [mbind res_bind];
    destruct u; naive_solver.
Qed.

Lemma with_own_id s : with_own (au_own s) s = s.
Proof. by destruct s. Qed.

(** The owner's gate: nothing changes but what the authorization consumed. *)
Lemma owner_gate_Ok e args s x u s' x' :
  own_call (enforce_owner_auth (frame_auth e args) e) (s, x) = Ok (u, (s', x')) ↔
  s' = s ∧ ∃ a, get_owner (au_own s) = Some a ∧ frame_auth e args a x = Ok x'.
Proof.
  rewrite own_call_Ok. setoid_rewrite enforce_owner_auth_spec. split.
  - intros (o & (-> & Ha) & ->). by rewrite with_own_id.
  - intros (-> & Ha). exists (au_own s). by rewrite with_own_id.
Qed.

Lemma bump_instance_ttl_Ok e s u s' :
  bump_instance_ttl e s = Ok (u, s') → ∃ l, s' = with_live_until l s.
Proof. unfold bump_instance_ttl. intros. inv_M. eauto. Qed.

Lemma register_provider_Ok p (ps : ProviderSet) u ps' :
  ProviderAuthorizable.register_provider p ps = Ok (u, ps') ↔
  (p ∉ ps) ∧ ps' = {[p]} ∪ ps.
Proof.
  unfold ProviderAuthorizable.register_provider, ProviderAuthorizable.is_provider,
    mbind, M_bind, get_state, put_state. case_bool_decide; simpl; destruct u; naive_solver.
Qed.

Lemma deregister_provider_Ok p (ps : ProviderSet) u ps' :
  ProviderAuthorizable.deregister_provider p ps = Ok (u, ps') ↔
  p ∈ ps ∧ ps' = ps ∖ {[p]}.
Proof.
  unfold ProviderAuthorizable.deregister_provider, ProviderAuthorizable.is_provider,
    mbind, M_bind, get_state, put_state. case_bool_decide; simpl; destruct u; naive_solver.
Qed.
End auth_contract_lemmas.

(** Take apart one call: its cases, its gate and its effect. *)
Ltac inv_auth_call :=
  repeat first
    [ inv_M_step; simplify_eq
    | match goal with
      | H : ChannelAuthContract.own_call (enforce_owner_auth _ _) (?s, _) = Ok _ |- _ =>
          let o := fresh "owner" in
          apply owner_gate_Ok in H as (-> & o & ? & ?)
      | H : ChannelAuthContract.own_call _ (_, _) = Ok _ |- _ =>
          apply own_call_Ok in H as (? & H & ->)
      | H : ChannelAuthContract.bump_instance_ttl _ _ = Ok _ |- _ =>
          apply bump_instance_ttl_Ok in H as [? ->]
      | H : zoom _ _ _ _ = Ok _ |- _ => apply zoom_Ok in H as (? & H & ->)
      | H : ProviderAuthorizable.register_provider _ _ = Ok _ |- _ =>
          apply register_provider_Ok in H as [? ->]
      | H : ProviderAuthorizable.deregister_provider _ _ = Ok _ |- _ =>
          apply deregister_provider_Ok in H as [? ->]
      | p : _ * _ |- _ => destruct p
      | u : unit |- _ => destruct u
      end ].

Section auth_contract_theory.
Context `{Ownable} `{!OwnableLaws} {X : Type} `{!HostAuth X}.
Implicit Types (e : Env) (s : AuthState) (x : X).
Import ChannelAuthContract.

Lemma replay_app evs ev : replay (evs ++ [ev]) = replay_event (replay evs) ev.
Proof. unfold replay. by rewrite foldl_app. Qed.

(** What a call does to the provider set and the events. *)
Lemma auth_call_effect e c s x s' x' :
  auth_call e c (s, x) = Ok (tt, (s', x')) →
  (au_providers s' = au_providers s ∧ au_events s' = au_events s) ∨
  ∃ ev, au_events s' = au_events s ++ [ev] ∧
        au_providers s' = replay_event (au_providers s) ev.
Proof.
  intros Hc. destruct c; simpl in Hc;
    unfold set_admin, accept_admin, upgrade, add_provider, remove_provider, enable_channel,
      disable_channel, __check_auth, publish, on_providers in Hc;
    inv_auth_call; simpl; eauto.
Qed.

Lemma auth_step_replay s s' :
  auth_step (X := X) s s' → au_providers s = replay (au_events s) →
  au_providers s' = replay (au_events s').
Proof.
  intros (e & c & x & x' & Hc) Hs.
  apply auth_call_effect in Hc as [[-> ->]|(ev & -> & ->)]; [done|].
  by rewrite replay_app, Hs.
Qed.

(** The bump gives the instance at least six days. *)
Lemma bump_instance_ttl_lives `{!SdkLaws} e s u s' :
  bump_instance_ttl e s = Ok (u, s') →
  ∃ l, s' = with_live_until l s ∧ ledger_sequence e + 6 * 17280 ≤ l.
Proof.
  unfold bump_instance_ttl. intros Hb. inv_M.
  match goal with H : extend_instance_ttl _ _ _ _ = Ok ?l |- _ => rename H into Hl; exists l end.
  split; [done|]. apply extend_instance_ttl_lives in Hl as [_ Hl]; [exact Hl|].
  pose proof max_entry_ttl_bound.
  unfold INSTANCE_LIFETIME_THRESHOLD, INSTANCE_BUMP_AMOUNT, DAY_IN_LEDGERS. lia.
Qed.

(** The bump is never refused. *)
Lemma check_auth_bump `{!SdkLaws} e s :
  ∃ l, bump_instance_ttl e s = Ok (tt, with_live_until l s).
Proof.
  pose proof max_entry_ttl_bound.
  destruct (ttl_extend_accepts InstanceStorage (ledger_sequence e) (au_live_until s)
    INSTANCE_LIFETIME_THRESHOLD INSTANCE_BUMP_AMOUNT) as [live Hl].
  { unfold INSTANCE_LIFETIME_THRESHOLD, INSTANCE_BUMP_AMOUNT, DAY_IN_LEDGERS. lia. }
  exists live. unfold bump_instance_ttl, extend_instance_ttl, mbind, M_bind, get_state, lift.
  by rewrite Hl.
Qed.

(** What [__check_auth] accepts: a valid provider entry and every context authorized. *)
Lemma check_auth_accepts e payload sigs contexts s s' :
  __check_auth e payload sigs contexts s = Ok (tt, s') →
  (∃ pk entry, sigs !! SKProvider pk = Some entry ∧
     provider_entry_valid e payload (au_providers s) pk entry) ∧
  ∀ c, c ∈ contexts → context_authorized e sigs c.
Proof.
  unfold __check_auth. intros ([] & s1 & [l ->]%bump_instance_ttl_Ok & Hr)%M_bind_Ok.
  apply M_bind_Ok in Hr as (s2 & s3 & [-> ->]%get_state_Ok & Hr).
  apply M_bind_Ok in Hr as ([] & s4 & [Hp <-]%lift_Ok & [Hu _]%lift_Ok).
  apply require_provider_Ok in Hp as [[pk [entry Hpk]] Hv]. split.
  - exists pk, entry. split; [done|]. by apply Hv.
  - unfold UtxoAuthorizable.handle_utxo_auth in Hu. rewrite each_Ok in Hu.
    intros c Hc. by apply check_context_Ok, Hu.
Qed.
End auth_contract_theory.

(** The converse: with valid providers' signatures and authorized contexts the check returns. *)
Lemma check_auth_run `{Ownable} `{!SdkLaws} e payload sigs contexts s :
  Z.of_nat (length (map_keys sigs)) ≤ u32_max →
  (∃ pk, is_Some (sigs !! SKProvider pk)) →
  (∀ pk entry, sigs !! SKProvider pk = Some entry →
     provider_entry_valid e payload (au_providers s) pk entry) →
  (∀ c, c ∈ contexts → context_authorized e sigs c) →
  ∃ s', ChannelAuthContract.__check_auth e payload sigs contexts s = Ok (tt, s').
Proof.
  intros Hsize Hpk Hv Hctx. destruct (check_auth_bump e s) as [l Hl].
  exists (ChannelAuthContract.with_live_until l s).
  unfold ChannelAuthContract.__check_auth. apply M_bind_Ok. eexists tt, _. split; [exact Hl|].
  apply M_bind_Ok. eexists _, _. split; [done|]. apply M_bind_Ok. exists tt.
  eexists. split; [apply lift_Ok; split; [by apply require_provider_accepts | done]|].
  apply lift_Ok. split; [|done]. apply each_Ok. intros c Hc. by apply check_context_Ok, Hctx.
Qed.

(** ** Properties *)

(** C26. The registry is auditable: in every state the deployed contract can reach, the provider
    set is exactly what replaying its events yields; no call changes the registry without the
    event that says so, and no event misreports a change. *)
Theorem provider_registry_is_event_log `{Ownable} `{!OwnableLaws} {X} `{!HostAuth X}
    (s : AuthState) (Hs : auth_reachable (X := X) s) :
  au_providers s = replay (au_events s).
Proof.
  destruct Hs as (e & live & a & s0 & Hc & Hsteps).
  assert (Hs0 : au_providers s0 = replay (au_events s0)).
  { unfold ChannelAuthContract.__constructor, ChannelAuthContract.publish in Hc.
    inv_auth_call. done. }
  clear Hc. induction Hsteps as [|s1 s2 s3 Hstep _ IH]; [done|].
  by apply IH, (auth_step_replay _ _ Hstep).
Qed.

(** C27. Governance gating: a call that changes the provider set or the upgrade state, or that
    publishes anything, was authorized by the current owner for that very call; the owner
    changes only when the pending owner accepts, by the pending owner's own authorization. *)
Theorem governance_is_gated `{Ownable} `{!OwnableLaws} {X} `{!HostAuth X}
    (e : Env) (c : AuthCall) (s s' : AuthState) (x x' : X)
    (Hcall : auth_call e c (s, x) = Ok (tt, (s', x'))) :
  (au_providers s' ≠ au_providers s ∨ au_upgrade s' ≠ au_upgrade s ∨
   au_events s' ≠ au_events s →
   ∃ owner, get_owner (au_own s) = Some owner ∧ frame_auth e (auth_call_args c) owner x = Ok x') ∧
  (get_owner (au_own s') ≠ get_owner (au_own s) →
   ∃ p, c = AuAcceptAdmin ∧ pending_owner e (au_own s) = Some p ∧
        get_owner (au_own s') = Some p ∧ frame_auth e [] p x = Ok x').
Proof.
  destruct c; simpl in Hcall;
    unfold ChannelAuthContract.set_admin, ChannelAuthContract.accept_admin,
      ChannelAuthContract.upgrade, ChannelAuthContract.add_provider,
      ChannelAuthContract.remove_provider, ChannelAuthContract.enable_channel,
      ChannelAuthContract.disable_channel, ChannelAuthContract.__check_auth,
      ChannelAuthContract.publish, ChannelAuthContract.on_providers in Hcall;
    inv_auth_call; simpl; (split; [|try done]); try naive_solver.
  - rename select (transfer_ownership _ _ _ _ _ = _) into Ht.
    by apply transfer_ownership_spec in Ht as [-> _].
  - rename select (accept_ownership _ _ _ = _) into Ha.
    apply accept_ownership_spec in Ha as (p & Hp & Ha & Ho). eauto.
Qed.

(** What adding and removing a provider do when the owner authorizes: a new provider is
    registered, a registered one removed, everything else in the registry unchanged, the event
    published; the other two cases end with their error codes. *)
Theorem provider_management_functional `{Ownable} `{!OwnableLaws} {X} `{!HostAuth X}
    (e : Env) (p owner : Address) (s : AuthState) (x x' : X)
    (Howner : get_owner (au_own s) = Some owner)
    (Hauth : frame_auth e [VAddress p] owner x = Ok x') :
  ChannelAuthContract.add_provider e p (s, x) =
    (if bool_decide (p ∈ au_providers s) then Err (ContractError ProviderAlreadyRegistered)
     else Ok (tt, (mkAuthState _ _ (au_own s) ({[p]} ∪ au_providers s) (au_live_until s)
                     (au_upgrade s) (au_events s ++ [ProviderAdded p]), x'))) ∧
  ChannelAuthContract.remove_provider e p (s, x) =
    (if bool_decide (p ∈ au_providers s)
     then Ok (tt, (mkAuthState _ _ (au_own s) (au_providers s ∖ {[p]}) (au_live_until s)
                     (au_upgrade s) (au_events s ++ [ProviderRemoved p]), x'))
     else Err (ContractError ProviderNotRegistered)).
Proof.
  assert (Hgate : ChannelAuthContract.own_call
    (enforce_owner_auth (frame_auth e [VAddress p]) e) (s, x) = Ok (tt, (s, x')))
    by (apply owner_gate_Ok; eauto).
  unfold ChannelAuthContract.add_provider, ChannelAuthContract.remove_provider.
  unfold mbind, M_bind. rewrite Hgate.
  unfold on_fst, zoom, ChannelAuthContract.on_providers, zoom,
    ProviderAuthorizable.register_provider, ProviderAuthorizable.deregister_provider,
    ProviderAuthorizable.is_provider, mbind, M_bind, get_state. simpl.
  by case_bool_decide.
Qed.

(** [__check_auth] authorizes a call only when a registered provider signed the payload,
    every provider signature present is valid, and every utxo owner named in a context signed
    its conditions for the calling contract, none of them expired; it changes nothing but the
    life of the instance, which it brings to at least six days. *)
Theorem check_auth_sound `{Ownable} `{!SdkLaws}
    (e : Env) (payload : BytesN 32) (signatures : Signatures) (contexts : list Context)
    (s s' : AuthState)
    (Hok : ChannelAuthContract.__check_auth e payload signatures contexts s = Ok (tt, s')) :
  (∃ pk entry, signatures !! SKProvider pk = Some entry ∧
     provider_entry_valid e payload (au_providers s) pk entry) ∧
  (∀ pk entry, signatures !! SKProvider pk = Some entry →
     provider_entry_valid e payload (au_providers s) pk entry) ∧
  (∀ c, c ∈ contexts → context_authorized e signatures c) ∧
  s' = ChannelAuthContract.with_live_until (au_live_until s') s ∧
  ledger_sequence e + 6 * 17280 ≤ au_live_until s'.
Proof.
  unfold ChannelAuthContract.__check_auth in Hok.
  apply M_bind_Ok in Hok as ([] & s1 & Hb & Hok).
  apply bump_instance_ttl_lives in Hb as (l & -> & Hl). inv_M.
  rename select (ProviderAuthorizable.require_provider _ _ _ _ = _) into Hp.
  rename select (UtxoAuthorizable.handle_utxo_auth _ _ _ = _) into Hu.
  repeat match goal with u : unit |- _ => destruct u end.
  apply require_provider_Ok in Hp as [[pk [entry Hpk]] Hv]. split_and!; [eauto|done|..|done].
  - unfold UtxoAuthorizable.handle_utxo_auth in Hu. rewrite each_Ok in Hu.
    intros c Hc. by apply check_context_Ok, Hu.
  - done.
Qed.

(** C24. What the account check decides.  It is accepted exactly when the signatures hold a
    provider entry, every provider entry is of a registered provider, live and signs the payload,
    and every context is authorized by the owners it names; all it changes is the life of the
    instance, which is then at least six days.  When it is rejected, the failure names a defect
    that is there: of a provider's entry if there is one, and otherwise of an owner's entry for
    one of the contexts. *)
Theorem check_auth_decides `{Ownable} `{!SdkLaws}
    (e : Env) (payload : BytesN 32) (signatures : Signatures) (contexts : list Context)
    (s : AuthState) (Hsize : Z.of_nat (length (map_keys signatures)) ≤ u32_max) :
  match ChannelAuthContract.__check_auth e payload signatures contexts s with
  | Ok (_, s') =>
      providers_valid e payload (au_providers s) signatures ∧
      (∀ c, c ∈ contexts → context_authorized e signatures c) ∧
      s' = ChannelAuthContract.with_live_until (au_live_until s') s ∧
      ledger_sequence e + 6 * 17280 ≤ au_live_until s'
  | Err f =>
      (provider_defect e payload (au_providers s) signatures f ∧
       ~ providers_valid e payload (au_providers s) signatures) ∨
      (providers_valid e payload (au_providers s) signatures ∧
       ∃ c, c ∈ contexts ∧ context_defect e signatures c f ∧ ~ context_authorized e signatures c)
  end.
Proof.
  destruct (check_auth_bump e s) as [l Hl].
  pose proof (bump_instance_ttl_lives _ _ _ _ Hl) as (l' & El & Hlive).
  unfold ChannelAuthContract.__check_auth, mbind, M_bind, get_state, lift. rewrite Hl.
  cbn [au_providers ChannelAuthContract.with_live_until].
  destruct (ProviderAuthorizable.require_provider _ _ _ _) as [[]|f] eqn:Hp.
  - apply require_provider_Ok in Hp.
    destruct (UtxoAuthorizable.handle_utxo_auth _ _ _) as [[]|f] eqn:Hu.
    + split_and!; [done|by apply handle_utxo_auth_Ok|done|]. by rewrite El.
    + right. split; [done|]. apply each_Err in Hu as (c & Hc & Hd%check_context_Err).
      exists c. split_and!; [done|done|]. by eapply context_defect_unauthorized.
  - left. apply require_provider_Err in Hp; [|done]. split; [done|].
    by eapply provider_defect_invalid.
Qed.
