(* ===== verification/UtxoCore.v ===== *)
(** UTXO accounting: modules/utxo-core/src/core.rs and modules/utxo-core/src/events.rs.

    The trait [UtxoHandlerTrait] as definitions over [UtxoState], the part of a contract's
    storage the trait owns, and, where it asks for authorization, over [UtxoState * X].  The
    two event features of the crate are a parameter. *)
From S2P Require Import Prelude Errors Host Primitives Storage HostAuth.

(** The cargo features that compile the events out. *)
Record Features := mkFeatures { no_utxo_events : bool; no_bundle_events : bool }.

Record InternalBundle `{Sdk} := mkInternalBundle {
  ib_spend : list (BytesN 65);
  ib_create : list (BytesN 65 * Z);
  ib_req : AuthRequirements;
}.

Record UTXOOperation `{Sdk} := mkUTXOOperation {
  uo_spend : list (BytesN 65 * list Condition);
  uo_create : list (BytesN 65 * Z);
}.

Inductive CoreEvent :=
  | BundleEvent (name : string) (spend : list (BytesN 65)) (create : list (BytesN 65 * Z))
      (deposited withdrawn : Z)
  | UtxoEvent (name : string) (utxo : BytesN 65) (action : string) (amount : Z).

(** The storage of the trait: the utxo entries, the slot [STORAGE_KEY_UTXO_AUTH] of instance
    storage, and the events published so far. *)
Record UtxoState `{Sdk} := mkUtxoState {
  us_utxos : UtxoStorage;
  us_auth : option Address;
  us_events : list CoreEvent;
}.

Module UtxoHandler.
Section UtxoHandler.
Context `{Sdk} (feat : Features).
Implicit Types (e : Env) (s : UtxoState).

Definition on_store {A} (m : M UtxoStorage A) : M UtxoState A :=
  zoom us_utxos (λ st s, mkUtxoState _ st (us_auth s) (us_events s)) m.

Definition publish (disabled : bool) (ev : CoreEvent) : M UtxoState unit :=
  if disabled then mret tt
  else modify (λ s, mkUtxoState _ (us_utxos s) (us_auth s) (us_events s ++ [ev])).

Definition auth : M UtxoState Address :=
  s ← get_state;
  match us_auth s with
  | Some a => mret a
  | None => panic_with_error AuthContractNotSet
  end.

Definition set_auth (new_auth : Address) : M UtxoState unit :=
  modify (λ s, mkUtxoState _ (us_utxos s) (Some new_auth) (us_events s)).

Definition utxo_balance e (utxo : BytesN 65) : M UtxoState Z :=
  on_store (Store.apply (Store.balance e utxo)).

Definition utxo_balances e (utxos : list (BytesN 65)) : M UtxoState (list Z) :=
  fold_loop (λ balances u, b ← utxo_balance e u; mret (balances ++ [b])) utxos [].

(** The body of the spend loop of [process_bundle]. *)
Definition spend_step e (total_available_balance : Z) (spend_utxo : BytesN 65)
    : M UtxoState Z :=
  b ← on_store (Store.balance e spend_utxo);
  amount ← (if b >? 0 then mret b
            else if b =? 0 then panic_with_error UtxoAlreadySpent
            else panic_with_error UtxoDoesNotExist);
  on_store (Store.spend e spend_utxo) ;;
  total ← lift (add_i128 total_available_balance amount);
  publish (no_utxo_events feat) (UtxoEvent "utxo" spend_utxo "spend" amount) ;;
  mret total.

(** The body of the create loop. *)
Definition create_step e (total_available_balance : Z) (create : BytesN 65 * Z)
    : M UtxoState Z :=
  let '(create_utxo, amount) := create in
  b ← on_store (Store.balance e create_utxo);
  (if negb (b =? -1) then panic_with_error UtxoAlreadyExists else mret tt) ;;
  assert_with_error (amount >? 0) InvalidCreateAmount ;;
  on_store (Store.create e create_utxo amount) ;;
  total ← lift (sub_i128 total_available_balance amount);
  publish (no_utxo_events feat) (UtxoEvent "utxo" create_utxo "create" amount) ;;
  mret total.

Definition process_bundle `{!HostAuth X} e (bundle : InternalBundle)
    (incoming_amount expected_outgoing : Z) : M (UtxoState * X) Z :=
  let total_available_balance := incoming_amount in
  assert_with_error (no_duplicate_keys (ib_spend bundle) (λ spend_utxo, spend_utxo))
    RepeatedSpendUtxo ;;
  assert_with_error (no_duplicate_keys (ib_create bundle) (λ '(create_utxo, _), create_utxo))
    RepeatedCreateUtxo ;;
  let auth_args :=
    if decide (ib_req bundle = ∅) then [] else [VRequirements (ib_req bundle)] in
  a ← on_fst auth;
  on_snd (require_auth_for_args e a auth_args) ;;
  (* both loops run inside [Store::apply], which only scopes the handle *)
  total_available_balance ←
    on_fst (fold_loop (spend_step e) (ib_spend bundle) total_available_balance);
  total_available_balance ←
    on_fst (fold_loop (create_step e) (ib_create bundle) total_available_balance);
  assert_with_error (total_available_balance =? expected_outgoing) UnbalancedBundle ;;
  on_fst (publish (no_bundle_events feat)
    (BundleEvent "bundle" (ib_spend bundle) (ib_create bundle) incoming_amount
       expected_outgoing)) ;;
  mret total_available_balance.

Definition verify_utxo_not_exists e (utxo : BytesN 65) : M UtxoState unit :=
  b ← on_store (Store.apply (Store.balance e utxo));
  if negb (b =? -1) then panic_with_error UtxoAlreadyExists else mret tt.

Definition verify_utxo_unspent e (utxo : BytesN 65) : M UtxoState Z :=
  b ← on_store (Store.apply (Store.balance e utxo));
  if b >? 0 then mret b
  else if b =? 0 then panic_with_error UtxoAlreadySpent
  else panic_with_error UtxoDoesNotExist.

Definition unchecked_create e (amount : Z) (utxo : BytesN 65) : M UtxoState unit :=
  on_store (Store.apply (Store.create e utxo amount)) ;;
  publish (no_utxo_events feat) (UtxoEvent "utxo" utxo "create" amount).

Definition unchecked_spend e (utxo : BytesN 65) (amount : Z) : M UtxoState unit :=
  on_store (Store.apply (Store.spend e utxo ;; mret tt)) ;;
  publish (no_utxo_events feat) (UtxoEvent "utxo" utxo "spend" amount).

Definition create e (amount : Z) (utxo : BytesN 65) : M UtxoState unit :=
  verify_utxo_not_exists e utxo ;;
  assert_with_error (amount >? 0) InvalidCreateAmount ;;
  unchecked_create e amount utxo.

Definition spend e (utxo : BytesN 65) : M UtxoState Z :=
  amount ← verify_utxo_unspent e utxo;
  unchecked_spend e utxo amount ;;
  mret amount.
End UtxoHandler.
End UtxoHandler.

Definition calculate_auth_requirements `{Sdk} (p256 : list (BytesN 65 * list Condition))
    : AuthRequirements :=
  foldl (λ map_req '(spend_utxo, conditions), <[SKP256 spend_utxo := conditions]> map_req)
    ∅ p256.

(** ** The specification of a bundle on the ledger *)

Section spec.
Context `{Sdk}.
Implicit Types (L : Ledger) (us : list (BytesN 65)) (cs : list (BytesN 65 * Z)).

Definition ledger_of (s : UtxoState) : Ledger := amounts (us_utxos s).

(** The amount a spent key brings in, and the sums of both sides. *)
Definition unspent_amount L (u : BytesN 65) : Z := default 0 (L !! Store.utxo_key u).
Definition spent_total L us : Z := sumZ (unspent_amount L) us.
Definition created_total cs : Z := sumZ snd cs.

(** The ledger after a bundle: created keys hold their amount, spent keys zero, every other
    key is as before. *)
Definition spent_map us : Ledger := list_to_map ((λ u, (Store.utxo_key u, 0)) <$> us).
Definition created_map cs : Ledger := list_to_map ((λ c, (Store.utxo_key c.1, c.2)) <$> cs).
Definition bundle_ledger L us cs : Ledger := created_map cs ∪ (spent_map us ∪ L).

(** The events of a bundle. *)
Definition spend_events (feat : Features) L us : list CoreEvent :=
  if no_utxo_events feat then []
  else (λ u, UtxoEvent "utxo" u "spend" (unspent_amount L u)) <$> us.
Definition create_events (feat : Features) cs : list CoreEvent :=
  if no_utxo_events feat then [] else (λ c, UtxoEvent "utxo" c.1 "create" c.2) <$> cs.

(** When a bundle may run: its spends are distinct unspent entries, its creates distinct
    free entries with positive amounts. *)
Definition spendable L us : Prop :=
  NoDup (Store.utxo_key <$> us) ∧
  ∀ u, u ∈ us → ∃ a, L !! Store.utxo_key u = Some a ∧ 0 < a.
Definition creatable L cs : Prop :=
  NoDup (Store.utxo_key ∘ fst <$> cs) ∧
  ∀ c, c ∈ cs → L !! Store.utxo_key c.1 = None ∧ 0 < c.2.
End spec.

(** ** Lemmas *)

Section core_lemmas.
Context `{SdkLaws} (feat : Features).
Implicit Types (e : Env) (s : UtxoState) (L : Ledger).
Implicit Types (us : list (BytesN 65)) (cs : list (BytesN 65 * Z)).
Import UtxoHandler.

Lemma publish_Ok b ev s u s' :
  publish b ev s = Ok (u, s') →
  us_utxos s' = us_utxos s ∧ us_auth s' = us_auth s ∧
  us_events s' = us_events s ++ (if b then [] else [ev]).
Proof. unfold publish. destruct b; intros; inv_M; simpl; by rewrite ?app_nil_r. Qed.

Lemma on_store_Ok {A} (m : M UtxoStorage A) s a s' :
  on_store m s = Ok (a, s') →
  m (us_utxos s) = Ok (a, us_utxos s') ∧ us_auth s' = us_auth s ∧ us_events s' = us_events s.
Proof. unfold on_store. rewrite zoom_Ok. intros (st & Hm & ->). done. Qed.

(** What one pass of the spend loop does. *)
Lemma spend_step_Ok e t u s t' s' :
  spend_step feat e t u s = Ok (t', s') →
  ∃ a, ledger_spend (Store.utxo_key u) (ledger_of s) = Ok (a, ledger_of s') ∧
    t' = t + a ∧ in_i128 (t + a) = true ∧ us_auth s' = us_auth s ∧
    us_events s' = us_events s ++
      (if no_utxo_events feat then [] else [UtxoEvent "utxo" u "spend" a]).
Proof.
  unfold spend_step. intros (b & s1 & Hb & Hr)%M_bind_Ok.
  apply M_bind_Ok in Hr as (am & s2 & Ham & Hr).
  apply M_bind_Ok in Hr as (a & s3 & Hs & Hr).
  apply M_bind_Ok in Hr as (t2 & s4 & Ht & Hr).
  apply M_bind_Ok in Hr as (v & s5 & Hp & Hr). inv_M.
  assert (am = b ∧ s2 = s1) as [-> ->].
  { destruct (b >? 0), (b =? 0); inv_M; done. }
  apply on_store_Ok in Hb as (Hb & Hb1 & Hb2), Hs as (Hs & Hs1 & Hs2).
  apply publish_Ok in Hp as (Hp1 & Hp2 & Hp3).
  apply balance_amounts in Hb as [-> Hb]. apply spend_amounts in Hs.
  pose proof Hs as (Ha & Hk & HL)%ledger_spend_Ok. unfold ledger_of.
  rewrite Hb in Hs, Hk, HL. exists a.
  assert (ledger_balance (Store.utxo_key u) (amounts (us_utxos s)) = a) as Hba
    by (unfold ledger_balance; by rewrite Hk).
  rewrite Hba in *. split_and!; congruence.
Qed.

(** What one pass of the create loop does. *)
Lemma create_step_Ok e t u c s t' s' :
  create_step feat e t (u, c) s = Ok (t', s') →
  ledger_create (Store.utxo_key u) c (ledger_of s) = Ok (ledger_of s') ∧
    t' = t - c ∧ in_i128 (t - c) = true ∧ us_auth s' = us_auth s ∧
    us_events s' = us_events s ++
      (if no_utxo_events feat then [] else [UtxoEvent "utxo" u "create" c]).
Proof.
  unfold create_step. intros (b & s1 & Hb & Hr)%M_bind_Ok.
  apply M_bind_Ok in Hr as (v1 & s2 & Hn & Hr).
  apply M_bind_Ok in Hr as (v2 & s3 & Hpos & Hr).
  apply M_bind_Ok in Hr as (v3 & s4 & Hc & Hr).
  apply M_bind_Ok in Hr as (t2 & s5 & Ht & Hr).
  apply M_bind_Ok in Hr as (v4 & s6 & Hp & Hr).
  assert (s2 = s1) as ->. { destruct (negb (b =? -1)); inv_M; done. }
  inv_M. apply on_store_Ok in Hb as (Hb & Hb1 & Hb2), Hc as (Hc & Hc1 & Hc2).
  apply publish_Ok in Hp as (Hp1 & Hp2 & Hp3).
  apply balance_amounts in Hb as [_ Hb]. apply create_amounts in Hc.
  unfold ledger_of. rewrite Hb in Hc. split_and!; congruence.
Qed.

Lemma spent_map_None us k : k ∉ Store.utxo_key <$> us → spent_map us !! k = None.
Proof.
  intros Hk. apply not_elem_of_list_to_map_1. rewrite <- list_fmap_compose. done.
Qed.

Lemma created_map_None cs k : k ∉ Store.utxo_key ∘ fst <$> cs → created_map cs !! k = None.
Proof.
  intros Hk. apply not_elem_of_list_to_map_1. rewrite <- list_fmap_compose. done.
Qed.

(** Spending one key leaves the rest spendable with the same amounts. *)
Lemma spendable_cons L u us a :
  L !! Store.utxo_key u = Some a → 0 < a →
  spendable L (u :: us) ↔ spendable (<[Store.utxo_key u := 0]> L) us.
Proof.
  intros Hk Ha. unfold spendable. rewrite fmap_cons, NoDup_cons. split.
  - intros [[Hn Hnd] Hall]. split; [done|]. intros v Hv.
    destruct (Hall v) as (b & Hb & Hpos); [by right|]. exists b.
    rewrite lookup_insert_ne; [done|]. intros E. apply Hn. rewrite E.
    by apply list_elem_of_fmap_2.
  - intros [Hnd Hall].
    assert (Hn : Store.utxo_key u ∉ Store.utxo_key <$> us).
    { intros (v & E & Hv)%list_elem_of_fmap. destruct (Hall v Hv) as (b & Hb & Hpos).
      rewrite E, lookup_insert_eq in Hb. simplify_eq. lia. }
    split; [done|]. intros v [->|Hv]%elem_of_cons; [eauto|].
    destruct (Hall v Hv) as (b & Hb & Hpos). exists b.
    rewrite lookup_insert_ne in Hb; [done|]. intros E. apply Hn. rewrite E.
    by apply list_elem_of_fmap_2.
Qed.

Lemma unspent_amount_insert L u us :
  Store.utxo_key u ∉ Store.utxo_key <$> us →
  ∀ v, v ∈ us → unspent_amount (<[Store.utxo_key u := 0]> L) v = unspent_amount L v.
Proof.
  intros Hn v Hv. unfold unspent_amount. rewrite lookup_insert_ne; [done|].
  intros E. apply Hn. rewrite E. by apply list_elem_of_fmap_2.
Qed.

Lemma spent_total_insert L u us :
  Store.utxo_key u ∉ Store.utxo_key <$> us →
  spent_total (<[Store.utxo_key u := 0]> L) us = spent_total L us.
Proof.
  intros Hn. pose proof (unspent_amount_insert L u us Hn) as He. unfold spent_total.
  clear Hn. induction us as [|v us IH]; [done|]. simpl. rewrite IH, He; [done|by left|].
  intros w Hw. apply He. by right.
Qed.

Lemma spend_events_insert L u us :
  Store.utxo_key u ∉ Store.utxo_key <$> us →
  spend_events feat (<[Store.utxo_key u := 0]> L) us = spend_events feat L us.
Proof.
  intros Hn. unfold spend_events. destruct (no_utxo_events feat); [done|].
  apply list_fmap_ext. intros i v Hv. f_equal. apply (unspent_amount_insert L u us Hn).
  by eapply list_elem_of_lookup_2.
Qed.

(** The spend loop: its guard, its sum, its ledger, its events. *)
Lemma spend_loop_Ok e us t s t' s' :
  fold_loop (spend_step feat e) us t s = Ok (t', s') →
  spendable (ledger_of s) us ∧ ledger_of s' = spent_map us ∪ ledger_of s ∧
  t' = t + spent_total (ledger_of s) us ∧ us_auth s' = us_auth s ∧
  us_events s' = us_events s ++ spend_events feat (ledger_of s) us.
Proof.
  revert t s. induction us as [|u us IH]; intros t s Hr; simpl in Hr.
  - inv_M. unfold spendable, spend_events, spent_map, spent_total. simpl.
    rewrite (left_id_L ∅ (∪)). split_and!; [constructor | set_solver | done | lia | done |].
    destruct (no_utxo_events feat); by rewrite app_nil_r.
  - apply M_bind_Ok in Hr as (t1 & s1 & (a & Hs & -> & _ & Ha1 & He1)%spend_step_Ok & Hr).
    apply ledger_spend_Ok in Hs as (Hpos & Hk & HL).
    apply IH in Hr as (Hsp & HL' & -> & Ha2 & He2). rewrite HL in *.
    apply (spendable_cons _ _ _ _ Hk Hpos) in Hsp. pose proof Hsp as [Hnd _].
    rewrite fmap_cons, NoDup_cons in Hnd. destruct Hnd as [Hn _].
    rewrite spent_total_insert in * by done. rewrite spend_events_insert in He2 by done.
    split_and!; [done | | | congruence |].
    + rewrite HL'. unfold spent_map at 2. simpl. rewrite <- insert_union_r by
        by apply spent_map_None. by rewrite insert_union_l.
    + unfold spent_total. simpl. unfold unspent_amount at 2. rewrite Hk. simpl. lia.
    + rewrite He2, He1, <- app_assoc. f_equal. unfold spend_events.
      destruct (no_utxo_events feat); [done|]. simpl. unfold unspent_amount at 2. by rewrite Hk.
Qed.

Lemma creatable_cons L u c cs :
  L !! Store.utxo_key u = None → 0 < c →
  creatable L ((u, c) :: cs) ↔ creatable (<[Store.utxo_key u := c]> L) cs.
Proof.
  intros Hk Hc. unfold creatable. rewrite fmap_cons, NoDup_cons. simpl. split.
  - intros [[Hn Hnd] Hall]. split; [done|]. intros d Hd.
    destruct (Hall d) as [Hf Hpos]; [by right|]. rewrite lookup_insert_ne; [done|].
    intros E. apply Hn. rewrite E. by apply (list_elem_of_fmap_2 (Store.utxo_key ∘ fst)).
  - intros [Hnd Hall].
    assert (Hn : Store.utxo_key u ∉ Store.utxo_key ∘ fst <$> cs).
    { intros (d & E & Hd)%list_elem_of_fmap. destruct (Hall d Hd) as [Hf _].
      simpl in E. rewrite E, lookup_insert_eq in Hf. done. }
    split; [done|]. intros d [->|Hd]%elem_of_cons; [done|].
    destruct (Hall d Hd) as [Hf Hpos]. split; [|done].
    by apply lookup_insert_None in Hf as [? _].
Qed.

(** The create loop. *)
Lemma create_loop_Ok e cs t s t' s' :
  fold_loop (create_step feat e) cs t s = Ok (t', s') →
  creatable (ledger_of s) cs ∧ ledger_of s' = created_map cs ∪ ledger_of s ∧
  t' = t - created_total cs ∧ us_auth s' = us_auth s ∧
  us_events s' = us_events s ++ create_events feat cs.
Proof.
  revert t s. induction cs as [|[u c] cs IH]; intros t s Hr; simpl in Hr.
  - inv_M. unfold creatable, create_events, created_map, created_total. simpl.
    rewrite (left_id_L ∅ (∪)). split_and!; [constructor | set_solver | done | lia | done |].
    destruct (no_utxo_events feat); by rewrite app_nil_r.
  - apply M_bind_Ok in Hr as (t1 & s1 & (Hs & -> & _ & Ha1 & He1)%create_step_Ok & Hr).
    apply ledger_create_Ok in Hs as (Hpos & Hk & HL).
    apply IH in Hr as (Hcr & HL' & -> & Ha2 & He2). rewrite HL in *.
    apply (creatable_cons _ _ _ _ Hk Hpos) in Hcr. pose proof Hcr as [Hnd _].
    rewrite fmap_cons, NoDup_cons in Hnd. destruct Hnd as [Hn _].
    split_and!; [done | | | congruence |].
    + rewrite HL'. unfold created_map at 2. simpl. rewrite <- insert_union_r by
        by apply created_map_None. by rewrite insert_union_l.
    + unfold created_total. simpl. lia.
    + rewrite He2, He1, <- app_assoc. f_equal. unfold create_events.
      by destruct (no_utxo_events feat).
Qed.
End core_lemmas.

Section totals.
Context `{Sdk}.
Implicit Types (L : Ledger) (us : list (BytesN 65)) (cs : list (BytesN 65 * Z)).

Lemma spent_map_cons L u us :
  Store.utxo_key u ∉ Store.utxo_key <$> us →
  spent_map (u :: us) ∪ L = spent_map us ∪ <[Store.utxo_key u := 0]> L.
Proof.
  intros Hn. unfold spent_map at 1. simpl.
  rewrite <- insert_union_r by by apply spent_map_None. by rewrite insert_union_l.
Qed.

Lemma created_map_cons L u c cs :
  Store.utxo_key u ∉ Store.utxo_key ∘ fst <$> cs →
  created_map ((u, c) :: cs) ∪ L = created_map cs ∪ <[Store.utxo_key u := c]> L.
Proof.
  intros Hn. unfold created_map at 1. simpl.
  rewrite <- insert_union_r by by apply created_map_None. by rewrite insert_union_l.
Qed.

Lemma spendable_NoDup_keys L us : spendable L us → NoDup us.
Proof. intros [Hnd _]. by eapply NoDup_fmap_1. Qed.

Lemma creatable_NoDup_keys L cs : creatable L cs → NoDup (cs.*1).
Proof. intros [Hnd _]. rewrite list_fmap_compose in Hnd. by eapply NoDup_fmap_1. Qed.

(** The unspent total goes down by what is spent and up by what is created. *)
Lemma total_spent L us :
  spendable L us → total_unspent (spent_map us ∪ L) = total_unspent L - spent_total L us.
Proof.
  revert L. induction us as [|u us IH]; intros L Hs.
  - unfold spent_map, spent_total. simpl. rewrite (left_id_L ∅ (∪)). lia.
  - pose proof Hs as [Hnd Hall]. rewrite fmap_cons, NoDup_cons in Hnd.
    destruct Hnd as [Hn _], (Hall u) as (a & Hk & Ha); [by left|].
    apply (spendable_cons _ _ _ _ Hk Ha) in Hs.
    rewrite spent_map_cons by done. rewrite IH by done. rewrite spent_total_insert by done.
    unfold total_unspent, spent_total. simpl. unfold unspent_amount at 2. rewrite Hk.
    rewrite (map_sumZ_insert_old _ _ _ _ _ Hk). simpl. lia.
Qed.

Lemma total_created L cs :
  creatable L cs → total_unspent (created_map cs ∪ L) = total_unspent L + created_total cs.
Proof.
  revert L. induction cs as [|[u c] cs IH]; intros L Hc.
  - unfold created_map, created_total. simpl. rewrite (left_id_L ∅ (∪)). lia.
  - pose proof Hc as [Hnd Hall]. rewrite fmap_cons, NoDup_cons in Hnd.
    destruct Hnd as [Hn _], (Hall (u, c)) as (Hk & Hpos); [by left|]. simpl in *.
    apply (creatable_cons _ _ _ _ Hk Hpos) in Hc.
    rewrite created_map_cons by done. rewrite IH by done.
    unfold total_unspent, created_total. simpl. rewrite map_sumZ_insert_new by done. lia.
Qed.

(** Spending makes no key free and no free key taken. *)
Lemma creatable_after_spend L us cs :
  spendable L us → creatable (spent_map us ∪ L) cs ↔ creatable L cs.
Proof.
  revert L. induction us as [|u us IH]; intros L Hs.
  - unfold spent_map. simpl. by rewrite (left_id_L ∅ (∪)).
  - pose proof Hs as [Hnd Hall]. rewrite fmap_cons, NoDup_cons in Hnd.
    destruct Hnd as [Hn _], (Hall u) as (a & Hk & Ha); [by left|].
    apply (spendable_cons _ _ _ _ Hk Ha) in Hs.
    rewrite spent_map_cons, IH by done. unfold creatable. f_equiv.
    apply forall_proper. intros c. rewrite lookup_insert. case_decide as E; [|done].
    rewrite <- E, Hk. naive_solver.
Qed.

Lemma spent_total_nonneg L us : spendable L us → 0 ≤ spent_total L us.
Proof.
  intros [_ Hall]. apply sumZ_nonneg, Forall_forall. intros u Hu.
  destruct (Hall u Hu) as (a & Hk & Ha). unfold unspent_amount. rewrite Hk. simpl. lia.
Qed.

Lemma created_total_nonneg L cs : creatable L cs → 0 ≤ created_total cs.
Proof.
  intros [_ Hall]. apply sumZ_nonneg, Forall_forall. intros c Hc.
  destruct (Hall c Hc) as [_ ?]. lia.
Qed.

Lemma spends_evolve L us : spendable L us → ledger_evolves L (spent_map us ∪ L).
Proof.
  revert L. induction us as [|u us IH]; intros L Hs.
  - unfold spent_map. simpl. by rewrite (left_id_L ∅ (∪)).
  - pose proof Hs as [Hnd Hall]. rewrite fmap_cons, NoDup_cons in Hnd.
    destruct Hnd as [Hn _], (Hall u) as (a & Hk & Ha); [by left|].
    apply (spendable_cons _ _ _ _ Hk Ha) in Hs. rewrite spent_map_cons by done.
    etrans; [|by apply IH]. apply (ledger_spend_evolves (Store.utxo_key u) L a).
    by apply ledger_spend_Ok.
Qed.

Lemma creates_evolve L cs : creatable L cs → ledger_evolves L (created_map cs ∪ L).
Proof.
  revert L. induction cs as [|[u c] cs IH]; intros L Hc.
  - unfold created_map. simpl. by rewrite (left_id_L ∅ (∪)).
  - pose proof Hc as [Hnd Hall]. rewrite fmap_cons, NoDup_cons in Hnd.
    destruct Hnd as [Hn _], (Hall (u, c)) as (Hk & Hpos); [by left|]. simpl in *.
    apply (creatable_cons _ _ _ _ Hk Hpos) in Hc. rewrite created_map_cons by done.
    etrans; [|by apply IH]. apply (ledger_create_evolves (Store.utxo_key u) c).
    by apply ledger_create_Ok.
Qed.
End totals.

Section runs.
Context `{SdkLaws} (feat : Features).
Implicit Types (e : Env) (s : UtxoState) (L : Ledger).
Implicit Types (us : list (BytesN 65)) (cs : list (BytesN 65 * Z)).
Import UtxoHandler.

Lemma on_store_run {A} (m : M UtxoStorage A) s a st :
  m (us_utxos s) = Ok (a, st) →
  on_store m s = Ok (a, mkUtxoState _ st (us_auth s) (us_events s)).
Proof. unfold on_store, zoom. by intros ->. Qed.

Lemma publish_run b ev s :
  ∃ evs, publish b ev s = Ok (tt, mkUtxoState _ (us_utxos s) (us_auth s) evs).
Proof. unfold publish. destruct b; [|by eexists]. exists (us_events s). by destruct s. Qed.

Lemma spend_step_run e t u s a :
  ledger_of s !! Store.utxo_key u = Some a → 0 < a → in_i128 (t + a) = true →
  ∃ s', spend_step feat e t u s = Ok (t + a, s').
Proof.
  intros Hk Ha Hr. destruct (balance_run e u (us_utxos s)) as (st & Hb & Hst & _).
  unfold ledger_balance in Hb. unfold ledger_of in Hk. rewrite Hk in Hb. simpl in Hb.
  destruct (spend_run e u st) as [Hs _]. unfold ledger_spend in Hs. rewrite Hst, Hk in Hs.
  destruct (Z.gtb_spec a 0); [|lia].
  destruct (Store.spend e u st) as [[a' st2]|] eqn:Hsp; simplify_eq/=.
  destruct (publish_run (no_utxo_events feat) (UtxoEvent "utxo" u "spend" a)
    (mkUtxoState _ st2 (us_auth s) (us_events s))) as [evs Hp].
  exists (mkUtxoState _ st2 (us_auth s) evs).
  unfold spend_step, mbind, M_bind. rewrite (on_store_run _ _ _ _ Hb).
  destruct (Z.gtb_spec a 0); [|lia]. unfold mret at 1, M_ret at 1.
  rewrite (on_store_run (Store.spend e u) (mkUtxoState _ st (us_auth s) (us_events s)) a st2) by done.
  unfold lift, add_i128, checked_add. rewrite Hr. cbn [us_auth us_events us_utxos]. by rewrite Hp.
Qed.

Lemma create_step_run e t u c s :
  ledger_of s !! Store.utxo_key u = None → 0 < c → in_i128 (t - c) = true →
  ∃ s', create_step feat e t (u, c) s = Ok (t - c, s').
Proof.
  intros Hk Hc Hr. destruct (balance_run e u (us_utxos s)) as (st & Hb & Hst & _).
  unfold ledger_balance in Hb. unfold ledger_of in Hk. rewrite Hk in Hb. simpl in Hb.
  destruct (create_run e u c st) as [Hs _]. unfold ledger_create in Hs. rewrite Hst, Hk in Hs.
  destruct (Z.leb_spec c 0); [lia|].
  destruct (Store.create e u c st) as [[[] st2]|] eqn:Hcr; simplify_eq/=.
  destruct (publish_run (no_utxo_events feat) (UtxoEvent "utxo" u "create" c)
    (mkUtxoState _ st2 (us_auth s) (us_events s))) as [evs Hp].
  exists (mkUtxoState _ st2 (us_auth s) evs).
  unfold create_step, mbind, M_bind. rewrite (on_store_run _ _ _ _ Hb). simpl.
  unfold mret at 1, M_ret at 1. unfold assert_with_error.
  destruct (Z.gtb_spec c 0); [|lia]. unfold mret at 1, M_ret at 1.
  rewrite (on_store_run (Store.create e u c) (mkUtxoState _ st (us_auth s) (us_events s)) tt st2) by done.
  unfold lift, sub_i128, checked_sub. rewrite Hr. cbn [us_auth us_events us_utxos]. by rewrite Hp.
Qed.

(** With distinct unspent keys and a total in range, the spend loop returns. *)
Lemma spend_loop_run e us t s :
  spendable (ledger_of s) us → 0 ≤ t → t + spent_total (ledger_of s) us ≤ i128_max →
  ∃ s', fold_loop (spend_step feat e) us t s = Ok (t + spent_total (ledger_of s) us, s').
Proof.
  revert t s. induction us as [|u us IH]; intros t s Hs Ht Hmax.
  { exists s. unfold spent_total. simpl. by rewrite Z.add_0_r. }
  pose proof Hs as [Hnd Hall]. rewrite fmap_cons, NoDup_cons in Hnd.
  destruct Hnd as [Hn _], (Hall u) as (a & Hk & Ha); [by left|].
  apply (spendable_cons _ _ _ _ Hk Ha) in Hs. pose proof (spent_total_nonneg _ _ Hs) as Hnn.
  assert (Hst : spent_total (ledger_of s) (u :: us) = a + spent_total (ledger_of s) us)
    by (unfold spent_total; simpl; unfold unspent_amount at 1; by rewrite Hk).
  rewrite spent_total_insert in Hnn by done. rewrite Hst in *.
  destruct (spend_step_run e t u s a Hk Ha) as [s1 H1].
  { apply in_i128_spec. unfold i128_min. lia. }
  pose proof H1 as (a' & Hl & _)%spend_step_Ok. apply ledger_spend_Ok in Hl as (_ & Hk' & HL).
  rewrite Hk in Hk'. injection Hk' as <-.
  destruct (IH (t + a) s1) as [s2 H2]; rewrite ?HL, ?spent_total_insert by done;
    [done | lia | lia |].
  exists s2. cbn [fold_loop]. unfold mbind, M_bind. rewrite H1. rewrite H2, HL.
  rewrite spent_total_insert by done. by rewrite Z.add_assoc.
Qed.

(** The sum of a spent output into an [i128] it does not fit traps. *)
Lemma spend_step_traps e t u s a :
  ledger_of s !! Store.utxo_key u = Some a → 0 < a → in_i128 (t + a) = false →
  spend_step feat e t u s = Err (Trap ArithmeticOverflow).
Proof.
  intros Hk Ha Hr. destruct (balance_run e u (us_utxos s)) as (st & Hb & Hst & _).
  unfold ledger_balance in Hb. unfold ledger_of in Hk. rewrite Hk in Hb. simpl in Hb.
  destruct (spend_run e u st) as [Hs _]. unfold ledger_spend in Hs. rewrite Hst, Hk in Hs.
  destruct (Z.gtb_spec a 0); [|lia].
  destruct (Store.spend e u st) as [[a' st2]|] eqn:Hsp; simplify_eq/=.
  unfold spend_step, mbind, M_bind. rewrite (on_store_run _ _ _ _ Hb).
  destruct (Z.gtb_spec a 0); [|lia]. unfold mret at 1, M_ret at 1.
  rewrite (on_store_run (Store.spend e u) (mkUtxoState _ st (us_auth s) (us_events s)) a st2) by done.
  unfold lift, add_i128, checked_add. by rewrite Hr.
Qed.

Lemma spend_loop_traps e us t s :
  spendable (ledger_of s) us → 0 ≤ t ≤ i128_max →
  i128_max < t + spent_total (ledger_of s) us →
  fold_loop (spend_step feat e) us t s = Err (Trap ArithmeticOverflow).
Proof.
  revert t s. induction us as [|u us IH]; intros t s Hs Ht Hmax.
  { unfold spent_total in Hmax. simpl in Hmax. lia. }
  pose proof Hs as [Hnd Hall]. rewrite fmap_cons, NoDup_cons in Hnd.
  destruct Hnd as [Hn _], (Hall u) as (a & Hk & Ha); [by left|].
  apply (spendable_cons _ _ _ _ Hk Ha) in Hs.
  assert (Hst : spent_total (ledger_of s) (u :: us) = a + spent_total (ledger_of s) us)
    by (unfold spent_total; simpl; unfold unspent_amount at 1; by rewrite Hk).
  rewrite Hst in *. cbn [fold_loop]. unfold mbind, M_bind.
  destruct (in_i128 (t + a)) eqn:Hr; [|by rewrite (spend_step_traps e t u s a Hk Ha Hr)].
  destruct (spend_step_run e t u s a Hk Ha Hr) as [s1 H1]. rewrite H1.
  apply in_i128_spec in Hr.
  pose proof H1 as (a' & Hl & _)%spend_step_Ok. apply ledger_spend_Ok in Hl as (_ & Hk' & HL).
  rewrite Hk in Hk'. injection Hk' as <-.
  apply IH; rewrite ?HL, ?spent_total_insert by done; [done | lia..].
Qed.

Lemma create_loop_run e cs t s :
  creatable (ledger_of s) cs → t ≤ i128_max → 0 ≤ t - created_total cs →
  ∃ s', fold_loop (create_step feat e) cs t s = Ok (t - created_total cs, s').
Proof.
  revert t s. induction cs as [|[u c] cs IH]; intros t s Hc Hmax Ht.
  { exists s. unfold created_total. simpl. by rewrite Z.sub_0_r. }
  pose proof Hc as [Hnd Hall]. rewrite fmap_cons, NoDup_cons in Hnd.
  destruct Hnd as [Hn _], (Hall (u, c)) as (Hk & Hpos); [by left|]. simpl in Hk, Hpos.
  apply (creatable_cons _ _ _ _ Hk Hpos) in Hc. pose proof (created_total_nonneg _ _ Hc) as Hnn.
  assert (Hst : created_total ((u, c) :: cs) = c + created_total cs) by done.
  rewrite Hst in *. destruct (create_step_run e t u c s Hk Hpos) as [s1 H1].
  { apply in_i128_spec. unfold i128_min. lia. }
  pose proof H1 as (Hl & _)%create_step_Ok. apply ledger_create_Ok in Hl as (_ & _ & HL).
  destruct (IH (t - c) s1) as [s2 H2]; rewrite ?HL; [done | lia | lia |].
  exists s2. cbn [fold_loop]. unfold mbind, M_bind. rewrite H1, H2. by rewrite Z.sub_add_distr.
Qed.

Lemma auth_Ok s a s' : auth s = Ok (a, s') ↔ us_auth s = Some a ∧ s' = s.
Proof.
  unfold auth, mbind, M_bind, get_state. destruct (us_auth s); unfold mret, M_ret;
    naive_solver.
Qed.

(** The requirements [process_bundle] passes on. *)
Definition bundle_auth_args (bundle : InternalBundle) : list Val :=
  if decide (ib_req bundle = ∅) then [] else [VRequirements (ib_req bundle)].

Lemma duplicate_guards bundle :
  (no_duplicate_keys (ib_spend bundle) (λ u, u) = true ↔ NoDup (ib_spend bundle)) ∧
  (no_duplicate_keys (ib_create bundle) (λ '(u, _), u) = true ↔ NoDup ((ib_create bundle).*1)).
Proof.
  unfold no_duplicate_keys. rewrite !no_duplicates_true, list_fmap_id. split; [done|].
  assert (E : (λ '(u, _), u) <$> ib_create bundle = (ib_create bundle).*1)
    by (apply list_fmap_ext; by intros ? []). by rewrite E.
Qed.

Lemma process_bundle_Ok `{!HostAuth X} e bundle inc out s (x : X) r s' x' :
  process_bundle feat e bundle inc out (s, x) = Ok (r, (s', x')) →
  let L := ledger_of s in
  spendable L (ib_spend bundle) ∧ creatable L (ib_create bundle) ∧
  (∃ a, us_auth s = Some a ∧ frame_auth e (bundle_auth_args bundle) a x = Ok x') ∧
  inc + spent_total L (ib_spend bundle) = created_total (ib_create bundle) + out ∧ r = out ∧
  ledger_of s' = bundle_ledger L (ib_spend bundle) (ib_create bundle) ∧
  us_auth s' = us_auth s ∧
  us_events s' = us_events s ++ spend_events feat L (ib_spend bundle)
    ++ create_events feat (ib_create bundle)
    ++ (if no_bundle_events feat then []
        else [BundleEvent "bundle" (ib_spend bundle) (ib_create bundle) inc out]).
Proof.
  unfold process_bundle. fold (bundle_auth_args bundle).
  intros (v1 & [s1 x1] & Hd1 & Hr)%M_bind_Ok.
  apply M_bind_Ok in Hr as (v2 & [s2 x2] & Hd2 & Hr).
  apply M_bind_Ok in Hr as (a & [s3 x3] & Ha & Hr).
  apply M_bind_Ok in Hr as (v3 & [s4 x4] & Hreq & Hr).
  apply M_bind_Ok in Hr as (t1 & [s5 x5] & Hsp & Hr).
  apply M_bind_Ok in Hr as (t2 & [s6 x6] & Hcr & Hr).
  apply M_bind_Ok in Hr as (v4 & [s7 x7] & Hbal & Hr).
  apply M_bind_Ok in Hr as (v5 & [s8 x8] & Hpub & Hr).
  apply assert_with_error_Ok in Hd1 as [_ [= -> ->]], Hd2 as [_ [= -> ->]].
  apply assert_with_error_Ok in Hbal as [Hbal%Z.eqb_eq [= -> ->]].
  apply on_fst_Ok in Ha as [(Ha & ->)%auth_Ok ->], Hsp as [Hsp ->], Hcr as [Hcr ->],
    Hpub as [(Hp1 & Hp2 & Hp3)%publish_Ok ->].
  apply on_snd_Ok in Hreq as [Hreq%require_auth_for_args_Ok ->]. inv_M.
  apply spend_loop_Ok in Hsp as (Hspend & HL1 & -> & Ha1 & He1).
  apply create_loop_Ok in Hcr as (Hcreate & HL2 & Ht & Ha2 & He2).
  rewrite HL1 in Hcreate, HL2. apply creatable_after_spend in Hcreate; [|done]. simpl.
  split_and!; [done | done | eauto | lia | lia | | congruence |].
  - unfold ledger_of in *. rewrite Hp1. exact HL2.
  - rewrite Hp3, He2, He1. rewrite <- !app_assoc. by destruct (no_bundle_events feat).
Qed.
End runs.

Section single.
Context `{SdkLaws} (feat : Features).
Implicit Types (e : Env) (s : UtxoState) (L : Ledger).
Import UtxoHandler.

Lemma single_create e u amount s :
  wf_ledger (ledger_of s) →
  match create feat e amount u s with
  | Ok (_, s') => ledger_create (Store.utxo_key u) amount (ledger_of s) = Ok (ledger_of s') ∧
                  us_auth s' = us_auth s
  | Err f => f = ContractError (if decide (is_Some (ledger_of s !! Store.utxo_key u))
                                then UtxoAlreadyExists else InvalidCreateAmount) ∧
             (is_Some (ledger_of s !! Store.utxo_key u) ∨ amount ≤ 0)
  end.
Proof.
  intros Hwf. destruct (balance_run e u (us_utxos s)) as (st & Hb & Hst & _).
  unfold create, verify_utxo_not_exists, mbind, M_bind, Store.apply.
  rewrite (on_store_run _ _ _ _ Hb). fold (ledger_of s) in *. unfold ledger_balance.
  destruct (ledger_of s !! Store.utxo_key u) as [b|] eqn:Hk; cbn [default from_option id].
  { specialize (Hwf _ _ Hk). simpl in Hwf. destruct (Z.eqb_spec b (-1)); [lia|]. cbn [negb].
    rewrite decide_True by eauto. split; [done | eauto]. }
  rewrite decide_False by (by intros []). simpl. unfold assert_with_error.
  destruct (Z.gtb_spec amount 0) as [Hp|Hp]; simpl; [|auto].
  destruct (create_run e u amount st) as [Hc _]. rewrite Hst in Hc.
  unfold ledger_create in *. fold (ledger_of s) in Hc. rewrite Hk in *.
  destruct (Z.leb_spec amount 0); [lia|].
  destruct (Store.create e u amount st) as [[[] st2]|] eqn:Hcr; simplify_eq/=.
  unfold unchecked_create, mbind, M_bind, Store.apply, mret, M_ret.
  rewrite (on_store_run (Store.create e u amount)
    (mkUtxoState _ st (us_auth s) (us_events s)) tt st2) by done.
  destruct (publish_run (no_utxo_events feat) (UtxoEvent "utxo" u "create" amount)
    (mkUtxoState _ st2 (us_auth s) (us_events s))) as [evs Hp'].
  cbn [us_auth us_events]. rewrite Hp'. split; [by f_equal | done].
Qed.

Lemma single_spend e u s :
  match spend feat e u s with
  | Ok (a, s') => ledger_spend (Store.utxo_key u) (ledger_of s) = Ok (a, ledger_of s') ∧
                  us_auth s' = us_auth s
  | Err f => wf_ledger (ledger_of s) → ledger_spend (Store.utxo_key u) (ledger_of s) = Err f
  end.
Proof.
  destruct (balance_run e u (us_utxos s)) as (st & Hb & Hst & _).
  unfold spend, verify_utxo_unspent, mbind, M_bind, Store.apply.
  rewrite (on_store_run _ _ _ _ Hb). fold (ledger_of s) in *. unfold ledger_balance, ledger_spend.
  destruct (ledger_of s !! Store.utxo_key u) as [b|] eqn:Hk; cbn [default from_option id];
    [|simpl; auto].
  destruct (Z.gtb_spec b 0) as [Hp|Hp].
  2:{ destruct (Z.eqb_spec b 0); simpl; intros Hwf; [done|]. specialize (Hwf _ _ Hk).
      simpl in Hwf. lia. }
  destruct (spend_run e u st) as [Hc _]. rewrite Hst in Hc.
  unfold ledger_spend in Hc. fold (ledger_of s) in Hc. rewrite Hk in Hc.
  destruct (Z.gtb_spec b 0); [|lia].
  destruct (Store.spend e u st) as [[b' st2]|] eqn:Hcr; simplify_eq/=.
  unfold unchecked_spend, mbind, M_bind, Store.apply, mret, M_ret.
  rewrite (on_store_run (λ st, match Store.spend e u st with Ok (_, s') => Ok (tt, s')
    | Err f => Err f end) (mkUtxoState _ st (us_auth s) (us_events s)) tt st2)
    by (cbn [us_utxos]; by rewrite Hcr).
  destruct (publish_run (no_utxo_events feat) (UtxoEvent "utxo" u "spend" b)
    (mkUtxoState _ st2 (us_auth s) (us_events s))) as [evs Hp'].
  cbn [us_auth us_events]. rewrite Hp'. split; [by do 2 f_equal | done].
Qed.
End single.

Section requirements.
Context `{Sdk}.

Lemma requirements_fold l (m : AuthRequirements) k :
  NoDup (l.*1) →
  foldl (λ r '(u, conds), <[SKP256 u := conds]> r) m l !! k =
  match k with
  | SKP256 u => match list_find (λ p : BytesN 65 * list Condition, p.1 = u) l with
                | Some (_, p) => Some p.2
                | None => m !! k
                end
  | _ => m !! k
  end.
Proof.
  revert m. induction l as [|[u conds] l IH]; intros m Hnd; simpl.
  { by destruct k. }
  apply NoDup_cons in Hnd as [Hn Hnd]. rewrite (IH _ Hnd).
  destruct k as [v|v|v]; [|by rewrite lookup_insert_ne..].
  destruct (decide (u = v)) as [->|Hne].
  - destruct (list_find (λ p : BytesN 65 * list Condition, p.1 = v) l) as [[i p]|] eqn:E.
    + apply list_find_Some in E as (Hi & Hp & _). destruct Hn. simpl. rewrite <- Hp.
      by apply list_elem_of_fmap_2, (list_elem_of_lookup_2 _ i).
    + by rewrite lookup_insert_eq.
  - rewrite lookup_insert_ne by congruence.
    by destruct (list_find (λ p : BytesN 65 * list Condition, p.1 = v) l) as [[i p]|].
Qed.
End requirements.

(** A balanced, authorized bundle runs. *)
Lemma process_bundle_run `{SdkLaws} (feat : Features) {X} `{!HostAuth X} (e : Env)
    (bundle : InternalBundle) (incoming expected : Z) (s : UtxoState) (x x' : X) (a : Address)
    (Hs : spendable (ledger_of s) (ib_spend bundle))
    (Hc : creatable (ledger_of s) (ib_create bundle))
    (Hauth : us_auth s = Some a)
    (Hreq : frame_auth e (bundle_auth_args bundle) a x = Ok x')
    (Hbal : incoming + spent_total (ledger_of s) (ib_spend bundle)
            = created_total (ib_create bundle) + expected)
    (Hrange : 0 ≤ incoming ∧ 0 ≤ expected ∧
              incoming + spent_total (ledger_of s) (ib_spend bundle) ≤ i128_max) :
  ∃ s', UtxoHandler.process_bundle feat e bundle incoming expected (s, x)
        = Ok (expected, (s', x')).
Proof.
  destruct Hrange as (Hi & Ho & Hmax). pose proof (duplicate_guards bundle) as [Hd1 Hd2].
  apply spendable_NoDup_keys in Hs as Hnd1. apply creatable_NoDup_keys in Hc as Hnd2.
  destruct (spend_loop_run feat e _ incoming s Hs Hi Hmax) as [s1 H1].
  pose proof H1 as (_ & HL & _ & Ha1 & _)%spend_loop_Ok.
  apply (creatable_after_spend _ _ _ Hs) in Hc. rewrite <- HL in Hc.
  destruct (create_loop_run feat e _ _ s1 Hc Hmax) as [s2 H2]; [lia|].
  destruct (publish_run (no_bundle_events feat)
    (BundleEvent "bundle" (ib_spend bundle) (ib_create bundle) incoming expected) s2)
    as [evs Hp].
  exists (mkUtxoState _ (us_utxos s2) (us_auth s2) evs).
  unfold UtxoHandler.process_bundle, mbind, M_bind. fold (bundle_auth_args bundle).
  rewrite (proj2 Hd1 Hnd1), (proj2 Hd2 Hnd2). cbn [assert_with_error mret M_ret].
  unfold on_fst at 1, zoom at 1. cbn [fst]. rewrite (proj2 (auth_Ok s a s)) by done.
  unfold on_snd, zoom at 1. cbn [snd fst].
  rewrite (proj2 (require_auth_for_args_Ok e a (bundle_auth_args bundle) x tt x') Hreq).
  unfold on_fst at 1, zoom at 1. cbn [snd fst]. rewrite H1.
  unfold on_fst at 1, zoom at 1. cbn [snd fst]. rewrite H2.
  replace (incoming + _ - _) with expected by lia. rewrite Z.eqb_refl.
  cbn [assert_with_error mret M_ret]. unfold on_fst, zoom. cbn [snd fst]. by rewrite Hp.
Qed.

(** An authorized bundle that brings in more than an [i128] holds traps. *)
Lemma process_bundle_traps `{SdkLaws} (feat : Features) {X} `{!HostAuth X} (e : Env)
    (bundle : InternalBundle) (incoming expected : Z) (s : UtxoState) (x x' : X) (a : Address) :
  spendable (ledger_of s) (ib_spend bundle) → creatable (ledger_of s) (ib_create bundle) →
  us_auth s = Some a → frame_auth e (bundle_auth_args bundle) a x = Ok x' →
  0 ≤ incoming ≤ i128_max → i128_max < incoming + spent_total (ledger_of s) (ib_spend bundle) →
  UtxoHandler.process_bundle feat e bundle incoming expected (s, x)
  = Err (Trap ArithmeticOverflow).
Proof.
  intros Hs Hc Hauth Hreq Hi Hmax. pose proof (duplicate_guards bundle) as [Hd1 Hd2].
  apply spendable_NoDup_keys in Hs as Hnd1. apply creatable_NoDup_keys in Hc as Hnd2.
  unfold UtxoHandler.process_bundle, mbind, M_bind. fold (bundle_auth_args bundle).
  rewrite (proj2 Hd1 Hnd1), (proj2 Hd2 Hnd2). cbn [assert_with_error mret M_ret].
  unfold on_fst at 1, zoom at 1. cbn [fst]. rewrite (proj2 (auth_Ok s a s)) by done.
  unfold on_snd, zoom at 1. cbn [snd fst].
  rewrite (proj2 (require_auth_for_args_Ok e a (bundle_auth_args bundle) x tt x') Hreq).
  unfold on_fst at 1, zoom at 1. cbn [snd fst].
  by rewrite (spend_loop_traps feat e _ incoming s Hs Hi Hmax).
Qed.

(** ** Properties *)

(** C21. What a bundle that returns has done: its spends were distinct unspent entries and its
    creates distinct free keys with positive amounts; value was conserved (incoming plus spent
    equals created plus outgoing); the configured contract authorized exactly the bundle's
    requirements, once, before the storage was touched; afterwards the spent keys are
    tombstones, the created keys hold their amounts and no other entry changed; the events are
    the ones the features leave on, in order. *)
Theorem process_bundle_sound `{SdkLaws} (feat : Features) {X} `{!HostAuth X} (e : Env)
    (bundle : InternalBundle) (incoming expected : Z) (s s' : UtxoState) (x x' : X) (r : Z)
    (Hrun : UtxoHandler.process_bundle feat e bundle incoming expected (s, x)
            = Ok (r, (s', x'))) :
  let L := ledger_of s in
  spendable L (ib_spend bundle) ∧ creatable L (ib_create bundle) ∧
  incoming + spent_total L (ib_spend bundle) = created_total (ib_create bundle) + expected ∧
  r = expected ∧
  (∃ a, us_auth s = Some a ∧ frame_auth e (bundle_auth_args bundle) a x = Ok x') ∧
  ledger_of s' = bundle_ledger L (ib_spend bundle) (ib_create bundle) ∧
  us_auth s' = us_auth s ∧
  us_events s' = us_events s ++ spend_events feat L (ib_spend bundle)
    ++ create_events feat (ib_create bundle)
    ++ (if no_bundle_events feat then []
        else [BundleEvent "bundle" (ib_spend bundle) (ib_create bundle) incoming expected]).
Proof.
  apply process_bundle_Ok in Hrun as (? & ? & ? & ? & ? & ? & ? & ?). split_and!; assumption.
Qed.

(** A bundle moves the unspent total by exactly what came in less what went out, and every
    entry only moves forward: free, unspent with a fixed amount, spent. *)
Theorem process_bundle_conserves `{SdkLaws} (feat : Features) {X} `{!HostAuth X} (e : Env)
    (bundle : InternalBundle) (incoming expected : Z) (s s' : UtxoState) (x x' : X) (r : Z)
    (Hrun : UtxoHandler.process_bundle feat e bundle incoming expected (s, x)
            = Ok (r, (s', x'))) :
  total_unspent (ledger_of s') = total_unspent (ledger_of s) + incoming - expected ∧
  ledger_evolves (ledger_of s) (ledger_of s').
Proof.
  apply process_bundle_Ok in Hrun as (Hs & Hc & _ & Hbal & _ & HL & _). rewrite HL.
  unfold bundle_ledger. apply (creatable_after_spend _ _ _ Hs) in Hc. split.
  - rewrite total_created, total_spent by done. lia.
  - etrans; [by apply spends_evolve | by apply creates_evolve].
Qed.

(** Liveness: a balanced bundle of distinct unspent spends and distinct free creates with
    positive amounts, which the configured contract authorizes, is processed, provided the
    value involved fits in an [i128]: no other check and no overflow stops it. *)
Theorem process_bundle_complete `{SdkLaws} (feat : Features) {X} `{!HostAuth X} (e : Env)
    (bundle : InternalBundle) (incoming expected : Z) (s : UtxoState) (x x' : X) (a : Address)
    (Hs : spendable (ledger_of s) (ib_spend bundle))
    (Hc : creatable (ledger_of s) (ib_create bundle))
    (Hauth : us_auth s = Some a)
    (Hreq : frame_auth e (bundle_auth_args bundle) a x = Ok x')
    (Hbal : incoming + spent_total (ledger_of s) (ib_spend bundle)
            = created_total (ib_create bundle) + expected)
    (Hrange : 0 ≤ incoming ∧ 0 ≤ expected ∧
              incoming + spent_total (ledger_of s) (ib_spend bundle) ≤ i128_max) :
  ∃ s', UtxoHandler.process_bundle feat e bundle incoming expected (s, x)
        = Ok (expected, (s', x')).
Proof. exact (process_bundle_run feat e bundle incoming expected s x x' a Hs Hc Hauth Hreq Hbal Hrange). Qed.

(** C32. The errors of the guards, in their order: a repeated spend, a repeated create, a missing
    authorization contract; and a bundle that fails no guard but does not balance is rejected
    as unbalanced, whatever the authorization consumed. *)
Theorem process_bundle_rejects `{SdkLaws} (feat : Features) {X} `{!HostAuth X} (e : Env)
    (bundle : InternalBundle) (incoming expected : Z) (s : UtxoState) (x : X) :
  let run := UtxoHandler.process_bundle feat e bundle incoming expected (s, x) in
  (¬ NoDup (ib_spend bundle) → run = Err (ContractError RepeatedSpendUtxo)) ∧
  (NoDup (ib_spend bundle) → ¬ NoDup ((ib_create bundle).*1) →
   run = Err (ContractError RepeatedCreateUtxo)) ∧
  (NoDup (ib_spend bundle) → NoDup ((ib_create bundle).*1) → us_auth s = None →
   run = Err (ContractError AuthContractNotSet)) ∧
  (incoming + spent_total (ledger_of s) (ib_spend bundle)
     ≠ created_total (ib_create bundle) + expected → is_Ok run = false).
Proof.
  pose proof (duplicate_guards bundle) as [Hd1 Hd2]. intros run. unfold run. split_and!.
  - intros Hnd. rewrite <- Hd1, not_true_iff_false in Hnd.
    unfold UtxoHandler.process_bundle, mbind, M_bind. by rewrite Hnd.
  - intros H1 Hnd. rewrite <- Hd2, not_true_iff_false in Hnd.
    unfold UtxoHandler.process_bundle, mbind, M_bind. by rewrite (proj2 Hd1 H1), Hnd.
  - intros H1 H2 Ha. unfold UtxoHandler.process_bundle, mbind, M_bind.
    rewrite (proj2 Hd1 H1), (proj2 Hd2 H2). cbn [assert_with_error mret M_ret].
    unfold on_fst at 1, zoom at 1, UtxoHandler.auth, mbind, M_bind, get_state. cbn [fst].
    by rewrite Ha.
  - intros Hne. destruct (UtxoHandler.process_bundle feat e bundle incoming expected (s, x))
      as [[r [s' x']]|] eqn:E; [|done].
    apply process_bundle_Ok in E as (_ & _ & _ & Hbal & _). done.
Qed.

(** The requirements of a bundle with distinct spends are exactly its spends: the owner key
    of each spent utxo with the conditions listed for it, and no other signer. *)
Theorem calculate_auth_requirements_correct `{Sdk} (p256 : list (BytesN 65 * list Condition))
    (k : SignerKey) (conds : list Condition) (Hnd : NoDup (p256.*1)) :
  calculate_auth_requirements p256 !! k = Some conds ↔
  ∃ u, k = SKP256 u ∧ (u, conds) ∈ p256.
Proof.
  unfold calculate_auth_requirements. rewrite requirements_fold by done.
  destruct k as [v|v|v]; [|rewrite lookup_empty; naive_solver..].
  destruct (list_find (λ p : BytesN 65 * list Condition, p.1 = v) p256) as [[i [u cs]]|] eqn:E.
  - apply list_find_Some in E as (Hi & Hp & _). simpl in *. subst u. split.
    + intros [= <-]. exists v. split; [done|]. by eapply list_elem_of_lookup_2.
    + intros (w & [= <-] & Hin). f_equal.
      apply list_elem_of_lookup in Hin as [j Hj].
      assert (i = j) as ->; [|congruence].
      eapply (NoDup_lookup (p256.*1)); [done|..]; by rewrite list_lookup_fmap, ?Hi, ?Hj.
  - rewrite lookup_empty. split; [done|]. intros (w & [= <-] & Hin).
    apply list_find_None in E. rewrite Forall_forall in E. by destruct (E _ Hin).
Qed.

(** C33. The single-utxo operations of the trait are the ledger's: creating checks the key
    before the amount, spending returns the amount and leaves a tombstone, and neither asks
    anyone for authorization: their outcome is a function of the ledger alone. *)
Theorem single_operations_refine_ledger `{SdkLaws} (feat : Features) (e : Env) (u : BytesN 65)
    (amount : Z) (s : UtxoState) (Hwf : wf_ledger (ledger_of s)) :
  let k := Store.utxo_key u in
  let L := ledger_of s in
  match UtxoHandler.create feat e amount u s with
  | Ok (_, s') => ledger_create k amount L = Ok (ledger_of s') ∧ us_auth s' = us_auth s
  | Err f => f = ContractError (if decide (is_Some (L !! k)) then UtxoAlreadyExists
                                else InvalidCreateAmount) ∧
             (is_Some (L !! k) ∨ amount ≤ 0)
  end ∧
  match UtxoHandler.spend feat e u s with
  | Ok (a, s') => ledger_spend k L = Ok (a, ledger_of s') ∧ us_auth s' = us_auth s
  | Err f => ledger_spend k L = Err f
  end.
Proof.
  intros k L. split; [by apply single_create|]. pose proof (single_spend feat e u s) as Hs.
  destruct (UtxoHandler.spend feat e u s) as [[]|]; [done | by apply Hs].
Qed.
