(* ===== verification/Channel.v ===== *)
(** The Privacy Channel contract: contracts/privacy-channel/src/{storage,treasury,transact,
    contract}.rs.

    The contract's storage is [ChannelState]; its entry points run over [ChannelState * X].
    The asset is an arbitrary program: a transfer may call any entry point of the channel back,
    see what it returns (a failed call is rolled back), and go on.  Calls nest to a depth, the
    host's limit. *)
From S2P Require Import Prelude Errors Host Primitives Storage HostAuth UtxoCore.

Inductive ChannelEvent := ChannelUpgraded (wasm_hash : BytesN 32).

Record ChannelState `{Ownable} := mkChannelState {
  ch_own : OwnState;
  ch_upgrade : UpgradeState;
  ch_utxo : UtxoState;
  ch_asset : option Address;           (* PrivacyChannelDataKey::Asset *)
  ch_supply : option Z;                (* PrivacyChannelDataKey::Supply *)
  ch_live_until : Z;                   (* life of the instance *)
  ch_temporary : gmap string (Entry bool);
  ch_events : list ChannelEvent;
}.

Record ChannelOperation `{Sdk} := mkChannelOperation {
  op_spend : list (BytesN 65 * list Condition);
  op_create : list (BytesN 65 * Z);
  op_deposit : list (Address * Z * list Condition);
  op_withdraw : list (Address * Z * list Condition);
}.

Section setters.
Context `{Ownable}.
Implicit Types s : ChannelState.

Definition set_ch_own (o : OwnState) s : ChannelState :=
  mkChannelState _ _ o (ch_upgrade s) (ch_utxo s) (ch_asset s) (ch_supply s)
    (ch_live_until s) (ch_temporary s) (ch_events s).
Definition set_ch_upgrade (u : UpgradeState) s : ChannelState :=
  mkChannelState _ _ (ch_own s) u (ch_utxo s) (ch_asset s) (ch_supply s)
    (ch_live_until s) (ch_temporary s) (ch_events s).
Definition set_ch_utxo (u : UtxoState) s : ChannelState :=
  mkChannelState _ _ (ch_own s) (ch_upgrade s) u (ch_asset s) (ch_supply s)
    (ch_live_until s) (ch_temporary s) (ch_events s).
Definition set_ch_asset (a : option Address) s : ChannelState :=
  mkChannelState _ _ (ch_own s) (ch_upgrade s) (ch_utxo s) a (ch_supply s)
    (ch_live_until s) (ch_temporary s) (ch_events s).
Definition set_ch_supply (z : option Z) s : ChannelState :=
  mkChannelState _ _ (ch_own s) (ch_upgrade s) (ch_utxo s) (ch_asset s) z
    (ch_live_until s) (ch_temporary s) (ch_events s).
Definition set_ch_live_until (l : Z) s : ChannelState :=
  mkChannelState _ _ (ch_own s) (ch_upgrade s) (ch_utxo s) (ch_asset s) (ch_supply s)
    l (ch_temporary s) (ch_events s).
Definition set_ch_temporary (t : gmap string (Entry bool)) s : ChannelState :=
  mkChannelState _ _ (ch_own s) (ch_upgrade s) (ch_utxo s) (ch_asset s) (ch_supply s)
    (ch_live_until s) t (ch_events s).
Definition set_ch_events (evs : list ChannelEvent) s : ChannelState :=
  mkChannelState _ _ (ch_own s) (ch_upgrade s) (ch_utxo s) (ch_asset s) (ch_supply s)
    (ch_live_until s) (ch_temporary s) evs.
End setters.

(** ** storage.rs and treasury.rs *)

Section treasury.
Context `{Ownable}.

Definition write_asset_unchecked (asset : Address) : M ChannelState unit :=
  modify (set_ch_asset (Some asset)).
Definition read_asset : M ChannelState Address :=
  s ← get_state; lift (unwrap (ch_asset s)).
Definition write_supply_unchecked (supply : Z) : M ChannelState unit :=
  modify (set_ch_supply (Some supply)).
Definition read_supply : M ChannelState Z := s ← get_state; mret (default 0 (ch_supply s)).

Definition increase_supply (amount : Z) : M ChannelState unit :=
  supply ← read_supply;
  match checked_add supply amount with
  | Some new_supply => write_supply_unchecked new_supply
  | None => panic_with_error AmountOverflow
  end.

Definition decrease_supply (amount : Z) : M ChannelState unit :=
  supply ← read_supply;
  match checked_sub supply amount with
  | Some new_supply => write_supply_unchecked new_supply
  | None => panic_with_error AmountUnderflow
  end.
End treasury.

(** ** transact.rs, the checks before anything is executed *)

Section pre_process.
Context `{ConditionXdr}.

(** The loop of [op_has_no_conflicting_conditions]. *)
Fixpoint conflict_free_loop (conditions_to_check verified_conditions : list Condition) : bool :=
  match conditions_to_check with
  | [] => true
  | cond :: rest =>
      if negb (condition_does_not_conflict_with_set cond verified_conditions) then false
      else conflict_free_loop rest (verified_conditions ++ [cond])
  end.

Definition op_conditions (op : ChannelOperation) : list Condition :=
  mjoin (snd <$> op_spend op) ++ mjoin (snd <$> op_deposit op)
    ++ mjoin (snd <$> op_withdraw op).

Definition op_has_no_conflicting_conditions (op : ChannelOperation) : bool :=
  conflict_free_loop (op_conditions op) [].

(** The two summation loops of [pre_process_channel_operation]. *)
Definition total_step (total : Z) (entry : Address * Z * list Condition) : res Z :=
  let '(_, amt, _) := entry in
  ensure (amt >? 0) InvalidExternalAmount ;;
  match checked_add total amt with
  | Some v => Ok v
  | None => throw AmountOverflow
  end.

Definition is_execution_bound (cond : Condition) : bool :=
  match cond with Create _ _ | ExtWithdraw _ _ => true | _ => false end.

Definition collect_conditions (set : gmap Bytes unit) (conds : list Condition) :
    gmap Bytes unit :=
  foldl (λ set cond, if is_execution_bound cond then <[to_xdr cond := tt]> set else set)
    set conds.

Definition collect_authorized_effects (set : gmap Bytes unit)
    (spend : list (BytesN 65 * list Condition)) : gmap Bytes unit :=
  foldl (λ set '(_, conds), collect_conditions set conds) set spend.

Definition collect_authorized_effects_from_external (set : gmap Bytes unit)
    (external : list (Address * Z * list Condition)) : gmap Bytes unit :=
  foldl (λ set '(_, _, conds), collect_conditions set conds) set external.

Definition assert_signed_effects_are_executed (op : ChannelOperation) : res unit :=
  let authorized := collect_authorized_effects ∅ (op_spend op) in
  let authorized := collect_authorized_effects_from_external authorized (op_deposit op) in
  let executed : gmap Bytes unit :=
    foldl (λ set '(utxo, amount), <[to_xdr (Create utxo amount) := tt]> set)
      ∅ (op_create op) in
  let executed :=
    foldl (λ set '(addr, amount, _), <[to_xdr (ExtWithdraw addr amount) := tt]> set)
      executed (op_withdraw op) in
  (* the iteration order of the keys does not matter: every failure is the same error *)
  each (map_to_list authorized).*1
    (λ key, ensure (bool_decide (is_Some (executed !! key))) UnauthorizedOperation).

Definition verify_external_operations (deposit withdraw : list (Address * Z * list Condition))
    : res unit :=
  ensure (no_duplicate_addresses deposit (λ '(addr, _, _), addr)) RepeatedAccountForDeposit ;;
  ensure (no_duplicate_addresses withdraw (λ '(addr, _, _), addr)) RepeatedAccountForWithdraw ;;
  each deposit (λ '(dep_addr, _, dep_conds),
    each withdraw (λ '(with_addr, _, with_conds),
      if bool_decide (dep_addr = with_addr) then
        ensure (equal_condition_sequence dep_conds with_conds) ConflictingConditionsForAccount
      else Ok tt)).

Definition pre_process_channel_operation (op : ChannelOperation) :
    res (InternalBundle * Z * Z) :=
  ensure (op_has_no_conflicting_conditions op) BundleHasConflictingConditions ;;
  total_deposit ← fold_res total_step (op_deposit op) 0;
  total_withdraw ← fold_res total_step (op_withdraw op) 0;
  verify_external_operations (op_deposit op) (op_withdraw op) ;;
  assert_signed_effects_are_executed op ;;
  let auth_req := calculate_auth_requirements (op_spend op) in
  let spend := fst <$> op_spend op in
  Ok (mkInternalBundle _ spend (op_create op) auth_req, total_deposit, total_withdraw).
End pre_process.

(** ** The asset as a program *)

(** The calls other contracts can make, and what they return. *)
Inductive ChannelCall `{Sdk} :=
  | CcTransact (op : ChannelOperation)
  | CcSetAdmin (new_admin : Address)
  | CcAcceptAdmin
  | CcUpgrade (wasm_hash : BytesN 32)
  | CcUtxoBalance (utxo : BytesN 65)
  | CcUtxoBalances (utxos : list (BytesN 65))
  | CcAdmin
  | CcAuth
  | CcAsset
  | CcSupply.

Inductive ChannelRet `{Sdk} :=
  | RetUnit
  | RetInt (z : Z)
  | RetInts (l : list Z)
  | RetAddress (a : Address).

(** A transfer of the asset: it ends, or it makes a call to the channel and continues with the
    result. *)
Inductive asset_run `{Sdk} (X : Type) :=
  | AssetDone (r : res X)
  | AssetCalls (c : ChannelCall) (x : X) (k : res (ChannelRet * X) → asset_run X).
Arguments AssetDone {_ X} _.
Arguments AssetCalls {_ X} _ _ _.

Class Asset `{Sdk} (X : Type) :=
  asset_transfer : Env → Address → Address → Address → Z → X → asset_run X.

Section run_asset.
Context `{Ownable} {X : Type} (callee : ChannelCall → M (ChannelState * X) ChannelRet).

Fixpoint run_asset (p : asset_run X) (s : ChannelState) : res (unit * (ChannelState * X)) :=
  match p with
  | AssetDone (Ok x) => Ok (tt, (s, x))
  | AssetDone (Err f) => Err f
  | AssetCalls c x k =>
      match callee c (s, x) with
      | Ok (r, (s', x')) => run_asset (k (Ok (r, x'))) s'
      | Err f => run_asset (k (Err f)) s
      end
  end.
End run_asset.

(** ** transact.rs, execution, and contract.rs *)

Module PrivacyChannelContract.
Section contract.
Context `{Ownable} `{!ConditionXdr} {X : Type} `{!HostAuth X} `{!Asset X}.
Implicit Types (e : Env) (s : ChannelState).

Definition DAY_IN_LEDGERS : Z := 17280.
Definition INSTANCE_BUMP_AMOUNT : Z := 7 * DAY_IN_LEDGERS.
Definition INSTANCE_LIFETIME_THRESHOLD : Z := INSTANCE_BUMP_AMOUNT - DAY_IN_LEDGERS.
Definition REENTRANCY_GUARD : string := "RGUARD".

(** The features the contract's Cargo.toml turns on. *)
Definition channel_features : Features := mkFeatures true true.

Definition bump_instance_ttl e : M ChannelState unit :=
  s ← get_state;
  live ← lift (extend_instance_ttl e INSTANCE_LIFETIME_THRESHOLD INSTANCE_BUMP_AMOUNT
                 (ch_live_until s));
  put_state (set_ch_live_until live s).

Definition enter_reentrancy_guard e : M ChannelState unit :=
  s ← get_state;
  (if temporary_get e REENTRANCY_GUARD (ch_temporary s) is Some _
   then panic_with_error ReentrantCall else mret tt) ;;
  put_state (set_ch_temporary (temporary_set e REENTRANCY_GUARD true (ch_temporary s)) s).

Definition exit_reentrancy_guard : M ChannelState unit :=
  modify (λ s, set_ch_temporary (delete REENTRANCY_GUARD (ch_temporary s)) s).

(** Code of the utxo trait, on this contract's storage. *)
Definition on_utxo {A} (m : M UtxoState A) : M ChannelState A := zoom ch_utxo set_ch_utxo m.
Definition on_utxo_world {A} (m : M (UtxoState * X) A) : M (ChannelState * X) A :=
  zoom (λ w, (ch_utxo w.1, w.2)) (λ u w, (set_ch_utxo u.1 w.1, u.2)) m.

Definition own_call (f : OwnState * X → res (OwnState * X)) : M (ChannelState * X) unit :=
  λ '(s, x), '(o, x') ← f (ch_own s, x); Ok (tt, (set_ch_own o s, x')).

(** [asset_client.transfer(from, to, amount)]. *)
Definition transfer (callee : ChannelCall → M (ChannelState * X) ChannelRet) e
    (asset from to : Address) (amount : Z) : M (ChannelState * X) unit :=
  λ '(s, x), run_asset callee (asset_transfer e asset from to amount x) s.

(** The two loop bodies of [execute_external_operations]. *)
Definition deposit_step callee e (asset : Address) (d : Address * Z * list Condition)
    : M (ChannelState * X) unit :=
  let '(from, amount, deposit_conditions) := d in
  on_snd (require_auth_for_args e from [VConditions deposit_conditions]) ;;
  transfer callee e asset from (current_contract_address e) amount ;;
  on_fst (increase_supply amount).

Definition withdraw_step callee e (asset : Address) (w : Address * Z * list Condition)
    : M (ChannelState * X) unit :=
  let '(to, amount, _) := w in
  let args_val := [VAddress (current_contract_address e); VAddress to; VI128 amount] in
  on_snd (λ x, x' ← authorize_as_current_contract e
                      [mkContractContext _ asset "transfer" args_val] x; Ok (tt, x')) ;;
  transfer callee e asset (current_contract_address e) to amount ;;
  on_fst (decrease_supply amount).

Definition execute_external_operations callee e
    (deposit withdraw : list (Address * Z * list Condition)) : M (ChannelState * X) unit :=
  asset ← on_fst read_asset;
  for_each deposit (deposit_step callee e asset) ;;
  for_each withdraw (withdraw_step callee e asset).

Definition __constructor e (admin auth_contract asset : Address)
    : M (ChannelState * X) unit :=
  on_fst (s ← get_state; o ← lift (set_owner e admin (ch_own s)); put_state (set_ch_own o s)) ;;
  own_call (enforce_owner_auth
    (frame_auth e [VAddress admin; VAddress auth_contract; VAddress asset]) e) ;;
  on_fst (on_utxo (UtxoHandler.set_auth auth_contract)) ;;
  on_fst (write_asset_unchecked asset) ;;
  on_fst (bump_instance_ttl e).

Definition admin : M ChannelState Address :=
  s ← get_state; lift (unwrap (get_owner (ch_own s))).

Definition set_admin e (new_admin : Address) : M (ChannelState * X) unit :=
  own_call (transfer_ownership (frame_auth e [VAddress new_admin]) e new_admin
              (max_live_until_ledger e)).

Definition accept_admin e : M (ChannelState * X) unit :=
  own_call (accept_ownership (frame_auth e []) e).

Definition upgrade e (wasm_hash : BytesN 32) : M (ChannelState * X) unit :=
  own_call (enforce_owner_auth (frame_auth e [VOther (to_array wasm_hash)]) e) ;;
  on_fst (modify (λ s, set_ch_events (ch_events s ++ [ChannelUpgraded wasm_hash]) s)) ;;
  on_fst (s ← get_state;
          u ← lift (upgrade_wasm e wasm_hash (ch_upgrade s));
          put_state (set_ch_upgrade u s)).

Definition auth : M ChannelState Address := on_utxo UtxoHandler.auth.
Definition utxo_balance e (utxo : BytesN 65) : M ChannelState Z :=
  on_utxo (UtxoHandler.utxo_balance e utxo).
Definition utxo_balances e (utxos : list (BytesN 65)) : M ChannelState (list Z) :=
  on_utxo (UtxoHandler.utxo_balances e utxos).
Definition asset : M ChannelState Address := read_asset.
Definition supply : M ChannelState Z := read_supply.

Definition transact callee e (op : ChannelOperation) : M (ChannelState * X) unit :=
  on_fst (bump_instance_ttl e) ;;
  on_fst (enter_reentrancy_guard e) ;;
  '(utxo_op, total_deposit, total_withdraw) ← lift (pre_process_channel_operation op);
  on_utxo_world (UtxoHandler.process_bundle channel_features e utxo_op total_deposit
                   total_withdraw) ;;
  execute_external_operations callee e (op_deposit op) (op_withdraw op) ;;
  on_fst exit_reentrancy_guard.

(** The frame of a call. *)
Definition call_name (c : ChannelCall) : string :=
  match c with
  | CcTransact _ => "transact"
  | CcSetAdmin _ => "set_admin"
  | CcAcceptAdmin => "accept_admin"
  | CcUpgrade _ => "upgrade"
  | CcUtxoBalance _ => "utxo_balance"
  | CcUtxoBalances _ => "utxo_balances"
  | CcAdmin => "admin"
  | CcAuth => "auth"
  | CcAsset => "asset"
  | CcSupply => "supply"
  end.
Definition enter_frame e (c : ChannelCall) : Env :=
  mkEnv _ (ledger_sequence e) (max_live_until_ledger e) (min_persistent_ttl e)
    (min_temporary_ttl e) (current_contract_address e) (call_name c).

(** One call from outside, [depth] nested calls of [transact] allowed. *)
Fixpoint channel_call (depth : nat) e (c : ChannelCall) : M (ChannelState * X) ChannelRet :=
  let e := enter_frame e c in
  match c with
  | CcTransact op =>
      match depth with
      | O => fail_with (Trap CallDepthExceeded)
      | S depth => transact (channel_call depth e) e op ;; mret RetUnit
      end
  | CcSetAdmin a => set_admin e a ;; mret RetUnit
  | CcAcceptAdmin => accept_admin e ;; mret RetUnit
  | CcUpgrade h => upgrade e h ;; mret RetUnit
  | CcUtxoBalance u => b ← on_fst (utxo_balance e u); mret (RetInt b)
  | CcUtxoBalances us => bs ← on_fst (utxo_balances e us); mret (RetInts bs)
  | CcAdmin => a ← on_fst admin; mret (RetAddress a)
  | CcAuth => a ← on_fst auth; mret (RetAddress a)
  | CcAsset => a ← on_fst asset; mret (RetAddress a)
  | CcSupply => z ← on_fst supply; mret (RetInt z)
  end.

(** The same with nothing said of how deep: one call, in which the asset's calls are [callee]'s. *)
Definition call_body (callee : ChannelCall → M (ChannelState * X) ChannelRet) e (c : ChannelCall)
    : M (ChannelState * X) ChannelRet :=
  match c with
  | CcTransact op => transact callee (enter_frame e c) op ;; mret RetUnit
  | _ => channel_call 0 e c
  end.
End contract.
End PrivacyChannelContract.

(** ** What the checks and the calls mean *)

Section meaning.
Context `{Ownable} `{!ConditionXdr}.
Implicit Types (op : ChannelOperation) (s : ChannelState).

(** The effects a bundle executes, as conditions. *)
Definition executed_effects op : list Condition :=
  ((λ p, Create p.1 p.2) <$> op_create op)
    ++ ((λ p, ExtWithdraw p.1.1 p.1.2) <$> op_withdraw op).

(** The effects that owners (spend side) and depositors signed for. *)
Definition signed_effects op : list Condition :=
  filter (λ c, is_execution_bound c = true)
    (mjoin (snd <$> op_spend op) ++ mjoin (snd <$> op_deposit op)).

Definition external_total (l : list (Address * Z * list Condition)) : Z :=
  sumZ (λ p, p.1.2) l.

Definition external_ok (l : list (Address * Z * list Condition)) : Prop :=
  Forall (λ p, 0 < p.1.2) l ∧ external_total l ≤ i128_max ∧ NoDup (l.*1.*1).

(** The operation passes every check that precedes execution. *)
Definition op_valid op : Prop :=
  (∀ c d, c ∈ op_conditions op → d ∈ op_conditions op → ¬ conflict c d) ∧
  external_ok (op_deposit op) ∧ external_ok (op_withdraw op) ∧
  (∀ a x y cs ds, (a, x, cs) ∈ op_deposit op → (a, y, ds) ∈ op_withdraw op → cs = ds) ∧
  (∀ c, c ∈ signed_effects op → c ∈ executed_effects op).

(** The internal bundle of an operation. *)
Definition op_bundle op : InternalBundle :=
  mkInternalBundle _ ((op_spend op).*1) (op_create op)
    (calculate_auth_requirements (op_spend op)).

Definition ch_ledger s : Ledger := ledger_of (ch_utxo s).
Definition ch_total_supply s : Z := default 0 (ch_supply s).

(** The reentrancy flag is up. *)
Definition guarded (e : Env) s : Prop :=
  is_Some (temporary_get e PrivacyChannelContract.REENTRANCY_GUARD (ch_temporary s)).

(** Two states with the same funds, bindings and guard. *)
Definition same_funds s s' : Prop :=
  ch_ledger s' = ch_ledger s ∧ ch_supply s' = ch_supply s ∧ ch_asset s' = ch_asset s ∧
  us_auth (ch_utxo s') = us_auth (ch_utxo s) ∧ ch_temporary s' = ch_temporary s ∧
  us_events (ch_utxo s') = us_events (ch_utxo s).
End meaning.

(** ** Histories *)

Section history.
Context `{Ownable} `{!ConditionXdr} {X : Type} `{!HostAuth X} `{!Asset X}.
Import PrivacyChannelContract.

(** A contract instance before its constructor ran. *)
Definition channel_init (live : Z) : ChannelState :=
  mkChannelState _ _ own_init upgrade_init (mkUtxoState _ ∅ None []) None None live ∅ [].

(** The states of a channel deployed with these addresses: calls come from anyone, in any
    order, in any outside state; a failed call leaves the state. *)
Inductive channel_reachable (admin auth_contract asset : Address) : ChannelState → Prop :=
  | reach_deploy e live (x x' : X) s :
      __constructor e admin auth_contract asset (channel_init live, x) = Ok (tt, (s, x')) →
      channel_reachable admin auth_contract asset s
  | reach_call depth e c (x x' : X) r s s' :
      channel_reachable admin auth_contract asset s →
      1 ≤ min_temporary_ttl e →
      channel_call depth e c (s, x) = Ok (r, (s', x')) →
      channel_reachable admin auth_contract asset s'.
End history.
