(* ===== verification/ChannelSpec.v ===== *)
(** The Privacy Channel's correctness: what the checks of [transact] accept, the frame of
    re-entrant calls, the refinement of the unspent-output ledger and of the supply, the
    termination of nested calls, and the properties of whole histories. *)
From S2P Require Import Prelude Errors Host Primitives Storage HostAuth UtxoCore Channel.

(** ** Lemmas: the checks *)

Section check_lemmas.
Context `{ConditionXdrLaws}.

Lemma conflict_free_loop_true l seen :
  (∀ c d, c ∈ seen → d ∈ seen → ¬ conflict c d) →
  conflict_free_loop l seen = true ↔
  ∀ c d, c ∈ seen ++ l → d ∈ seen ++ l → ¬ conflict c d.
Proof.
  revert seen. induction l as [|x l IH]; intros seen Hseen; simpl.
  { rewrite app_nil_r. by split. }
  destruct (condition_does_not_conflict_with_set x seen) eqn:E; simpl.
  - apply does_not_conflict_true in E. rewrite Forall_forall in E.
    rewrite IH, <- app_assoc; [done|]. intros c d Hc Hd Hx.
    rewrite elem_of_app, list_elem_of_singleton in Hc, Hd.
    destruct Hc as [Hc| ->], Hd as [Hd| ->].
    + by apply (Hseen c d).
    + by apply (E c).
    + apply (E d); [done | by apply conflict_sym].
    + by apply conflict_irrefl in Hx.
  - split; [done|]. intros Hall. rewrite <- E. apply does_not_conflict_true, Forall_forall.
    intros c Hc. apply Hall; set_solver.
Qed.

Lemma total_loop_Ok l t r :
  0 ≤ t ≤ i128_max →
  fold_res total_step l t = Ok r ↔
  Forall (λ p, 0 < p.1.2) l ∧ r = t + external_total l ∧ t + external_total l ≤ i128_max.
Proof.
  revert t. induction l as [|[[a x] cs] l IH]; intros t Ht; simpl.
  { unfold external_total. simpl. rewrite Z.add_0_r. split.
    - intros [= ->]. split_and!; [constructor | done | lia].
    - by intros (_ & -> & _). }
  rewrite Forall_cons. unfold external_total in *. simpl.
  destruct (Z.gtb_spec x 0) as [Hx|Hx]; simpl; [|split; [done | lia]].
  unfold checked_add. destruct (in_i128 (t + x)) eqn:E; simpl.
  - apply in_i128_spec in E. rewrite IH by lia. rewrite Z.add_assoc. naive_solver lia.
  - split; [done|]. intros ([_ Hall] & _ & Hmax). exfalso.
    assert (0 ≤ sumZ (λ p : Address * Z * list Condition, p.1.2) l).
    { apply sumZ_nonneg. eapply Forall_impl; [done|]. simpl. lia. }
    assert (in_i128 (t + x) = true); [|congruence].
    apply in_i128_spec. unfold i128_min. lia.
Qed.

Lemma collect_conditions_lookup conds set k :
  is_Some (collect_conditions set conds !! k) ↔
  is_Some (set !! k) ∨ ∃ c, c ∈ conds ∧ is_execution_bound c = true ∧ to_xdr c = k.
Proof.
  unfold collect_conditions. revert set. induction conds as [|c conds IH]; intros set; simpl.
  { set_solver. }
  rewrite IH. setoid_rewrite elem_of_cons. destruct (is_execution_bound c) eqn:E.
  - rewrite lookup_insert_is_Some'. split.
    + intros [[<-|?]|(d & ? & ? & ?)]; eauto 10.
    + intros [?|(d & [->|?] & ? & ?)]; eauto 10.
  - split.
    + intros [?|(d & ? & ? & ?)]; eauto 10.
    + intros [?|(d & [->|?] & ? & ?)]; [by left | congruence | eauto 10].
Qed.

Lemma collect_authorized_lookup (l : list (BytesN 65 * list Condition)) set k :
  is_Some (collect_authorized_effects set l !! k) ↔
  is_Some (set !! k) ∨
  ∃ c, c ∈ mjoin (snd <$> l) ∧ is_execution_bound c = true ∧ to_xdr c = k.
Proof.
  unfold collect_authorized_effects. revert set.
  induction l as [|[u cs] l IH]; intros set; simpl; [set_solver|].
  rewrite IH, collect_conditions_lookup. setoid_rewrite elem_of_app. naive_solver.
Qed.

Lemma collect_external_lookup (l : list (Address * Z * list Condition)) set k :
  is_Some (collect_authorized_effects_from_external set l !! k) ↔
  is_Some (set !! k) ∨
  ∃ c, c ∈ mjoin (snd <$> l) ∧ is_execution_bound c = true ∧ to_xdr c = k.
Proof.
  unfold collect_authorized_effects_from_external. revert set.
  induction l as [|[[a x] cs] l IH]; intros set; simpl; [set_solver|].
  rewrite IH, collect_conditions_lookup. setoid_rewrite elem_of_app. naive_solver.
Qed.

Lemma executed_lookup op k :
  is_Some (foldl (λ set '(addr, amount, _), <[to_xdr (ExtWithdraw addr amount) := tt]> set)
    (foldl (λ set '(utxo, amount), <[to_xdr (Create utxo amount) := tt]> set)
      (∅ : gmap Bytes unit) (op_create op)) (op_withdraw op) !! k) ↔
  ∃ c, c ∈ executed_effects op ∧ to_xdr c = k.
Proof.
  assert (Hcr : ∀ (l : list (BytesN 65 * Z)) (m : gmap Bytes unit),
    is_Some (foldl (λ set '(utxo, amount), <[to_xdr (Create utxo amount) := tt]> set) m l !! k)
    ↔ is_Some (m !! k) ∨ ∃ c, c ∈ (λ p, Create p.1 p.2) <$> l ∧ to_xdr c = k).
  { induction l as [|[u a] l IH]; intros m; simpl; [set_solver|].
    rewrite IH, lookup_insert_is_Some'. setoid_rewrite elem_of_cons. split.
    - intros [[<-|?]|(d & ? & ?)]; eauto 10.
    - intros [?|(d & [->|?] & ?)]; eauto 10. }
  assert (Hwd : ∀ (l : list (Address * Z * list Condition)) (m : gmap Bytes unit),
    is_Some (foldl (λ set '(a, x, _), <[to_xdr (ExtWithdraw a x) := tt]> set) m l !! k)
    ↔ is_Some (m !! k) ∨ ∃ c, c ∈ (λ p, ExtWithdraw p.1.1 p.1.2) <$> l ∧ to_xdr c = k).
  { induction l as [|[[u a] cs] l IH]; intros m; simpl; [set_solver|].
    rewrite IH, lookup_insert_is_Some'. setoid_rewrite elem_of_cons. split.
    - intros [[<-|?]|(d & ? & ?)]; eauto 10.
    - intros [?|(d & [->|?] & ?)]; eauto 10. }
  rewrite Hwd, Hcr, lookup_empty. unfold executed_effects. setoid_rewrite elem_of_app.
  split; [intros [[[]|(c & ? & ?)]|(c & ? & ?)]; (done || eauto) | intros (c & [?|?] & ?); eauto 10].
Qed.

Lemma elem_of_effect_keys (m : gmap Bytes unit) k :
  k ∈ (map_to_list m).*1 ↔ is_Some (m !! k).
Proof.
  rewrite list_elem_of_fmap. split.
  - intros ([k' v] & -> & Hk). apply elem_of_map_to_list in Hk. by exists v.
  - intros [v Hv]. exists (k, v). by rewrite elem_of_map_to_list.
Qed.

Lemma assert_signed_Ok op :
  assert_signed_effects_are_executed op = Ok tt ↔
  ∀ c, c ∈ signed_effects op → c ∈ executed_effects op.
Proof.
  unfold assert_signed_effects_are_executed. rewrite each_Ok.
  assert (Hauth : ∀ k, k ∈ (map_to_list (collect_authorized_effects_from_external
      (collect_authorized_effects ∅ (op_spend op)) (op_deposit op))).*1 ↔
    ∃ c, c ∈ signed_effects op ∧ to_xdr c = k).
  { intros k. rewrite elem_of_effect_keys, collect_external_lookup.
    rewrite collect_authorized_lookup, lookup_empty. unfold signed_effects.
    setoid_rewrite list_elem_of_filter. setoid_rewrite elem_of_app. split.
    - intros [[[]|(c & ? & ? & ?)]|(c & ? & ? & ?)]; [done|..]; exists c; auto.
    - intros (c & [? [?|?]] & ?); [left; right | right]; exists c; auto. }
  setoid_rewrite Hauth. setoid_rewrite ensure_Ok. setoid_rewrite bool_decide_eq_true.
  setoid_rewrite executed_lookup. split.
  - intros Hall c Hc. destruct (Hall (to_xdr c)) as (d & Hd & E); [eauto|].
    by apply to_xdr_inj in E as ->.
  - intros Hall k (c & Hc & <-). eauto.
Qed.

Lemma verify_external_Ok (dep wd : list (Address * Z * list Condition)) :
  verify_external_operations dep wd = Ok tt ↔
  NoDup (dep.*1.*1) ∧ NoDup (wd.*1.*1) ∧
  ∀ a x y cs ds, (a, x, cs) ∈ dep → (a, y, ds) ∈ wd → cs = ds.
Proof.
  assert (Hkey : ∀ l : list (Address * Z * list Condition),
    no_duplicate_addresses l (λ '(addr, _, _), addr) = true ↔ NoDup (l.*1.*1)).
  { intros l. unfold no_duplicate_addresses. rewrite no_duplicates_true, <- list_fmap_compose.
    assert ((λ '(addr, _, _), addr) <$> l = (fst ∘ fst) <$> l) as ->; [|done].
    by apply list_fmap_ext; intros ? [[??]?]. }
  unfold verify_external_operations. split.
  - intros Hrun. inv_M. rewrite each_Ok in Hrun. split_and!; [by apply Hkey..|].
    intros a2 x y cs ds Hin Hin'.
    specialize (Hrun _ Hin). simpl in Hrun. rewrite each_Ok in Hrun.
    specialize (Hrun _ Hin'). simpl in Hrun.
    rewrite bool_decide_eq_true_2 in Hrun by done.
    by apply ensure_Ok, equal_condition_sequence_true in Hrun.
  - intros (Hd & Hw & Hall). apply Hkey in Hd, Hw. rewrite Hd, Hw. simpl.
    apply each_Ok. intros [[a x] cs] Hin. apply each_Ok. intros [[b y] ds] Hin'.
    case_bool_decide as Hab; [|done]. subst.
    by apply ensure_Ok, equal_condition_sequence_true, (Hall b x y).
Qed.

(** What the checks accept, and what they produce. *)
Lemma pre_process_Ok op b td tw :
  pre_process_channel_operation op = Ok (b, td, tw) ↔
  op_valid op ∧ b = op_bundle op ∧
  td = external_total (op_deposit op) ∧ tw = external_total (op_withdraw op).
Proof.
  assert (Hzero : 0 ≤ 0 ≤ i128_max) by (unfold i128_max; lia).
  unfold pre_process_channel_operation, op_has_no_conflicting_conditions. split.
  - intros Hrun. inv_M.
    match goal with Hc : conflict_free_loop _ _ = true |- _ => rename Hc into Hfree end.
    rewrite conflict_free_loop_true in Hfree by set_solver.
    repeat match goal with
    | Hf : fold_res total_step _ _ = Ok _ |- _ => apply total_loop_Ok in Hf; [|done]
    | u : unit |- _ => destruct u
    | Hv : verify_external_operations _ _ = Ok tt |- _ => apply verify_external_Ok in Hv
    end.
    destruct_and?. simplify_eq. split_and!; [|done..].
    match goal with
    | Ha : assert_signed_effects_are_executed _ = Ok tt |- _ => rewrite assert_signed_Ok in Ha
    end.
    unfold op_valid, external_ok. by split_and!.
  - intros ((Hfree & (Hdp & Hdm & Hdn) & (Hwp & Hwm & Hwn) & Hext & Hsig) & -> & -> & ->).
    assert (conflict_free_loop (op_conditions op) [] = true) as ->.
    { apply conflict_free_loop_true; [set_solver | done]. }
    assert (fold_res total_step (op_deposit op) 0 = Ok (external_total (op_deposit op))) as ->.
    { by apply total_loop_Ok. }
    assert (fold_res total_step (op_withdraw op) 0 = Ok (external_total (op_withdraw op))) as ->.
    { by apply total_loop_Ok. }
    assert (verify_external_operations (op_deposit op) (op_withdraw op) = Ok tt) as ->.
    { by apply verify_external_Ok. }
    assert (assert_signed_effects_are_executed op = Ok tt) as ->; [by apply assert_signed_Ok|].
    done.
Qed.
End check_lemmas.

(** ** Lemmas: the frame of calls made while the guard is up *)

Section frame.
Context `{Ownable} `{!SdkLaws} `{!ConditionXdr} {X : Type} `{!HostAuth X} `{!Asset X}.
Implicit Types (e : Env) (s : ChannelState) (x : X) (op : ChannelOperation).
Import PrivacyChannelContract.

#[export] Instance same_funds_preorder : PreOrder (same_funds (H0:=H0)).
Proof.
  split; [by intros s|]. intros s1 s2 s3. unfold same_funds. intuition congruence.
Qed.

Lemma same_funds_guarded e s s' : same_funds s s' → guarded e s → guarded e s'.
Proof. unfold guarded. by intros (_ & _ & _ & _ & -> & _). Qed.

Lemma guarded_frame e c s : guarded (enter_frame e c) s ↔ guarded e s.
Proof. done. Qed.

(** The instance's life is always extended without failing. *)
Lemma bump_instance_ttl_run e s :
  ∃ live, bump_instance_ttl e s = Ok (tt, set_ch_live_until live s).
Proof.
  unfold bump_instance_ttl, extend_instance_ttl, mbind, M_bind, get_state, lift, put_state.
  pose proof max_entry_ttl_bound as Hmax.
  destruct (ttl_extend_accepts InstanceStorage (ledger_sequence e) (ch_live_until s)
    INSTANCE_LIFETIME_THRESHOLD INSTANCE_BUMP_AMOUNT) as [live ->]; [|by eauto].
  unfold INSTANCE_LIFETIME_THRESHOLD, INSTANCE_BUMP_AMOUNT, DAY_IN_LEDGERS. lia.
Qed.

Lemma channel_bump_Ok e s u s' :
  bump_instance_ttl e s = Ok (u, s') → ∃ live, s' = set_ch_live_until live s.
Proof. destruct (bump_instance_ttl_run e s) as [live ->]. intros [= _ <-]. eauto. Qed.

Lemma enter_guard_Ok e s u s' :
  enter_reentrancy_guard e s = Ok (u, s') ↔
  ¬ guarded e s ∧
  s' = set_ch_temporary (temporary_set e REENTRANCY_GUARD true (ch_temporary s)) s.
Proof.
  unfold enter_reentrancy_guard, guarded, mbind, M_bind, get_state.
  destruct (temporary_get e REENTRANCY_GUARD (ch_temporary s)) as [b|]; simpl.
  - split; [done|]. intros [[] _]. eauto.
  - unfold mret, M_ret, put_state. destruct u. split; [|by intros [_ ->]].
    intros [= <-]. split; [by intros [] | done].
Qed.

Lemma guarded_enter e s :
  guarded e s → enter_reentrancy_guard e s = Err (ContractError ReentrantCall).
Proof.
  intros [b Hb]. unfold enter_reentrancy_guard, mbind, M_bind, get_state. by rewrite Hb.
Qed.

Lemma temporary_set_guarded e s :
  1 ≤ min_temporary_ttl e →
  guarded e (set_ch_temporary (temporary_set e REENTRANCY_GUARD true (ch_temporary s)) s).
Proof.
  intros Hmin. unfold guarded, temporary_set. cbn [ch_temporary set_ch_temporary].
  destruct (temporary_get e REENTRANCY_GUARD (ch_temporary s)) eqn:E.
  - unfold temporary_get in *. destruct (ch_temporary s !! REENTRANCY_GUARD) as [en|]; [|done].
    rewrite lookup_insert_eq. simpl. destruct (live_until en <? ledger_sequence e); [done|eauto].
  - unfold temporary_get. rewrite lookup_insert_eq. simpl.
    destruct (Z.ltb_spec (ledger_sequence e + min_temporary_ttl e - 1) (ledger_sequence e));
      [lia|eauto].
Qed.

(** A re-entrant [transact] is turned away before it does anything. *)
Lemma transact_guarded callee e op s x :
  guarded e s → transact callee e op (s, x) = Err (ContractError ReentrantCall).
Proof.
  intros Hg. unfold transact, mbind, M_bind, on_fst at 1, zoom at 1. cbn [fst].
  destruct (bump_instance_ttl_run e s) as [live ->]. unfold on_fst at 1, zoom at 1. cbn [fst].
  by rewrite guarded_enter.
Qed.

Lemma channel_own_call_Ok (f : OwnState * X → res (OwnState * X)) s x u s' x' :
  own_call f (s, x) = Ok (u, (s', x')) ↔
  ∃ o, f (ch_own s, x) = Ok (o, x') ∧ s' = set_ch_own o s.
Proof.
  unfold own_call. destruct u. rewrite res_bind_Ok. split.
  - intros ([o y] & Hf & [= <- <-]). eauto.
  - intros (o & Hf & ->). exists (o, x'). by rewrite Hf.
Qed.

Lemma own_call_frame (f : OwnState * X → res (OwnState * X)) s x u s' x' :
  own_call f (s, x) = Ok (u, (s', x')) → same_funds s s'.
Proof. rewrite channel_own_call_Ok. by intros (o & _ & ->). Qed.

Lemma on_utxo_Ok {A} (m : M UtxoState A) s a s' :
  on_utxo m s = Ok (a, s') ↔ ∃ us, m (ch_utxo s) = Ok (a, us) ∧ s' = set_ch_utxo us s.
Proof. unfold on_utxo. rewrite zoom_Ok. naive_solver. Qed.

(** Reading a balance reads the ledger and leaves the funds. *)
Lemma utxo_balance_frame e u s b s' :
  utxo_balance e u s = Ok (b, s') →
  b = ledger_balance (Store.utxo_key u) (ch_ledger s) ∧ same_funds s s'.
Proof.
  unfold utxo_balance. rewrite on_utxo_Ok. intros (us & Hb & ->).
  unfold UtxoHandler.utxo_balance, Store.apply in Hb.
  apply on_store_Ok in Hb as (Hb & Ha & He). apply balance_amounts in Hb as [-> Hb].
  split; [done|]. unfold same_funds, ch_ledger, ledger_of. simpl. by split_and!.
Qed.

Lemma utxo_balances_loop e us acc s bs s' :
  on_utxo (fold_loop (λ balances u,
    b ← UtxoHandler.utxo_balance e u; mret (balances ++ [b])) us acc) s = Ok (bs, s') →
  bs = acc ++ ((λ u, ledger_balance (Store.utxo_key u) (ch_ledger s)) <$> us) ∧ same_funds s s'.
Proof.
  revert acc s. induction us as [|u us IH]; intros acc s; rewrite on_utxo_Ok;
    intros (st & Hrun & ->); simpl in Hrun.
  - apply M_ret_Ok in Hrun as [-> <-]. by rewrite app_nil_r.
  - apply M_bind_Ok in Hrun as (acc' & st1 & Hstep & Hrun).
    apply M_bind_Ok in Hstep as (b & st2 & Hb & Hret). apply M_ret_Ok in Hret as [<- ->].
    destruct (utxo_balance_frame e u s b (set_ch_utxo st1 s)) as [-> Hf].
    { unfold utxo_balance. rewrite on_utxo_Ok. eauto. }
    destruct (IH (acc ++ [ledger_balance (Store.utxo_key u) (ch_ledger s)])
      (set_ch_utxo st1 s)) as [-> Hf'].
    { rewrite on_utxo_Ok. exists st. split; [exact Hrun | done]. }
    pose proof Hf as (HL & _). rewrite HL, <- app_assoc. split; [done|].
    etrans; [exact Hf | exact Hf'].
Qed.

Lemma utxo_balances_frame e us s bs s' :
  utxo_balances e us s = Ok (bs, s') →
  bs = ((λ u, ledger_balance (Store.utxo_key u) (ch_ledger s)) <$> us) ∧ same_funds s s'.
Proof. apply utxo_balances_loop. Qed.

Lemma set_admin_frame e a s x u s' x' :
  set_admin e a (s, x) = Ok (u, (s', x')) → same_funds s s'.
Proof. apply own_call_frame. Qed.

Lemma accept_admin_frame e s x u s' x' :
  accept_admin e (s, x) = Ok (u, (s', x')) → same_funds s s'.
Proof. apply own_call_frame. Qed.

Lemma upgrade_frame e h s x u s' x' :
  upgrade e h (s, x) = Ok (u, (s', x')) → same_funds s s'.
Proof.
  unfold upgrade. intros (v & [s1 x1] & Hown%own_call_frame & Hr)%M_bind_Ok.
  apply M_bind_Ok in Hr as (v2 & [s2 x2] & Hev & Hr).
  apply on_fst_Ok in Hev as [->%modify_Ok ->], Hr as [Hr ->].
  inv_M. exact Hown.
Qed.

Lemma admin_frame s a s' : admin s = Ok (a, s') → s' = s.
Proof. unfold admin. intros. by inv_M. Qed.

Lemma auth_frame s a s' :
  PrivacyChannelContract.auth s = Ok (a, s') → us_auth (ch_utxo s) = Some a ∧ s' = s.
Proof.
  unfold PrivacyChannelContract.auth. rewrite on_utxo_Ok. intros (us & Ha & ->).
  apply auth_Ok in Ha as [Ha ->]. split; [done|]. by destruct s.
Qed.

Lemma read_asset_Ok s a s' : read_asset s = Ok (a, s') ↔ ch_asset s = Some a ∧ s' = s.
Proof.
  unfold read_asset, mbind, M_bind, get_state. rewrite lift_Ok, unwrap_Ok. naive_solver.
Qed.

Lemma read_supply_Ok s z s' : read_supply s = Ok (z, s') ↔ z = ch_total_supply s ∧ s' = s.
Proof. unfold read_supply, mbind, M_bind, get_state. rewrite M_ret_Ok. naive_solver. Qed.

Lemma on_fst_ret_Ok {S A B} (m : M S A) (f : A → B) (s s' : S) x r x' :
  (a ← on_fst m; mret (f a)) (s, x) = Ok (r, (s', x')) ↔
  ∃ a, m s = Ok (a, s') ∧ r = f a ∧ x' = x.
Proof.
  rewrite M_bind_Ok. split.
  - intros (a & [s1 x1] & [Hm ->]%on_fst_Ok & [<- [= -> ->]]%M_ret_Ok). eauto.
  - intros (a & Hm & -> & ->). exists a, (s', x). rewrite on_fst_Ok, M_ret_Ok. done.
Qed.

Lemma unit_ret_Ok {S A} (m : M S unit) (f : A) (s s' : S) r :
  (m ;; mret f) s = Ok (r, s') ↔ m s = Ok (tt, s') ∧ r = f.
Proof.
  rewrite M_bind_Ok. split.
  - intros ([] & s1 & Hm & [<- ->]%M_ret_Ok). done.
  - intros [Hm ->]. exists tt, s'. by rewrite M_ret_Ok.
Qed.

(** The calls that are not [transact] move no funds and no binding. *)
Lemma quiet_call d e c s x r s' x' :
  (∀ op, c ≠ CcTransact op) →
  channel_call d e c (s, x) = Ok (r, (s', x')) → same_funds s s'.
Proof.
  destruct c as [op|a| |h|u|us| | | |]; intros Hc.
  { by destruct (Hc op). }
  all: destruct d; cbn [channel_call]; rewrite ?unit_ret_Ok, ?on_fst_ret_Ok.
  1,2: by intros [Hr%set_admin_frame _].
  1,2: by intros [Hr%accept_admin_frame _].
  1,2: by intros [Hr%upgrade_frame _].
  1,2: by intros (b & [_ Hr]%utxo_balance_frame & _).
  1,2: by intros (b & [_ Hr]%utxo_balances_frame & _).
  1,2: by intros (b & ->%admin_frame & _).
  1,2: by intros (b & [_ ->]%auth_frame & _).
  1,2: by intros (b & [_ ->]%read_asset_Ok & _).
  1,2: by intros (b & [_ ->]%read_supply_Ok & _).
Qed.

(** While the guard is up, a call that returns moves no funds and leaves the guard up. *)
Lemma guarded_call d e c s x r s' x' :
  guarded e s → channel_call d e c (s, x) = Ok (r, (s', x')) → same_funds s s'.
Proof.
  intros Hg Hrun. destruct c as [op| | | | | | | | |]; try (by eapply quiet_call; [|done]).
  destruct d as [|d]; [done|]. cbn [channel_call] in Hrun.
  apply unit_ret_Ok in Hrun as [Hrun _]. by rewrite transact_guarded in Hrun.
Qed.

(** The asset's program, whatever it does, moves no funds of a guarded channel. *)
Lemma run_asset_guarded d e p s x r s' :
  guarded e s → run_asset (X:=X) (channel_call d e) p s = Ok (r, (s', x)) → same_funds s s'.
Proof.
  revert s. induction p as [[y|f]|c y k IH]; intros s Hg Hrun; simpl in Hrun; simplify_eq; [done|].
  destruct (channel_call d e c (s, y)) as [[r' [s1 x1]]|f] eqn:E; [|by eapply IH].
  pose proof (guarded_call _ _ _ _ _ _ _ _ Hg E) as Hs.
  etrans; [done|]. eapply IH; [|done]. by eapply same_funds_guarded.
Qed.

Lemma transfer_guarded d e a from to amt s x u s' x' :
  guarded e s → transfer (channel_call d e) e a from to amt (s, x) = Ok (u, (s', x')) →
  same_funds s s'.
Proof. apply run_asset_guarded. Qed.
End frame.

(** ** Lemmas: executing an operation *)

Section execution.
Context `{Ownable} `{!SdkLaws} `{!ConditionXdr} {X : Type} `{!HostAuth X} `{!Asset X}.
Implicit Types (e : Env) (s : ChannelState) (x : X) (op : ChannelOperation).
Implicit Types (ext : list (Address * Z * list Condition)).
Import PrivacyChannelContract.

(** Two states that differ, in funds, by a change of the supply. *)
Definition supply_moved (delta : Z) s s' : Prop :=
  ch_ledger s' = ch_ledger s ∧ ch_total_supply s' = ch_total_supply s + delta ∧
  ch_asset s' = ch_asset s ∧ us_auth (ch_utxo s') = us_auth (ch_utxo s) ∧
  ch_temporary s' = ch_temporary s ∧ us_events (ch_utxo s') = us_events (ch_utxo s) ∧
  (in_i128 (ch_total_supply s) = true → in_i128 (ch_total_supply s') = true).

Lemma supply_moved_refl s : supply_moved 0 s s.
Proof. unfold supply_moved. split_and!; done || lia. Qed.

Lemma supply_moved_trans a b s1 s2 s3 :
  supply_moved a s1 s2 → supply_moved b s2 s3 → supply_moved (a + b) s1 s3.
Proof.
  unfold supply_moved. intros (? & ? & ? & ? & ? & ? & ?) (? & ? & ? & ? & ? & ? & ?).
  split_and!; congruence || lia || auto.
Qed.

Lemma same_funds_moved s s' : same_funds s s' → supply_moved 0 s s'.
Proof.
  unfold same_funds, supply_moved, ch_total_supply. intros (? & -> & ? & ? & ? & ?).
  split_and!; done || lia.
Qed.

Lemma supply_moved_guarded e a s s' : supply_moved a s s' → guarded e s → guarded e s'.
Proof. unfold guarded. by intros (_ & _ & _ & _ & -> & _). Qed.

Lemma increase_supply_Ok amount s u s' :
  increase_supply amount s = Ok (u, s') ↔
  in_i128 (ch_total_supply s + amount) = true ∧
  s' = set_ch_supply (Some (ch_total_supply s + amount)) s.
Proof.
  unfold increase_supply, read_supply, checked_add, write_supply_unchecked, modify.
  unfold mbind, M_bind, get_state, mret, M_ret. fold (ch_total_supply s). destruct u.
  destruct (in_i128 _) eqn:E; [|split; [done | by intros [? _]]].
  split; [by intros [= <-] | by intros [_ ->]].
Qed.

Lemma increase_supply_overflow amount s :
  in_i128 (ch_total_supply s + amount) = false →
  increase_supply amount s = Err (ContractError AmountOverflow).
Proof.
  unfold increase_supply, read_supply, checked_add, mbind, M_bind, get_state, mret, M_ret.
  fold (ch_total_supply s). by intros ->.
Qed.

Lemma decrease_supply_Ok amount s u s' :
  decrease_supply amount s = Ok (u, s') ↔
  in_i128 (ch_total_supply s - amount) = true ∧
  s' = set_ch_supply (Some (ch_total_supply s - amount)) s.
Proof.
  unfold decrease_supply, read_supply, checked_sub, write_supply_unchecked, modify.
  unfold mbind, M_bind, get_state, mret, M_ret. fold (ch_total_supply s). destruct u.
  destruct (in_i128 _) eqn:E; [|split; [done | by intros [? _]]].
  split; [by intros [= <-] | by intros [_ ->]].
Qed.

Lemma set_supply_moved s a :
  in_i128 (ch_total_supply s + a) = true →
  supply_moved a s (set_ch_supply (Some (ch_total_supply s + a)) s).
Proof. done. Qed.

(** One deposit: the depositor authorized its conditions, and the supply went up. *)
Lemma deposit_step_Ok d e a dep s x u s' x' :
  guarded e s → deposit_step (channel_call d e) e a dep (s, x) = Ok (u, (s', x')) →
  supply_moved dep.1.2 s s' ∧ ∃ y, frame_auth e [VConditions dep.2] dep.1.1 x = Ok y.
Proof.
  destruct dep as [[from amt] conds]. intros Hg. unfold deposit_step.
  intros (v & [s1 x1] & Ha & Hr)%M_bind_Ok. apply M_bind_Ok in Hr as (v2 & [s2 x2] & Ht & Hr).
  apply on_snd_Ok in Ha as [Ha%require_auth_for_args_Ok ->].
  apply on_fst_Ok in Hr as [[Hin ->]%increase_supply_Ok ->].
  apply transfer_guarded in Ht; [|done]. split; [|by eauto].
  apply same_funds_moved in Ht. simpl. replace amt with (0 + amt) at 1 by lia.
  eapply supply_moved_trans; [done | by apply set_supply_moved].
Qed.

(** One withdrawal: the supply went down. *)
Lemma withdraw_step_Ok d e a wd s x u s' x' :
  guarded e s → withdraw_step (channel_call d e) e a wd (s, x) = Ok (u, (s', x')) →
  supply_moved (- wd.1.2) s s'.
Proof.
  destruct wd as [[to amt] conds]. intros Hg. unfold withdraw_step.
  intros (v & [s1 x1] & Ha & Hr)%M_bind_Ok. apply M_bind_Ok in Hr as (v2 & [s2 x2] & Ht & Hr).
  apply on_snd_Ok in Ha as [_ ->].
  apply on_fst_Ok in Hr as [[Hin ->]%decrease_supply_Ok ->].
  apply transfer_guarded in Ht; [|done]. apply same_funds_moved in Ht. simpl.
  replace (- amt) with (0 + - amt) by lia.
  eapply supply_moved_trans; [done | by apply set_supply_moved].
Qed.

Lemma deposits_Ok d e a ext s x u s' x' :
  guarded e s → for_each ext (deposit_step (channel_call d e) e a) (s, x) = Ok (u, (s', x')) →
  supply_moved (external_total ext) s s' ∧
  ∀ dep, dep ∈ ext → ∃ y y', frame_auth e [VConditions dep.2] dep.1.1 y = Ok y'.
Proof.
  revert s x. induction ext as [|dep ext IH]; intros s x Hg Hrun; simpl in Hrun.
  { apply M_ret_Ok in Hrun as [_ [= -> ->]]. split; [apply supply_moved_refl | set_solver]. }
  apply M_bind_Ok in Hrun as (v & [s1 x1] & Hstep & Hrun).
  apply deposit_step_Ok in Hstep as [Hm [y Hy]]; [|done].
  apply IH in Hrun as [Hm' Hall]; [|by eapply supply_moved_guarded]. split.
  - by eapply supply_moved_trans.
  - intros dep' [->|Hin]%elem_of_cons; eauto.
Qed.

Lemma withdraws_Ok d e a ext s x u s' x' :
  guarded e s → for_each ext (withdraw_step (channel_call d e) e a) (s, x) = Ok (u, (s', x')) →
  supply_moved (- external_total ext) s s'.
Proof.
  revert s x. induction ext as [|wd ext IH]; intros s x Hg Hrun; simpl in Hrun.
  { apply M_ret_Ok in Hrun as [_ [= -> ->]]. apply supply_moved_refl. }
  apply M_bind_Ok in Hrun as (v & [s1 x1] & Hstep & Hrun).
  apply withdraw_step_Ok in Hstep; [|done].
  apply IH in Hrun; [|by eapply supply_moved_guarded].
  unfold external_total. simpl. rewrite Z.opp_add_distr. by eapply supply_moved_trans.
Qed.

Lemma execute_Ok d e dep wd s x u s' x' :
  guarded e s → execute_external_operations (channel_call d e) e dep wd (s, x) = Ok (u, (s', x')) →
  supply_moved (external_total dep - external_total wd) s s' ∧ is_Some (ch_asset s) ∧
  ∀ p, p ∈ dep → ∃ y y', frame_auth e [VConditions p.2] p.1.1 y = Ok y'.
Proof.
  intros Hg. unfold execute_external_operations.
  intros (a & [s1 x1] & [(Has & ->)%read_asset_Ok ->]%on_fst_Ok & Hr)%M_bind_Ok.
  apply M_bind_Ok in Hr as (v & [s2 x2] & Hd & Hw).
  apply deposits_Ok in Hd as [Hd Hall]; [|done].
  apply withdraws_Ok in Hw; [|by eapply supply_moved_guarded].
  split_and!; [|eauto|done]. by eapply supply_moved_trans.
Qed.
End execution.

Section transact.
Context `{Ownable} `{!SdkLaws} `{!ConditionXdr} `{!ConditionXdrLaws}.
Context {X : Type} `{!HostAuth X} `{!Asset X}.
Implicit Types (e : Env) (s : ChannelState) (x : X) (op : ChannelOperation).
Import PrivacyChannelContract.

(** What a [transact] that returns has done. *)
Lemma transact_Ok d e op s x u s' x' :
  1 ≤ min_temporary_ttl e →
  transact (channel_call d e) e op (s, x) = Ok (u, (s', x')) →
  ¬ guarded e s ∧ op_valid op ∧
  spendable (ch_ledger s) ((op_spend op).*1) ∧ creatable (ch_ledger s) (op_create op) ∧
  external_total (op_deposit op) + spent_total (ch_ledger s) ((op_spend op).*1)
    = created_total (op_create op) + external_total (op_withdraw op) ∧
  (∃ a y, us_auth (ch_utxo s) = Some a ∧
    frame_auth e (bundle_auth_args (op_bundle op)) a x = Ok y) ∧
  (∀ p, p ∈ op_deposit op → ∃ y y', frame_auth e [VConditions p.2] p.1.1 y = Ok y') ∧
  ch_ledger s' = bundle_ledger (ch_ledger s) ((op_spend op).*1) (op_create op) ∧
  ch_total_supply s' = ch_total_supply s + external_total (op_deposit op)
    - external_total (op_withdraw op) ∧
  ch_asset s' = ch_asset s ∧ us_auth (ch_utxo s') = us_auth (ch_utxo s) ∧
  us_events (ch_utxo s') = us_events (ch_utxo s) ∧
  ch_temporary s' !! REENTRANCY_GUARD = None ∧
  (in_i128 (ch_total_supply s) = true → in_i128 (ch_total_supply s') = true).
Proof.
  intros Hmin. unfold transact.
  intros (v1 & [s1 x1] & [[live ->]%channel_bump_Ok ->]%on_fst_Ok & Hr)%M_bind_Ok.
  apply M_bind_Ok in Hr as (v2 & [s2 x2] & [(Hng & Hs2)%enter_guard_Ok ->]%on_fst_Ok & Hr).
  apply M_bind_Ok in Hr as ([[b td] tw] & [s3 x3] & [Hpre [= <- <-]]%lift_Ok & Hr).
  apply pre_process_Ok in Hpre as (Hv & -> & -> & ->).
  apply M_bind_Ok in Hr as (r & [s4 x4] & Hb & Hr).
  apply M_bind_Ok in Hr as (v5 & [s5 x5] & Hx & Hr).
  apply on_fst_Ok in Hr as [->%modify_Ok ->].
  unfold on_utxo_world in Hb. apply zoom_Ok in Hb as ([us y] & Hb & Hs4).
  cbn [fst snd] in Hb, Hs4. injection Hs4 as -> ->.
  apply process_bundle_Ok in Hb as (Hsp & Hcr & (a & Ha & Hreq) & Hbal & _ & HL & Hau & Hev).
  assert (Hg : guarded e (set_ch_utxo us s2)).
  { subst s2. apply (temporary_set_guarded e (set_ch_live_until live s) Hmin). }
  apply execute_Ok in Hx as ((HL' & Hsup & Has & Hau' & _ & Hev' & Hrange) & _ & Hdep); [|done].
  subst s2. simpl in *. unfold ch_ledger in *. simpl in *.
  split_and!; try done.
  - eauto.
  - unfold ch_ledger. simpl. by rewrite HL', HL.
  - unfold ch_total_supply in *. simpl in *. lia.
  - by rewrite Hau', Hau.
  - rewrite Hev', Hev. unfold spend_events, create_events. simpl. by rewrite app_nil_r.
  - apply lookup_delete_eq.
Qed.

Lemma evolves_wf (L L' : Ledger) : ledger_evolves L L' → wf_ledger L → wf_ledger L'.
Proof.
  intros He Hwf k a Hk. specialize (He k). rewrite Hk in He.
  destruct (L !! k) as [b|] eqn:Hb; simpl in He; [|done].
  specialize (Hwf _ _ Hb). simpl in Hwf. lia.
Qed.

Lemma bundle_evolves (L : Ledger) us cs :
  spendable L us → creatable L cs → ledger_evolves L (bundle_ledger L us cs).
Proof.
  intros Hs Hc. apply (creatable_after_spend _ _ _ Hs) in Hc.
  etrans; [by apply spends_evolve | by apply creates_evolve].
Qed.

Lemma bundle_total (L : Ledger) us cs :
  spendable L us → creatable L cs →
  total_unspent (bundle_ledger L us cs) = total_unspent L - spent_total L us + created_total cs.
Proof.
  intros Hs Hc. apply (creatable_after_spend _ _ _ Hs) in Hc. unfold bundle_ledger.
  by rewrite total_created, total_spent.
Qed.

Lemma bundle_ledger_created (L : Ledger) us cs u a :
  creatable L cs → (u, a) ∈ cs → bundle_ledger L us cs !! Store.utxo_key u = Some a.
Proof.
  intros [Hnd _] Hin. unfold bundle_ledger. apply lookup_union_Some_l.
  unfold created_map. apply elem_of_list_to_map_1.
  - by rewrite <- list_fmap_compose.
  - apply list_elem_of_fmap. by exists (u, a).
Qed.

Lemma bundle_ledger_spent (L : Ledger) us cs u :
  spendable L us → creatable L cs → u ∈ us →
  bundle_ledger L us cs !! Store.utxo_key u = Some 0.
Proof.
  intros [Hnd Hs] [_ Hc] Hin. unfold bundle_ledger. destruct (Hs u Hin) as (a & Ha & _).
  rewrite lookup_union_r.
  - apply lookup_union_Some_l. unfold spent_map. apply elem_of_list_to_map_1.
    + rewrite <- list_fmap_compose. done.
    + apply list_elem_of_fmap. by exists u.
  - apply created_map_None. intros ([v b] & E & Hv)%list_elem_of_fmap.
    destruct (Hc _ Hv) as [Hn _]. simpl in *. congruence.
Qed.

(** What owners and depositors signed has been done. *)
Lemma signed_effects_done d e op s x r s' x' :
  1 ≤ min_temporary_ttl e →
  transact (channel_call d e) e op (s, x) = Ok (r, (s', x')) →
  let signed := mjoin (snd <$> op_spend op) ++ mjoin (snd <$> op_deposit op) in
  (∀ u a, Create u a ∈ signed → ch_ledger s' !! Store.utxo_key u = Some a) ∧
  (∀ a z, ExtWithdraw a z ∈ signed → ∃ cs, (a, z, cs) ∈ op_withdraw op) ∧
  (∀ u, u ∈ (op_spend op).*1 → ch_ledger s' !! Store.utxo_key u = Some 0).
Proof.
  intros Hmin Hrun.
  apply transact_Ok in Hrun as (_ & (_ & _ & _ & _ & Hsig) & Hsp & Hcr & _ & _ & _ & HL & _); [|done].
  unfold signed_effects, executed_effects in Hsig. split_and!.
  - intros u a Hin. rewrite HL. apply bundle_ledger_created; [done|].
    assert (Hex := Hsig (Create u a) ltac:(by apply list_elem_of_filter)).
    apply elem_of_app in Hex as [([v b] & [= -> ->] & Hv)%list_elem_of_fmap|
      ([[v b] cs] & E & _)%list_elem_of_fmap]; done.
  - intros a z Hin.
    assert (Hex := Hsig (ExtWithdraw a z) ltac:(by apply list_elem_of_filter)).
    apply elem_of_app in Hex as [([v b] & E & Hv)%list_elem_of_fmap|
      ([[v b] cs] & [= -> ->] & Hw)%list_elem_of_fmap]; [done | eauto].
  - intros u Hu. rewrite HL. by apply bundle_ledger_spent.
Qed.

(** Every step of the channel, seen from its funds. *)
Lemma channel_call_funds d e c s x r s' x' :
  1 ≤ min_temporary_ttl e → channel_call d e c (s, x) = Ok (r, (s', x')) →
  ledger_evolves (ch_ledger s) (ch_ledger s') ∧
  ch_total_supply s' - total_unspent (ch_ledger s')
    = ch_total_supply s - total_unspent (ch_ledger s) ∧
  ch_asset s' = ch_asset s ∧ us_auth (ch_utxo s') = us_auth (ch_utxo s) ∧
  us_events (ch_utxo s') = us_events (ch_utxo s) ∧
  (ch_temporary s !! REENTRANCY_GUARD = None → ch_temporary s' !! REENTRANCY_GUARD = None) ∧
  ((∀ op, c ≠ CcTransact op) → same_funds s s') ∧
  (in_i128 (ch_total_supply s) = true → in_i128 (ch_total_supply s') = true).
Proof.
  intros Hmin Hrun. destruct c as [op| | | | | | | | |].
  2-10: apply quiet_call in Hrun as Hf; [|done]; destruct Hf as (HL & Hsup & Ha & Hau & Ht & Hev);
    unfold ch_total_supply; rewrite HL, Hsup, Ht; split_and!; done || lia.
  destruct d as [|d]; [done|]. cbn [channel_call] in Hrun. apply unit_ret_Ok in Hrun as [Hrun _].
  apply transact_Ok in Hrun as (_ & _ & Hsp & Hcr & Hbal & _ & _ & HL & Hsup & Ha & Hau & Hev & Ht
    & Hrange); [|done].
  rewrite HL, Hsup, (bundle_total _ _ _ Hsp Hcr). rewrite Hsup in Hrange.
  split_and!; [by apply bundle_evolves | lia | done.. | intros Hn; by destruct (Hn op) | done].
Qed.

(** What holds between any two calls. *)
Lemma channel_history (admin auth_contract asset : Address) s :
  channel_reachable (X:=X) admin auth_contract asset s →
  ch_total_supply s = total_unspent (ch_ledger s) ∧ wf_ledger (ch_ledger s) ∧
  ch_asset s = Some asset ∧ us_auth (ch_utxo s) = Some auth_contract ∧
  us_events (ch_utxo s) = [] ∧ ch_temporary s !! REENTRANCY_GUARD = None ∧
  in_i128 (ch_total_supply s) = true.
Proof.
  intros Hreach. induction Hreach as [e live x x' s Hrun|d e c x x' r s s' _ (Hs & Hwf & Ha & Hau & Hev & Ht & Hr) Hmin Hrun].
  - unfold __constructor in Hrun.
    apply M_bind_Ok in Hrun as (v1 & [s1 x1] & Hown & Hrun).
    apply M_bind_Ok in Hrun as (v2 & [s2 x2] & (o & _ & ->)%channel_own_call_Ok & Hrun).
    apply M_bind_Ok in Hrun as (v3 & [s3 x3] & [(us & ->%modify_Ok & ->)%on_utxo_Ok ->]%on_fst_Ok & Hrun).
    apply M_bind_Ok in Hrun as (v4 & [s4 x4] & [->%modify_Ok ->]%on_fst_Ok & Hrun).
    apply on_fst_Ok in Hrun as [[live' ->]%channel_bump_Ok ->].
    apply on_fst_Ok in Hown as [Hown ->].
    apply M_bind_Ok in Hown as (v & t & [-> ->]%get_state_Ok & Hown).
    apply M_bind_Ok in Hown as (v' & t' & [_ <-]%lift_Ok & ->%put_state_Ok).
    unfold ch_ledger, ledger_of, ch_total_supply, wf_ledger. simpl. unfold amounts.
    rewrite fmap_empty. split_and!; done || apply map_Forall_empty.
  - apply channel_call_funds in Hrun as (He & Hd & Ha' & Hau' & Hev' & Ht' & _ & Hr'); [|done].
    split_and!; [lia | by eapply evolves_wf | congruence | congruence | congruence | auto | auto].
Qed.
End transact.

(** ** Lemmas: nesting and histories *)

Section nesting.
Context `{Ownable} `{!SdkLaws} `{!ConditionXdr} {X : Type} `{!HostAuth X} `{!Asset X}.
Implicit Types (e : Env) (s : ChannelState) (x : X) (op : ChannelOperation).
Import PrivacyChannelContract.

Lemma channel_call_transact d e op (w : ChannelState * X) :
  let e' := enter_frame e (CcTransact op) in
  channel_call (S d) e (CcTransact op) w
  = (transact (channel_call d e') e' op ;; mret RetUnit) w.
Proof. reflexivity. Qed.

(** With the guard up, one level of nesting is all a call can use. *)
Lemma guarded_depth d e c s x :
  guarded e s → channel_call (S d) e c (s, x) = channel_call 1 e c (s, x).
Proof.
  intros Hg. destruct c; [|reflexivity..]. cbn [channel_call]. unfold mbind, M_bind.
  by rewrite !(transact_guarded _ (enter_frame e _) _ s x).
Qed.

(** Code that answers like one level of nesting whenever the guard is up. *)
Definition guarded_like e (f : ChannelCall → M (ChannelState * X) ChannelRet) : Prop :=
  ∀ c s x, guarded e s → f c (s, x) = channel_call 1 e c (s, x).

Lemma guarded_like_depth d e : guarded_like e (channel_call (S d) e).
Proof. intros c s x. apply guarded_depth. Qed.

Lemma run_asset_depth f e p s :
  guarded_like e f → guarded e s →
  run_asset (X:=X) f p s = run_asset (channel_call 1 e) p s.
Proof.
  intros Hf. revert s. induction p as [[y|]|c y k IH]; intros s Hg; [done..|]. cbn [run_asset].
  rewrite Hf by done.
  destruct (channel_call 1 e c (s, y)) as [[r [s1 x1]]|] eqn:E; apply IH; [|done].
  eapply same_funds_guarded; [by eapply guarded_call | done].
Qed.

Lemma deposit_step_depth f e a p s x :
  guarded_like e f → guarded e s →
  deposit_step f e a p (s, x)
  = deposit_step (channel_call 1 e) e a p (s, x).
Proof.
  destruct p as [[from amt] conds]. intros Hf Hg. unfold deposit_step, mbind, M_bind.
  unfold on_snd, zoom. cbn [fst snd].
  destruct (require_auth_for_args e from [VConditions conds] x) as [[v y]|]; [|done].
  unfold transfer. by rewrite (run_asset_depth f e).
Qed.

Lemma withdraw_step_depth f e a p s x :
  guarded_like e f → guarded e s →
  withdraw_step f e a p (s, x)
  = withdraw_step (channel_call 1 e) e a p (s, x).
Proof.
  destruct p as [[to amt] conds]. intros Hf Hg.
  unfold withdraw_step, on_snd, zoom, transfer, mbind, M_bind, res_bind. cbn [fst snd].
  destruct (authorize_as_current_contract e _ x) as [y|]; [|done]. by rewrite (run_asset_depth f e).
Qed.

Lemma for_each_depth (f g : Address * Z * list Condition → M (ChannelState * X) unit) e ext s x :
  guarded e s →
  (∀ p t y, guarded e t → f p (t, y) = g p (t, y)) →
  (∀ p t y u t' y', guarded e t → g p (t, y) = Ok (u, (t', y')) → guarded e t') →
  for_each ext f (s, x) = for_each ext g (s, x).
Proof.
  intros Hg Hfg Hgg. revert s x Hg. induction ext as [|p ext IH]; intros s x Hg; [done|].
  simpl. unfold mbind, M_bind. rewrite Hfg by done.
  destruct (g p (s, x)) as [[u [t y]]|] eqn:E; [|done]. apply IH. by eapply Hgg.
Qed.

Lemma execute_depth f e dep wd s x :
  guarded_like e f → guarded e s →
  execute_external_operations f e dep wd (s, x)
  = execute_external_operations (channel_call 1 e) e dep wd (s, x).
Proof.
  intros Hf Hg. unfold execute_external_operations, on_fst, zoom, mbind, M_bind. cbn [fst snd].
  destruct (read_asset s) as [[a s1]|] eqn:Ha; [|done].
  apply read_asset_Ok in Ha as [_ ->].
  rewrite (for_each_depth (deposit_step f e a)
    (deposit_step (channel_call 1 e) e a) e); [|done|by intros; apply deposit_step_depth|].
  2:{ intros p t y u t' y' Ht [Hm _]%deposit_step_Ok; [|done].
      by eapply supply_moved_guarded. }
  destruct (for_each dep _ (s, x)) as [[u [s2 y]]|] eqn:E; [|done].
  apply deposits_Ok in E as [Hm _]; [|done].
  apply (for_each_depth _ _ e); [by eapply supply_moved_guarded | |].
  - intros; by apply withdraw_step_depth.
  - intros p t z v t' z' Ht Hw%withdraw_step_Ok; [|done]. by eapply supply_moved_guarded.
Qed.

Lemma transact_depth f e op w :
  guarded_like e f → 1 ≤ min_temporary_ttl e →
  transact f e op w = transact (channel_call 1 e) e op w.
Proof.
  intros Hf Hmin. destruct w as [s x]. unfold transact, mbind, M_bind.
  destruct (on_fst (bump_instance_ttl e) (s, x)) as [[u [s1 x1]]|]; [|done].
  destruct (on_fst (enter_reentrancy_guard e) (s1, x1)) as [[u2 [s2 x2]]|] eqn:Hen; [|done].
  apply on_fst_Ok in Hen as [[_ ->]%enter_guard_Ok ->].
  unfold lift. destruct (pre_process_channel_operation op) as [[[b td] tw]|]; [|done].
  unfold on_utxo_world, zoom. cbn [fst snd].
  destruct (UtxoHandler.process_bundle _ _ _ _ _ _) as [[r [us y]]|]; [|done].
  rewrite execute_depth; [done..|]. apply (temporary_set_guarded e s1 Hmin).
Qed.

Lemma channel_call_body d e c (w : ChannelState * X) :
  channel_call (S d) e c w = call_body (channel_call d (enter_frame e c)) e c w.
Proof. by destruct c. Qed.

(** Whatever the nested calls are, with the guard up none of them gets further than it. *)
Lemma call_body_guarded callee e c s x :
  guarded e s → call_body callee e c (s, x) = channel_call 1 e c (s, x).
Proof.
  intros Hg. rewrite channel_call_body. destruct c; [|done..]. unfold call_body, mbind, M_bind.
  by rewrite !(transact_guarded _ (enter_frame e _) _ s x).
Qed.

Lemma call_body_like callee e c (w : ChannelState * X) :
  guarded_like (enter_frame e c) callee → 1 ≤ min_temporary_ttl e →
  call_body callee e c w = channel_call 2 e c w.
Proof.
  intros Hf Hmin. rewrite channel_call_body. destruct c; [|done..].
  unfold call_body, mbind, M_bind. by rewrite transact_depth.
Qed.
End nesting.

(** ** Properties *)

(** C8. [transact] is sound against any asset, however it re-enters the channel: when it
    returns, the guard was down and the checks passed, the spends were distinct unspent entries
    and the creates distinct free ones, value was conserved (deposits plus spent equals created
    plus withdrawals), the configured contract authorized exactly the requirements of the
    spends, every depositor authorized its own conditions, the ledger is the bundle's, the
    supply moved by deposits less withdrawals without leaving its range, the bindings are unchanged, no event was
    published and the guard is gone. *)
Theorem transact_sound `{Ownable} `{!SdkLaws} `{!ConditionXdr} `{!ConditionXdrLaws} {X}
    `{!HostAuth X} `{!Asset X} (depth : nat) (e : Env) (op : ChannelOperation)
    (s s' : ChannelState) (x x' : X)
    (Hmin : 1 ≤ min_temporary_ttl e)
    (Hrun : PrivacyChannelContract.transact (PrivacyChannelContract.channel_call depth e) e op
              (s, x) = Ok (tt, (s', x'))) :
  let L := ch_ledger s in
  let spends := (op_spend op).*1 in
  ¬ guarded e s ∧ op_valid op ∧ spendable L spends ∧ creatable L (op_create op) ∧
  external_total (op_deposit op) + spent_total L spends
    = created_total (op_create op) + external_total (op_withdraw op) ∧
  (∃ a y, us_auth (ch_utxo s) = Some a ∧
    frame_auth e (bundle_auth_args (op_bundle op)) a x = Ok y) ∧
  (∀ p, p ∈ op_deposit op → ∃ y y', frame_auth e [VConditions p.2] p.1.1 y = Ok y') ∧
  ch_ledger s' = bundle_ledger L spends (op_create op) ∧
  ch_total_supply s' = ch_total_supply s + external_total (op_deposit op)
    - external_total (op_withdraw op) ∧
  ch_asset s' = ch_asset s ∧ us_auth (ch_utxo s') = us_auth (ch_utxo s) ∧
  us_events (ch_utxo s') = us_events (ch_utxo s) ∧
  ch_temporary s' !! PrivacyChannelContract.REENTRANCY_GUARD = None ∧
  (in_i128 (ch_total_supply s) = true → in_i128 (ch_total_supply s') = true).
Proof. exact (transact_Ok _ _ _ _ _ _ _ _ Hmin Hrun). Qed.

(** C9. Owner-signed effects are bound to the execution: after a [transact] that returns, every
    [Create] among the conditions of a spend or of a deposit is an entry of the ledger with the
    signed amount, and every [ExtWithdraw] among them is a withdrawal the bundle executed, to
    the signed address with the signed amount; and whatever was spent can never be spent
    again, for its entry is a tombstone. *)
Theorem transact_binds_signed_effects `{Ownable} `{!SdkLaws} `{!ConditionXdr}
    `{!ConditionXdrLaws} {X} `{!HostAuth X} `{!Asset X} (depth : nat) (e : Env)
    (op : ChannelOperation) (s s' : ChannelState) (x x' : X)
    (Hmin : 1 ≤ min_temporary_ttl e)
    (Hrun : PrivacyChannelContract.transact (PrivacyChannelContract.channel_call depth e) e op
              (s, x) = Ok (tt, (s', x'))) :
  let signed := mjoin (snd <$> op_spend op) ++ mjoin (snd <$> op_deposit op) in
  (∀ u a, Create u a ∈ signed → ch_ledger s' !! Store.utxo_key u = Some a) ∧
  (∀ a z, ExtWithdraw a z ∈ signed → ∃ cs, (a, z, cs) ∈ op_withdraw op) ∧
  (∀ u, u ∈ (op_spend op).*1 → ch_ledger s' !! Store.utxo_key u = Some 0).
Proof. by eapply signed_effects_done. Qed.

(** C10. The history of a channel: whatever sequence of calls was made, by anyone, with any
    asset and any re-entrance, the recorded supply is the sum of the unspent amounts, no amount
    is negative, the asset and authorization contract are those of the constructor, no event
    was published and the reentrancy guard is down between calls. *)
Theorem channel_history_invariant `{Ownable} `{!SdkLaws} `{!ConditionXdr} `{!ConditionXdrLaws}
    {X} `{!HostAuth X} `{!Asset X} (admin auth_contract asset : Address) (s : ChannelState)
    (Hreach : channel_reachable (X:=X) admin auth_contract asset s) :
  ch_total_supply s = total_unspent (ch_ledger s) ∧ wf_ledger (ch_ledger s) ∧
  ch_asset s = Some asset ∧ us_auth (ch_utxo s) = Some auth_contract ∧
  us_events (ch_utxo s) = [] ∧
  ch_temporary s !! PrivacyChannelContract.REENTRANCY_GUARD = None.
Proof.
  apply channel_history in Hreach as (? & ? & ? & ? & ? & ? & _). by split_and!.
Qed.

(** Each call from outside moves every ledger entry only forward (free, unspent with a fixed
    amount, spent), and only [transact] touches the funds: every other entry point leaves the
    ledger, the supply, the bindings and the guard as they were. *)
Theorem channel_calls_move_forward `{Ownable} `{!SdkLaws} `{!ConditionXdr} `{!ConditionXdrLaws}
    {X} `{!HostAuth X} `{!Asset X} (depth : nat) (e : Env) (c : ChannelCall)
    (s s' : ChannelState) (x x' : X) (r : ChannelRet)
    (Hmin : 1 ≤ min_temporary_ttl e)
    (Hrun : PrivacyChannelContract.channel_call depth e c (s, x) = Ok (r, (s', x'))) :
  ledger_evolves (ch_ledger s) (ch_ledger s') ∧
  ((∀ op, c ≠ CcTransact op) → same_funds s s').
Proof. apply channel_call_funds in Hrun as (He & _ & _ & _ & _ & _ & Hq & _); done. Qed.

(** C14. Reentrancy: while a [transact] runs, that is while the guard is up, every nested
    [transact] is turned away with [ReentrantCall], every other nested call leaves the funds
    and the bindings alone, and so does the asset's whole program; and from outside, two levels
    of nesting are enough to decide what any call does. *)
Theorem reentrancy_is_shut `{Ownable} `{!SdkLaws} `{!ConditionXdr} {X} `{!HostAuth X}
    `{!Asset X} (e : Env) (Hmin : 1 ≤ min_temporary_ttl e) :
  (∀ (s : ChannelState) (x : X), guarded e s →
    (∀ d op, PrivacyChannelContract.channel_call (S d) e (CcTransact op) (s, x)
             = Err (ContractError ReentrantCall)) ∧
    (∀ d c r s' x', PrivacyChannelContract.channel_call d e c (s, x) = Ok (r, (s', x')) →
                    same_funds s s') ∧
    (∀ d p r s' x', run_asset (PrivacyChannelContract.channel_call d e) p s
                    = Ok (r, (s', x' : X)) → same_funds s s')) ∧
  (∀ d c (w : ChannelState * X), PrivacyChannelContract.channel_call (S (S d)) e c w
                                 = PrivacyChannelContract.channel_call 2 e c w).
Proof.
  split.
  - intros s x Hg. split_and!.
    + intros d op. cbn [PrivacyChannelContract.channel_call]. unfold mbind, M_bind.
      by rewrite (transact_guarded _ (PrivacyChannelContract.enter_frame e _)).
    + intros d c r s' x'. by apply guarded_call.
    + intros d p r s' x'. by apply run_asset_guarded.
  - intros d c w. destruct c as [op| | | | | | | | |]; [|reflexivity..].
    rewrite !channel_call_transact. unfold mbind, M_bind.
    by rewrite !transact_depth by (done || apply guarded_like_depth).
Qed.

(** C15. Nested calls terminate.  Take the recursion through the asset as an equation, with no depth
    in it: a call is its body, in which the calls the asset makes back are calls again.  The
    equation has exactly one solution, and two levels of nesting compute it: every call of the
    channel, with any asset, has a definite outcome. *)
Theorem nested_calls_terminate `{Ownable} `{!SdkLaws} `{!ConditionXdr} {X} `{!HostAuth X}
    `{!Asset X} (callee : Env → ChannelCall → M (ChannelState * X) ChannelRet) :
  (∀ e c w, 1 ≤ min_temporary_ttl e → callee e c w =
     PrivacyChannelContract.call_body
       (callee (PrivacyChannelContract.enter_frame e c)) e c w) ↔
  (∀ e c w, 1 ≤ min_temporary_ttl e →
     callee e c w = PrivacyChannelContract.channel_call 2 e c w).
Proof.
  split; intros Hc e c w Hmin.
  - rewrite Hc by done. apply call_body_like; [|done]. intros c' s x Hg.
    rewrite Hc by done. by apply call_body_guarded.
  - rewrite Hc by done. symmetry. apply call_body_like; [|done]. intros c' s x Hg.
    rewrite Hc by done. by apply guarded_depth.
Qed.

(** The checks of [transact] decide exactly the valid operations: no two conflicting
    conditions; positive external amounts that sum within range, one per address; equal
    conditions where an address both deposits and withdraws; every signed create and
    withdrawal executed.  What they hand over is the bundle without the conditions, the
    owners' requirements and the two totals. *)
Theorem pre_process_decides `{ConditionXdrLaws} (op : ChannelOperation) (b : InternalBundle)
    (total_deposit total_withdraw : Z) :
  pre_process_channel_operation op = Ok (b, total_deposit, total_withdraw) ↔
  op_valid op ∧ b = op_bundle op ∧
  total_deposit = external_total (op_deposit op) ∧
  total_withdraw = external_total (op_withdraw op).
Proof. apply pre_process_Ok. Qed.
