(* ===== verification/ChannelLive.v ===== *)
(** The Privacy Channel's errors and liveness: exactly which operations the checks reject and with
    which error, and what becomes of a valid operation that is authorized and whose transfers
    settle. *)
From S2P Require Import Prelude Errors Host Primitives Storage HostAuth UtxoCore Channel.
From S2P Require Import ChannelSpec.

(** ** The specification of the rejections *)

Section rejections.
Context `{Sdk}.
Implicit Types (op : ChannelOperation) (l : list (Address * Z * list Condition)).

Definition conflict_free op : Prop :=
  ∀ c d, c ∈ op_conditions op → d ∈ op_conditions op → ¬ conflict c d.

Definition amounts_ok l : Prop := Forall (λ p, 0 < p.1.2) l ∧ external_total l ≤ i128_max.

(** The first entry that stops a summation, and how. *)
Definition amounts_fail l (err : MoonlightError) : Prop :=
  ∃ l1 p l2, l = l1 ++ p :: l2 ∧ amounts_ok l1 ∧
    ((p.1.2 ≤ 0 ∧ err = InvalidExternalAmount) ∨
     (0 < p.1.2 ∧ i128_max < external_total l1 + p.1.2 ∧ err = AmountOverflow)).

(** Why an operation is turned away, each reason under the checks that come before it. *)
Inductive op_rejected op : MoonlightError → Prop :=
  | rejected_conflict c d :
      c ∈ op_conditions op → d ∈ op_conditions op → conflict c d →
      op_rejected op BundleHasConflictingConditions
  | rejected_deposit err :
      conflict_free op → amounts_fail (op_deposit op) err → op_rejected op err
  | rejected_withdraw err :
      conflict_free op → amounts_ok (op_deposit op) → amounts_fail (op_withdraw op) err →
      op_rejected op err
  | rejected_repeated_deposit :
      conflict_free op → amounts_ok (op_deposit op) → amounts_ok (op_withdraw op) →
      ¬ NoDup ((op_deposit op).*1.*1) → op_rejected op RepeatedAccountForDeposit
  | rejected_repeated_withdraw :
      conflict_free op → amounts_ok (op_deposit op) → amounts_ok (op_withdraw op) →
      NoDup ((op_deposit op).*1.*1) → ¬ NoDup ((op_withdraw op).*1.*1) →
      op_rejected op RepeatedAccountForWithdraw
  | rejected_mismatch a x y cs ds :
      conflict_free op → external_ok (op_deposit op) → external_ok (op_withdraw op) →
      (a, x, cs) ∈ op_deposit op → (a, y, ds) ∈ op_withdraw op → cs ≠ ds →
      op_rejected op ConflictingConditionsForAccount
  | rejected_unexecuted c :
      conflict_free op → external_ok (op_deposit op) → external_ok (op_withdraw op) →
      (∀ a x y cs ds, (a, x, cs) ∈ op_deposit op → (a, y, ds) ∈ op_withdraw op → cs = ds) →
      c ∈ signed_effects op → c ∉ executed_effects op →
      op_rejected op UnauthorizedOperation.
End rejections.

(** ** Lemmas: the errors of the checks *)

Section errors.
Context `{ConditionXdrLaws}.
Implicit Types (op : ChannelOperation) (l : list (Address * Z * list Condition)).

(** A loop whose passes all fail alike. *)
Lemma each_uniform {A} (l : list A) (body : A → res unit) f :
  (∀ x, x ∈ l → body x = Ok tt ∨ body x = Err f) →
  each l body = Ok tt ∨ each l body = Err f.
Proof.
  induction l as [|x l IH]; intros Hall; [by left|]. cbn [each].
  destruct (Hall x) as [-> | ->]; [by left | | by right].
  apply IH. intros y Hy. apply Hall. by right.
Qed.

Lemma ensure_Err c err f : ensure c err = Err f ↔ c = false ∧ f = ContractError err.
Proof. unfold ensure, throw. destruct c; naive_solver. Qed.

Lemma total_loop_cons t a x cs l :
  fold_res total_step ((a, x, cs) :: l) t =
  if x >? 0 then
    if in_i128 (t + x) then fold_res total_step l (t + x)
    else Err (ContractError AmountOverflow)
  else Err (ContractError InvalidExternalAmount).
Proof.
  assert (E : total_step t (a, x, cs) =
    if x >? 0 then
      if in_i128 (t + x) then Ok (t + x) else Err (ContractError AmountOverflow)
    else Err (ContractError InvalidExternalAmount)).
  { unfold total_step, ensure, checked_add. destruct (x >? 0); [|done].
    by destruct (in_i128 (t + x)). }
  cbn [fold_res]. rewrite E. destruct (x >? 0); [|done]. by destruct (in_i128 (t + x)).
Qed.

Lemma total_loop_Err l t f :
  0 ≤ t ≤ i128_max →
  fold_res total_step l t = Err f →
  ∃ l1 p l2, l = l1 ++ p :: l2 ∧ Forall (λ p, 0 < p.1.2) l1 ∧ t + external_total l1 ≤ i128_max ∧
    ((p.1.2 ≤ 0 ∧ f = ContractError InvalidExternalAmount) ∨
     (0 < p.1.2 ∧ i128_max < t + external_total l1 + p.1.2 ∧ f = ContractError AmountOverflow)).
Proof.
  revert t. induction l as [|[[a x] cs] l IH]; intros t Ht Hrun; [done|].
  rewrite total_loop_cons in Hrun.
  destruct (Z.gtb_spec x 0) as [Hx|Hx].
  2:{ exists [], (a, x, cs), l. injection Hrun as <-. unfold external_total. simpl.
      split_and!; [done | constructor | lia | by left]. }
  destruct (in_i128 (t + x)) eqn:E.
  - apply in_i128_spec in E. apply IH in Hrun as (l1 & p & l2 & -> & Hpos & Hmax & Hp); [|lia].
    exists ((a, x, cs) :: l1), p, l2.
    assert (Ht' : external_total ((a, x, cs) :: l1) = x + external_total l1) by done.
    rewrite Ht'. split_and!; [done | constructor; [simpl; lia | done] | lia |].
    destruct Hp as [[? ?]|(? & ? & ?)]; [by left | right]. split_and!; [done | lia | done].
  - exists [], (a, x, cs), l. injection Hrun as <-.
    assert (¬ (i128_min ≤ t + x ≤ i128_max)) by (rewrite <- in_i128_spec, E; done).
    unfold external_total, i128_min in *. simpl.
    split_and!; [done | constructor | lia | right; split_and!; [lia..|done]].
Qed.

Lemma total_fails l err :
  fold_res total_step l 0 = Err (ContractError err) ↔ amounts_fail l err.
Proof.
  assert (Hz : 0 ≤ 0 ≤ i128_max) by (unfold i128_max; lia). split.
  - intros (l1 & p & l2 & Hl & Hpos & Hmax & Hp)%total_loop_Err; [|done].
    exists l1, p, l2. split_and!; [done..|].
    destruct Hp as [[? [= ->]]|(? & ? & [= ->])]; [by left | by right].
  - intros (l1 & [[a x] cs] & l2 & -> & [Hpos Hmax] & Hp). simpl in Hp.
    assert (Hrun : fold_res total_step l1 0 = Ok (external_total l1)) by by apply total_loop_Ok.
    assert (Happ : ∀ t r k, fold_res total_step l1 t = Ok r →
      fold_res total_step (l1 ++ k) t = fold_res total_step k r).
    { clear. induction l1 as [|q l1 IH]; intros t r k Hr; cbn [app fold_res] in *; [by simplify_eq|].
      destruct (total_step t q) as [t'|] eqn:Et; [|done]. by apply IH. }
    rewrite (Happ _ _ _ Hrun), total_loop_cons.
    destruct Hp as [[Hx ->]|(Hx & Hov & ->)].
    + destruct (Z.gtb_spec x 0); [lia|done].
    + destruct (Z.gtb_spec x 0); [|lia].
      destruct (in_i128 _) eqn:E; [|done]. apply in_i128_spec in E. lia.
Qed.

Lemma total_fails_coded l f :
  fold_res total_step l 0 = Err f → ∃ err, f = ContractError err ∧ amounts_fail l err.
Proof.
  intros Hrun. assert (Hc : ∃ err, f = ContractError err).
  { apply total_loop_Err in Hrun as (? & ? & ? & _ & _ & _ & [[_ ->]|(_ & _ & ->)]);
      [eauto.. | unfold i128_max; lia]. }
  destruct Hc as [err ->]. exists err. by rewrite <- total_fails.
Qed.

Lemma amounts_ok_total l :
  amounts_ok l ↔ fold_res total_step l 0 = Ok (external_total l).
Proof.
  rewrite total_loop_Ok by (unfold i128_max; lia). unfold amounts_ok. naive_solver.
Qed.

Lemma total_amounts_ok l t : fold_res total_step l 0 = Ok t → amounts_ok l.
Proof.
  rewrite total_loop_Ok by (unfold i128_max; lia). intros (? & _ & ?). split; [done | lia].
Qed.

Lemma conflict_free_true op :
  op_has_no_conflicting_conditions op = true ↔ conflict_free op.
Proof.
  unfold op_has_no_conflicting_conditions. by rewrite conflict_free_loop_true by set_solver.
Qed.

Lemma conflict_free_false op :
  op_has_no_conflicting_conditions op = false ↔
  ∃ c d, c ∈ op_conditions op ∧ d ∈ op_conditions op ∧ conflict c d.
Proof.
  rewrite <- not_true_iff_false, conflict_free_true. split.
  - intros Hn. destruct (decide (Exists (λ c, Exists (λ d, conflicts_with c d = true)
      (op_conditions op)) (op_conditions op))) as [He|He].
    + apply Exists_exists in He as (c & Hc & (d & Hd & Hx)%Exists_exists).
      apply conflicts_with_conflict in Hx. eauto.
    + destruct Hn. intros c d Hc Hd Hx. apply He, Exists_exists. exists c. split; [done|].
      apply Exists_exists. exists d. by rewrite conflicts_with_conflict.
  - intros (c & d & Hc & Hd & Hx) Hf. by apply (Hf c d).
Qed.

Lemma dup_addresses l :
  no_duplicate_addresses l (λ '(addr, _, _), addr) = true ↔ NoDup (l.*1.*1).
Proof.
  unfold no_duplicate_addresses. rewrite no_duplicates_true, <- list_fmap_compose.
  assert ((λ '(addr, _, _), addr) <$> l = (fst ∘ fst) <$> l) as ->; [|done].
  by apply list_fmap_ext; intros ? [[??]?].
Qed.

(** The cross check of [verify_external_operations] fails in one way only. *)
Lemma cross_check_uniform (dep wd : list (Address * Z * list Condition)) :
  NoDup (dep.*1.*1) → NoDup (wd.*1.*1) →
  verify_external_operations dep wd = Ok tt ∨
  verify_external_operations dep wd = Err (ContractError ConflictingConditionsForAccount).
Proof.
  intros Hd%dup_addresses Hw%dup_addresses. unfold verify_external_operations.
  rewrite Hd, Hw. simpl. apply each_uniform. intros [[a x] cs] _. apply each_uniform.
  intros [[b y] ds] _. case_bool_decide; [|by left].
  destruct (equal_condition_sequence cs ds); [by left | by right].
Qed.

Lemma verify_external_Err (dep wd : list (Address * Z * list Condition)) f :
  verify_external_operations dep wd = Err f ↔
  (¬ NoDup (dep.*1.*1) ∧ f = ContractError RepeatedAccountForDeposit) ∨
  (NoDup (dep.*1.*1) ∧ ¬ NoDup (wd.*1.*1) ∧ f = ContractError RepeatedAccountForWithdraw) ∨
  (NoDup (dep.*1.*1) ∧ NoDup (wd.*1.*1) ∧ f = ContractError ConflictingConditionsForAccount ∧
    ¬ ∀ a x y cs ds, (a, x, cs) ∈ dep → (a, y, ds) ∈ wd → cs = ds).
Proof.
  destruct (no_duplicate_addresses dep (λ '(addr, _, _), addr)) eqn:Hd.
  2:{ unfold verify_external_operations. rewrite Hd. simpl.
      rewrite <- not_true_iff_false, dup_addresses in Hd. unfold throw. naive_solver. }
  destruct (no_duplicate_addresses wd (λ '(addr, _, _), addr)) eqn:Hw.
  2:{ unfold verify_external_operations. rewrite Hd, Hw. simpl. rewrite dup_addresses in Hd.
      rewrite <- not_true_iff_false, dup_addresses in Hw. unfold throw. naive_solver. }
  rewrite dup_addresses in Hd, Hw. pose proof (verify_external_Ok dep wd) as Hok.
  destruct (cross_check_uniform dep wd Hd Hw) as [E|E]; rewrite E in *.
  - destruct Hok as [Hok _]. destruct (Hok eq_refl) as (_ & _ & Hall). naive_solver.
  - split; [|naive_solver]. intros [= <-]. right; right. split_and!; [done..|].
    intros Hall. destruct Hok as [_ Hok]. discriminate Hok. by split_and!.
Qed.

Lemma assert_signed_uniform op :
  assert_signed_effects_are_executed op = Ok tt ∨
  assert_signed_effects_are_executed op = Err (ContractError UnauthorizedOperation).
Proof.
  unfold assert_signed_effects_are_executed. apply each_uniform. intros k _.
  unfold ensure, throw. case_match; auto.
Qed.

(** An element of one list that is not in another, found by search. *)
Lemma not_subset_witness (l k : list Condition) :
  ¬ (∀ c, c ∈ l → c ∈ k) → ∃ c, c ∈ l ∧ c ∉ k.
Proof.
  intros Hn. destruct (decide (Exists (λ c, c ∉ k) l)) as [(c & ? & ?)%Exists_exists|He].
  - eauto.
  - destruct Hn. intros c Hc. destruct (decide (c ∈ k)); [done|].
    destruct He. apply Exists_exists. eauto.
Qed.

Lemma mismatch_witness (dep wd : list (Address * Z * list Condition)) :
  ¬ (∀ a x y cs ds, (a, x, cs) ∈ dep → (a, y, ds) ∈ wd → cs = ds) →
  ∃ a x y cs ds, (a, x, cs) ∈ dep ∧ (a, y, ds) ∈ wd ∧ cs ≠ ds.
Proof.
  intros Hn.
  destruct (decide (Exists (λ p, Exists (λ q : Address * Z * list Condition,
    p.1.1 = q.1.1 ∧ p.2 ≠ q.2) wd) dep)) as [He|He].
  - apply Exists_exists in He as ([[a x] cs] & Hp & ([[b y] ds] & Hq & Hab & Hne)%Exists_exists).
    simpl in *. subst. naive_solver.
  - destruct Hn. intros a x y cs ds Hp Hq. destruct (decide (cs = ds)); [done|].
    destruct He. apply Exists_exists. eexists; split; [exact Hp|].
    apply Exists_exists. by eexists; split; [exact Hq|].
Qed.

(** The checks in their order. *)
Lemma pre_process_stages op :
  pre_process_channel_operation op =
  if op_has_no_conflicting_conditions op then
    match fold_res total_step (op_deposit op) 0 with
    | Err f => Err f
    | Ok td =>
        match fold_res total_step (op_withdraw op) 0 with
        | Err f => Err f
        | Ok tw =>
            match verify_external_operations (op_deposit op) (op_withdraw op) with
            | Err f => Err f
            | Ok _ =>
                match assert_signed_effects_are_executed op with
                | Err f => Err f
                | Ok _ => Ok (op_bundle op, td, tw)
                end
            end
        end
    end
  else Err (ContractError BundleHasConflictingConditions).
Proof.
  unfold pre_process_channel_operation. by destruct (op_has_no_conflicting_conditions op).
Qed.

Lemma external_ok_split l : external_ok l ↔ amounts_ok l ∧ NoDup (l.*1.*1).
Proof. unfold external_ok, amounts_ok. tauto. Qed.

Lemma rejected_run op err :
  op_rejected op err → pre_process_channel_operation op = Err (ContractError err).
Proof.
  rewrite pre_process_stages. intros Hr.
  destruct Hr as [c d Hc Hd Hx|err Hf Ha|err Hf Hd Ha|Hf Hd Hw Hn|Hf Hd Hw Hnd Hn
    |a x y cs ds Hf Hd Hw Hp Hq Hne|c Hf Hd Hw Hm Hc Hn].
  1:{ assert (op_has_no_conflicting_conditions op = false) as ->; [|done].
      apply conflict_free_false. eauto. }
  all: apply conflict_free_true in Hf; rewrite Hf.
  1:{ apply total_fails in Ha. by rewrite Ha. }
  4,5: apply external_ok_split in Hd as [Hd Hnd], Hw as [Hw Hnw].
  all: apply amounts_ok_total in Hd; rewrite Hd.
  1:{ apply total_fails in Ha. by rewrite Ha. }
  all: apply amounts_ok_total in Hw; rewrite Hw.
  4:{ assert (verify_external_operations (op_deposit op) (op_withdraw op) = Ok tt) as ->
        by (by apply verify_external_Ok).
      destruct (assert_signed_uniform op) as [E|E]; rewrite E; [|done].
      rewrite assert_signed_Ok in E. by apply E in Hc. }
  all: match goal with |- context [ContractError ?err] =>
    assert (verify_external_operations (op_deposit op) (op_withdraw op)
            = Err (ContractError err)) as ->; [|done] end; apply verify_external_Err.
  - by left.
  - by right; left.
  - right; right. split_and!; [done..|]. intros Hall. by apply Hne, (Hall a x y).
Qed.

Lemma pre_process_Err op f :
  pre_process_channel_operation op = Err f → ∃ err, f = ContractError err ∧ op_rejected op err.
Proof.
  rewrite pre_process_stages.
  destruct (op_has_no_conflicting_conditions op) eqn:Hf.
  2:{ apply conflict_free_false in Hf as (c & d & ? & ? & ?). intros [= <-].
      eexists; split; [done|]. by apply (rejected_conflict op c d). }
  apply conflict_free_true in Hf.
  destruct (fold_res total_step (op_deposit op) 0) as [td|g] eqn:Hd.
  2:{ apply total_fails_coded in Hd as (err & -> & Hd). intros [= <-].
      eexists; split; [done|]. by apply rejected_deposit. }
  assert (Hd' : amounts_ok (op_deposit op)).
  { by eapply total_amounts_ok. }
  destruct (fold_res total_step (op_withdraw op) 0) as [tw|g] eqn:Hw.
  2:{ apply total_fails_coded in Hw as (err & -> & Hw). intros [= <-].
      eexists; split; [done|]. by apply rejected_withdraw. }
  assert (Hw' : amounts_ok (op_withdraw op)).
  { by eapply total_amounts_ok. }
  destruct (verify_external_operations (op_deposit op) (op_withdraw op)) as [[]|g] eqn:Hv.
  2:{ apply verify_external_Err in Hv as [[Hn ->]|[(Hnd & Hn & ->)|(Hnd & Hnw & -> & Hn)]];
        intros [= <-]; eexists; (split; [done|]).
      - by apply rejected_repeated_deposit.
      - by apply rejected_repeated_withdraw.
      - apply mismatch_witness in Hn as (a & x & y & cs & ds & ? & ? & ?).
        apply (rejected_mismatch op a x y cs ds); by try apply external_ok_split. }
  apply verify_external_Ok in Hv as (Hnd & Hnw & Hm).
  destruct (assert_signed_uniform op) as [E|E]; rewrite E; [done|]. intros [= <-].
  eexists; split; [done|]. destruct (not_subset_witness (signed_effects op) (executed_effects op))
    as (c & Hc & Hn).
  - intros Hall%assert_signed_Ok. congruence.
  - apply (rejected_unexecuted op c); by try apply external_ok_split.
Qed.
End errors.

(** ** Lemmas: an asset that settles without calling back *)

Section settlement.
Context `{Ownable} `{!SdkLaws} `{!ConditionXdr} `{!ConditionXdrLaws}.
Context {X : Type} `{!HostAuth X} `{!Asset X}.
Implicit Types (e : Env) (s : ChannelState) (x : X) (op : ChannelOperation).
Implicit Types (ext : list (Address * Z * list Condition)).
Import PrivacyChannelContract.
Variable callee : ChannelCall → M (ChannelState * X) ChannelRet.

(** The transfer, seen from outside, when the asset makes no call. *)
Definition quiet_transfer e (a from to : Address) (amt : Z) x x' : Prop :=
  asset_transfer e a from to amt x = AssetDone (Ok x').

(** What deposits and withdrawals do to the outside world. *)
Inductive deposits_settle e (a : Address) : list (Address * Z * list Condition) → X → X → Prop :=
  | deposits_nil x : deposits_settle e a [] x x
  | deposits_cons from amt cs ext x x1 x2 x' :
      frame_auth e [VConditions cs] from x = Ok x1 →
      quiet_transfer e a from (current_contract_address e) amt x1 x2 →
      deposits_settle e a ext x2 x' → deposits_settle e a ((from, amt, cs) :: ext) x x'.

Inductive withdraws_settle e (a : Address) : list (Address * Z * list Condition) → X → X → Prop :=
  | withdraws_nil x : withdraws_settle e a [] x x
  | withdraws_cons to amt cs ext x x1 x2 x' :
      authorize_as_current_contract e
        [mkContractContext _ a "transfer"
           [VAddress (current_contract_address e); VAddress to; VI128 amt]] x = Ok x1 →
      quiet_transfer e a (current_contract_address e) to amt x1 x2 →
      withdraws_settle e a ext x2 x' → withdraws_settle e a ((to, amt, cs) :: ext) x x'.

Lemma deposit_step_run e a from amt cs s x x1 x2 :
  frame_auth e [VConditions cs] from x = Ok x1 →
  quiet_transfer e a from (current_contract_address e) amt x1 x2 →
  in_i128 (ch_total_supply s + amt) = true →
  deposit_step callee e a (from, amt, cs) (s, x)
  = Ok (tt, (set_ch_supply (Some (ch_total_supply s + amt)) s, x2)).
Proof.
  intros Ha Ht Hr. unfold deposit_step, on_snd, on_fst, zoom, transfer, mbind, M_bind.
  cbn [fst snd]. rewrite (proj2 (require_auth_for_args_Ok e from _ x tt x1) Ha).
  cbn [fst snd]. rewrite Ht. cbn [run_asset fst snd].
  by rewrite (proj2 (increase_supply_Ok amt s tt _) (conj Hr eq_refl)).
Qed.

Lemma withdraw_step_run e a to amt cs s x x1 x2 :
  authorize_as_current_contract e
    [mkContractContext _ a "transfer"
       [VAddress (current_contract_address e); VAddress to; VI128 amt]] x = Ok x1 →
  quiet_transfer e a (current_contract_address e) to amt x1 x2 →
  in_i128 (ch_total_supply s - amt) = true →
  withdraw_step callee e a (to, amt, cs) (s, x)
  = Ok (tt, (set_ch_supply (Some (ch_total_supply s - amt)) s, x2)).
Proof.
  intros Ha Ht Hr. unfold withdraw_step, on_snd, on_fst, zoom, transfer, mbind, M_bind, res_bind.
  cbn [fst snd]. rewrite Ha. cbn [fst snd]. rewrite Ht. cbn [run_asset fst snd].
  by rewrite (proj2 (decrease_supply_Ok amt s tt _) (conj Hr eq_refl)).
Qed.

Lemma external_total_nonneg ext : Forall (λ p, 0 < p.1.2) ext → 0 ≤ external_total ext.
Proof. intros Hpos. apply sumZ_nonneg. eapply Forall_impl; [exact Hpos|]. simpl. lia. Qed.

Lemma external_total_cons p ext : external_total (p :: ext) = p.1.2 + external_total ext.
Proof. done. Qed.

Lemma set_supply_total z s : ch_total_supply (set_ch_supply (Some z) s) = z.
Proof. done. Qed.

Lemma deposits_run e a ext s x x' :
  deposits_settle e a ext x x' → Forall (λ p, 0 < p.1.2) ext → 0 ≤ ch_total_supply s →
  ch_total_supply s + external_total ext ≤ i128_max →
  ∃ s', for_each ext (deposit_step callee e a) (s, x) = Ok (tt, (s', x')) ∧
    ch_total_supply s' = ch_total_supply s + external_total ext.
Proof.
  intros Hset. revert s. induction Hset as [x|from amt cs ext x x1 x2 x' Ha Ht _ IH];
    intros s Hpos Hs Hmax.
  { exists s. unfold external_total. simpl. by rewrite Z.add_0_r. }
  apply Forall_cons in Hpos as [Hp Hpos]. pose proof (external_total_nonneg _ Hpos).
  rewrite external_total_cons in *. cbn [fst snd] in *.
  destruct (IH (set_ch_supply (Some (ch_total_supply s + amt)) s)) as (s' & Hrun & Hs');
    [done | rewrite set_supply_total; lia.. |].
  exists s'. split; [|rewrite Hs', set_supply_total; lia].
  cbn [for_each]. unfold mbind, M_bind. rewrite (deposit_step_run e a from amt cs s x x1 x2); [done..|].
  apply in_i128_spec. unfold i128_min. lia.
Qed.

(** The deposit that takes the supply out of the range ends with [AmountOverflow]. *)
Lemma deposits_overflow e a ext s x x' :
  deposits_settle e a ext x x' → Forall (λ p, 0 < p.1.2) ext → 0 ≤ ch_total_supply s ≤ i128_max →
  i128_max < ch_total_supply s + external_total ext →
  for_each ext (deposit_step callee e a) (s, x) = Err (ContractError AmountOverflow).
Proof.
  intros Hset. revert s. induction Hset as [x|from amt cs ext x x1 x2 x' Ha Ht _ IH];
    intros s Hpos Hs Hmax; [unfold external_total in Hmax; simpl in Hmax; lia|].
  apply Forall_cons in Hpos as [Hp Hpos]. rewrite external_total_cons in *. cbn [fst snd] in *.
  cbn [for_each]. unfold mbind, M_bind.
  destruct (in_i128 (ch_total_supply s + amt)) eqn:Hr.
  - rewrite (deposit_step_run e a from amt cs s x x1 x2) by done. apply in_i128_spec in Hr.
    apply IH; [done | rewrite set_supply_total; lia..].
  - unfold deposit_step, on_snd, on_fst, zoom, transfer, mbind, M_bind. cbn [fst snd].
    rewrite (proj2 (require_auth_for_args_Ok e from _ x tt x1) Ha).
    cbn [fst snd]. rewrite Ht. cbn [run_asset fst snd]. by rewrite increase_supply_overflow.
Qed.

Lemma withdraws_run e a ext s x x' :
  withdraws_settle e a ext x x' → Forall (λ p, 0 < p.1.2) ext →
  ch_total_supply s ≤ i128_max → i128_min ≤ ch_total_supply s - external_total ext →
  ∃ s', for_each ext (withdraw_step callee e a) (s, x) = Ok (tt, (s', x')).
Proof.
  intros Hset. revert s. induction Hset as [x|to amt cs ext x x1 x2 x' Ha Ht _ IH];
    intros s Hpos Hs Hmin; [by exists s|].
  apply Forall_cons in Hpos as [Hp Hpos]. pose proof (external_total_nonneg _ Hpos).
  rewrite external_total_cons in *. cbn [fst snd] in *.
  destruct (IH (set_ch_supply (Some (ch_total_supply s - amt)) s)) as (s' & Hrun);
    [done | rewrite set_supply_total; lia.. |].
  exists s'. cbn [for_each]. unfold mbind, M_bind.
  rewrite (withdraw_step_run e a to amt cs s x x1 x2); [done..|].
  apply in_i128_spec. lia.
Qed.

(** With the asset settling quietly, the execution of the externals returns. *)
Lemma execute_run e a dep wd s x x1 x' :
  ch_asset s = Some a → deposits_settle e a dep x x1 → withdraws_settle e a wd x1 x' →
  amounts_ok dep → amounts_ok wd → 0 ≤ ch_total_supply s →
  ch_total_supply s + external_total dep ≤ i128_max →
  ∃ s', execute_external_operations callee e dep wd (s, x) = Ok (tt, (s', x')).
Proof.
  intros Ha Hd Hw [Hdp _] [Hwp Hwm] Hs Hmax.
  destruct (deposits_run _ _ _ s _ _ Hd Hdp Hs Hmax) as (s1 & Hr1 & Hs1).
  pose proof (external_total_nonneg _ Hdp). pose proof (external_total_nonneg _ Hwp).
  destruct (withdraws_run _ _ _ s1 _ _ Hw Hwp) as (s2 & Hr2);
    [lia | unfold i128_max, i128_min in *; lia |].
  exists s2. unfold execute_external_operations, on_fst, zoom, mbind, M_bind. cbn [fst snd].
  rewrite (proj2 (read_asset_Ok s a s)) by done. by rewrite Hr1.
Qed.
End settlement.

Section complete.
Context `{Ownable} `{!SdkLaws} `{!ConditionXdr} `{!ConditionXdrLaws}.
Context {X : Type} `{!HostAuth X} `{!Asset X}.
Import PrivacyChannelContract.

Lemma transact_run callee e op s (x x1 x2 x' : X) auth_contract asset :
  ¬ guarded e s → op_valid op →
  us_auth (ch_utxo s) = Some auth_contract → ch_asset s = Some asset →
  spendable (ch_ledger s) ((op_spend op).*1) → creatable (ch_ledger s) (op_create op) →
  external_total (op_deposit op) + spent_total (ch_ledger s) ((op_spend op).*1)
    = created_total (op_create op) + external_total (op_withdraw op) →
  external_total (op_deposit op) + spent_total (ch_ledger s) ((op_spend op).*1) ≤ i128_max →
  0 ≤ ch_total_supply s → ch_total_supply s + external_total (op_deposit op) ≤ i128_max →
  frame_auth e (bundle_auth_args (op_bundle op)) auth_contract x = Ok x1 →
  deposits_settle e asset (op_deposit op) x1 x2 →
  withdraws_settle e asset (op_withdraw op) x2 x' →
  ∃ s', transact callee e op (s, x) = Ok (tt, (s', x')).
Proof.
  intros Hg Hv Hau Has Hsp Hcr Hbal Hmax Hs0 Hsmax Hreq Hd Hw.
  destruct Hv as (Hfree & Hdok & Hwok & Hrest). pose proof Hdok as (Hdp & Hdm & _).
  pose proof Hwok as (Hwp & Hwm & _).
  destruct (bump_instance_ttl_run e s) as [live Hbump].
  set (s1 := set_ch_temporary (temporary_set e REENTRANCY_GUARD true (ch_temporary s))
               (set_ch_live_until live s)).
  destruct (process_bundle_run channel_features e (op_bundle op)
    (external_total (op_deposit op)) (external_total (op_withdraw op)) (ch_utxo s1) x x1
    auth_contract) as [us Hus]; try done.
  { split_and!; [by apply external_total_nonneg.. | done]. }
  destruct (execute_run callee e asset (op_deposit op) (op_withdraw op) (set_ch_utxo us s1)
    x1 x2 x') as [s2 Hs2]; [done.. | by split | by split | done | done |].
  eexists. unfold transact, on_fst, zoom, mbind, M_bind. cbn [fst snd]. rewrite Hbump.
  cbn [fst snd].
  rewrite (proj2 (enter_guard_Ok e (set_ch_live_until live s) tt s1) (conj Hg eq_refl)).
  unfold lift. rewrite (proj2 (pre_process_Ok op (op_bundle op) _ _)
    (conj (conj Hfree (conj Hdok (conj Hwok Hrest))) (conj eq_refl (conj eq_refl eq_refl)))).
  unfold on_utxo_world, zoom. cbn [fst snd]. rewrite Hus. cbn [fst snd]. rewrite Hs2. done.
Qed.

(** With the guard down, a valid operation comes to its bundle. *)
Lemma transact_to_bundle callee e op s x :
  ¬ guarded e s → op_valid op →
  ∃ s1, ch_ledger s1 = ch_ledger s ∧ us_auth (ch_utxo s1) = us_auth (ch_utxo s) ∧
    ch_asset s1 = ch_asset s ∧ ch_total_supply s1 = ch_total_supply s ∧
    transact callee e op (s, x) =
    (on_utxo_world (UtxoHandler.process_bundle channel_features e (op_bundle op)
       (external_total (op_deposit op)) (external_total (op_withdraw op))) ;;
     execute_external_operations callee e (op_deposit op) (op_withdraw op) ;;
     on_fst exit_reentrancy_guard) (s1, x).
Proof.
  intros Hg Hv. destruct (bump_instance_ttl_run e s) as [live Hbump].
  exists (set_ch_temporary (temporary_set e REENTRANCY_GUARD true (ch_temporary s))
            (set_ch_live_until live s)). split_and!; [done..|].
  unfold transact, on_utxo_world, on_fst, zoom, mbind, M_bind. cbn [fst snd]. rewrite Hbump. cbn [fst snd].
  rewrite (proj2 (enter_guard_Ok e (set_ch_live_until live s) tt _) (conj Hg eq_refl)).
  unfold lift. by rewrite (proj2 (pre_process_Ok op (op_bundle op) _ _)
    (conj Hv (conj eq_refl (conj eq_refl eq_refl)))).
Qed.

(** More value than an [i128] holds traps in the bundle. *)
Lemma transact_traps callee e op s (x x1 : X) auth_contract :
  ¬ guarded e s → op_valid op → us_auth (ch_utxo s) = Some auth_contract →
  spendable (ch_ledger s) ((op_spend op).*1) → creatable (ch_ledger s) (op_create op) →
  i128_max < external_total (op_deposit op) + spent_total (ch_ledger s) ((op_spend op).*1) →
  frame_auth e (bundle_auth_args (op_bundle op)) auth_contract x = Ok x1 →
  transact callee e op (s, x) = Err (Trap ArithmeticOverflow).
Proof.
  intros Hg Hv Hau Hsp Hcr Hmax Hreq.
  destruct (transact_to_bundle callee e op s x Hg Hv) as (s1 & HL & Hau1 & _ & _ & ->).
  pose proof Hv as (_ & (Hdp & Hdm & _) & _).
  unfold on_utxo_world, zoom, mbind, M_bind. cbn [fst snd].
  rewrite (process_bundle_traps channel_features e (op_bundle op) _ _ (ch_utxo s1) x x1
    auth_contract); [done|..]; fold (ch_ledger s1); rewrite ?HL, ?Hau1; try done.
  split; [by apply external_total_nonneg | done].
Qed.

(** Deposits that take the supply out of the range end with [AmountOverflow]. *)
Lemma transact_supply_overflow callee e op s (x x1 x2 : X) auth_contract asset :
  ¬ guarded e s → op_valid op →
  us_auth (ch_utxo s) = Some auth_contract → ch_asset s = Some asset →
  spendable (ch_ledger s) ((op_spend op).*1) → creatable (ch_ledger s) (op_create op) →
  external_total (op_deposit op) + spent_total (ch_ledger s) ((op_spend op).*1)
    = created_total (op_create op) + external_total (op_withdraw op) →
  external_total (op_deposit op) + spent_total (ch_ledger s) ((op_spend op).*1) ≤ i128_max →
  0 ≤ ch_total_supply s ≤ i128_max → i128_max < ch_total_supply s + external_total (op_deposit op) →
  frame_auth e (bundle_auth_args (op_bundle op)) auth_contract x = Ok x1 →
  deposits_settle e asset (op_deposit op) x1 x2 →
  transact callee e op (s, x) = Err (ContractError AmountOverflow).
Proof.
  intros Hg Hv Hau Has Hsp Hcr Hbal Hmax Hs0 Hsmax Hreq Hd.
  destruct (transact_to_bundle callee e op s x Hg Hv) as (s1 & HL & Hau1 & Has1 & Hs1 & ->).
  pose proof Hv as (_ & (Hdp & Hdm & _) & (Hwp & _) & _).
  destruct (process_bundle_run channel_features e (op_bundle op)
    (external_total (op_deposit op)) (external_total (op_withdraw op)) (ch_utxo s1) x x1
    auth_contract) as [us Hus]; fold (ch_ledger s1); rewrite ?HL, ?Hau1; try done.
  { split_and!; [by apply external_total_nonneg.. | done]. }
  unfold on_utxo_world, execute_external_operations, on_fst, zoom, mbind, M_bind. cbn [fst snd].
  rewrite Hus. cbn [fst snd].
  rewrite (proj2 (read_asset_Ok (set_ch_utxo us s1) asset _)) by (split; [simpl; congruence | done]).
  rewrite (deposits_overflow callee e asset _ _ x1 x2); [done..| |]; unfold ch_total_supply in *;
    simpl; rewrite Hs1; lia.
Qed.

(** With the guard down, what the checks reject is what [transact] ends with. *)
Lemma transact_rejected callee e op s (x : X) f :
  ¬ guarded e s → pre_process_channel_operation op = Err f →
  transact callee e op (s, x) = Err f.
Proof.
  intros Hg Hpre. destruct (bump_instance_ttl_run e s) as [live Hbump].
  unfold transact, on_fst, zoom, mbind, M_bind. cbn [fst snd]. rewrite Hbump. cbn [fst snd].
  rewrite (proj2 (enter_guard_Ok e (set_ch_live_until live s) tt _) (conj Hg eq_refl)).
  unfold lift. by rewrite Hpre.
Qed.
End complete.

(** ** Properties *)

(** C19. The errors of [transact]'s checks, all of them and in their precedence: with the guard
    down, [transact] ends with the contract error of the first check that fails, whatever the
    ledger, the asset or the authorization; and the checks fail in no other way. *)
Theorem transact_rejects `{Ownable} `{!SdkLaws} `{!ConditionXdr} `{!ConditionXdrLaws} {X}
    `{!HostAuth X} `{!Asset X} (callee : ChannelCall → M (ChannelState * X) ChannelRet)
    (op : ChannelOperation) :
  (∀ err, op_rejected op err ↔ pre_process_channel_operation op = Err (ContractError err)) ∧
  (∀ f, pre_process_channel_operation op = Err f → ∃ err, f = ContractError err) ∧
  (∀ err e s x, op_rejected op err → ¬ guarded e s →
    PrivacyChannelContract.transact callee e op (s, x) = Err (ContractError err)).
Proof.
  split_and!.
  - intros err. split; [apply rejected_run|]. by intros (? & [= ->] & ?)%pre_process_Err.
  - intros f (err & -> & _)%pre_process_Err. eauto.
  - intros err e s x Hr%rejected_run Hg. by apply transact_rejected.
Qed.

(** C18. What [transact] does with an operation nothing forbids: valid, over distinct unspent and
    distinct free entries, and balanced.  On a channel whose guard is down and whose supply is
    non-negative, when the authorization contract authorizes the bundle, every depositor its
    deposit, and the asset settles the transfers without calling back, there are three outcomes,
    and the amounts decide which: it traps with an arithmetic overflow when the deposits and the
    spent outputs together exceed an [i128]; it ends with [AmountOverflow] when they do not but the
    supply and the deposits do; and otherwise it returns, and the outside world is left as the
    authorizations and transfers, in their order, leave it. *)
Theorem transact_complete `{Ownable} `{!SdkLaws} `{!ConditionXdr} `{!ConditionXdrLaws} {X}
    `{!HostAuth X} `{!Asset X} (callee : ChannelCall → M (ChannelState * X) ChannelRet)
    (e : Env) (op : ChannelOperation) (s : ChannelState) (x x1 x2 x' : X)
    (auth_contract asset : Address)
    (value_in := external_total (op_deposit op) + spent_total (ch_ledger s) ((op_spend op).*1))
    (outcome := PrivacyChannelContract.transact callee e op (s, x))
    (Hg : ¬ guarded e s) (Hv : op_valid op)
    (Hbound : us_auth (ch_utxo s) = Some auth_contract ∧ ch_asset s = Some asset)
    (Hledger : spendable (ch_ledger s) ((op_spend op).*1) ∧
               creatable (ch_ledger s) (op_create op))
    (Hbal : value_in = created_total (op_create op) + external_total (op_withdraw op))
    (Hsupply : 0 ≤ ch_total_supply s ≤ i128_max)
    (Hreq : frame_auth e (bundle_auth_args (op_bundle op)) auth_contract x = Ok x1)
    (Hsettle : deposits_settle e asset (op_deposit op) x1 x2 ∧
               withdraws_settle e asset (op_withdraw op) x2 x') :
  (i128_max < value_in → outcome = Err (Trap ArithmeticOverflow)) ∧
  (value_in ≤ i128_max → i128_max < ch_total_supply s + external_total (op_deposit op) →
   outcome = Err (ContractError AmountOverflow)) ∧
  (value_in ≤ i128_max → ch_total_supply s + external_total (op_deposit op) ≤ i128_max →
   ∃ s', outcome = Ok (tt, (s', x'))).
Proof.
  destruct Hbound, Hledger, Hsettle. split_and!; intros.
  - by eapply transact_traps.
  - by eapply transact_supply_overflow.
  - eapply transact_run; done || apply Hsupply.
Qed.

(** C34. Governance of the channel: an upgrade and a proposal of a new administrator need the
    current owner's authorization of that very call, accepting needs the proposed owner's; a
    proposal leaves the owner, acceptance installs the proposed one, an upgrade is recorded as
    an event, and none of them touches funds or bindings. *)
Theorem channel_governance_gated `{OwnableLaws} `{!SdkLaws} `{!ConditionXdr} {X} `{!HostAuth X}
    `{!Asset X} (e : Env) (s s' : ChannelState) (x x' : X) :
  (∀ new, PrivacyChannelContract.set_admin e new (s, x) = Ok (tt, (s', x')) →
    same_funds s s' ∧ get_owner (ch_own s') = get_owner (ch_own s) ∧
    ∃ a, get_owner (ch_own s) = Some a ∧ frame_auth e [VAddress new] a x = Ok x') ∧
  (PrivacyChannelContract.accept_admin e (s, x) = Ok (tt, (s', x')) →
    same_funds s s' ∧ ∃ p, pending_owner e (ch_own s) = Some p ∧ frame_auth e [] p x = Ok x' ∧
    get_owner (ch_own s') = Some p) ∧
  (∀ h, PrivacyChannelContract.upgrade e h (s, x) = Ok (tt, (s', x')) →
    same_funds s s' ∧ get_owner (ch_own s') = get_owner (ch_own s) ∧
    ch_events s' = ch_events s ++ [ChannelUpgraded h] ∧
    ∃ a, get_owner (ch_own s) = Some a ∧ frame_auth e [VOther (to_array h)] a x = Ok x').
Proof.
  split_and!.
  - intros new Hrun. split; [by eapply set_admin_frame|].
    apply channel_own_call_Ok in Hrun as (o & Ho & ->). by apply transfer_ownership_spec in Ho.
  - intros Hrun. split; [by eapply accept_admin_frame|].
    apply channel_own_call_Ok in Hrun as (o & Ho & ->). by apply accept_ownership_spec in Ho.
  - intros h Hrun. split; [by eapply upgrade_frame|].
    apply M_bind_Ok in Hrun as ([] & [s1 x1] & Ho & Hrun).
    apply M_bind_Ok in Hrun as ([] & [s2 x2] & [->%modify_Ok ->]%on_fst_Ok & [Hrun ->]%on_fst_Ok).
    apply channel_own_call_Ok in Ho as (o & Ho & ->). apply enforce_owner_auth_spec in Ho as [-> Ho].
    inv_M. done.
Qed.

(** The queries: they return the owner, the bindings, the recorded supply and the ledger's
    balances in the order asked (-1 for a free key, 0 for a spent one), and no query changes
    funds or bindings. *)
Theorem channel_queries_correct `{Ownable} `{!SdkLaws} (e : Env) (s s' : ChannelState) :
  (∀ u b, PrivacyChannelContract.utxo_balance e u s = Ok (b, s') →
    b = ledger_balance (Store.utxo_key u) (ch_ledger s) ∧ same_funds s s') ∧
  (∀ us bs, PrivacyChannelContract.utxo_balances e us s = Ok (bs, s') →
    bs = ((λ u, ledger_balance (Store.utxo_key u) (ch_ledger s)) <$> us) ∧ same_funds s s') ∧
  (∀ z, PrivacyChannelContract.supply s = Ok (z, s') ↔ z = ch_total_supply s ∧ s' = s) ∧
  (∀ a, PrivacyChannelContract.asset s = Ok (a, s') ↔ ch_asset s = Some a ∧ s' = s) ∧
  (∀ a, PrivacyChannelContract.admin s = Ok (a, s') ↔ get_owner (ch_own s) = Some a ∧ s' = s).
Proof.
  split_and!.
  - intros u b. apply utxo_balance_frame.
  - intros us bs. apply utxo_balances_frame.
  - intros z. apply read_supply_Ok.
  - intros a. apply read_asset_Ok.
  - intros a. unfold PrivacyChannelContract.admin, mbind, M_bind, get_state.
    rewrite lift_Ok, unwrap_Ok. naive_solver.
Qed.
