(* ===== verification/ChannelBounds.v ===== *)
(** Bounds on the Privacy Channel: what its amounts can be, and how much of a bundle can go to
    effects that nobody signed for. *)
From S2P Require Import Prelude Errors Host Primitives Storage HostAuth UtxoCore Channel.
From S2P Require Import ChannelSpec ChannelLive.

(** ** Signed and unsigned effects *)

Section effects.
Context `{Sdk}.
Implicit Types op : ChannelOperation.

(** The amount an effect moves out of the spent outputs. *)
Definition effect_amount (c : Condition) : Z :=
  match c with Create _ a | ExtWithdraw _ a => a | _ => 0 end.

(** The signed effects, each once, and the executed ones nobody signed for. *)
Definition signed_once op : list Condition := remove_dups (signed_effects op).
Definition unsigned_effects op : list Condition :=
  filter (λ c, c ∉ signed_effects op) (executed_effects op).
End effects.

(** ** Where [transact] updates the supply *)

Section points.
Context `{Ownable} `{!ConditionXdr} {X : Type} `{!HostAuth X} `{!Asset X}.
Variable callee : ChannelCall → M (ChannelState * X) ChannelRet.
Variables (e : Env) (a : Address).
Implicit Types (op : ChannelOperation) (done : list (Address * Z * list Condition)).
Implicit Types w : ChannelState * X.
Import PrivacyChannelContract.

(** [transact] up to the external operations. *)
Definition before_externals op : M (ChannelState * X) unit :=
  on_fst (bump_instance_ttl e) ;;
  on_fst (enter_reentrancy_guard e) ;;
  '(utxo_op, total_deposit, total_withdraw) ← lift (pre_process_channel_operation op);
  on_utxo_world (UtxoHandler.process_bundle channel_features e utxo_op total_deposit
                   total_withdraw) ;;
  mret tt.

(** The bodies of the two loops, up to the update of the supply. *)
Definition deposit_transfer (d : Address * Z * list Condition) : M (ChannelState * X) unit :=
  let '(from, amount, deposit_conditions) := d in
  on_snd (require_auth_for_args e from [VConditions deposit_conditions]) ;;
  transfer callee e a from (current_contract_address e) amount.

Definition withdraw_transfer (w : Address * Z * list Condition) : M (ChannelState * X) unit :=
  let '(to, amount, _) := w in
  let args_val := [VAddress (current_contract_address e); VAddress to; VI128 amount] in
  on_snd (λ x, x' ← authorize_as_current_contract e
                      [mkContractContext _ a "transfer" args_val] x; Ok (tt, x')) ;;
  transfer callee e a (current_contract_address e) to amount.

(** A [transact] of [op] from [w] comes to the supply update of the deposit [d], after the
    deposits [done], in [w']. *)
Definition at_deposit op w done d w' : Prop :=
  ∃ rest w1 w2, op_deposit op = done ++ d :: rest ∧
    before_externals op w = Ok (tt, w1) ∧
    for_each done (deposit_step callee e a) w1 = Ok (tt, w2) ∧
    deposit_transfer d w2 = Ok (tt, w').

(** The same for the withdrawal [d], after all deposits and the withdrawals [done]. *)
Definition at_withdraw op w done d w' : Prop :=
  ∃ rest w1 w2 w3, op_withdraw op = done ++ d :: rest ∧
    before_externals op w = Ok (tt, w1) ∧
    for_each (op_deposit op) (deposit_step callee e a) w1 = Ok (tt, w2) ∧
    for_each done (withdraw_step callee e a) w2 = Ok (tt, w3) ∧
    withdraw_transfer d w3 = Ok (tt, w').
End points.

(** ** Lemmas *)

(** The stages are those of the contract. *)
Section stages.
Context `{Ownable} `{!ConditionXdr} {X : Type} `{!HostAuth X} `{!Asset X}.
Variable callee : ChannelCall → M (ChannelState * X) ChannelRet.
Implicit Types (e : Env) (a : Address) (d : Address * Z * list Condition) (w : ChannelState * X).
Import PrivacyChannelContract.

Lemma transact_stages e op w :
  transact callee e op w =
  (before_externals e op ;;
   execute_external_operations callee e (op_deposit op) (op_withdraw op) ;;
   on_fst exit_reentrancy_guard) w.
Proof.
  unfold transact, before_externals, mbind, M_bind.
  destruct (on_fst (bump_instance_ttl e) w) as [[[] w1]|]; [|done].
  destruct (on_fst (enter_reentrancy_guard e) w1) as [[[] w2]|]; [|done].
  destruct (lift (pre_process_channel_operation op) w2) as [[[[b td] tw] w3]|]; [|done].
  by destruct (on_utxo_world _ w3) as [[z w4]|].
Qed.

Lemma deposit_step_stages e a d w :
  deposit_step callee e a d w
  = (deposit_transfer callee e a d ;; on_fst (increase_supply d.1.2)) w.
Proof.
  destruct d as [[from amt] cs]. unfold deposit_step, deposit_transfer, mbind, M_bind. cbn [fst snd].
  by destruct (on_snd _ w) as [[[] w1]|].
Qed.

Lemma withdraw_step_stages e a d w :
  withdraw_step callee e a d w
  = (withdraw_transfer callee e a d ;; on_fst (decrease_supply d.1.2)) w.
Proof.
  destruct d as [[to amt] cs]. unfold withdraw_step, withdraw_transfer, mbind, M_bind. cbn [fst snd].
  by destruct (on_snd _ w) as [[[] w1]|].
Qed.
End stages.

Section at_points.
Context `{Ownable} `{!SdkLaws} `{!ConditionXdr} `{!ConditionXdrLaws}.
Context {X : Type} `{!HostAuth X} `{!Asset X}.
Implicit Types (e : Env) (s : ChannelState) (x : X) (op : ChannelOperation).
Import PrivacyChannelContract.

Lemma before_externals_Ok e op s x u s1 x1 :
  1 ≤ min_temporary_ttl e → before_externals e op (s, x) = Ok (u, (s1, x1)) →
  guarded e s1 ∧ op_valid op ∧ spendable (ch_ledger s) ((op_spend op).*1) ∧
  creatable (ch_ledger s) (op_create op) ∧
  external_total (op_deposit op) + spent_total (ch_ledger s) ((op_spend op).*1)
    = created_total (op_create op) + external_total (op_withdraw op) ∧
  ch_total_supply s1 = ch_total_supply s.
Proof.
  intros Hmin. unfold before_externals.
  intros (v1 & [s2 x2] & [[live ->]%channel_bump_Ok ->]%on_fst_Ok & Hr)%M_bind_Ok.
  apply M_bind_Ok in Hr as (v2 & [s3 x3] & [(Hng & Hs3)%enter_guard_Ok ->]%on_fst_Ok & Hr).
  apply M_bind_Ok in Hr as ([[b td] tw] & [s4 x4] & [Hpre [= <- <-]]%lift_Ok & Hr).
  apply pre_process_Ok in Hpre as (Hv & -> & -> & ->).
  apply M_bind_Ok in Hr as (r & [s5 x5] & Hb & [_ [= -> ->]]%M_ret_Ok).
  unfold on_utxo_world in Hb. apply zoom_Ok in Hb as ([us y] & Hb & Hs5).
  cbn [fst snd] in Hb, Hs5. injection Hs5 as -> ->.
  apply process_bundle_Ok in Hb as (Hsp & Hcr & _ & Hbal & _). subst s3.
  split_and!; try done. apply (temporary_set_guarded e (set_ch_live_until live s) Hmin).
Qed.

Lemma deposit_transfer_guarded d e a p s x u s' x' :
  guarded e s → deposit_transfer (channel_call d e) e a p (s, x) = Ok (u, (s', x')) →
  same_funds s s'.
Proof.
  destruct p as [[from amt] cs]. intros Hg. unfold deposit_transfer.
  intros (v & [s1 x1] & [_ ->]%on_snd_Ok & Ht)%M_bind_Ok. by eapply transfer_guarded.
Qed.

Lemma withdraw_transfer_guarded d e a p s x u s' x' :
  guarded e s → withdraw_transfer (channel_call d e) e a p (s, x) = Ok (u, (s', x')) →
  same_funds s s'.
Proof.
  destruct p as [[from amt] cs]. intros Hg. unfold withdraw_transfer.
  intros (v & [s1 x1] & [_ ->]%on_snd_Ok & Ht)%M_bind_Ok. by eapply transfer_guarded.
Qed.

Lemma same_funds_supply s s' : same_funds s s' → ch_total_supply s' = ch_total_supply s.
Proof. intros (_ & Hs & _). unfold ch_total_supply. by rewrite Hs. Qed.

(** Where the supply is when it is increased, and when it is decreased. *)
Lemma at_deposit_supply depth e a op s x fin d s' x' :
  1 ≤ min_temporary_ttl e →
  at_deposit (channel_call depth e) e a op (s, x) fin d (s', x') →
  0 < d.1.2 ∧ 0 ≤ external_total fin ∧
  ch_total_supply s' = ch_total_supply s + external_total fin.
Proof.
  intros Hmin (rest & [s1 x1] & [s2 x2] & Hsplit & Hb & Hd & Ht).
  apply before_externals_Ok in Hb as (Hg & Hv & _ & _ & _ & Hs1); [|done].
  apply deposits_Ok in Hd as [Hm _]; [|done].
  apply deposit_transfer_guarded, same_funds_supply in Ht; [|by eapply supply_moved_guarded].
  destruct Hv as (_ & (Hpos & _) & _). rewrite Hsplit in Hpos.
  apply Forall_app in Hpos as [Hfin [Hp _]%Forall_cons].
  pose proof (external_total_nonneg _ Hfin). destruct Hm as (_ & Hm & _). split_and!; [done | lia..].
Qed.

Lemma external_total_app (l k : list (Address * Z * list Condition)) :
  external_total (l ++ k) = external_total l + external_total k.
Proof. apply sumZ_app. Qed.

Lemma at_withdraw_supply depth e a op s x fin d s' x' :
  1 ≤ min_temporary_ttl e → ch_total_supply s ≤ i128_max →
  (∀ us, spendable (ch_ledger s) us → 0 ≤ spent_total (ch_ledger s) us ≤ ch_total_supply s) →
  at_withdraw (channel_call depth e) e a op (s, x) fin d (s', x') →
  0 < d.1.2 ∧
  ch_total_supply s'
    = ch_total_supply s + external_total (op_deposit op) - external_total fin ∧
  d.1.2 ≤ ch_total_supply s' ≤ i128_max.
Proof.
  intros Hmin Hmax Hspent (rest & [s1 x1] & [s2 x2] & [s3 x3] & Hsplit & Hb & Hd & Hw & Ht).
  apply before_externals_Ok in Hb as (Hg & Hv & Hsp%Hspent & Hcr & Hbal & Hs1); [|done].
  apply deposits_Ok in Hd as [Hm _]; [|done].
  pose proof (supply_moved_guarded e _ _ _ Hm Hg) as Hg2.
  apply withdraws_Ok in Hw as Hm2; [|done].
  pose proof (supply_moved_guarded e _ _ _ Hm2 Hg2) as Hg3.
  apply withdraw_transfer_guarded, same_funds_supply in Ht; [|done].
  destruct Hm as (_ & Hm & _ & _ & _ & _ & Hr), Hm2 as (_ & Hm2 & _).
  destruct Hv as (_ & _ & (Hpos & _) & _). rewrite Hsplit in Hpos, Hbal.
  apply Forall_app in Hpos as [Hfin [Hp Hrest]%Forall_cons].
  rewrite external_total_app, external_total_cons in Hbal.
  pose proof (created_total_nonneg _ _ Hcr). pose proof (external_total_nonneg _ Hrest).
  pose proof (external_total_nonneg _ Hfin).
  assert (in_i128 (ch_total_supply s1) = true) as Hr1 by (apply in_i128_spec; unfold i128_min; lia).
  apply Hr, in_i128_spec in Hr1. split_and!; lia.
Qed.

(** The update of the supply from a known value. *)
Lemma increase_supply_decides z amount s :
  ch_total_supply s = z → 0 ≤ z → 0 < amount →
  increase_supply amount s =
  if z + amount <=? i128_max then Ok (tt, set_ch_supply (Some (z + amount)) s)
  else Err (ContractError AmountOverflow).
Proof.
  intros <- Hz Ha. destruct (Z.leb_spec (ch_total_supply s + amount) i128_max).
  - apply increase_supply_Ok. split; [apply in_i128_spec; unfold i128_min; lia | done].
  - apply increase_supply_overflow, not_true_is_false. rewrite in_i128_spec. lia.
Qed.

(** Positive amounts that add up to too much are found out. *)
Lemma total_overflows (l : list (Address * Z * list Condition)) :
  Forall (λ p, 0 < p.1.2) l → i128_max < external_total l → amounts_fail l AmountOverflow.
Proof.
  intros Hpos Hmax. apply total_fails.
  destruct (fold_res total_step l 0) as [t|f] eqn:E.
  - apply total_amounts_ok in E as [_ ?]. lia.
  - apply total_fails_coded in E as (err & -> & (l1 & p & l2 & -> & _ & Hp)).
    apply Forall_app in Hpos as [_ [Hp0 _]%Forall_cons].
    destruct Hp as [[? _]|(_ & _ & ->)]; [lia | done].
Qed.

Lemma totals_rejected op :
  conflict_free op → Forall (λ p, 0 < p.1.2) (op_deposit op ++ op_withdraw op) →
  i128_max < external_total (op_deposit op) ∨ i128_max < external_total (op_withdraw op) →
  op_rejected op AmountOverflow.
Proof.
  intros Hf [Hd Hw]%Forall_app Hmax.
  destruct (decide (external_total (op_deposit op) ≤ i128_max)) as [Hok|Hno].
  - destruct Hmax as [?|Hmax]; [lia|]. by apply rejected_withdraw, total_overflows.
  - apply rejected_deposit, total_overflows; [done..|lia].
Qed.

(** What the deposits bring in is in the supply before any withdrawal, so it fitted. *)
Lemma transact_deposits_fit depth e op s x u s' x' :
  1 ≤ min_temporary_ttl e → in_i128 (ch_total_supply s) = true →
  transact (channel_call depth e) e op (s, x) = Ok (u, (s', x')) →
  ch_total_supply s + external_total (op_deposit op) ≤ i128_max.
Proof.
  intros Hmin Hr. rewrite transact_stages.
  intros ([] & [s1 x1] & Hb & ([] & [s2 x2] & He & _)%M_bind_Ok)%M_bind_Ok.
  apply before_externals_Ok in Hb as (Hg & _ & _ & _ & _ & Hs1); [|done].
  unfold execute_external_operations in He.
  apply M_bind_Ok in He as (a & [s3 x3] & [(_ & ->)%read_asset_Ok ->]%on_fst_Ok & He).
  apply M_bind_Ok in He as (v & [s4 x4] & Hd & _).
  apply deposits_Ok in Hd as [(_ & Hm & _ & _ & _ & _ & Hr4) _]; [|done].
  rewrite Hs1 in *. apply Hr4, in_i128_spec in Hr. lia.
Qed.
End at_points.

Section effect_lemmas.
Context `{Sdk}.
Implicit Types op : ChannelOperation.

(** Executed effects are pairwise different: one create per key, one withdrawal per address. *)
Lemma executed_NoDup op :
  NoDup ((op_create op).*1) → NoDup ((op_withdraw op).*1.*1) → NoDup (executed_effects op).
Proof.
  intros Hc Hw. unfold executed_effects. apply NoDup_app. split_and!.
  - apply (NoDup_fmap_1 (λ c, match c with Create u _ => Some u | _ => None end)).
    rewrite <- list_fmap_compose. rewrite (list_fmap_ext _ (Some ∘ fst)) by done.
    rewrite list_fmap_compose. by apply NoDup_fmap_2; [apply _|].
  - intros c (p & -> & _)%list_elem_of_fmap (q & E & _)%list_elem_of_fmap. done.
  - apply (NoDup_fmap_1 (λ c, match c with ExtWithdraw a _ => Some a | _ => None end)).
    rewrite <- list_fmap_compose. rewrite (list_fmap_ext _ (Some ∘ (fst ∘ fst))) by done.
    rewrite !list_fmap_compose. by apply NoDup_fmap_2; [apply _|].
Qed.

Lemma executed_total op :
  sumZ effect_amount (executed_effects op)
  = created_total (op_create op) + external_total (op_withdraw op).
Proof. unfold executed_effects. rewrite sumZ_app, !sumZ_fmap. reflexivity. Qed.

(** When all that was signed is executed, the executed effects are the signed ones and the
    unsigned ones. *)
Lemma executed_partition op :
  NoDup (executed_effects op) → (∀ c, c ∈ signed_effects op → c ∈ executed_effects op) →
  executed_effects op ≡ₚ signed_once op ++ unsigned_effects op.
Proof.
  intros Hnd Hsub. unfold signed_once, unsigned_effects. apply NoDup_Permutation; [done | |].
  - apply NoDup_app. split_and!; [apply NoDup_remove_dups | | by apply NoDup_filter].
    intros c Hc [Hn _]%list_elem_of_filter. apply Hn. by rewrite elem_of_remove_dups in Hc.
  - intros c. rewrite elem_of_app, elem_of_remove_dups, list_elem_of_filter.
    destruct (decide (c ∈ signed_effects op)); naive_solver.
Qed.
End effect_lemmas.

Section range.
Implicit Types (L : Ledger) (us : list (BytesN 65)).

(** No amount is more than all of them, and no choice of outputs is worth more. *)
Lemma amount_le_total L k a : wf_ledger L → L !! k = Some a → 0 ≤ a ≤ total_unspent L.
Proof.
  intros Hwf Hk. split; [exact (Hwf _ _ Hk)|].
  apply (map_sumZ_lookup_le (λ z, z) L k a); [|done]. intros j w Hj. exact (Hwf _ _ Hj).
Qed.

Lemma spent_le_total `{SdkLaws} L us :
  wf_ledger L → spendable L us → 0 ≤ spent_total L us ≤ total_unspent L.
Proof.
  intros Hwf Hs. split; [by apply spent_total_nonneg|].
  assert (0 ≤ total_unspent (spent_map us ∪ L)).
  { apply map_sumZ_nonneg. intros k a Hk.
    exact (evolves_wf _ _ (spends_evolve _ _ Hs) Hwf _ _ Hk). }
  rewrite total_spent in * by done. lia.
Qed.
End range.

(** ** Properties *)

(** C16. Bounds of a deployed channel.  In every state it can reach, the recorded supply is a
    non-negative [i128], no entry holds more than the supply, and no choice of unspent outputs is
    worth more, so adding them up cannot overflow.  In a [transact] from such a state, whatever
    the asset does, at each point where a deposit is added to the supply, the supply is the one
    at the start and the deposits before it, and the addition ends with [AmountOverflow] exactly
    when it leaves the range; at each point where a withdrawal is taken off, the supply covers it,
    so the subtraction returns, and never ends with [AmountUnderflow].  And of the totals: an
    operation without conflicting conditions whose positive amounts add up to more than an [i128],
    on either side, ends with [AmountOverflow]; and one whose deposits take the supply out of the
    range never returns. *)
Theorem channel_amounts_bounded `{Ownable} `{!SdkLaws} `{!ConditionXdr} `{!ConditionXdrLaws} {X}
    `{!HostAuth X} `{!Asset X} (admin auth_contract asset : Address) (s : ChannelState)
    (Hreach : channel_reachable (X:=X) admin auth_contract asset s) :
  0 ≤ ch_total_supply s ≤ i128_max ∧
  (∀ k a, ch_ledger s !! k = Some a → 0 ≤ a ≤ ch_total_supply s) ∧
  (∀ us, spendable (ch_ledger s) us → 0 ≤ spent_total (ch_ledger s) us ≤ ch_total_supply s) ∧
  ∀ depth e op x, 1 ≤ min_temporary_ttl e →
    let call := PrivacyChannelContract.channel_call depth e in
    let outcome := PrivacyChannelContract.transact call e op (s, x) in
    (∀ fin d s' x', at_deposit call e asset op (s, x) fin d (s', x') →
       let sum := ch_total_supply s + external_total fin + d.1.2 in
       increase_supply d.1.2 s' =
       if sum <=? i128_max then Ok (tt, set_ch_supply (Some sum) s')
       else Err (ContractError AmountOverflow)) ∧
    (∀ fin d s' x', at_withdraw call e asset op (s, x) fin d (s', x') →
       let rest := ch_total_supply s + external_total (op_deposit op) - external_total fin
                   - d.1.2 in
       0 ≤ rest ∧ decrease_supply d.1.2 s' = Ok (tt, set_ch_supply (Some rest) s')) ∧
    (conflict_free op → Forall (λ p, 0 < p.1.2) (op_deposit op ++ op_withdraw op) →
     i128_max < external_total (op_deposit op) ∨ i128_max < external_total (op_withdraw op) →
     outcome = Err (ContractError AmountOverflow)) ∧
    (i128_max < ch_total_supply s + external_total (op_deposit op) → is_Ok outcome = false).
Proof.
  apply channel_history in Hreach as (Hs & Hwf & _ & _ & _ & Hguard & Hr).
  pose proof Hr as Hr'. apply in_i128_spec in Hr'.
  assert (0 ≤ ch_total_supply s).
  { rewrite Hs. apply map_sumZ_nonneg. intros k a Hk. exact (Hwf _ _ Hk). }
  split_and!; [lia | lia | | |].
  - rewrite Hs. intros k a. by apply amount_le_total.
  - rewrite Hs. intros us. by apply spent_le_total.
  - intros depth e op x Hmin call outcome. split_and!.
    + intros fin d s' x' (Hp & Hfin & Hs')%at_deposit_supply sum; [|done].
      apply increase_supply_decides; [done | lia | done].
    + intros fin d s' x' (Hp & Hs' & Hle)%at_withdraw_supply rest; [|done|lia|].
      2:{ rewrite Hs. intros us. by apply spent_le_total. }
      subst rest. split; [lia|]. rewrite <- Hs'.
      apply decrease_supply_Ok. split; [apply in_i128_spec; unfold i128_min; lia | done].
    + intros Hf Hpos Hmax. apply transact_rejected; [|by apply rejected_run, totals_rejected].
      unfold guarded, temporary_get. rewrite Hguard. by intros [].
    + intros Hmax. destruct outcome as [[u [s' x']]|] eqn:E; [|done].
      apply transact_deposits_fit in E; [lia|done..].
Qed.

(** C17. What nobody signed is paid from the residual: after a [transact] that returns, the
    executed creates and withdrawals are the signed ones, each once, and others that together
    move exactly what the deposits and the spent outputs bring in less the signed amounts.  A
    bundle whose signers claim everything executes nothing else. *)
Theorem unsigned_effects_bounded_by_residual `{Ownable} `{!SdkLaws} `{!ConditionXdr}
    `{!ConditionXdrLaws} {X} `{!HostAuth X} `{!Asset X} (depth : nat) (e : Env)
    (op : ChannelOperation) (s s' : ChannelState) (x x' : X)
    (Hmin : 1 ≤ min_temporary_ttl e)
    (Hrun : PrivacyChannelContract.transact (PrivacyChannelContract.channel_call depth e) e op
              (s, x) = Ok (tt, (s', x'))) :
  let residual := external_total (op_deposit op) + spent_total (ch_ledger s) ((op_spend op).*1)
                  - sumZ effect_amount (signed_once op) in
  executed_effects op ≡ₚ signed_once op ++ unsigned_effects op ∧
  sumZ effect_amount (unsigned_effects op) = residual ∧
  Forall (λ c, 0 < effect_amount c) (unsigned_effects op) ∧
  0 ≤ residual ∧ (residual = 0 → unsigned_effects op = []).
Proof.
  apply transact_Ok in Hrun as (_ & (_ & _ & (Hpos & _ & Hnw) & _ & Hsig) & _ & Hcr & Hbal & _);
    [|done]. intros residual.
  assert (Hpart : executed_effects op ≡ₚ signed_once op ++ unsigned_effects op).
  { apply executed_partition; [|done]. apply executed_NoDup; [by eapply creatable_NoDup_keys | done]. }
  assert (Hsum := sumZ_perm effect_amount _ _ Hpart). rewrite executed_total, sumZ_app in Hsum.
  assert (Hall : Forall (λ c, 0 < effect_amount c) (executed_effects op)).
  { apply Forall_app. split; apply Forall_fmap, Forall_forall.
    - intros p Hp. by apply (proj2 Hcr p Hp).
    - intros p Hp. rewrite Forall_forall in Hpos. by apply Hpos. }
  assert (Hun : Forall (λ c, 0 < effect_amount c) (unsigned_effects op)).
  { rewrite Forall_forall in *. intros c [_ Hc]%list_elem_of_filter. by apply Hall. }
  assert (Hnn : 0 ≤ sumZ effect_amount (unsigned_effects op)).
  { apply sumZ_nonneg. eapply Forall_impl; [exact Hun|]. simpl. lia. }
  split_and!; [done | lia | done | lia |]. intros Hz. apply (sumZ_zero effect_amount); [done | lia].
Qed.
