(* ===== verification/ChannelRefinement.v ===== *)
(** The Privacy Channel as a specification: an abstract machine with a ledger of amounts and two
    bindings, which knows no guard, no depth, no stored supply, no time to live and no asset, and
    the simulation of the contract by it.

    Ownership is left out of the machine: it belongs to the access-control library, and an asset
    may hand it over in the middle of a transfer.  A call that fails leaves no trace. *)
From S2P Require Import Prelude Errors Host Primitives Storage HostAuth UtxoCore Channel.
From S2P Require Import ChannelSpec.

(** ** The abstract machine *)

Section machine.
Context `{Ownable} `{!ConditionXdr}.
Implicit Types (op : ChannelOperation).

Record AbsChannel := mkAbsChannel {
  abs_ledger : Ledger;
  abs_auth : Address;
  abs_asset : Address;
}.
Implicit Types (a : AbsChannel).

Definition abs_init (auth_contract asset : Address) : AbsChannel := mkAbsChannel ∅ auth_contract asset.

(** What the supply is, seen from the ledger. *)
Definition abs_supply a : Z := total_unspent (abs_ledger a).

(** When an operation may be executed, and its effect. *)
Definition abs_enabled a op : Prop :=
  op_valid op ∧
  spendable (abs_ledger a) ((op_spend op).*1) ∧ creatable (abs_ledger a) (op_create op) ∧
  external_total (op_deposit op) + spent_total (abs_ledger a) ((op_spend op).*1)
    = created_total (op_create op) + external_total (op_withdraw op).

Definition abs_execute a op : AbsChannel :=
  mkAbsChannel (bundle_ledger (abs_ledger a) ((op_spend op).*1) (op_create op))
    (abs_auth a) (abs_asset a).

(** A step: a call, its answer, and the state it leads to. *)
Inductive abs_step a : ChannelCall → ChannelRet → AbsChannel → Prop :=
  | abs_transact op : abs_enabled a op → abs_step a (CcTransact op) RetUnit (abs_execute a op)
  | abs_set_admin new : abs_step a (CcSetAdmin new) RetUnit a
  | abs_accept_admin : abs_step a CcAcceptAdmin RetUnit a
  | abs_upgrade h : abs_step a (CcUpgrade h) RetUnit a
  | abs_utxo_balance u :
      abs_step a (CcUtxoBalance u) (RetInt (ledger_balance (Store.utxo_key u) (abs_ledger a))) a
  | abs_utxo_balances us :
      abs_step a (CcUtxoBalances us)
        (RetInts ((λ u, ledger_balance (Store.utxo_key u) (abs_ledger a)) <$> us)) a
  | abs_query_admin owner : abs_step a CcAdmin (RetAddress owner) a
  | abs_query_auth : abs_step a CcAuth (RetAddress (abs_auth a)) a
  | abs_query_asset : abs_step a CcAsset (RetAddress (abs_asset a)) a
  | abs_query_supply : abs_step a CcSupply (RetInt (abs_supply a)) a.

Inductive abs_trace a : list (ChannelCall * ChannelRet) → AbsChannel → Prop :=
  | abs_trace_nil : abs_trace a [] a
  | abs_trace_snoc l a1 c r a2 :
      abs_trace a l a1 → abs_step a1 c r a2 → abs_trace a (l ++ [(c, r)]) a2.
End machine.

(** ** The contract's traces, and how its states represent the machine's *)

Section traces.
Context `{Ownable} `{!ConditionXdr} {X : Type} `{!HostAuth X} `{!Asset X}.

(** Calls that return, with their answers, after the deployment; between two of them the
    outside world is arbitrary. *)
Inductive channel_trace (admin auth_contract asset : Address) :
    list (ChannelCall * ChannelRet) → ChannelState → Prop :=
  | trace_deploy e live (x x' : X) s :
      PrivacyChannelContract.__constructor e admin auth_contract asset (channel_init live, x)
      = Ok (tt, (s, x')) →
      channel_trace admin auth_contract asset [] s
  | trace_call l depth e c (x x' : X) r s s' :
      channel_trace admin auth_contract asset l s → 1 ≤ min_temporary_ttl e →
      PrivacyChannelContract.channel_call depth e c (s, x) = Ok (r, (s', x')) →
      channel_trace admin auth_contract asset (l ++ [(c, r)]) s'.

Definition represents (s : ChannelState) (a : AbsChannel) : Prop :=
  ch_ledger s = abs_ledger a ∧ ch_total_supply s = abs_supply a ∧
  us_auth (ch_utxo s) = Some (abs_auth a) ∧ ch_asset s = Some (abs_asset a) ∧
  ch_temporary s !! PrivacyChannelContract.REENTRANCY_GUARD = None.
End traces.

(** ** Lemmas *)

Section simulation.
Context `{Ownable} `{!SdkLaws} `{!ConditionXdr} `{!ConditionXdrLaws} {X : Type} `{!HostAuth X}
  `{!Asset X}.
Implicit Types (e : Env) (s : ChannelState) (x : X) (a : AbsChannel).
Import PrivacyChannelContract.

Lemma represents_frame s s' a : same_funds s s' → represents s a → represents s' a.
Proof.
  intros (HL & Hs & Ha & Hau & Ht & _). unfold represents, ch_total_supply.
  by rewrite HL, Hs, Ha, Hau, Ht.
Qed.

(** The deployed channel is the initial state. *)
Lemma deploy_represents e admin auth_contract asset live x s x' :
  __constructor e admin auth_contract asset (channel_init live, x) = Ok (tt, (s, x')) →
  represents s (abs_init auth_contract asset).
Proof.
  intros Hrun. unfold __constructor in Hrun.
  apply M_bind_Ok in Hrun as (v1 & [s1 x1] & Hown & Hrun).
  apply M_bind_Ok in Hrun as (v2 & [s2 x2] & (o & _ & ->)%channel_own_call_Ok & Hrun).
  apply M_bind_Ok in Hrun as (v3 & [s3 x3] & [(us & ->%modify_Ok & ->)%on_utxo_Ok ->]%on_fst_Ok & Hrun).
  apply M_bind_Ok in Hrun as (v4 & [s4 x4] & [->%modify_Ok ->]%on_fst_Ok & Hrun).
  apply on_fst_Ok in Hrun as [[live' ->]%channel_bump_Ok ->].
  apply on_fst_Ok in Hown as [Hown ->].
  apply M_bind_Ok in Hown as (v & t & [-> ->]%get_state_Ok & Hown).
  apply M_bind_Ok in Hown as (v' & t' & [_ <-]%lift_Ok & ->%put_state_Ok).
  unfold represents, abs_supply, ch_ledger, ledger_of, amounts, ch_total_supply. simpl.
  by rewrite fmap_empty.
Qed.

(** Every call that returns is a step. *)
Lemma call_simulated d e c s x r s' x' a :
  1 ≤ min_temporary_ttl e → represents s a →
  channel_call d e c (s, x) = Ok (r, (s', x')) →
  ∃ a', abs_step a c r a' ∧ represents s' a'.
Proof.
  intros Hmin Hrep Hrun. destruct c as [op|new| |h|u|us| | | |].
  2-10: pose proof Hrun as Hf%quiet_call; [|done]; exists a;
    (split; [|by eapply represents_frame]);
    destruct Hrep as (HL & Hs & Hau & Has & _);
    destruct d; cbn [channel_call] in Hrun; rewrite ?unit_ret_Ok, ?on_fst_ret_Ok in Hrun.
  2-7: destruct Hrun as [_ ->]; constructor.
  2,3: destruct Hrun as (b & [-> _]%utxo_balance_frame & -> & _); rewrite HL; constructor.
  2,3: destruct Hrun as (b & [-> _]%utxo_balances_frame & -> & _); rewrite HL; constructor.
  2,3: destruct Hrun as (b & _ & -> & _); constructor.
  2,3: destruct Hrun as (b & [Hb _]%auth_frame & -> & _); simplify_eq; constructor.
  2,3: destruct Hrun as (b & [Hb _]%read_asset_Ok & -> & _); simplify_eq; constructor.
  2,3: destruct Hrun as (b & [-> _]%read_supply_Ok & -> & _); rewrite Hs; constructor.
  destruct d as [|d]; [done|]. cbn [channel_call] in Hrun. apply unit_ret_Ok in Hrun as [Hrun ->].
  apply transact_Ok in Hrun as (_ & Hv & Hsp & Hcr & Hbal & _ & _ & HL' & Hsup & Ha & Hau' & _ & Ht & _);
    [|done]. destruct Hrep as (HL & Hs & Hau & Has & _).
  exists (abs_execute a op). split; [constructor; unfold abs_enabled; by rewrite <- HL|].
  unfold represents, abs_supply, abs_execute in *. simpl.
  rewrite HL', Hsup, Ha, Hau', Hs, <- HL, (bundle_total _ _ _ Hsp Hcr). split_and!; done || lia.
Qed.

(** Whole histories, by induction on their calls. *)
Lemma trace_simulated admin auth_contract asset l s :
  channel_trace (X:=X) admin auth_contract asset l s →
  ∃ a, abs_trace (abs_init auth_contract asset) l a ∧ represents s a.
Proof.
  induction 1 as [e live x x' s Hrun|l d e c x x' r s s' _ (a & Hl & Hrep) Hmin Hrun].
  - exists (abs_init auth_contract asset). split; [constructor | by eapply deploy_represents].
  - destruct (call_simulated _ _ _ _ _ _ _ _ _ Hmin Hrep Hrun) as (a' & Hstep & Hrep').
    exists a'. split; [by econstructor | done].
Qed.
End simulation.

(** ** Properties *)

(** C11. The channel refines its specification: whatever is called, by whom and with whatever asset,
    the calls that return and their answers are a trace of the abstract machine from its initial
    state, and the state reached represents the machine's.  So the ledger changes only by
    executing operations that are enabled, and every query answers from the abstract state: the
    balances, the bindings, and as the supply the sum of the unspent outputs. *)
Theorem channel_refines_machine `{Ownable} `{!SdkLaws} `{!ConditionXdr} `{!ConditionXdrLaws} {X}
    `{!HostAuth X} `{!Asset X} (admin auth_contract asset : Address)
    (l : list (ChannelCall * ChannelRet)) (s : ChannelState)
    (Htrace : channel_trace (X:=X) admin auth_contract asset l s) :
  ∃ a, abs_trace (abs_init auth_contract asset) l a ∧ represents s a.
Proof. by eapply trace_simulated. Qed.
