(* ===== verification/ChannelHistory.v ===== *)
(** The life of outputs over a whole history of the Privacy Channel: its ledger is what the executed
    operations, and nothing else, say. *)
From S2P Require Import Prelude Errors Host Primitives Storage HostAuth UtxoCore Channel.
From S2P Require Import ChannelSpec ChannelRefinement.

(** ** What a history of calls has executed *)

Section history.
Context `{Ownable} `{!ConditionXdr}.
Implicit Types (op : ChannelOperation) (ops : list ChannelOperation).

Definition executed (l : list (ChannelCall * ChannelRet)) : list ChannelOperation :=
  omap (λ p, match p.1 with CcTransact op => Some op | _ => None end) l.

(** The entries the operations create and the keys they spend, in order. *)
Definition op_creates op : list (UTXOCoreDataKey * Z) :=
  (λ c, (Store.utxo_key c.1, c.2)) <$> op_create op.
Definition op_spends op : list UTXOCoreDataKey := Store.utxo_key <$> (op_spend op).*1.

Definition created ops : list (UTXOCoreDataKey * Z) := mjoin (op_creates <$> ops).
Definition spent ops : list UTXOCoreDataKey := mjoin (op_spends <$> ops).

(** The tokens that came in and went out. *)
Definition deposited ops : Z := sumZ (λ op, external_total (op_deposit op)) ops.
Definition withdrawn ops : Z := sumZ (λ op, external_total (op_withdraw op)) ops.

(** The ledger the operations say: spent keys hold zero, other created keys their amount. *)
Definition history_ledger ops : Ledger :=
  list_to_map ((λ k, (k, 0)) <$> spent ops) ∪ list_to_map (created ops).

Definition history_ok ops (L : Ledger) : Prop :=
  NoDup ((created ops).*1) ∧ NoDup (spent ops) ∧
  (∀ before op after, ops = before ++ op :: after →
     ∀ k, k ∈ op_spends op → k ∈ (created before).*1) ∧
  L = history_ledger ops ∧ total_unspent L = deposited ops - withdrawn ops.
End history.

(** ** Lemmas *)

Section history_lemmas.
Context `{Ownable} `{!SdkLaws} `{!ConditionXdr}.
Implicit Types (op : ChannelOperation) (ops : list ChannelOperation) (k : UTXOCoreDataKey).

Lemma created_snoc ops op : created (ops ++ [op]) = created ops ++ op_creates op.
Proof. unfold created. rewrite fmap_app, join_app. simpl. by rewrite app_nil_r. Qed.

Lemma spent_snoc ops op : spent (ops ++ [op]) = spent ops ++ op_spends op.
Proof. unfold spent. rewrite fmap_app, join_app. simpl. by rewrite app_nil_r. Qed.

Lemma op_creates_keys op : (op_creates op).*1 = Store.utxo_key ∘ fst <$> op_create op.
Proof. unfold op_creates. by rewrite <- list_fmap_compose. Qed.

Lemma zeros_keys (l : list UTXOCoreDataKey) : ((λ k, (k, 0)) <$> l).*1 = l.
Proof. induction l as [|k l IH]; [done|]. rewrite !fmap_cons. by rewrite IH. Qed.

Lemma zeros_lookup (l : list UTXOCoreDataKey) k a :
  NoDup l → (list_to_map ((λ k, (k, 0)) <$> l) : Ledger) !! k = Some a ↔ k ∈ l ∧ a = 0.
Proof.
  intros Hnd. rewrite <- elem_of_list_to_map by by rewrite zeros_keys.
  rewrite list_elem_of_fmap. naive_solver.
Qed.

(** What a key of the history's ledger holds. *)
Lemma history_lookup ops k a :
  NoDup ((created ops).*1) → NoDup (spent ops) →
  history_ledger ops !! k = Some a ↔
  (k ∈ spent ops ∧ a = 0) ∨ ((k ∉ spent ops) ∧ (k, a) ∈ created ops).
Proof.
  intros Hc Hs. unfold history_ledger. rewrite lookup_union_Some_raw, zeros_lookup by done.
  rewrite <- elem_of_list_to_map by done. f_equiv. f_equiv. rewrite eq_None_not_Some. split.
  - intros Hn Hk. apply Hn. exists 0. by apply zeros_lookup.
  - intros Hk [z [Hz _]%zeros_lookup]; done.
Qed.

Lemma history_in_created ops k a :
  NoDup ((created ops).*1) → NoDup (spent ops) → 0 < a →
  history_ledger ops !! k = Some a → (k ∉ spent ops) ∧ k ∈ (created ops).*1.
Proof.
  intros Hc Hs Ha [[_ ->]|[Hk Hin]]%history_lookup; [lia | | done | done]. split; [done|].
  by apply (list_elem_of_fmap_2 fst) in Hin.
Qed.

Lemma history_taken ops k :
  NoDup ((created ops).*1) → NoDup (spent ops) → k ∈ (created ops).*1 →
  history_ledger ops !! k ≠ None.
Proof.
  intros Hc Hs ([k' a] & -> & Hin)%list_elem_of_fmap Hn. simpl in Hn.
  assert (Hsome : history_ledger ops !! k' = Some (if decide (k' ∈ spent ops) then 0 else a)).
  { apply history_lookup; [done..|]. case_decide; [by left | by right]. }
  congruence.
Qed.

(** Executing an operation adds its creates and its spends to the history. *)
Lemma history_ledger_snoc ops op :
  NoDup (spent ops ++ op_spends op) →
  (∀ k, k ∈ (op_creates op).*1 → history_ledger ops !! k = None ∧ k ∉ op_spends op) →
  history_ledger (ops ++ [op])
  = bundle_ledger (history_ledger ops) ((op_spend op).*1) (op_create op).
Proof.
  intros Hnd Hnew. unfold bundle_ledger, spent_map, created_map. fold (op_creates op).
  replace ((λ u, (Store.utxo_key u, 0)) <$> (op_spend op).*1)
    with ((λ k, (k, 0 : Z)) <$> op_spends op)
    by (unfold op_spends; by rewrite <- list_fmap_compose).
  unfold history_ledger at 1. rewrite spent_snoc, created_snoc, fmap_app, !list_to_map_app.
  set (S := list_to_map _ : Ledger). set (S' := list_to_map _ : Ledger).
  set (C := list_to_map (created ops) : Ledger). set (C' := list_to_map (op_creates op) : Ledger).
  assert (HS : S ##ₘ S').
  { apply map_disjoint_spec.
    intros k a b Ha%zeros_lookup Hb%zeros_lookup; apply NoDup_app in Hnd as (? & ? & ?); naive_solver. }
  assert (HC : C' ##ₘ S' ∪ (S ∪ C)).
  { apply map_disjoint_spec. intros k a b Ha Hb.
    apply elem_of_list_to_map_2, (list_elem_of_fmap_2 fst) in Ha. destruct (Hnew _ Ha) as [HL Hs].
    apply lookup_union_Some_raw in Hb as [Hb|[_ Hb]].
    - apply elem_of_list_to_map_2, (list_elem_of_fmap_2 fst) in Hb. by rewrite zeros_keys in Hb.
    - change (history_ledger ops !! k = Some b) in Hb. simpl in HL. congruence. }
  change (history_ledger ops) with (S ∪ C).
  rewrite (map_union_comm C') by done. rewrite (map_union_comm S) by done.
  by rewrite !(assoc_L (∪)).
Qed.

Lemma history_step ops op L :
  history_ok ops L → spendable L ((op_spend op).*1) → creatable L (op_create op) →
  external_total (op_deposit op) + spent_total L ((op_spend op).*1)
    = created_total (op_create op) + external_total (op_withdraw op) →
  history_ok (ops ++ [op]) (bundle_ledger L ((op_spend op).*1) (op_create op)).
Proof.
  intros (Hc & Hs & Hbefore & HL & Htot) Hsp Hcr Hbal.
  assert (Hold : ∀ k, k ∈ op_spends op → (k ∉ spent ops) ∧ k ∈ (created ops).*1).
  { intros k (u & -> & Hu)%list_elem_of_fmap. destruct (proj2 Hsp u Hu) as (a & Ha & Hpos).
    rewrite HL in Ha. by eapply history_in_created. }
  assert (Hfree : ∀ k, k ∈ (op_creates op).*1 → L !! k = None).
  { intros k. rewrite op_creates_keys. intros (c & -> & Hin)%list_elem_of_fmap.
    by apply (proj2 Hcr c Hin). }
  assert (Hnd : NoDup (spent ops ++ op_spends op)).
  { apply NoDup_app. split_and!; [done | | exact (proj1 Hsp)].
    intros k Hk Hk'. by apply Hold in Hk' as [? _]. }
  split_and!.
  - rewrite created_snoc, fmap_app. apply NoDup_app. split_and!; [done | |].
    + intros k Hk Hk'. apply (history_taken ops k Hc Hs Hk). rewrite <- HL. by apply Hfree.
    + rewrite op_creates_keys. exact (proj1 Hcr).
  - by rewrite spent_snoc.
  - intros before op' after Heq k Hk. destruct after as [|op2 after _] using rev_ind.
    + apply app_inj_tail in Heq as [-> ->]. by apply Hold.
    + rewrite app_comm_cons, app_assoc in Heq. apply app_inj_tail in Heq as [-> _].
      by eapply (Hbefore before op' after).
  - symmetry. rewrite HL. apply history_ledger_snoc; [done|]. intros k Hk. rewrite <- HL.
    split; [by apply Hfree|]. intros Hk'%Hold. destruct Hk' as [_ Hin].
    apply (history_taken ops k Hc Hs Hin). rewrite <- HL. by apply Hfree.
  - rewrite (bundle_total _ _ _ Hsp Hcr), Htot. unfold deposited, withdrawn. rewrite !sumZ_app.
    simpl. lia.
Qed.

Lemma executed_snoc l c r :
  executed (l ++ [(c, r)])
  = executed l ++ match c with CcTransact op => [op] | _ => [] end.
Proof. unfold executed. rewrite omap_app. by destruct c. Qed.

Lemma abs_trace_history auth_contract asset l a :
  abs_trace (abs_init auth_contract asset) l a → history_ok (executed l) (abs_ledger a).
Proof.
  induction 1 as [|l a1 c r a2 _ IH Hstep].
  - unfold history_ok, history_ledger, created, spent, executed. simpl.
    split_and!; [apply NoDup_nil_2 | apply NoDup_nil_2 | by intros [] | done | done].
  - rewrite executed_snoc. destruct Hstep as [op (_ & Hsp & Hcr & Hbal)| | | | | | | | |];
      rewrite ?app_nil_r; try done. by apply history_step.
Qed.
End history_lemmas.

(** ** Properties *)

(** C12. The ledger is its history.  However a deployed channel has been used, the operations executed
    so far create every key at most once and spend every key at most once, and only after an
    earlier operation created it; the ledger holds zero at the spent keys, the created amount at
    the other created ones, and nothing else; and the supply is what was deposited less what
    was withdrawn. *)
Theorem ledger_is_history `{Ownable} `{!SdkLaws} `{!ConditionXdr} `{!ConditionXdrLaws} {X}
    `{!HostAuth X} `{!Asset X} (admin auth_contract asset : Address)
    (l : list (ChannelCall * ChannelRet)) (s : ChannelState)
    (Htrace : channel_trace (X:=X) admin auth_contract asset l s) :
  let ops := executed l in
  NoDup ((created ops).*1) ∧ NoDup (spent ops) ∧
  (∀ before op after, ops = before ++ op :: after →
     ∀ k, k ∈ op_spends op → k ∈ (created before).*1) ∧
  (∀ k a, ch_ledger s !! k = Some a ↔
     (k ∈ spent ops ∧ a = 0) ∨ ((k ∉ spent ops) ∧ (k, a) ∈ created ops)) ∧
  ch_total_supply s = deposited ops - withdrawn ops.
Proof.
  apply trace_simulated in Htrace as (a & Ha & HL & Hs & _).
  apply abs_trace_history in Ha as (Hc & Hsp & Hb & Hl & Htot).
  split_and!; [done | done | done | | by rewrite Hs].
  intros k z. rewrite HL, Hl. by apply history_lookup.
Qed.
