(* ===== verification/ChannelOrder.v ===== *)
(** The order of transactions on the Privacy Channel: two transactions that spend or create the same
    entry exclude each other for good, and two that were possible in a state and share none can be
    executed in either order, with the same result. *)
From S2P Require Import Prelude Errors Host Primitives Storage HostAuth UtxoCore Channel.
From S2P Require Import ChannelSpec ChannelLive ChannelBounds ChannelRefinement ChannelHistory.

(** ** Executing operations on the ledger *)

Section order.
Context `{Sdk}.
Implicit Types (L : Ledger) (op : ChannelOperation).

Definition executable L op : Prop :=
  spendable L ((op_spend op).*1) ∧ creatable L (op_create op) ∧
  external_total (op_deposit op) + spent_total L ((op_spend op).*1)
    = created_total (op_create op) + external_total (op_withdraw op).

Definition execute L op : Ledger := bundle_ledger L ((op_spend op).*1) (op_create op).

(** Neither spends a key the other spends, nor creates one the other creates. *)
Definition independent op1 op2 : Prop :=
  (∀ k, k ∈ op_spends op1 → k ∉ op_spends op2) ∧
  (∀ k, k ∈ (op_creates op1).*1 → k ∉ (op_creates op2).*1).
End order.

(** ** Lemmas *)

Section order_lemmas.
Context `{SdkLaws} `{!Ownable} `{!ConditionXdr}.
Implicit Types (L : Ledger) (op : ChannelOperation) (k : UTXOCoreDataKey).

#[local] Instance independent_sym : Symmetric independent.
Proof. intros op1 op2 [Hs Hc]. split; intros k Hk Hk'; [by apply (Hs k) | by apply (Hc k)]. Qed.

Lemma executable_spends L op k :
  executable L op → k ∈ op_spends op → ∃ a, L !! k = Some a ∧ 0 < a.
Proof. intros [[_ Hs] _] (u & -> & Hu)%list_elem_of_fmap. eauto. Qed.

Lemma executable_creates L op k :
  executable L op → k ∈ (op_creates op).*1 → L !! k = None.
Proof.
  intros (_ & [_ Hc] & _). rewrite op_creates_keys. intros (c & -> & Hin)%list_elem_of_fmap.
  by apply (Hc c).
Qed.

(** What a key holds afterwards. *)
Lemma execute_spent L op k : executable L op → k ∈ op_spends op → execute L op !! k = Some 0.
Proof.
  intros (Hs & Hc & _) (u & -> & Hu)%list_elem_of_fmap. by apply bundle_ledger_spent.
Qed.

Lemma execute_created L op k :
  executable L op → k ∈ (op_creates op).*1 →
  ∃ a, (k, a) ∈ op_creates op ∧ execute L op !! k = Some a.
Proof.
  intros (_ & Hc & _) ([k' a] & -> & Hin)%list_elem_of_fmap. exists a. split; [done|].
  apply list_elem_of_fmap in Hin as ([u z] & [= -> ->] & Hin). by apply bundle_ledger_created.
Qed.

Lemma execute_other L op k :
  k ∉ op_spends op → k ∉ (op_creates op).*1 → execute L op !! k = L !! k.
Proof.
  intros Hs Hc. unfold execute, bundle_ledger. rewrite op_creates_keys in Hc.
  by rewrite !lookup_union_r by (by apply created_map_None || by apply spent_map_None).
Qed.

(** The keys an executable operation touches, told apart by what they hold. *)
Lemma spends_not_creates L op1 op2 k :
  executable L op1 → executable L op2 → k ∈ op_spends op1 → k ∉ (op_creates op2).*1.
Proof.
  intros H1' H2' Hk Hk'. destruct (executable_spends _ _ _ H1' Hk) as (a & Ha & _).
  pose proof (executable_creates _ _ _ H2' Hk'). congruence.
Qed.

Lemma execute_other_spends L op1 op2 k :
  executable L op1 → executable L op2 → independent op1 op2 →
  k ∈ op_spends op2 → execute L op1 !! k = L !! k.
Proof.
  intros H1' H2' [Hi _] Hk. apply execute_other; [by intros Hk'%Hi|].
  by eapply spends_not_creates.
Qed.

Lemma execute_other_creates L op1 op2 k :
  executable L op1 → executable L op2 → independent op1 op2 →
  k ∈ (op_creates op2).*1 → execute L op1 !! k = L !! k.
Proof.
  intros H1' H2' [_ Hi] Hk. apply execute_other; [|by intros Hk'%Hi].
  intros Hk'. by eapply (spends_not_creates L op1 op2).
Qed.

(** The second operation is still executable exactly when it is independent of the first. *)
Lemma executable_after L op1 op2 :
  executable L op1 → executable L op2 →
  executable (execute L op1) op2 ↔ independent op1 op2.
Proof.
  intros H1' H2'. split.
  - intros H12. split; intros k Hk Hk'.
    + destruct (executable_spends _ _ _ H12 Hk') as (a & Ha & Hpos).
      rewrite (execute_spent _ _ _ H1' Hk) in Ha. simplify_eq. lia.
    + destruct (execute_created _ _ _ H1' Hk) as (a & _ & Ha).
      pose proof (executable_creates _ _ _ H12 Hk'). congruence.
  - intros Hi. pose proof H2' as ([Hnd Hs] & [Hnc Hc] & Hbal).
    assert (Hsame : ∀ u, u ∈ (op_spend op2).*1 →
      execute L op1 !! Store.utxo_key u = L !! Store.utxo_key u).
    { intros u Hu. eapply execute_other_spends; [done..|]. by apply list_elem_of_fmap_2. }
    split_and!; [split; [done|] | split; [done|] |].
    + intros u Hu. rewrite Hsame by done. by apply Hs.
    + intros c Hc'. rewrite (execute_other_creates L op1 op2); [by apply Hc | done..|].
      rewrite op_creates_keys. by apply (list_elem_of_fmap_2 (Store.utxo_key ∘ fst)).
    + rewrite <- Hbal. f_equal. unfold spent_total. apply sumZ_ext. intros u Hu.
      unfold unspent_amount. by rewrite Hsame.
Qed.

Lemma execute_comm L op1 op2 :
  executable L op1 → executable L op2 → independent op1 op2 →
  execute (execute L op1) op2 = execute (execute L op2) op1.
Proof.
  intros H1' H2' Hi. apply map_eq.
  assert (Hhalf : ∀ opa opb k, executable L opa → executable L opb → independent opa opb →
    k ∈ op_spends opa ∨ k ∈ (op_creates opa).*1 →
    execute (execute L opa) opb !! k = execute (execute L opb) opa !! k).
  { clear. intros opa opb k Ha Hb Hi Hk. assert (Hi' : independent opb opa) by (by symmetry).
    pose proof (proj2 (executable_after _ _ _ Hb Ha) Hi') as Hba.
    rewrite (execute_other (execute L opa) opb).
    - destruct Hk as [Hk|Hk]; [by rewrite !execute_spent|].
      destruct (execute_created _ _ _ Ha Hk) as (a & Hin & ->).
      destruct (execute_created _ _ _ Hba Hk) as (a' & Hin' & ->). f_equal.
      destruct Ha as (_ & [Hnc _] & _). rewrite <- op_creates_keys in Hnc.
      by eapply (NoDup_fst_eq (op_creates opa)).
    - destruct Hk as [Hk|Hk]; [by apply Hi|]. intros Hk'. by eapply (spends_not_creates L opb opa).
    - destruct Hk as [Hk|Hk]; [by eapply (spends_not_creates L opa opb) | by apply Hi]. }
  intros k. destruct (decide (k ∈ op_spends op1 ∨ k ∈ (op_creates op1).*1)) as [Hk|Hk1].
  { by apply Hhalf. }
  destruct (decide (k ∈ op_spends op2 ∨ k ∈ (op_creates op2).*1)) as [Hk|Hk2].
  { symmetry. apply Hhalf; [done..| |done]. by symmetry. }
  by rewrite !execute_other by tauto.
Qed.
End order_lemmas.

Section transacts.
Context `{Ownable} `{!SdkLaws} `{!ConditionXdr} `{!ConditionXdrLaws} {X : Type} `{!HostAuth X}
  `{!Asset X}.
Implicit Types (e : Env) (s : ChannelState) (x : X) (op : ChannelOperation).
Import PrivacyChannelContract.

(** Some call of [transact] that returns takes the channel from one state to the other. *)
Definition transacts op s s' : Prop :=
  ∃ depth e (x x' : X), 1 ≤ min_temporary_ttl e ∧
    transact (channel_call depth e) e op (s, x) = Ok (tt, (s', x')).

(** Calls of any kind, by anyone, lead from one state to the other. *)
Definition channel_moves s s' : Prop :=
  ∃ depth e c (x x' : X) r, 1 ≤ min_temporary_ttl e ∧
    channel_call depth e c (s, x) = Ok (r, (s', x')).
Definition later : relation ChannelState := rtc channel_moves.

(** The outside world lets the operation through: the authorization contract authorizes the
    bundle, the depositors their deposits, and the asset settles the transfers. *)
Definition accepted (auth_contract asset : Address) e op x x' : Prop :=
  ∃ x1 x2, frame_auth e (bundle_auth_args (op_bundle op)) auth_contract x = Ok x1 ∧
    deposits_settle e asset (op_deposit op) x1 x2 ∧
    withdraws_settle e asset (op_withdraw op) x2 x'.

(** A state of a deployed channel between two calls. *)
Definition at_rest (auth_contract asset : Address) s : Prop :=
  ch_total_supply s = total_unspent (ch_ledger s) ∧ wf_ledger (ch_ledger s) ∧
  ch_asset s = Some asset ∧ us_auth (ch_utxo s) = Some auth_contract ∧
  ch_temporary s !! REENTRANCY_GUARD = None.

Lemma reachable_at_rest admin auth_contract asset s :
  channel_reachable (X:=X) admin auth_contract asset s → at_rest auth_contract asset s.
Proof. by intros (? & ? & ? & ? & _ & ? & _)%channel_history. Qed.

Lemma transacts_executes op s s' :
  transacts op s s' →
  executable (ch_ledger s) op ∧ ch_ledger s' = execute (ch_ledger s) op ∧
  ch_total_supply s' = ch_total_supply s + external_total (op_deposit op)
    - external_total (op_withdraw op).
Proof.
  intros (d & e & x & x' & Hmin & Hrun).
  by apply transact_Ok in Hrun as (_ & _ & Hs & Hc & Hbal & _ & _ & HL & Hsup & _).
Qed.

Lemma transacts_at_rest auth_contract asset op s s' :
  transacts op s s' → at_rest auth_contract asset s →
  at_rest auth_contract asset s' ∧ op_valid op.
Proof.
  intros (d & e & x & x' & Hmin & Hrun) (Hs & Hwf & Has & Hau & _).
  apply transact_Ok in Hrun as (_ & Hv & Hsp & Hcr & Hbal & _ & _ & HL & Hsup & Has' & Hau' & _ & Ht & _);
    [|done].
  split; [|done]. unfold at_rest.
  rewrite Hsup, HL, (bundle_total _ _ _ Hsp Hcr), Has', Hau'. split_and!; [lia | | done..].
  by eapply evolves_wf; [apply bundle_evolves|].
Qed.

(** An executable operation the outside accepts runs. *)
Lemma accepted_runs auth_contract asset depth e op s x x' :
  at_rest auth_contract asset s → 1 ≤ min_temporary_ttl e →
  op_valid op → executable (ch_ledger s) op →
  ch_total_supply s + external_total (op_deposit op) ≤ i128_max →
  accepted auth_contract asset e op x x' →
  ∃ s', transact (channel_call depth e) e op (s, x) = Ok (tt, (s', x')) ∧ transacts op s s'.
Proof.
  intros (Hs & Hwf & Has & Hau & Ht) Hmin Hv (Hsp & Hcr & Hbal) Hmax (x1 & x2 & Hreq & Hd & Hw).
  pose proof (spent_le_total _ _ Hwf Hsp).
  destruct (transact_run (channel_call depth e) e op s x x1 x2 x' auth_contract asset)
    as [s' Hrun]; try done; [|lia..|].
  - unfold guarded, temporary_get. rewrite Ht. by intros [].
  - exists s'. split; [done|]. by exists depth, e, x, x'.
Qed.

(** Entries never go back. *)
Lemma later_evolves s s' : later s s' → ledger_evolves (ch_ledger s) (ch_ledger s').
Proof.
  induction 1 as [s|s s1 s2 (d & e & c & x & x' & r & Hmin & Hrun) _ IH]; [done|].
  etrans; [|done]. by apply channel_call_funds in Hrun as [? _].
Qed.

Lemma evolves_spent (L L' : Ledger) k : ledger_evolves L L' → L !! k = Some 0 → L' !! k = Some 0.
Proof. intros He Hk. specialize (He k). rewrite Hk in He. destruct (L' !! k); naive_solver. Qed.

Lemma evolves_used (L L' : Ledger) k : ledger_evolves L L' → is_Some (L !! k) → is_Some (L' !! k).
Proof. intros He [a Hk]. specialize (He k). rewrite Hk in He. destruct (L' !! k); naive_solver. Qed.

(** What an executed operation spent or created, nobody spends or creates again. *)
Lemma never_again op1 op2 s s1 s' s'' :
  transacts op1 s s1 → later s1 s' → transacts op2 s' s'' → independent op1 op2.
Proof.
  intros (H1' & HL & _)%transacts_executes He%later_evolves (H2' & _)%transacts_executes.
  split; intros k Hk Hk'.
  - destruct (executable_spends _ _ _ H2' Hk') as (a & Ha & Hpos).
    apply (execute_spent _ _ _ H1') in Hk. rewrite <- HL in Hk.
    apply (evolves_spent _ _ _ He) in Hk. simplify_eq. lia.
  - destruct (execute_created _ _ _ H1' Hk) as (a & _ & Ha). rewrite <- HL in Ha.
    destruct (evolves_used _ _ k He) as [b Hb]; [by eexists|].
    pose proof (executable_creates _ _ _ H2' Hk'). congruence.
Qed.

Lemma not_self_independent op :
  op_spends op ≠ [] ∨ op_creates op ≠ [] → ¬ independent op op.
Proof.
  intros Hne [Hi1 Hi2].
  destruct (op_spends op) as [|k ks]; [|by apply (Hi1 k); left].
  destruct (op_creates op) as [|k ks]; [naive_solver | by apply (Hi2 k.1); left].
Qed.

(** An operation that touches no entry pays out what it takes in. *)
Lemma untouched_executes (L : Ledger) op :
  op_spends op = [] → op_creates op = [] → executable L op →
  execute L op = L ∧ external_total (op_deposit op) = external_total (op_withdraw op).
Proof.
  intros Hs Hc (_ & _ & Hbal). split.
  - apply map_eq. intros k. apply execute_other; rewrite ?Hs, ?Hc; by apply not_elem_of_nil.
  - apply fmap_nil_inv in Hs, Hc. rewrite Hs, Hc in Hbal.
    unfold spent_total, created_total in Hbal. simpl in Hbal. lia.
Qed.

(** Whatever runs there are of the two orders, they agree. *)
Lemma orders_agree op1 op2 s s1 s12 s2 s21 :
  independent op1 op2 →
  transacts op1 s s1 → transacts op2 s1 s12 → transacts op2 s s2 → transacts op1 s2 s21 →
  ch_ledger s12 = ch_ledger s21 ∧ ch_total_supply s12 = ch_total_supply s21.
Proof.
  intros Hi (Hx1 & HL1 & Hs1)%transacts_executes (_ & -> & ->)%transacts_executes
    (Hx2 & HL2 & Hs2)%transacts_executes (_ & -> & ->)%transacts_executes.
  rewrite HL1, HL2, Hs1, Hs2. split; [by apply execute_comm | lia].
Qed.
End transacts.

(** ** Properties *)

(** C13. Ordering.  Take an operation that [transact] has executed.  An operation that spends a key
    it spent, or creates one it created, is never executed again, whatever calls come in between:
    of two that compete at most one goes through.  So one that spends or creates anything is never
    replayed; one that touches no entry (deposits paid out in withdrawals) leaves the ledger and
    the supply alone, and runs again whenever the outside world accepts it again.  An operation
    that shares no such key with it, valid and executable on the ledger before it, is executable on
    the ledger after it; and if
    the supply has room for the deposits of both and the outside world accepts the two in either
    order, both orders run, and they, like any runs of the two orders, end with the same ledger
    and the same supply. *)
Theorem transaction_order `{Ownable} `{!SdkLaws} `{!ConditionXdr} `{!ConditionXdrLaws} {X}
    `{!HostAuth X} `{!Asset X} (admin auth_contract asset : Address) (depth : nat) (e : Env)
    (op1 : ChannelOperation) (s s1 : ChannelState) (x x1 : X)
    (run := λ e, PrivacyChannelContract.transact (PrivacyChannelContract.channel_call depth e) e)
    (Hreach : channel_reachable (X:=X) admin auth_contract asset s)
    (Hmin : 1 ≤ min_temporary_ttl e)
    (Hrun : run e op1 (s, x) = Ok (tt, (s1, x1))) :
  (∀ op2 s' s'', ¬ independent op1 op2 → later (X:=X) s1 s' → ¬ transacts (X:=X) op2 s' s'') ∧
  (op_spends op1 ≠ [] ∨ op_creates op1 ≠ [] →
     ∀ s' s'', later (X:=X) s1 s' → ¬ transacts (X:=X) op1 s' s'') ∧
  (op_spends op1 = [] → op_creates op1 = [] →
     ch_ledger s1 = ch_ledger s ∧ ch_total_supply s1 = ch_total_supply s ∧
     ∀ x2, accepted auth_contract asset e op1 x1 x2 →
       ∃ s2, run e op1 (s1, x1) = Ok (tt, (s2, x2))) ∧
  (∀ op2, independent op1 op2 → op_valid op2 → executable (ch_ledger s) op2 →
     executable (ch_ledger s1) op2 ∧
     (∀ s12 s2 s21, transacts (X:=X) op2 s1 s12 → transacts (X:=X) op2 s s2 →
        transacts (X:=X) op1 s2 s21 →
        ch_ledger s12 = ch_ledger s21 ∧ ch_total_supply s12 = ch_total_supply s21) ∧
     ∀ e2 x12 x2 x21, 1 ≤ min_temporary_ttl e2 →
       ch_total_supply s + external_total (op_deposit op1) + external_total (op_deposit op2)
         ≤ i128_max →
       accepted auth_contract asset e2 op2 x1 x12 →
       accepted auth_contract asset e2 op2 x x2 → accepted auth_contract asset e op1 x2 x21 →
       ∃ s12 s2 s21, run e2 op2 (s1, x1) = Ok (tt, (s12, x12)) ∧
         run e2 op2 (s, x) = Ok (tt, (s2, x2)) ∧ run e op1 (s2, x2) = Ok (tt, (s21, x21)) ∧
         ch_ledger s12 = ch_ledger s21 ∧ ch_total_supply s12 = ch_total_supply s21).
Proof.
  apply reachable_at_rest in Hreach as Hrest.
  apply channel_history in Hreach as (_ & _ & _ & _ & _ & _ & Hr).
  pose proof (transact_deposits_fit _ _ _ _ _ _ _ _ Hmin Hr Hrun) as Hfit.
  assert (H1' : transacts (X:=X) op1 s s1) by by exists depth, e, x, x1.
  pose proof (transacts_executes _ _ _ H1') as (Hx1 & HL1 & Hs1).
  destruct (transacts_at_rest _ _ _ _ _ H1' Hrest) as [Hrest1 Hv1].
  pose proof Hv1 as (_ & (Hd1 & _) & (Hw1 & _) & _).
  apply external_total_nonneg in Hd1, Hw1. split_and!.
  - intros op2 s' s'' Hi Hl H2'. apply Hi. exact (never_again _ _ _ _ _ _ H1' Hl H2').
  - intros Hne s' s'' Hl H2'. apply (not_self_independent op1 Hne).
    exact (never_again _ _ _ _ _ _ H1' Hl H2').
  - intros Hnos Hnoc. destruct (untouched_executes _ _ Hnos Hnoc Hx1) as [HL Htot].
    rewrite HL1, HL. split_and!; [done | lia |]. intros x2 Hacc.
    destruct (accepted_runs auth_contract asset depth e op1 s1 x1 x2) as (s2 & Hr2 & _); try done;
      [by rewrite HL1, HL | lia | by exists s2].
  - intros op2 Hi Hv2 Hx2. pose proof (proj2 (executable_after _ _ _ Hx1 Hx2) Hi) as Hx12.
    rewrite <- HL1 in Hx12. split_and!; [done | |].
    { intros s12 s2 s21 H12 H2'. exact (orders_agree _ _ _ _ _ _ _ Hi H1' H12 H2'). }
    intros e2 x12 x2 x21 Hmin2 Hmax H12 H2' H21.
    pose proof Hv2 as (_ & (Hd2 & _) & (Hw2 & _) & _). apply external_total_nonneg in Hd2, Hw2.
    destruct (accepted_runs auth_contract asset depth e2 op2 s1 x1 x12) as (s12 & Hr12 & Ht12);
      try done; [lia|].
    destruct (accepted_runs auth_contract asset depth e2 op2 s x x2) as (s2 & Hr2 & Ht2);
      try done; [lia|].
    destruct (transacts_at_rest _ _ _ _ _ Ht2 Hrest) as [Hrest2 _].
    pose proof (transacts_executes _ _ _ Ht2) as (_ & HL2 & Hs2).
    assert (Hx21 : executable (ch_ledger s2) op1).
    { rewrite HL2. apply executable_after; [done..|]. destruct Hi as [Hi1 Hi2].
      split; intros k Hk Hk'; [by apply (Hi1 k) | by apply (Hi2 k)]. }
    destruct (accepted_runs auth_contract asset depth e op1 s2 x2 x21) as (s21 & Hr21 & Ht21);
      try done; [lia|].
    exists s12, s2, s21. split; [done|]. split; [done|]. split; [done|].
    exact (orders_agree _ _ _ _ _ _ _ Hi H1' Ht12 Ht2 Ht21).
Qed.
