(* ===== verification/Lifetimes.v ===== *)
(** The lives of the storage entries: what the calls of the channel do to the time to live of
    its instance and of the persistent entry of every UTXO (the bumps of modules/storage and of
    contracts/privacy-channel/src/transact.rs).

    No call, nested calls of the asset included, shortens the life of anything; each call
    leaves what it touched live for the bumped amount. *)
From S2P Require Import Prelude Errors Host Keeps Primitives Storage HostAuth UtxoCore Channel.
From S2P Require Import ChannelSpec.

(** No entry is lost, and none has a shorter life. *)
Definition outlives (st st' : UtxoStorage) : Prop :=
  ∀ k en, st !! k = Some en → ∃ en', st' !! k = Some en' ∧ live_until en ≤ live_until en'.

Definition channel_outlives `{Ownable} (s s' : ChannelState) : Prop :=
  ch_live_until s ≤ ch_live_until s' ∧
  outlives (us_utxos (ch_utxo s)) (us_utxos (ch_utxo s')).

#[export] Instance outlives_preorder : PreOrder outlives.
Proof.
  split; [intros st k en Hk; eauto with lia|]. intros st1 st2 st3 H12 H23 k en Hk.
  destruct (H12 k en Hk) as (en2 & Hk2 & ?), (H23 k en2 Hk2) as (en3 & Hk3 & ?).
  exists en3. split; [done|lia].
Qed.

#[export] Instance channel_outlives_preorder `{Ownable} : PreOrder channel_outlives.
Proof.
  split; [by intros s; split|]. intros s1 s2 s3 [? ?] [? ?]. split; [lia|by etrans].
Qed.

(** ** The storage module *)

Section store.
Context `{SdkLaws}.
Implicit Types (e : Env) (st : UtxoStorage) (k : UTXOCoreDataKey).

Lemma outlives_insert k v l st :
  (∀ en, st !! k = Some en → live_until en ≤ l) → outlives st (<[k := mkEntry v l]> st).
Proof.
  intros Hl j en Hj. rewrite lookup_insert. case_decide as E; [subst|eauto with lia].
  eexists. split; [done|]. by apply Hl.
Qed.

Lemma outlives_set e k v st : outlives st (persistent_set e k v st).
Proof.
  unfold persistent_set. destruct (st !! k) as [old|] eqn:Hk; apply outlives_insert;
    intros en Hen; simplify_eq; lia.
Qed.

Lemma lives_for_outlives e n k st st' :
  outlives st st' → lives_for e n k st → lives_for e n k st'.
Proof.
  intros Ho (en & Hk & Hl). destruct (Ho k en Hk) as (en' & Hk' & ?). exists en'.
  split; [done|lia].
Qed.

Lemma outlives_is_Some k st st' : outlives st st' → is_Some (st !! k) → is_Some (st' !! k).
Proof. intros Ho [en Hk]. destruct (Ho k en Hk) as (en' & ? & _). eauto. Qed.

Lemma bump_ttl_keeps e k : keeps outlives (Store.bump_ttl e k).
Proof.
  unfold Store.bump_ttl. apply keeps_read. intros st u st' Hr. inv_M.
  match goal with Hx : extend_ttl _ _ _ _ _ _ = Ok _ |- _ =>
    apply extend_ttl_Ok in Hx as (old & live & Hk & Hx%ttl_extend_mono & ->) end.
  apply outlives_insert. intros en Hen. by simplify_eq.
Qed.

Lemma put_then_keeps {A} st0 st1 (m : M UtxoStorage A) a st' :
  outlives st0 st1 → keeps outlives m → (put_state st1 ;; m) st0 = Ok (a, st') →
  outlives st0 st'.
Proof. intros Ho Hm (u & st2 & ->%put_state_Ok & Hr)%M_bind_Ok. etrans; [exact Ho | by eapply Hm]. Qed.

Lemma balance_keeps e u : keeps outlives (Store.balance e u).
Proof. unfold Store.balance. pose proof (bump_ttl_keeps e (Store.utxo_key u)). keeps. Qed.

Lemma create_keeps e u a : keeps outlives (Store.create e u a).
Proof.
  unfold Store.create. apply keeps_bind; [apply _|keeps|]. intros _. apply keeps_read.
  intros st v st' Hr. apply M_bind_Ok in Hr as (? & st1 & Hg & Hr).
  destruct (persistent_get _ st); [by inv_M|]. apply M_ret_Ok in Hg as [_ <-].
  eapply put_then_keeps; [apply outlives_set | apply bump_ttl_keeps | exact Hr].
Qed.

Lemma spend_keeps e u : keeps outlives (Store.spend e u).
Proof.
  unfold Store.spend. apply keeps_read. intros st v st' Hr.
  destruct (persistent_get _ st) as [a|]; [|by inv_M]. destruct (a >? 0); [|by inv_M].
  eapply put_then_keeps; [apply (outlives_set e (Store.utxo_key u) 0)| |exact Hr].
  pose proof (bump_ttl_keeps e (Store.utxo_key u)). keeps.
Qed.
End store.
#[export] Hint Resolve bump_ttl_keeps balance_keeps create_keeps spend_keeps : keeps.

(** ** UTXO accounting *)

Section utxo.
Context `{SdkLaws} (feat : Features).
Implicit Types (e : Env) (s : UtxoState).
Import UtxoHandler.

Abbreviation utxo_outlives := (through us_utxos outlives).

Lemma keeps_on_store {A} (m : M UtxoStorage A) :
  keeps outlives m → keeps utxo_outlives (on_store m).
Proof. by apply keeps_zoom. Qed.

Lemma keeps_publish b ev : keeps utxo_outlives (publish b ev).
Proof.
  unfold publish. destruct b; [apply keeps_ret; apply _|].
  apply keeps_modify. unfold through. simpl. reflexivity.
Qed.

Lemma auth_keeps : keeps utxo_outlives UtxoHandler.auth.
Proof. unfold UtxoHandler.auth. keeps. Qed.
#[local] Hint Resolve keeps_on_store keeps_publish auth_keeps : keeps.

Lemma spend_step_keeps e t u : keeps utxo_outlives (spend_step feat e t u).
Proof. unfold spend_step. keeps. Qed.

Lemma create_step_keeps e t c : keeps utxo_outlives (create_step feat e t c).
Proof. unfold create_step. keeps. Qed.
#[local] Hint Resolve spend_step_keeps create_step_keeps : keeps.

Lemma utxo_balance_keeps e u : keeps utxo_outlives (utxo_balance e u).
Proof. unfold utxo_balance, Store.apply. keeps. Qed.
#[local] Hint Resolve utxo_balance_keeps : keeps.

Lemma utxo_balances_keeps e us : keeps utxo_outlives (utxo_balances e us).
Proof. unfold utxo_balances. keeps. Qed.

Lemma process_bundle_keeps {X} `{!HostAuth X} e b incoming outgoing :
  keeps (through (fst : UtxoState * X → UtxoState) utxo_outlives)
    (process_bundle feat e b incoming outgoing).
Proof. unfold process_bundle. keeps. Qed.

Definition lives_29 e (u : BytesN 65) s : Prop :=
  lives_for e (29 * 17280) (Store.utxo_key u) (us_utxos s).

Lemma lives_29_outlives e u s s' : utxo_outlives s s' → lives_29 e u s → lives_29 e u s'.
Proof. apply lives_for_outlives. Qed.

Lemma spend_step_lives e t u s t' s' :
  spend_step feat e t u s = Ok (t', s') → lives_29 e u s'.
Proof.
  unfold spend_step. intros (b & s1 & _ & Hr)%M_bind_Ok.
  apply M_bind_Ok in Hr as (am & s2 & _ & Hr).
  apply M_bind_Ok in Hr as (a & s3 & (Hs & _)%on_store_Ok & Hr).
  eapply (lives_29_outlives e u s3); [|by eapply spend_run].
  match type of Hr with ?m s3 = _ => assert (Hm : keeps utxo_outlives m) by keeps end.
  by eapply Hm.
Qed.

Lemma create_step_lives e t c s t' s' :
  create_step feat e t c s = Ok (t', s') → lives_29 e c.1 s'.
Proof.
  destruct c as [u a]. unfold create_step. intros (b & s1 & _ & Hr)%M_bind_Ok.
  apply M_bind_Ok in Hr as (v1 & s2 & _ & Hr).
  apply M_bind_Ok in Hr as (v2 & s3 & _ & Hr).
  apply M_bind_Ok in Hr as ([] & s4 & (Hs & _)%on_store_Ok & Hr).
  eapply (lives_29_outlives e u s4); [|by eapply create_run].
  match type of Hr with ?m s4 = _ => assert (Hm : keeps utxo_outlives m) by keeps end.
  by eapply Hm.
Qed.

(** After a bundle everything it spent or created lives for the bumped amount. *)
Lemma process_bundle_lives {X} `{!HostAuth X} e b incoming outgoing s (x : X) r s' x' :
  process_bundle feat e b incoming outgoing (s, x) = Ok (r, (s', x')) →
  ∀ u, u ∈ ib_spend b ∨ u ∈ (ib_create b).*1 → lives_29 e u s'.
Proof.
  unfold process_bundle. intros Hr.
  apply M_bind_Ok in Hr as (? & w1 & _ & Hr). apply M_bind_Ok in Hr as (? & w2 & _ & Hr).
  apply M_bind_Ok in Hr as (? & w3 & _ & Hr). apply M_bind_Ok in Hr as (? & [s4 x4] & _ & Hr).
  apply M_bind_Ok in Hr as (t5 & [s5 x5] & [Hsp ->]%on_fst_Ok & Hr).
  apply M_bind_Ok in Hr as (t6 & [s6 x6] & [Hcr ->]%on_fst_Ok & Hr).
  assert (Hend : utxo_outlives s6 s').
  { match type of Hr with ?m _ = _ =>
      assert (Hm : keeps (through (fst : UtxoState * X → UtxoState) utxo_outlives) m) by keeps end.
    by apply (Hm _ _ _ Hr). }
  intros u Hu. apply (lives_29_outlives e u s6); [done|]. destruct Hu as [Hu|Hu].
  - eapply lives_29_outlives; [eapply keeps_fold_loop; [apply _| |exact Hcr]; keeps|].
    eapply (fold_loop_establishes utxo_outlives (lives_29 e)); [..|exact Hsp|exact Hu]; keeps.
    + by eapply spend_step_lives.
    + by eapply lives_29_outlives.
  - apply list_elem_of_fmap in Hu as (c & -> & Hc).
    eapply (fold_loop_establishes utxo_outlives (λ c, lives_29 e c.1)); [..|exact Hcr|exact Hc]; keeps.
    + by eapply create_step_lives.
    + by eapply lives_29_outlives.
Qed.

(** Reading keeps alive what is there. *)
Lemma utxo_balance_lives e u s b s' :
  utxo_balance e u s = Ok (b, s') → is_Some (us_utxos s !! Store.utxo_key u) → lives_29 e u s'.
Proof.
  unfold utxo_balance, Store.apply. intros (Hb & _)%on_store_Ok Hk.
  destruct (balance_run e u (us_utxos s)) as (st & E & _ & Hl). rewrite E in Hb.
  injection Hb as _ ->. apply Hl. rewrite amounts_lookup. by apply fmap_is_Some.
Qed.

Lemma utxo_balances_lives e us s bs s' :
  utxo_balances e us s = Ok (bs, s') →
  ∀ u, u ∈ us → is_Some (us_utxos s !! Store.utxo_key u) → lives_29 e u s'.
Proof.
  unfold utxo_balances. intros Hr u Hu. revert u Hu.
  eapply (fold_loop_establishes utxo_outlives
    (λ u st, is_Some (us_utxos s !! Store.utxo_key u) → lives_29 e u st)); [..|exact Hr]; [keeps|..].
  - intros acc v st bs1 st1 Hst (n & st2 & Hb & [_ <-]%M_ret_Ok)%M_bind_Ok Hv.
    eapply utxo_balance_lives; [done|]. by eapply outlives_is_Some.
  - intros v st st1 Hst Hv Hk. eapply lives_29_outlives; eauto.
Qed.
End utxo.
#[export] Hint Resolve utxo_balance_keeps utxo_balances_keeps auth_keeps process_bundle_keeps : keeps.

(** ** The channel *)

Section channel.
Context `{Ownable} `{!SdkLaws} `{!ConditionXdr} {X : Type} `{!HostAuth X} `{!Asset X}.
Implicit Types (e : Env) (s : ChannelState) (x : X).
Import PrivacyChannelContract.

Abbreviation call_outlives := (through (fst : ChannelState * X → ChannelState) channel_outlives).

Lemma keeps_on_utxo {A} (m : M UtxoState A) :
  keeps (through us_utxos outlives) m → keeps channel_outlives (on_utxo m).
Proof. apply keeps_zoom. by split. Qed.

Lemma keeps_on_utxo_world {A} (m : M (UtxoState * X) A) :
  keeps (through (fst : UtxoState * X → UtxoState) (through us_utxos outlives)) m →
  keeps call_outlives (on_utxo_world m).
Proof. apply keeps_zoom. intros [s x] [u y] Ho. by split. Qed.

(** The bump: the instance's life grows, and is then at least six days. *)
Lemma channel_bump_lives e s u s' :
  bump_instance_ttl e s = Ok (u, s') →
  channel_outlives s s' ∧ ledger_sequence e + 6 * 17280 ≤ ch_live_until s'.
Proof.
  unfold bump_instance_ttl. intros Hr. inv_M.
  match goal with H : extend_instance_ttl _ _ _ _ = Ok _ |- _ =>
    apply extend_instance_ttl_lives in H as [Hmono Hl] end; [by split|].
  pose proof max_entry_ttl_bound.
  unfold INSTANCE_LIFETIME_THRESHOLD, INSTANCE_BUMP_AMOUNT, DAY_IN_LEDGERS. lia.
Qed.

Lemma bump_instance_ttl_keeps e : keeps channel_outlives (bump_instance_ttl e).
Proof. intros s u s' Hr. by eapply channel_bump_lives. Qed.

Lemma enter_guard_keeps e : keeps channel_outlives (enter_reentrancy_guard e).
Proof. intros s u s' [_ ->]%enter_guard_Ok. by split. Qed.

Lemma exit_guard_keeps : keeps channel_outlives exit_reentrancy_guard.
Proof. apply keeps_modify. by split. Qed.

Lemma increase_supply_keeps a : keeps channel_outlives (increase_supply a).
Proof. intros s u s' [_ ->]%increase_supply_Ok. by split. Qed.

Lemma decrease_supply_keeps a : keeps channel_outlives (decrease_supply a).
Proof. intros s u s' [_ ->]%decrease_supply_Ok. by split. Qed.

Lemma read_asset_keeps : keeps channel_outlives read_asset.
Proof. unfold read_asset. keeps. Qed.

Lemma own_call_keeps (f : OwnState * X → res (OwnState * X)) : keeps call_outlives (own_call f).
Proof. intros [s x] u [s' x'] (o & _ & ->)%channel_own_call_Ok. by split. Qed.
#[local] Hint Resolve keeps_on_utxo keeps_on_utxo_world bump_instance_ttl_keeps enter_guard_keeps
  exit_guard_keeps increase_supply_keeps decrease_supply_keeps read_asset_keeps
  own_call_keeps : keeps.

Section calls.
Context (callee : ChannelCall → M (ChannelState * X) ChannelRet).
Hypothesis callee_keeps : ∀ c, keeps call_outlives (callee c).

Lemma run_asset_keeps p s u s' x' :
  run_asset callee p s = Ok (u, (s', x')) → channel_outlives s s'.
Proof.
  revert s. induction p as [[y|f]|c y k IH]; intros s Hr; simpl in Hr; simplify_eq; [done|].
  destruct (callee c (s, y)) as [[r' [s1 x1]]|f] eqn:E; [|by eapply IH].
  etrans; [apply (callee_keeps _ _ _ _ E) | by eapply IH].
Qed.

Lemma transfer_keeps e a from to amt : keeps call_outlives (transfer callee e a from to amt).
Proof. intros [s x] u [s' x'] Hr. by apply run_asset_keeps in Hr. Qed.
#[local] Hint Resolve transfer_keeps : keeps.

Lemma deposit_step_keeps e a d : keeps call_outlives (deposit_step callee e a d).
Proof. unfold deposit_step. keeps. Qed.

Lemma withdraw_step_keeps e a w : keeps call_outlives (withdraw_step callee e a w).
Proof. unfold withdraw_step. keeps. Qed.
#[local] Hint Resolve deposit_step_keeps withdraw_step_keeps : keeps.

Lemma execute_keeps e dep wd :
  keeps call_outlives (execute_external_operations callee e dep wd).
Proof. unfold execute_external_operations. keeps. Qed.
#[local] Hint Resolve execute_keeps : keeps.

Lemma transact_keeps e op : keeps call_outlives (transact callee e op).
Proof. unfold transact. keeps. Qed.
End calls.

Lemma upgrade_keeps e h : keeps call_outlives (upgrade e h).
Proof.
  unfold upgrade. apply keeps_bind; [apply _|apply own_call_keeps|]. intros _.
  apply keeps_bind; [apply _|apply keeps_on_fst, keeps_modify; by split|]. intros _.
  apply keeps_on_fst. intros s u s' Hr. inv_M. by split.
Qed.
#[local] Hint Resolve execute_keeps transact_keeps upgrade_keeps : keeps.

(** No call shortens the life of the instance or of any entry. *)
Lemma channel_call_keeps d e c : keeps call_outlives (channel_call d e c).
Proof.
  revert e c. induction d as [|d IH]; intros e c; destruct c; cbn [channel_call];
    unfold set_admin, accept_admin, utxo_balance, utxo_balances, admin, auth, asset, supply,
      read_supply; keeps.
Qed.
#[local] Hint Resolve channel_call_keeps : keeps.

(** A [transact] that returns has bumped what it touched. *)
Lemma transact_lives `{!ConditionXdrLaws} d e op s x u s' x' :
  transact (channel_call d e) e op (s, x) = Ok (u, (s', x')) →
  ledger_sequence e + 6 * 17280 ≤ ch_live_until s' ∧
  ∀ u, u ∈ (op_spend op).*1 ∨ u ∈ (op_create op).*1 → lives_29 e u (ch_utxo s').
Proof.
  unfold transact.
  intros (v1 & [s1 x1] & [Hb ->]%on_fst_Ok & Hr)%M_bind_Ok.
  apply channel_bump_lives in Hb as [_ Hlive].
  match type of Hr with ?m _ = _ => assert (Hm : keeps call_outlives m)
    by keeps end.
  pose proof (Hm _ _ _ Hr) as [Hl _]. cbn [fst] in Hl. clear Hm. split; [lia|].
  apply M_bind_Ok in Hr as (v2 & [s2 x2] & _ & Hr).
  apply M_bind_Ok in Hr as ([[b td] tw] & w3 & [Hpre <-]%lift_Ok & Hr).
  apply pre_process_Ok in Hpre as (_ & -> & _ & _).
  apply M_bind_Ok in Hr as (r & [s4 x4] & Hp & Hr).
  match type of Hr with ?m _ = _ => assert (Hm : keeps call_outlives m)
    by keeps end.
  pose proof (Hm _ _ _ Hr) as [_ Ho]. cbn [fst] in Ho.
  unfold on_utxo_world in Hp. apply zoom_Ok in Hp as ([us y] & Hp & Hs4).
  injection Hs4 as -> ->. intros v Hv. eapply lives_29_outlives; [exact Ho|].
  by eapply process_bundle_lives.
Qed.
End channel.

(** One call from outside that returned, whatever its ledger, depth and caller. *)
Inductive channel_called `{Ownable} `{!ConditionXdr} {X : Type} `{!HostAuth X} `{!Asset X}
    (s s' : ChannelState) : Prop :=
  | call_returned depth e c (x x' : X) r :
      PrivacyChannelContract.channel_call depth e c (s, x) = Ok (r, (s', x')) → channel_called s s'.

(** The UTXO keys a call reads or writes. *)
Definition touched `{Sdk} (c : ChannelCall) : list (BytesN 65) :=
  match c with
  | CcTransact op => (op_spend op).*1 ++ (op_create op).*1
  | CcUtxoBalance u => [u]
  | CcUtxoBalances us => us
  | _ => []
  end.

Lemma decide_transact `{Sdk} (c : ChannelCall) :
  (∃ op, c = CcTransact op) ∨ ∀ op, c ≠ CcTransact op.
Proof. destruct c; eauto. Qed.

Section calls.
Context `{Ownable} `{!SdkLaws} `{!ConditionXdr} `{!ConditionXdrLaws}.
Context {X : Type} `{!HostAuth X} `{!Asset X}.
Implicit Types (e : Env) (s : ChannelState) (x : X).

Lemma calls_outlive s s' : rtc (channel_called (X := X)) s s' → channel_outlives s s'.
Proof.
  induction 1 as [|s1 s2 s3 [depth e c x x' r Hr] _ IH]; [done|].
  etrans; [apply (channel_call_keeps _ _ _ _ _ _ Hr) | done].
Qed.

(** A read that returns has bumped the entries that are there. *)
Lemma read_lives d e c s x r s' x' :
  (∀ op, c ≠ CcTransact op) →
  PrivacyChannelContract.channel_call d e c (s, x) = Ok (r, (s', x')) →
  ∀ u, u ∈ touched c → is_Some (us_utxos (ch_utxo s) !! Store.utxo_key u) →
    lives_29 e u (ch_utxo s').
Proof.
  intros Hc Hr u Hu Hk. destruct c as [op| | | |v|vs| | | |]; try by apply not_elem_of_nil in Hu.
  { by destruct (Hc op). }
  all: destruct d; cbn [PrivacyChannelContract.channel_call] in Hr;
    apply on_fst_ret_Ok in Hr as (b & Hr & _); apply on_utxo_Ok in Hr as (us & Hr & ->).
  1,2: apply list_elem_of_singleton in Hu as ->; by eapply (utxo_balance_lives _ _ _ _ _ Hr).
  1,2: by eapply (utxo_balances_lives _ _ _ _ _ Hr).
Qed.
End calls.

(** ** Properties *)

(** C31. Keep-alive, of the whole contract.  No call that returns, whatever the asset does and
    however calls nest, loses an entry or shortens its life or that of the instance.  A
    [transact] leaves the instance live for six more days and every UTXO it spent or created for
    twenty-nine; reading the balance of a UTXO that is there gives it the same; and no later
    call takes that away. *)
Theorem calls_keep_alive `{Ownable} `{!SdkLaws} `{!ConditionXdr} `{!ConditionXdrLaws}
    {X} `{!HostAuth X} `{!Asset X} (depth : nat) (e : Env) (c : ChannelCall)
    (s s' later : ChannelState) (x x' : X) (r : ChannelRet)
    (Hrun : PrivacyChannelContract.channel_call depth e c (s, x) = Ok (r, (s', x')))
    (Hlater : rtc (channel_called (X := X)) s' later) :
  channel_outlives s later ∧
  (∀ op, c = CcTransact op → ledger_sequence e + 6 * 17280 ≤ ch_live_until later) ∧
  ∀ u, u ∈ touched c →
    (∃ op, c = CcTransact op) ∨ is_Some (us_utxos (ch_utxo s) !! Store.utxo_key u) →
    lives_for e (29 * 17280) (Store.utxo_key u) (us_utxos (ch_utxo later)).
Proof.
  pose proof (channel_call_keeps _ _ _ _ _ _ Hrun) as Hnow. cbn [fst] in Hnow.
  apply calls_outlive in Hlater as Hthen.
  assert (Htr : ∀ op, c = CcTransact op →
    ledger_sequence e + 6 * 17280 ≤ ch_live_until s' ∧
    ∀ u, u ∈ touched c → lives_29 e u (ch_utxo s')).
  { intros op ->. destruct depth as [|d]; [done|].
    apply unit_ret_Ok in Hrun as [[Hl Hu]%transact_lives _]. split; [exact Hl|].
    intros u [Hin|Hin]%elem_of_app; apply Hu; auto. }
  split_and!.
  - etrans; [exact Hnow | exact Hthen].
  - intros op [Hl _]%Htr. destruct Hthen as [? _]. lia.
  - intros u Hu Hk. apply (lives_for_outlives _ _ _ _ _ (proj2 Hthen)).
    destruct (decide_transact c) as [[op ->]|Hno]; [by eapply Htr|].
    destruct Hk as [[op ->]|Hk]; [by destruct (Hno op)|]. by eapply read_lives.
Qed.
