(* ===== verification/UtxoTestContract.v ===== *)
(** The contracts the utxo tests deploy: modules/utxo-core/src/testutils/contract.rs.

    [UTXOModuleTestContract] exposes the utxo trait directly, [MockedAuthContract] accepts or
    refuses by a flag. *)
From S2P Require Import Prelude Errors Host Primitives Storage HostAuth UtxoCore.

Module UTXOModuleTestContract.
Section contract.
Context `{Sdk} (feat : Features) {X : Type} `{!HostAuth X}.
Implicit Types (e : Env).

Definition __constructor (utxo_auth : Address) : M UtxoState unit :=
  UtxoHandler.set_auth utxo_auth.

Definition transact_with_external e (op : UTXOOperation) (incoming_amount outgoing_amount : Z)
    : M (UtxoState * X) Z :=
  let spend := foldl (λ spend '(spend_utxo, _), spend ++ [spend_utxo]) [] (uo_spend op) in
  let create := foldl (λ create create_utxo, create ++ [create_utxo]) [] (uo_create op) in
  let req := calculate_auth_requirements (uo_spend op) in
  let bundle := mkInternalBundle _ spend create req in
  UtxoHandler.process_bundle feat e bundle incoming_amount outgoing_amount.

Definition transact e (op : UTXOOperation) : M (UtxoState * X) unit :=
  transact_with_external e op 0 0 ;; mret tt.

Definition auth : M UtxoState Address := UtxoHandler.auth.
Definition set_auth (new_auth : Address) : M UtxoState unit := UtxoHandler.set_auth new_auth.
Definition utxo_balance e (utxo : BytesN 65) : M UtxoState Z := UtxoHandler.utxo_balance e utxo.
Definition utxo_balances e (utxos : list (BytesN 65)) : M UtxoState (list Z) :=
  UtxoHandler.utxo_balances e utxos.

Definition mint e (utxos : list (BytesN 65 * Z)) : M UtxoState unit :=
  for_each utxos (λ '(utxo, amount), UtxoHandler.create feat e amount utxo).

Definition burn e (utxos : list (BytesN 65)) : M UtxoState unit :=
  for_each utxos (λ utxo, UtxoHandler.spend feat e utxo ;; mret tt).
End contract.
End UTXOModuleTestContract.

Module MockedAuthContract.
(** [AuthError::AuthorizationFailed = 1], not an error of the library. *)
Definition __check_auth (signature : bool) : res unit :=
  if negb signature then Err (Trap (LibraryPanic 1)) else Ok tt.
End MockedAuthContract.

(** The calls of the utxo test contract that change its storage, and what each brings in less
    what it takes out, on the ledger it is made on. *)
Inductive UtxoTestCall `{Sdk} :=
  | UtTransact (op : UTXOOperation)
  | UtTransactWithExternal (op : UTXOOperation) (incoming_amount outgoing_amount : Z)
  | UtSetAuth (new_auth : Address)
  | UtMint (utxos : list (BytesN 65 * Z))
  | UtBurn (utxos : list (BytesN 65)).

Section calls.
Context `{Sdk} (feat : Features) {X : Type} `{!HostAuth X}.
Import UTXOModuleTestContract.

Definition utxo_test_call (e : Env) (c : UtxoTestCall) : M (UtxoState * X) unit :=
  match c with
  | UtTransact op => transact feat e op
  | UtTransactWithExternal op i o => transact_with_external feat e op i o ;; mret tt
  | UtSetAuth a => on_fst (set_auth a)
  | UtMint us => on_fst (mint feat e us)
  | UtBurn us => on_fst (burn feat e us)
  end.

Definition utxo_test_flow (L : Ledger) (c : UtxoTestCall) : Z :=
  match c with
  | UtTransact _ | UtSetAuth _ => 0
  | UtTransactWithExternal _ i o => i - o
  | UtMint us => created_total us
  | UtBurn us => - spent_total L us
  end.
End calls.

(** ** Lemmas *)

Section test_lemmas.
Context `{SdkLaws} (feat : Features) {X : Type} `{!HostAuth X}.
Implicit Types (e : Env) (s : UtxoState) (L : Ledger).
Import UTXOModuleTestContract.

Lemma create_Ok e a u s r s' :
  UtxoHandler.create feat e a u s = Ok (r, s') → wf_ledger (ledger_of s) →
  ledger_create (Store.utxo_key u) a (ledger_of s) = Ok (ledger_of s').
Proof.
  intros Hr Hwf. pose proof (single_create feat e u a s Hwf) as Hs. rewrite Hr in Hs.
  by destruct Hs.
Qed.

Lemma spend_Ok e u s a s' :
  UtxoHandler.spend feat e u s = Ok (a, s') →
  ledger_spend (Store.utxo_key u) (ledger_of s) = Ok (a, ledger_of s').
Proof.
  intros Hr. pose proof (single_spend feat e u s) as Hs. rewrite Hr in Hs. by destruct Hs.
Qed.

Lemma test_mint_Ok e us s r s' :
  mint feat e us s = Ok (r, s') → wf_ledger (ledger_of s) →
  wf_ledger (ledger_of s') ∧ ledger_evolves (ledger_of s) (ledger_of s') ∧
  total_unspent (ledger_of s') = total_unspent (ledger_of s) + created_total us.
Proof.
  unfold mint. revert s. induction us as [|[u a] us IH]; intros s Hr Hwf; simpl in Hr.
  { apply M_ret_Ok in Hr as [_ <-]. split_and!; [done | done | unfold created_total; simpl; lia]. }
  apply M_bind_Ok in Hr as (v & s1 & Hc & Hr). apply create_Ok in Hc; [|done].
  apply IH in Hr as (Hw & He & Ht); [|eauto with ledger].
  split_and!; [done | etrans; [by eapply ledger_create_evolves | done] |].
  apply ledger_create_Ok in Hc as (Hpos & Hk & HL). rewrite Ht, HL.
  unfold total_unspent, created_total. simpl. rewrite map_sumZ_insert_new by done. lia.
Qed.

Lemma test_burn_Ok e us s r s' :
  burn feat e us s = Ok (r, s') →
  spendable (ledger_of s) us ∧ ledger_of s' = spent_map us ∪ ledger_of s.
Proof.
  unfold burn. revert s. induction us as [|u us IH]; intros s Hr; simpl in Hr.
  { apply M_ret_Ok in Hr as [_ <-]. unfold spendable, spent_map. simpl.
    rewrite (left_id_L ∅ (∪)). split; [split; [constructor | set_solver] | done]. }
  apply M_bind_Ok in Hr as (v & s1 & Hc & Hr).
  apply M_bind_Ok in Hc as (a & s2 & Hc & Hret). apply M_ret_Ok in Hret as [_ ->].
  apply spend_Ok in Hc. apply ledger_spend_Ok in Hc as (Hpos & Hk & HL).
  apply IH in Hr as [Hsp HL']. rewrite HL in *.
  apply (spendable_cons _ _ _ _ Hk Hpos) in Hsp. pose proof Hsp as [Hnd _].
  rewrite fmap_cons, NoDup_cons in Hnd. destruct Hnd as [Hn _].
  split; [done|]. by rewrite HL', spent_map_cons.
Qed.

Lemma foldl_push {A B} (f : A → B) (l : list A) acc :
  foldl (λ acc x, acc ++ [f x]) acc l = acc ++ (f <$> l).
Proof.
  revert acc. induction l as [|x l IH]; intros acc; simpl; [by rewrite app_nil_r|].
  by rewrite IH, <- app_assoc.
Qed.

(** A transaction of the test contract is a bundle without the conditions. *)
Lemma transact_bundle e op i o :
  transact_with_external feat e op i o =
  UtxoHandler.process_bundle (X:=X) feat e
    (mkInternalBundle _ ((uo_spend op).*1) (uo_create op)
       (calculate_auth_requirements (uo_spend op))) i o.
Proof.
  unfold transact_with_external. do 2 f_equal.
  - enough (∀ l acc, foldl (λ spend '(spend_utxo, _), spend ++ [spend_utxo]) acc l
                     = foldl (λ acc x, acc ++ [fst x]) acc l) as -> by by rewrite foldl_push.
    intros l. induction l as [|[u cs] l IH]; intros acc; [done|]. apply IH.
  - rewrite (foldl_push id). by rewrite list_fmap_id.
Qed.

Lemma transact_with_external_total e op i o s (x : X) r s' x' :
  transact_with_external feat e op i o (s, x) = Ok (r, (s', x')) →
  total_unspent (ledger_of s') = total_unspent (ledger_of s) + i - o ∧
  ledger_evolves (ledger_of s) (ledger_of s').
Proof.
  rewrite transact_bundle. intros (Hs & Hc & _ & Hbal & _ & HL & _)%process_bundle_Ok.
  rewrite HL. unfold bundle_ledger. simpl in *.
  apply (creatable_after_spend _ _ _ Hs) in Hc. split.
  - rewrite total_created, total_spent by done. lia.
  - etrans; [by apply spends_evolve | by apply creates_evolve].
Qed.
End test_lemmas.

(** ** Properties *)

(** The accounting of the test contract: a call that returns moves the unspent total by
    exactly the value that enters or leaves (minted, burnt, incoming less outgoing, nothing for
    an internal transaction), and every entry only moves forward. *)
Theorem utxo_test_contract_accounts `{SdkLaws} (feat : Features) {X} `{!HostAuth X} (e : Env)
    (c : UtxoTestCall) (s s' : UtxoState) (x x' : X) (Hwf : wf_ledger (ledger_of s))
    (Hrun : utxo_test_call feat e c (s, x) = Ok (tt, (s', x'))) :
  total_unspent (ledger_of s')
    = total_unspent (ledger_of s) + utxo_test_flow (ledger_of s) c ∧
  ledger_evolves (ledger_of s) (ledger_of s').
Proof.
  destruct c as [op|op i o|a|us|us]; simpl in *.
  - apply M_bind_Ok in Hrun as (r & [s1 x1] & Hrun & [_ [= <- <-]]%M_ret_Ok).
    apply transact_with_external_total in Hrun as [Ht He]. split; [lia | done].
  - apply M_bind_Ok in Hrun as (r & [s1 x1] & Hrun & [_ [= <- <-]]%M_ret_Ok).
    apply transact_with_external_total in Hrun as [Ht He]. split; [lia | done].
  - apply on_fst_Ok in Hrun as [->%modify_Ok ->]. split; [unfold ledger_of; simpl; lia | done].
  - apply on_fst_Ok in Hrun as [(_ & He & Ht)%test_mint_Ok ->]; done.
  - apply on_fst_Ok in Hrun as [[Hsp HL]%test_burn_Ok ->]. rewrite HL, total_spent by done.
    split; [lia | by apply spends_evolve].
Qed.
