(* ===== verification/AuthTestContract.v ===== *)
(** The contract the authorization tests deploy: modules/auth/src/testutils/contract.rs.

    It exposes the two authorization traits over a provider set of its own. *)
From S2P Require Import Prelude Errors Host Primitives HostAuth Auth ChannelAuth.

Module AuthModuleTestContract.
Section contract.
Context `{Sdk}.

Definition is_provider (provider : Address) : M ProviderSet bool :=
  ps ← get_state; mret (ProviderAuthorizable.is_provider provider ps).
Definition add_provider (provider : Address) : M ProviderSet unit :=
  ProviderAuthorizable.register_provider provider.
Definition remove_provider (provider : Address) : M ProviderSet unit :=
  ProviderAuthorizable.deregister_provider provider.

(** The same two checks as the deployed contract, in the other order. *)
Definition __check_auth (e : Env) (payload : BytesN 32) (signatures : Signatures)
    (contexts : list Context) : M ProviderSet unit :=
  lift (UtxoAuthorizable.handle_utxo_auth e signatures contexts) ;;
  ps ← get_state;
  lift (ProviderAuthorizable.require_provider e payload signatures ps).
End contract.
End AuthModuleTestContract.

(** ** Properties *)

(** The contract the authorization tests deploy accepts exactly what the deployed Quorum
    Auth contract accepts with the same providers, although it makes its two checks in the
    other order; only the error of a call that fails both checks can differ. *)
Theorem auth_test_contract_agrees `{Ownable} `{!SdkLaws} (e : Env) (payload : BytesN 32)
    (signatures : Signatures) (contexts : list Context) (s : AuthState) :
  is_Ok (AuthModuleTestContract.__check_auth e payload signatures contexts (au_providers s))
  = is_Ok (ChannelAuthContract.__check_auth e payload signatures contexts s).
Proof.
  unfold AuthModuleTestContract.__check_auth, ChannelAuthContract.__check_auth, lift, get_state,
    mbind, M_bind. destruct (check_auth_bump e s) as [live ->].
  cbn [au_providers ChannelAuthContract.with_live_until].
  by destruct (UtxoAuthorizable.handle_utxo_auth e signatures contexts),
    (ProviderAuthorizable.require_provider e payload signatures (au_providers s)).
Qed.
