(* ===== verification/Keys.v ===== *)
(** Key pairs that sign: modules/helpers/src/testutils/keys.rs.

    The signing primitives belong to the ed25519 and p256 crates; they are the class
    [SigningKeys], and what the code relies on of them is [SigningKeysLaws].  Where the code
    draws a random key, the key is an argument. *)
From S2P Require Import Prelude Errors Host Helpers.

Class SigningKeys `{Sdk} := {
  (** ed25519: [SigningKey::from_bytes], [verifying_key().to_bytes()], [sign(msg).to_bytes()]. *)
  NativeSigningKey : Type;
  signing_key_from_bytes : BytesN 32 → NativeSigningKey;
  verifying_key_bytes : NativeSigningKey → BytesN 32;
  native_sign : NativeSigningKey → Bytes → BytesN 64;
  (** p256: the verifying key's [to_encoded_point(false)], [from_sec1_bytes(..).is_ok()],
      [verify_prehash], [sign_prehash], [s().is_high()], [normalize_s], and the two scalars. *)
  P256SigningKey : Type;
  P256Signature : Type;
  encoded_point : P256SigningKey → BytesN 65;
  from_sec1_bytes_ok : BytesN 65 → bool;
  verify_prehash : BytesN 65 → BytesN 32 → P256Signature → bool;
  sign_prehash : P256SigningKey → BytesN 32 → option P256Signature;
  s_is_high : P256Signature → bool;
  normalize_s : P256Signature → option P256Signature;
  sig_r : P256Signature → BytesN 32;
  sig_s : P256Signature → BytesN 32;
}.

(** A key's signatures verify under its public key; an encoded point parses; normalizing a
    high signature gives a low one for the same message; the host accepts a signature that
    verifies when its [s] is low. *)
Class SigningKeysLaws `{SigningKeys} : Prop := {
  native_sign_verifies k msg :
    ed25519_verify (verifying_key_bytes k) msg (native_sign k msg) = true;
  encoded_point_parses k : from_sec1_bytes_ok (encoded_point k) = true;
  sign_prehash_verifies k h sig :
    sign_prehash k h = Some sig → verify_prehash (encoded_point k) h sig = true;
  normalize_s_high sig : s_is_high sig = true → is_Some (normalize_s sig);
  normalize_s_low pk h sig sig' :
    normalize_s sig = Some sig' → verify_prehash pk h sig = true →
    s_is_high sig' = false ∧ verify_prehash pk h sig' = true;
  host_accepts_low_s pk h sig :
    verify_prehash pk h sig = true → s_is_high sig = false →
    secp256r1_verify pk h (from_array 64 (to_array (sig_r sig) ++ to_array (sig_s sig))) = true;
}.

Record AccountEd25519Signature := mkAccountEd25519Signature {
  as_public_key : BytesN 32;
  as_signature : BytesN 64;
}.

Record Ed25519Account `{SigningKeys} := mkEd25519Account {
  ed_public_key : BytesN 32;
  ed_signing_key : NativeSigningKey;
  ed_address : Address;
}.

Record P256KeyPair `{SigningKeys} := mkP256KeyPair {
  kp_public_key : BytesN 65;
  kp_secret_key : P256SigningKey;
}.

Module Ed25519Keys.
Section keys.
Context `{SigningKeys}.

Definition from_keys (public secret : BytesN 32) : res Ed25519Account :=
  let signing_key := signing_key_from_bytes secret in
  let verifying_key := verifying_key_bytes signing_key in
  asserts (bool_decide (verifying_key = public)) "public key does not match secret key" ;;
  Ok (mkEd25519Account _ _ public signing_key (address_from_ed25519_pk_bytes public)).

Definition from_signing_key (signing_key : NativeSigningKey) : Ed25519Account :=
  let public_key := verifying_key_bytes signing_key in
  mkEd25519Account _ _ public_key signing_key (address_from_ed25519_pk_bytes public_key).

(** [csprng] draws [signing_key]. *)
Definition generate (signing_key : NativeSigningKey) : Ed25519Account :=
  from_signing_key signing_key.

Definition sign (self : Ed25519Account) (msg : BytesN 32) : BytesN 64 :=
  native_sign (ed_signing_key self) (to_array msg).

Definition sign_for_transaction (self : Ed25519Account) (msg : BytesN 32)
    : AccountEd25519Signature :=
  let raw_signature := sign self msg in
  mkAccountEd25519Signature (verifying_key_bytes (ed_signing_key self)) raw_signature.
End keys.
End Ed25519Keys.

Module P256Keys.
Section keys.
Context `{SigningKeys}.

(** [CoreOsRng] draws [signing_key]. *)
Definition generate_p256 (signing_key : P256SigningKey) : res P256KeyPair :=
  let public_key := encoded_point signing_key in
  asserts (from_sec1_bytes_ok public_key) "Public key generation failed!" ;;
  Ok (mkP256KeyPair _ _ public_key signing_key).

Definition sign_with_key (secret_key : P256SigningKey) (msg : BytesN 32) : res (BytesN 64) :=
  signature ← unwrap (sign_prehash secret_key msg);
  signature ← (if s_is_high signature then unwrap (normalize_s signature) else Ok signature);
  Ok (from_array 64 (to_array (sig_r signature) ++ to_array (sig_s signature))).

(** The same lines as [sign_with_key], on the pair's own key. *)
Definition sign_p256 (self : P256KeyPair) (msg : BytesN 32) : res (BytesN 64) :=
  sign_with_key (kp_secret_key self) msg.
End keys.
End P256Keys.

(** ** Properties *)

(** C39. What a key pair signs, the host verifies under its public key.  A generated P256 pair
    signs whenever the signer does, with the signature normalized to the low half the host
    insists on; an Ed25519 account signs for its own public key, which is the one its address
    is made from; and loading an account from both keys succeeds exactly when they match. *)
Theorem key_pairs_sign_verifiably `{SigningKeysLaws} :
  (∀ k pair msg sig, P256Keys.generate_p256 k = Ok pair → sign_prehash k msg = Some sig →
     ∃ bytes, P256Keys.sign_p256 pair msg = Ok bytes ∧
       secp256r1_verify (kp_public_key pair) msg bytes = true) ∧
  (∀ k, is_Ok (P256Keys.generate_p256 k) = true) ∧
  (∀ k msg, let account := Ed25519Keys.generate k in
     ed25519_verify (ed_public_key account) (to_array msg) (Ed25519Keys.sign account msg) = true ∧
     ed_address account = address_from_ed25519_pk_bytes (ed_public_key account) ∧
     as_public_key (Ed25519Keys.sign_for_transaction account msg) = ed_public_key account) ∧
  (∀ public secret,
     Ed25519Keys.from_keys public secret =
     if bool_decide (public = verifying_key_bytes (signing_key_from_bytes secret))
     then Ok (Ed25519Keys.from_signing_key (signing_key_from_bytes secret))
     else Err (Trap (Panic "public key does not match secret key"))).
Proof.
  split_and!.
  - unfold P256Keys.generate_p256, P256Keys.sign_p256, P256Keys.sign_with_key. intros k pair msg sig Hg Hs.
    rewrite encoded_point_parses in Hg. injection Hg as <-. simpl. rewrite Hs.
    apply sign_prehash_verifies in Hs. cbn [unwrap mbind res_bind].
    destruct (s_is_high sig) eqn:Eh; cbn [mbind res_bind].
    + destruct (normalize_s_high _ Eh) as [sig' Hn]. rewrite Hn. cbn [unwrap mbind res_bind].
      destruct (normalize_s_low _ _ _ _ Hn Hs). eauto using host_accepts_low_s.
    + eauto using host_accepts_low_s.
  - intros k. unfold P256Keys.generate_p256. by rewrite encoded_point_parses.
  - intros k msg. simpl. split_and!; [apply native_sign_verifies | done | done].
  - intros public secret. unfold Ed25519Keys.from_keys. repeat case_bool_decide; by subst.
Qed.
