(* ===== verification/Snapshot.v ===== *)
(** The accounts of the recorded test ledger:
    modules/helpers/src/testutils/snapshot.rs.

    A [&str] is the list of its bytes in UTF-8.  [Address::from_str], which decodes a strkey, is
    the class [StrKey]; the ledger file that [get_env_with_g_accounts] loads is not modelled. *)
From S2P Require Import Prelude Errors Host Helpers Keys.
From Stdlib Require Strings.String.

(** [soroban_sdk::Address::from_str]: [None] when it panics. *)
Class StrKey `{Sdk} := { address_from_str : Bytes → option Address }.

(** ** Strings and numbers of the standard library *)

Abbreviation str_bytes := String.list_byte_of_string.

(** [str::is_char_boundary]: a byte [0b10xxxxxx] continues a character. *)
Definition is_continuation (b : byte) : bool := (128 <=? byte_to_Z b) && (byte_to_Z b <? 192).
Definition is_char_boundary (s : Bytes) (i : nat) : bool :=
  match s !! i with
  | Some b => Nat.eqb i 0 || negb (is_continuation b)
  | None => Nat.eqb i (length s)
  end.

(** [&s[start..stop]]. *)
Definition str_slice (s : Bytes) (start stop : nat) : res Bytes :=
  asserts (Nat.leb start stop && is_char_boundary s start && is_char_boundary s stop)
    "byte index is out of bounds or not a char boundary" ;;
  Ok (take (stop - start) (drop start s)).

(** [char::to_digit(16)] on a byte. *)
Definition hex_digit (b : byte) : option Z :=
  let z := byte_to_Z b in
  if (48 <=? z) && (z <=? 57) then Some (z - 48)
  else if (97 <=? z) && (z <=? 102) then Some (z - 87)
  else if (65 <=? z) && (z <=? 70) then Some (z - 55)
  else None.

(** The digits of a [u8], most significant first, with the overflow check. *)
Fixpoint u8_digits (acc : Z) (s : Bytes) : option Z :=
  match s with
  | [] => Some acc
  | b :: s =>
      d ← hex_digit b;
      let v := acc * 16 + d in
      if v <=? 255 then u8_digits v s else None
  end.

(** [u8::from_str_radix(s, 16)]: not empty, digits of either case after an optional [+]. *)
Definition u8_from_str_radix_16 (s : Bytes) : option Z :=
  match s with
  | [] => None
  | Init.Byte.x2b :: (_ :: _) as digits => u8_digits 0 digits
  | _ => u8_digits 0 s
  end.

(** [result.unwrap()] on what a parser returns. *)
Definition unwrap_parsed {A} (o : option A) : res A :=
  match o with Some a => Ok a | None => panics "called Result::unwrap() on an Err value" end.

(** ** The module *)

Section snapshot.

(** The body of the loop of [hex_to_bytes]: the [i]-th byte. *)
Definition hex_byte (hex_str : Bytes) (i : nat) : res byte :=
  let start := (i * 2)%nat in
  let stop := (start + 2)%nat in
  slice ← str_slice hex_str start stop;
  z ← unwrap_parsed (u8_from_str_radix_16 slice);
  Ok (byte_of_Z z).

Definition hex_to_bytes (hex_str : Bytes) : res (BytesN 32) :=
  bytes ← fold_res (λ bytes i, b ← hex_byte hex_str i; Ok (<[i := b]> bytes))
            (seq 0 32) (replicate 32 Init.Byte.x00);
  Ok (from_array 32 bytes).

Context `{SigningKeys} `{!StrKey}.

Definition pk_bytes_from_string (s : Bytes) : res (BytesN 32) :=
  match address_from_str s with
  | Some address => address_to_ed25519_pk_bytes address
  | None => Err (Trap (Panic "Address::from_str"))
  end.

Definition sk_bytes_from_string (s : Bytes) : res (BytesN 32) := hex_to_bytes s.

(** One component of the tuple: the keys, then the account they make. *)
Definition snapshot_account (public secret : string) : res Ed25519Account :=
  public ← pk_bytes_from_string (str_bytes public);
  secret ← sk_bytes_from_string (str_bytes secret);
  Ed25519Keys.from_keys public secret.

Definition get_snapshot_g_accounts :
    res (Ed25519Account * Ed25519Account * Ed25519Account * Ed25519Account * Ed25519Account) :=
  account_1 ← snapshot_account
    "GAV2OCUEI3GGZFPTBJDMUGIOKL6IEIW2PYATXVQAYWXEWKDDI573KC3D"
    "5ca56b75f944da646cade355ba172fb2a2aa18aaa07d5455d097e773301fa8c5";
  account_2 ← snapshot_account
    "GAUCMJZ7RFUVPMO3SYTFSE5DY67DPJJ5QXVGBTKRDGRSUNKZQXM56RVY"
    "63a9d5559bae437c2dba445f241350ca15781c83ab08ff8dded7c6f166911b83";
  account_3 ← snapshot_account
    "GBAAMZHIZ2TABWWE7WG2YODR2VCYZX6653MN77KAWPDUQT7MFRPRMMJA"
    "4d00ca9c353175261013b7c12dabb0f7b9aef720d4fb3413a7efb21a31b6802c";
  account_4 ← snapshot_account
    "GDFTOBI4RUPVUUTQ2DPDHSJEJTOT76EJCP4JWTXUA35PDGUPKHYRPKNJ"
    "3fb9d9a7837d6cfe7f7fdce6c384e0a3b3f875fc48de3ee1b7b4e07c5b31840b";
  account_5 ← snapshot_account
    "GBZJ7QK5CVELYMUGHNSMVTWJ4RW3DH7GL55C65ZFU44YK2K5NRXBH7PW"
    "829fbfa26b788b2f2e0258d6f7b06377afbe976c46d8f0ecabba5ea84e109574";
  Ok (account_1, account_2, account_3, account_4, account_5).
End snapshot.

(** ** What the functions mean *)

(** The lower-case hexadecimal form of a key. *)
Definition hex_char (z : Z) : byte := byte_of_Z (if z <? 10 then z + 48 else z + 87).
Definition hex_pair (b : byte) : Bytes :=
  [hex_char (byte_to_Z b / 16); hex_char (byte_to_Z b mod 16)].
Definition encode_hex (b : BytesN 32) : Bytes := mjoin (hex_pair <$> to_array b).

(** What a slice of two bytes reads as: two digits, or a sign and one digit. *)
Definition hex_pair_reads (x y : byte) (z : Z) : Prop :=
  (∃ hi lo, hex_digit x = Some hi ∧ hex_digit y = Some lo ∧ z = hi * 16 + lo) ∨
  (x = Init.Byte.x2b ∧ hex_digit y = Some z).

(** The string starts a character, or is empty. *)
Definition starts_char (s : Bytes) : bool :=
  match s with [] => true | b :: _ => negb (is_continuation b) end.

(** The account of a secret, whose address is the one of the strkey. *)
Definition account_loads `{SigningKeys} `{!StrKey} (keys : string * string)
    (account : Ed25519Account) : Prop :=
  ∃ secret, hex_to_bytes (str_bytes keys.2) = Ok secret ∧
    account = Ed25519Keys.from_signing_key (signing_key_from_bytes secret) ∧
    address_from_str (str_bytes keys.1) = Some (ed_address account).

(** The strkeys and the secrets, in the order of the tuple. *)
Definition snapshot_keys : list (string * string) :=
  [("GAV2OCUEI3GGZFPTBJDMUGIOKL6IEIW2PYATXVQAYWXEWKDDI573KC3D",
    "5ca56b75f944da646cade355ba172fb2a2aa18aaa07d5455d097e773301fa8c5");
   ("GAUCMJZ7RFUVPMO3SYTFSE5DY67DPJJ5QXVGBTKRDGRSUNKZQXM56RVY",
    "63a9d5559bae437c2dba445f241350ca15781c83ab08ff8dded7c6f166911b83");
   ("GBAAMZHIZ2TABWWE7WG2YODR2VCYZX6653MN77KAWPDUQT7MFRPRMMJA",
    "4d00ca9c353175261013b7c12dabb0f7b9aef720d4fb3413a7efb21a31b6802c");
   ("GDFTOBI4RUPVUUTQ2DPDHSJEJTOT76EJCP4JWTXUA35PDGUPKHYRPKNJ",
    "3fb9d9a7837d6cfe7f7fdce6c384e0a3b3f875fc48de3ee1b7b4e07c5b31840b");
   ("GBZJ7QK5CVELYMUGHNSMVTWJ4RW3DH7GL55C65ZFU44YK2K5NRXBH7PW",
    "829fbfa26b788b2f2e0258d6f7b06377afbe976c46d8f0ecabba5ea84e109574")].

(** ** Lemmas *)

Section hex_lemmas.
Implicit Types (s pre mid post : Bytes) (b x y : byte) (z : Z) (i : nat).

Lemma hex_digit_range b z : hex_digit b = Some z → 0 ≤ z < 16.
Proof. unfold hex_digit. repeat case_match; intros [= <-]; lia. Qed.

Lemma radix_pair x y :
  u8_from_str_radix_16 [x; y]
  = if bool_decide (x = Init.Byte.x2b) then u8_digits 0 [y] else u8_digits 0 [x; y].
Proof. by destruct x. Qed.

Lemma radix_pair_reads x y z : u8_from_str_radix_16 [x; y] = Some z ↔ hex_pair_reads x y z.
Proof.
  rewrite radix_pair. unfold hex_pair_reads. case_bool_decide as Hx; cbn.
  - subst x. destruct (hex_digit y) as [lo|] eqn:Hy; [|naive_solver].
    apply hex_digit_range in Hy as ?. cbn. case_match; [|lia].
    split; [intros [= <-]; by right | intros [(? & ? & ? & _)|[_ [= <-]]]; done].
  - destruct (hex_digit x) as [hi|] eqn:Hhi; [|naive_solver].
    apply hex_digit_range in Hhi as ?. cbn. case_match; [|lia].
    destruct (hex_digit y) as [lo|] eqn:Hlo; cbn; [|naive_solver].
    apply hex_digit_range in Hlo as ?. case_match; [|lia]. split.
    + intros [= <-]. left. eauto.
    + intros [(? & ? & [= <-] & [= <-] & ->)|[? _]]; done.
Qed.

Lemma hex_pair_parses b : u8_from_str_radix_16 (hex_pair b) = Some (byte_to_Z b).
Proof. by destruct b. Qed.

Lemma hex_pair_starts b s : starts_char (hex_pair b ++ s) = true.
Proof. by destruct b. Qed.

Lemma byte_of_to_Z b : byte_of_Z (byte_to_Z b) = b.
Proof. by destruct b. Qed.

Lemma char_boundary_app pre post :
  starts_char post = true → is_char_boundary (pre ++ post) (length pre) = true.
Proof.
  intros Hs. unfold is_char_boundary. rewrite lookup_app_r, Nat.sub_diag by lia.
  destruct post as [|b post]; simpl in *.
  - rewrite app_nil_r. apply Nat.eqb_refl.
  - by rewrite Hs, orb_true_r.
Qed.

Lemma str_slice_app pre mid post :
  starts_char (mid ++ post) = true → starts_char post = true →
  str_slice (pre ++ mid ++ post) (length pre) (length pre + length mid) = Ok mid.
Proof.
  intros Hm Hp. unfold str_slice. rewrite char_boundary_app by done.
  rewrite (app_assoc pre mid post), <- length_app, char_boundary_app by done.
  rewrite length_app. replace (Nat.leb _ _) with true by (symmetry; apply Nat.leb_le; lia).
  cbn [andb asserts mbind res_bind]. f_equal.
  rewrite <- app_assoc, drop_app_length. replace (_ - _)%nat with (length mid) by lia.
  apply take_app_length.
Qed.

(** A slice that is returned lies inside the string. *)
Lemma str_slice_Ok s start stop r :
  str_slice s start stop = Ok r →
  (start ≤ stop)%nat ∧ (stop ≤ length s)%nat ∧ r = take (stop - start) (drop start s).
Proof.
  unfold str_slice. destruct (Nat.leb start stop) eqn:Hle; [|done].
  destruct (is_char_boundary s start); [|done]. destruct (is_char_boundary s stop) eqn:Hb; [|done].
  intros [= <-]. apply Nat.leb_le in Hle. split_and!; [done | | done].
  unfold is_char_boundary in Hb. destruct (s !! stop) eqn:Hl.
  - apply lookup_lt_Some in Hl. lia.
  - apply Nat.eqb_eq in Hb. lia.
Qed.
End hex_lemmas.

Section loop_lemmas.
Implicit Types (s rest : Bytes) (acc r : Bytes) (i k m : nat).

Abbreviation fill s := (λ (bytes : Bytes) i, b ← hex_byte s i; Ok (<[i := b]> bytes)).

(** The loop writes the bytes it reads, each at its index, and nothing else. *)
Lemma fill_Ok s k m acc r :
  (k + m ≤ length acc)%nat →
  fold_res (fill s) (seq k m) acc = Ok r ↔
  length r = length acc ∧
  (∀ i, (k ≤ i < k + m)%nat → ∃ b, hex_byte s i = Ok b ∧ r !! i = Some b) ∧
  (∀ i, ¬ (k ≤ i < k + m)%nat → r !! i = acc !! i).
Proof.
  revert k acc. induction m as [|m IH]; intros k acc Hlen; cbn [seq fold_res].
  - split.
    + intros [= <-]. split_and!; [done | lia | done].
    + intros (_ & _ & Hr). f_equal. apply list_eq. intros i. symmetry. apply Hr. lia.
  - destruct (hex_byte s k) as [b|f] eqn:Hb; cbn [mbind res_bind].
    + rewrite IH by (rewrite length_insert; lia). rewrite length_insert. f_equiv. split.
      * intros [Hin Hout]. split.
        -- intros i Hi. destruct (decide (i = k)) as [->|]; [|apply Hin; lia].
           exists b. split; [done|]. rewrite Hout by lia. apply list_lookup_insert_eq. lia.
        -- intros i Hi. rewrite Hout by lia. apply list_lookup_insert_ne. lia.
      * intros [Hin Hout]. split; [intros i Hi; apply Hin; lia|].
        intros i Hi. destruct (decide (i = k)) as [->|].
        -- destruct (Hin k ltac:(lia)) as (b' & Hb' & ->). rewrite Hb in Hb'. simplify_eq.
           symmetry. apply list_lookup_insert_eq. lia.
        -- rewrite Hout by lia. symmetry. by apply list_lookup_insert_ne.
    + split; [done|]. intros (_ & Hin & _). destruct (Hin k ltac:(lia)) as (b & Hb' & _). congruence.
Qed.

Lemma hex_to_bytes_Ok s (r : BytesN 32) :
  hex_to_bytes s = Ok r ↔
  ∀ i, (i < 32)%nat → ∃ b, hex_byte s i = Ok b ∧ to_array r !! i = Some b.
Proof.
  unfold hex_to_bytes. rewrite res_bind_Ok. split.
  - intros (l & Hl & [= <-]). apply fill_Ok in Hl as (Hlen & Hin & _); [|done].
    intros i Hi. destruct (Hin i ltac:(lia)) as (b & Hb & Hr). exists b. split; [done|].
    simpl. unfold resize_bytes. by rewrite resize_all_alt.
  - intros Hall. exists (to_array r). split.
    + apply fill_Ok; [done|]. split_and!; [by rewrite length_to_array | intros i Hi; apply Hall; lia|].
      intros i Hi. rewrite !lookup_ge_None_2; rewrite ?length_to_array, ?length_replicate; lia || done.
    + f_equal. apply BytesN_eq. simpl. unfold resize_bytes.
      by rewrite resize_all_alt by (symmetry; apply length_to_array).
Qed.

(** Reading back the pair written for a byte. *)
Lemma hex_byte_encode (l rest : Bytes) i b :
  starts_char rest = true → l !! i = Some b →
  hex_byte (mjoin (hex_pair <$> l) ++ rest) i = Ok b.
Proof.
  intros Hrest (l1 & l2 & -> & ->)%list_elem_of_split_length. unfold hex_byte.
  rewrite fmap_app, join_app, fmap_cons. cbn [mjoin list_join]. rewrite <- !app_assoc.
  assert (Hl : (length l1 * 2)%nat = length (mjoin (hex_pair <$> l1))).
  { induction l1 as [|c l1 IH]; [done|]. rewrite fmap_cons. cbn [length]. rewrite Nat.mul_succ_l, IH.
    change (mjoin (hex_pair c :: ?k)) with (hex_pair c ++ mjoin k). rewrite length_app. simpl. lia. }
  rewrite Hl. change 2%nat with (length (hex_pair b)). rewrite str_slice_app.
  - cbn [mbind res_bind]. rewrite hex_pair_parses. cbn. by rewrite byte_of_to_Z.
  - apply hex_pair_starts.
  - destruct l2 as [|c l2]; [done|]. rewrite fmap_cons. cbn [mjoin list_join].
    rewrite <- app_assoc. apply hex_pair_starts.
Qed.
End loop_lemmas.

Section account_lemmas.
Context `{SigningKeys} `{!SdkLaws} `{!StrKey}.

Lemma snapshot_account_Ok public secret account :
  snapshot_account public secret = Ok account ↔ account_loads (public, secret) account.
Proof.
  unfold snapshot_account, account_loads, pk_bytes_from_string, sk_bytes_from_string. simpl.
  destruct (address_from_str (str_bytes public)) as [a|]; [|naive_solver].
  destruct (hex_to_bytes (str_bytes secret)) as [sk|f].
  2: { split; [|naive_solver]. by destruct (address_to_ed25519_pk_bytes a). }
  destruct (address_to_ed25519_pk_bytes a) as [pk|f] eqn:Ha; cbn [mbind res_bind].
  - apply ed25519_address_roundtrip in Ha as ->. unfold Ed25519Keys.from_keys.
    case_bool_decide as Hpk; cbn.
    + split; [intros [= <-]; exists sk; by subst|]. intros (? & [= <-] & -> & _). by subst.
    + split; [done|]. intros (? & [= <-] & -> & [= Heq]). destruct Hpk. simpl in Heq.
      symmetry in Heq. apply ed25519_address_roundtrip in Heq.
      rewrite (proj2 (ed25519_address_roundtrip _ _) eq_refl) in Heq. congruence.
  - split; [done|]. intros (? & [= <-] & -> & [= ->]). simpl in Ha.
    by rewrite (proj2 (ed25519_address_roundtrip _ _) eq_refl) in Ha.
Qed.
End account_lemmas.

(** ** Properties *)

(** C40. Secrets in hexadecimal.  [hex_to_bytes] returns exactly the array whose bytes its pairs
    of characters read as; it reads back what [encode_hex] writes, whatever follows; it panics
    on a string of fewer than 64 characters; and a pair reads as a byte exactly when it is two
    digits of either case, or a sign and a digit, which the parser of numbers lets through. *)
Theorem hex_to_bytes_decodes :
  (∀ s key, hex_to_bytes s = Ok key ↔
     ∀ i, (i < 32)%nat → ∃ b, hex_byte s i = Ok b ∧ to_array key !! i = Some b) ∧
  (∀ key rest, starts_char rest = true → hex_to_bytes (encode_hex key ++ rest) = Ok key) ∧
  (∀ s, (length s < 64)%nat → ∃ msg, hex_to_bytes s = Err (Trap (Panic msg))) ∧
  (∀ x y z, u8_from_str_radix_16 [x; y] = Some z ↔ hex_pair_reads x y z).
Proof.
  split_and!; [apply hex_to_bytes_Ok | | |exact radix_pair_reads].
  - intros key rest Hrest. apply hex_to_bytes_Ok. intros i Hi.
    destruct (lookup_lt_is_Some_2 (to_array key) i) as [b Hb]; [by rewrite length_to_array|].
    exists b. split; [by apply hex_byte_encode | done].
  - intros s Hs. destruct (hex_to_bytes s) as [key|f] eqn:Hr.
    + destruct (proj1 (hex_to_bytes_Ok _ _) Hr 31%nat) as (b & Hb & _); [lia|].
      unfold hex_byte in Hb. apply res_bind_Ok in Hb as (r & Hslice & _).
      apply str_slice_Ok in Hslice as (_ & Hlen & _). lia.
    + unfold hex_to_bytes in Hr. destruct (fold_res _ _ _) eqn:Hf; [done|]. injection Hr as ->.
      apply fold_res_Err in Hf as (acc & i & _ & Hf). unfold hex_byte, str_slice, asserts in Hf.
      case_match; cbn in Hf; [|by eexists; injection Hf as <-].
      destruct (u8_from_str_radix_16 _); cbn in Hf; [done|]. injection Hf as <-. by eexists.
Qed.

(** The recorded accounts.  [get_snapshot_g_accounts] returns five accounts exactly when
    each secret makes the key of the strkey written beside it, and then each account holds the
    key of its secret, under the address of its strkey. *)
Theorem snapshot_accounts_load `{SigningKeys} `{!SdkLaws} `{!StrKey}
    (a1 a2 a3 a4 a5 : Ed25519Account) :
  get_snapshot_g_accounts = Ok (a1, a2, a3, a4, a5) ↔
  Forall2 account_loads snapshot_keys [a1; a2; a3; a4; a5].
Proof.
  unfold get_snapshot_g_accounts, snapshot_keys. rewrite !Forall2_cons, Forall2_nil.
  rewrite <- !snapshot_account_Ok. split.
  - intros Hr. do 5 apply res_bind_Ok in Hr as (? & ? & Hr). by simplify_eq.
  - intros (H1' & H2' & H3' & H4' & H5' & _).
    do 5 (apply res_bind_Ok; eexists; split; [eassumption|]). done.
Qed.
