(* ===== verification/OperationBuilder.v ===== *)
(** The builder of utxo bundles: modules/utxo-core/src/testutils/operation_bundle.rs.

    It is the client side of the protocol as the repository ships it: it assembles a bundle,
    says what its owners and the provider sign, and lays out the authorization entry.  The
    theorems say that the Quorum Auth contract accepts what a complete builder produces, and
    that its signatures are of their keys' curves. *)
From S2P Require Import Prelude Errors Host Primitives Helpers Storage HostAuth Auth ChannelAuth.
From S2P Require Import UtxoCore.

(** [xdr::SorobanAuthorizedInvocation]: the function is always a contract call here. *)
Inductive SorobanAuthorizedInvocation `{Sdk} :=
  mkInvocation (function : ContractContext) (sub_invocations : list SorobanAuthorizedInvocation).

Definition inv_function `{Sdk} (i : SorobanAuthorizedInvocation) : ContractContext :=
  match i with mkInvocation f _ => f end.
Definition inv_subs `{Sdk} (i : SorobanAuthorizedInvocation) : list SorobanAuthorizedInvocation :=
  match i with mkInvocation _ subs => subs end.

(** [xdr::SorobanAuthorizationEntry] with the address credentials in place. *)
Record SorobanAuthorizationEntry `{Sdk} (S : Type) := mkAuthorizationEntry {
  cred_address : Address;
  cred_nonce : Z;
  cred_expiration_ledger : Z;
  cred_signature : S;
  root_invocation : SorobanAuthorizedInvocation;
}.
Arguments mkAuthorizationEntry {_ S} _ _ _ _ _.
Arguments cred_address {_ S} _.
Arguments cred_nonce {_ S} _.
Arguments cred_expiration_ledger {_ S} _.
Arguments cred_signature {_ S} _.
Arguments root_invocation {_ S} _.

(** The ledger's network id, and the XDR of the preimage
    [HashIdPreimage::SorobanAuthorization { network_id, nonce, expiration, invocation }]. *)
Class AuthPreimage `{Sdk} := {
  network_id : BytesN 32;
  preimage_to_xdr : BytesN 32 → Z → Z → SorobanAuthorizedInvocation → Bytes;
}.

(** [iter().find_map(f)]; also the loops that return from inside at the first match. *)
Fixpoint find_map {A B} (f : A → option B) (l : list A) : option B :=
  match l with
  | [] => None
  | x :: l => match f x with Some b => Some b | None => find_map f l end
  end.

Record UTXOOperationBuilder `{Sdk} := mkUTXOOperationBuilder {
  channel_contract : Address;
  auth_contract : Address;
  b_spend : list (BytesN 65 * list Condition);
  b_create : list (BytesN 65 * Z);
  sign_map : Signatures;
}.

Module UtxoBuilder.
Section builder.
Context `{Sdk}.
Implicit Types b : UTXOOperationBuilder.

Definition with_spend spend b : UTXOOperationBuilder :=
  mkUTXOOperationBuilder _ (channel_contract b) (auth_contract b) spend (b_create b) (sign_map b).
Definition with_create create b : UTXOOperationBuilder :=
  mkUTXOOperationBuilder _ (channel_contract b) (auth_contract b) (b_spend b) create (sign_map b).
Definition with_sign_map m b : UTXOOperationBuilder :=
  mkUTXOOperationBuilder _ (channel_contract b) (auth_contract b) (b_spend b) (b_create b) m.

Definition generate (channel_contract auth_contract : Address) : UTXOOperationBuilder :=
  mkUTXOOperationBuilder _ channel_contract auth_contract [] [] ∅.

Definition get_operation_bundle b : UTXOOperation := mkUTXOOperation _ (b_spend b) (b_create b).
Definition get_spend b : list (BytesN 65 * list Condition) := b_spend b.
Definition get_create b : list (BytesN 65 * Z) := b_create b.

Definition add_spend (utxo : BytesN 65) (conditions : list Condition)
    : M UTXOOperationBuilder unit :=
  b ← get_state;
  lift (each (b_spend b) (λ '(existing_utxo, existing_conditions),
    (if bool_decide (existing_utxo = utxo) then panics "UTXO already included in spend list"
     else Ok tt) ;;
    asserts (has_no_conflicting_conditions_in_sets conditions existing_conditions)
      "Conflicting conditions with existing spend UTXO")) ;;
  put_state (with_spend (b_spend b ++ [(utxo, conditions)]) b).

Definition add_create (utxo : BytesN 65) (amount : Z) : M UTXOOperationBuilder unit :=
  b ← get_state;
  lift (each (b_create b) (λ '(existing_utxo, _),
    if bool_decide (existing_utxo = utxo) then panics "UTXO already included in create list"
    else Ok tt)) ;;
  lift (each (b_spend b) (λ '(_, existing_conditions),
    asserts (condition_does_not_conflict_with_set (Create utxo amount) existing_conditions)
      "Create condition conflicts with existing spend UTXO")) ;;
  put_state (with_create (b_create b ++ [(utxo, amount)]) b).

Definition get_auth_payload_for_spend b (utxo : BytesN 65) (live_until_ledger : Z)
    : res AuthPayload :=
  match find_map (λ '(existing_utxo, conditions),
          if bool_decide (existing_utxo = utxo) then Some conditions else None) (b_spend b) with
  | Some conditions => Ok (mkAuthPayload _ conditions live_until_ledger)
  | None => panics "UTXO not found in spend list"
  end.

Definition get_auth_hash_for_spend b (utxo : BytesN 65) (live_until_ledger : Z)
    : res (BytesN 32) :=
  payload ← get_auth_payload_for_spend b utxo live_until_ledger;
  Ok (hash_payload payload (address_to_string (channel_contract b))).

Definition has_signature_for_ed25519 b (public_key : BytesN 32) : bool :=
  bool_decide (is_Some (sign_map b !! SKEd25519 public_key)).
Definition has_signature_for_spend_utxo b (spend_utxo : BytesN 65) : bool :=
  bool_decide (is_Some (sign_map b !! SKP256 spend_utxo)).
Definition has_signature_for_provider b : bool :=
  existsb (λ key, match key with SKProvider _ => true | _ => false end) (map_keys (sign_map b)).
Definition has_all_required_spend_signatures b : bool :=
  forallb (λ '(spend_utxo, _), has_signature_for_spend_utxo b spend_utxo) (b_spend b).

Definition set_signature (key : SignerKey) (entry : Signature * Z)
    : M UTXOOperationBuilder unit :=
  modify (λ b, with_sign_map (<[key := entry]> (sign_map b)) b).

Definition add_spend_signature (spend_utxo : BytesN 65) (signature : BytesN 64)
    (live_until_ledger : Z) : M UTXOOperationBuilder unit :=
  b ← get_state;
  lift (asserts (negb (has_signature_for_spend_utxo b spend_utxo))
    "Signature for this UTXO already added") ;;
  set_signature (SKP256 spend_utxo) (SigP256 signature, live_until_ledger).

Definition add_ed25519_signature (public_key : BytesN 32) (signature : BytesN 64)
    (live_until_ledger : Z) : M UTXOOperationBuilder unit :=
  b ← get_state;
  lift (asserts (negb (has_signature_for_ed25519 b public_key))
    "Signature for this Ed25519 key already added") ;;
  set_signature (SKEd25519 public_key) (SigEd25519 signature, live_until_ledger).

Definition add_provider_signature (provider_address : Address) (signature : BytesN 64)
    (live_until_ledger : Z) : M UTXOOperationBuilder unit :=
  b ← get_state;
  lift (asserts (negb (has_signature_for_provider b)) "Provider signature already included") ;;
  provider_bytes ← lift (address_to_ed25519_pk_bytes provider_address);
  set_signature (SKProvider provider_bytes) (SigEd25519 signature, live_until_ledger).

Definition build_signatures b : res Signatures :=
  asserts (has_all_required_spend_signatures b)
    "Not all required spend signatures have been added" ;;
  asserts (has_signature_for_provider b) "Provider signature is required but not included" ;;
  Ok (sign_map b).

Definition builder_auth_requirements b : AuthRequirements :=
  calculate_auth_requirements (b_spend b).

Definition get_contract_auth_args b : list Val :=
  let auth_req := builder_auth_requirements b in
  if decide (auth_req = ∅) then [] else [VRequirements auth_req].

Definition get_root_invocation b : SorobanAuthorizedInvocation :=
  mkInvocation
    (mkContractContext _ (channel_contract b) "transact" (get_contract_auth_args b)) [].

Context `{!AuthPreimage}.

Definition get_auth_entry_payload_hash_for_bundle b (nonce signature_expiration_ledger : Z)
    : BytesN 32 :=
  sha256 (preimage_to_xdr network_id nonce signature_expiration_ledger (get_root_invocation b)).

Definition get_auth_entry b (nonce signature_expiration_ledger : Z)
    : res (SorobanAuthorizationEntry Signatures) :=
  signature_val ← build_signatures b;
  Ok (mkAuthorizationEntry (auth_contract b) nonce signature_expiration_ledger signature_val
        (get_root_invocation b)).
End builder.
End UtxoBuilder.

(** ** Builders a client can hold *)

Inductive UtxoBuilderCall `{Sdk} :=
  | BcAddSpend (utxo : BytesN 65) (conditions : list Condition)
  | BcAddCreate (utxo : BytesN 65) (amount : Z)
  | BcAddSpendSignature (utxo : BytesN 65) (signature : BytesN 64) (live : Z)
  | BcAddEd25519Signature (pk : BytesN 32) (signature : BytesN 64) (live : Z)
  | BcAddProviderSignature (provider : Address) (signature : BytesN 64) (live : Z).

Definition utxo_builder_call `{Sdk} (c : UtxoBuilderCall) : M UTXOOperationBuilder unit :=
  match c with
  | BcAddSpend u cs => UtxoBuilder.add_spend u cs
  | BcAddCreate u a => UtxoBuilder.add_create u a
  | BcAddSpendSignature u sig l => UtxoBuilder.add_spend_signature u sig l
  | BcAddEd25519Signature pk sig l => UtxoBuilder.add_ed25519_signature pk sig l
  | BcAddProviderSignature p sig l => UtxoBuilder.add_provider_signature p sig l
  end.

(** What a builder has made sure of. *)
Section invariants.
Context `{Sdk}.

Definition sets_compatible (cs ds : list Condition) : Prop :=
  ∀ c d, c ∈ cs → d ∈ ds → ¬ conflict c d.

(** Conditions of different entries do not conflict. *)
Fixpoint sets_apart (sets : list (list Condition)) : Prop :=
  match sets with
  | [] => True
  | cs :: sets => (∀ ds, ds ∈ sets → sets_compatible cs ds) ∧ sets_apart sets
  end.

Definition utxo_builder_ok (b : UTXOOperationBuilder) : Prop :=
  NoDup ((b_spend b).*1) ∧ NoDup ((b_create b).*1) ∧ sets_apart ((b_spend b).*2) ∧
  (∀ pk pk', is_Some (sign_map b !! SKProvider pk) → is_Some (sign_map b !! SKProvider pk') →
     pk = pk') ∧
  signatures_well_typed (sign_map b).

End invariants.

(** ** Lemmas *)

Section builder_lemmas.
Context `{Sdk}.
Implicit Types (b : UTXOOperationBuilder) (cs ds : list Condition).

Lemma sets_compatible_sym cs ds : sets_compatible cs ds → sets_compatible ds cs.
Proof. intros Hc c d Hin Hin' Hx%conflict_sym. by eapply Hc. Qed.

Lemma sets_apart_app l k :
  sets_apart (l ++ k) ↔
  sets_apart l ∧ sets_apart k ∧ ∀ cs ds, cs ∈ l → ds ∈ k → sets_compatible cs ds.
Proof. induction l as [|cs l IH]; simpl; [set_solver|]. rewrite IH. set_solver. Qed.

(** An entry compatible with every other one can join the list. *)
Lemma sets_apart_snoc l cs :
  sets_apart l → (∀ ds, ds ∈ l → sets_compatible cs ds) → sets_apart (l ++ [cs]).
Proof.
  intros Hl Hcs. apply sets_apart_app. split_and!; [done | set_solver |].
  intros ds cs' Hin ->%list_elem_of_singleton. by apply sets_compatible_sym, Hcs.
Qed.

Lemma sets_apart_middle l k cs :
  sets_apart (l ++ k) → (∀ ds, ds ∈ l ++ k → sets_compatible cs ds) →
  sets_apart ((l ++ [cs]) ++ k).
Proof.
  rewrite !sets_apart_app. intros (Hl & Hk & Hlk) Hcs. split_and!.
  - done.
  - simpl. set_solver.
  - intros ds' ds Hin ->%list_elem_of_singleton. apply sets_compatible_sym, Hcs. set_solver.
  - done.
  - intros ds' ds [Hin| ->%list_elem_of_singleton]%elem_of_app Hin'; [by apply Hlk|].
    apply Hcs. set_solver.
Qed.

Lemma compatible_check cs ds :
  has_no_conflicting_conditions_in_sets cs ds = true ↔ sets_compatible cs ds.
Proof. apply no_conflicting_sets_true. Qed.

Lemma NoDup_snoc {A} (l : list A) x : NoDup l → x ∉ l → NoDup (l ++ [x]).
Proof. intros Hl Hx. apply NoDup_app. split_and!; [done | set_solver | apply NoDup_singleton]. Qed.

Lemma has_provider_true b :
  UtxoBuilder.has_signature_for_provider b = true ↔
  ∃ pk, is_Some (sign_map b !! SKProvider pk).
Proof.
  unfold UtxoBuilder.has_signature_for_provider. rewrite existsb_exists. split.
  - intros (k & Hk%list_elem_of_In%elem_of_map_keys & Ht). destruct k; try done. eauto.
  - intros [pk Hk]. exists (SKProvider pk). split; [|done].
    by apply list_elem_of_In, elem_of_map_keys.
Qed.

Lemma add_spend_Ok u cs b v b' :
  UtxoBuilder.add_spend u cs b = Ok (v, b') →
  b' = UtxoBuilder.with_spend (b_spend b ++ [(u, cs)]) b ∧
  ∀ u' ds, (u', ds) ∈ b_spend b → u' ≠ u ∧ sets_compatible cs ds.
Proof.
  unfold UtxoBuilder.add_spend. intros Hr. inv_M. split; [done|].
  rename select (each _ _ = _) into He. destruct a0. rewrite each_Ok in He.
  intros u' ds Hin. specialize (He _ Hin). simpl in He. case_bool_decide; [done|].
  split; [done|]. by apply asserts_Ok, compatible_check in He.
Qed.

Lemma add_create_Ok u a b v b' :
  UtxoBuilder.add_create u a b = Ok (v, b') →
  b' = UtxoBuilder.with_create (b_create b ++ [(u, a)]) b ∧ u ∉ (b_create b).*1.
Proof.
  unfold UtxoBuilder.add_create. intros Hr. inv_M. split; [done|].
  rename select (each (b_create _) _ = _) into He.
  repeat match goal with u : unit |- _ => destruct u end. rewrite each_Ok in He.
  intros ([u' z] & -> & Hin)%list_elem_of_fmap. specialize (He _ Hin). simpl in He.
  by rewrite bool_decide_eq_true_2 in He.
Qed.

Lemma utxo_builder_call_ok c b v b' :
  utxo_builder_call c b = Ok (v, b') → utxo_builder_ok b → utxo_builder_ok b'.
Proof.
  unfold utxo_builder_ok. intros Hc (Hs & Hcr & Hap & Hp & Hk). destruct c as [u cs|u a|u sig l|pk sig l|p sig l]; simpl in Hc.
  - apply add_spend_Ok in Hc as [-> Hnew]. simpl. rewrite !fmap_app. simpl.
    split_and!; [|done| |done|done].
    + apply NoDup_snoc; [done|]. intros ([u' ds] & -> & Hin)%list_elem_of_fmap.
      by destruct (Hnew _ _ Hin).
    + apply sets_apart_snoc; [done|]. intros ds ([u' ds'] & -> & Hin)%list_elem_of_fmap.
      by destruct (Hnew _ _ Hin).
  - apply add_create_Ok in Hc as [-> Hnew]. simpl. rewrite fmap_app.
    split_and!; [done| |done|done|done]. by apply NoDup_snoc.
  - unfold UtxoBuilder.add_spend_signature, UtxoBuilder.set_signature in Hc. inv_M. simpl.
    split_and!; [done|done|done| |by apply map_Forall_insert_2].
    intros pk pk'. rewrite !lookup_insert_ne by done. apply Hp.
  - unfold UtxoBuilder.add_ed25519_signature, UtxoBuilder.set_signature in Hc. inv_M. simpl.
    split_and!; [done|done|done| |by apply map_Forall_insert_2].
    intros q q'. rewrite !lookup_insert_ne by done. apply Hp.
  - unfold UtxoBuilder.add_provider_signature, UtxoBuilder.set_signature in Hc. inv_M. simpl.
    rename select (asserts _ _ = _) into Hn. rename select UTXOOperationBuilder into b.
    apply asserts_Ok, negb_true_iff in Hn.
    assert (Hnone : ∀ pk, sign_map b !! SKProvider pk = None).
    { intros q. apply eq_None_not_Some. intros Hq. apply not_true_iff_false in Hn.
      apply Hn, has_provider_true. eauto. }
    split_and!; [done|done|done| |by apply map_Forall_insert_2].
    intros q q'. rewrite !lookup_insert, !Hnone.
    do 2 (case_decide; [|by intros ? []||intros []]). congruence.
Qed.

Lemma find_map_spend (l : list (BytesN 65 * list Condition)) u cs :
  NoDup (l.*1) → (u, cs) ∈ l →
  find_map (λ '(existing_utxo, conditions),
    if bool_decide (existing_utxo = u) then Some conditions else None) l = Some cs.
Proof.
  induction l as [|[u2 ds] l IH]; simpl; [set_solver|].
  rewrite NoDup_cons. intros [Hn Hnd] [[= <- <-]|Hin]%elem_of_cons.
  - by rewrite bool_decide_eq_true_2.
  - case_bool_decide as Ha; [|by apply IH]. subst. destruct Hn.
    apply list_elem_of_fmap. by exists (u, cs).
Qed.
End builder_lemmas.

Section entry_lemmas.
Context `{SdkLaws}.
Implicit Types b : UTXOOperationBuilder.

(** Every owner's signature in the builder signs what the builder says it signs. *)
Definition owners_signed (e : Env) b : Prop :=
  ∀ u conds sig live, (u, conds) ∈ b_spend b →
    sign_map b !! SKP256 u = Some (SigP256 sig, live) →
    ledger_sequence e ≤ live ∧
    ∃ h, UtxoBuilder.get_auth_hash_for_spend b u live = Ok h ∧ secp256r1_verify u h sig = true.

Lemma utxo_built_ok ch au calls b :
  for_each calls utxo_builder_call (UtxoBuilder.generate ch au) = Ok (tt, b) →
  utxo_builder_ok b.
Proof.
  intros Hr. eapply (for_each_invariant utxo_builder_ok); [| |exact Hr].
  - intros c s v s' _ Hok Hc. by eapply utxo_builder_call_ok.
  - split_and!; try apply NoDup_nil_2; [done| |apply map_Forall_empty].
    intros pk pk' [entry Hpk]. simpl in Hpk. by rewrite lookup_empty in Hpk.
Qed.

Lemma build_signatures_Ok b sigs :
  UtxoBuilder.build_signatures b = Ok sigs ↔
  sigs = sign_map b ∧
  (∀ u conds, (u, conds) ∈ b_spend b → is_Some (sign_map b !! SKP256 u)) ∧
  ∃ pk, is_Some (sign_map b !! SKProvider pk).
Proof.
  assert (Hall : UtxoBuilder.has_all_required_spend_signatures b = true ↔
    ∀ u conds, (u, conds) ∈ b_spend b → is_Some (sign_map b !! SKP256 u)).
  { unfold UtxoBuilder.has_all_required_spend_signatures. rewrite forallb_forall. split.
    - intros Hf u conds Hin%list_elem_of_In. specialize (Hf _ Hin). simpl in Hf.
      by apply bool_decide_eq_true in Hf.
    - intros Hf [u conds] Hin%list_elem_of_In. apply bool_decide_eq_true. eauto. }
  rewrite <- Hall, <- has_provider_true. unfold UtxoBuilder.build_signatures, asserts.
  destruct (UtxoBuilder.has_all_required_spend_signatures b),
    (UtxoBuilder.has_signature_for_provider b); simpl; naive_solver.
Qed.

(** The root invocation is authorized by the signatures of a complete builder. *)
Lemma root_invocation_authorized e b sigs :
  utxo_builder_ok b → (∀ u conds, (u, conds) ∈ b_spend b → conds ≠ []) →
  owners_signed e b → UtxoBuilder.build_signatures b = Ok sigs →
  context_authorized e sigs (Contract (inv_function (UtxoBuilder.get_root_invocation b))).
Proof.
  intros (Hnd & _ & _ & _ & Hk) Hne Hown (-> & Hall & _)%build_signatures_Ok.
  eexists. split; [done|]. simpl. unfold UtxoBuilder.get_contract_auth_args.
  case_decide as Hreq; [by left | right]. eexists _, []. split; [done|].
  pose proof (λ k cs, calculate_auth_requirements_correct (b_spend b) k cs Hnd) as Hr.
  unfold UtxoBuilder.builder_auth_requirements. split.
  - intros signer conds (u & -> & Hin)%Hr. by eapply Hne.
  - intros pk conds (u & [= <-] & Hin)%Hr. destruct (Hall _ _ Hin) as [[sg live] Hs].
    specialize (Hk _ _ Hs). simpl in Hk. destruct sg as [sig| | |]; try done.
    destruct (Hown _ _ _ _ Hin Hs) as (Hlive & h & Hh & Hv). exists sig, live.
    split_and!; [done | done |]. unfold UtxoBuilder.get_auth_hash_for_spend,
      UtxoBuilder.get_auth_payload_for_spend in Hh.
    rewrite (find_map_spend _ _ _ Hnd Hin) in Hh. cbn in Hh. by injection Hh as <-.
Qed.
End entry_lemmas.

(** ** Properties *)

(** C35. A complete bundle is authorized.  The entry the builder lays out names the council and the
    very invocation the channel's [process_bundle] asks it to authorize; and if each owner
    signed the hash the builder gave it and the provider the hash of the entry, none of them
    expired, the council's [__check_auth] accepts it, provided no spend has an empty list of
    conditions. *)
Theorem built_entry_is_authorized `{Ownable} `{!SdkLaws} `{!AuthPreimage} (ch au : Address)
    (calls : list UtxoBuilderCall) (b : UTXOOperationBuilder) (e : Env) (council : AuthState)
    (nonce expiration : Z) (entry : SorobanAuthorizationEntry Signatures)
    (Hbuilt : for_each calls utxo_builder_call (UtxoBuilder.generate ch au) = Ok (tt, b))
    (Hconds : ∀ u conds, (u, conds) ∈ b_spend b → conds ≠ [])
    (Hsize : Z.of_nat (length (map_keys (sign_map b))) ≤ u32_max)
    (Howners : owners_signed e b)
    (Hprovider : ∀ pk sig, sign_map b !! SKProvider pk = Some sig →
       provider_entry_valid e
         (UtxoBuilder.get_auth_entry_payload_hash_for_bundle b nonce expiration)
         (au_providers council) pk sig)
    (Hentry : UtxoBuilder.get_auth_entry b nonce expiration = Ok entry) :
  cred_address entry = auth_contract b ∧
  root_invocation entry =
    mkInvocation (mkContractContext _ (channel_contract b) "transact"
      (bundle_auth_args (mkInternalBundle _ (b_spend b).*1 (b_create b)
         (calculate_auth_requirements (b_spend b))))) [] ∧
  ∃ council', ChannelAuthContract.__check_auth e
    (UtxoBuilder.get_auth_entry_payload_hash_for_bundle b nonce expiration)
    (cred_signature entry) [Contract (inv_function (root_invocation entry))] council
    = Ok (tt, council').
Proof.
  apply utxo_built_ok in Hbuilt. unfold UtxoBuilder.get_auth_entry in Hentry.
  apply res_bind_Ok in Hentry as (sigs & Hsigs & [= <-]). simpl. split_and!; [done..|].
  pose proof (root_invocation_authorized _ _ _ Hbuilt Hconds Howners Hsigs) as Hctx.
  apply build_signatures_Ok in Hsigs as (-> & _ & Hpk).
  apply check_auth_run; [done..|]. by intros c ->%list_elem_of_singleton.
Qed.

(** C36. The signature map of a builder is well typed, whatever its client calls: a P256 key is
    only ever given a P256 signature, a provider and an Ed25519 key an Ed25519 one, and there is
    at most one provider.  So neither of the council's checks can answer
    [InvalidSignatureFormat] to it, on any context and in any state. *)
Theorem built_signatures_well_typed `{Ownable} (ch au : Address) (calls : list UtxoBuilderCall)
    (b : UTXOOperationBuilder)
    (Hbuilt : for_each calls utxo_builder_call (UtxoBuilder.generate ch au) = Ok (tt, b)) :
  (∀ signer sig live, sign_map b !! signer = Some (sig, live) →
     signature_fits signer sig = true) ∧
  (∀ pk pk', is_Some (sign_map b !! SKProvider pk) → is_Some (sign_map b !! SKProvider pk') →
     pk = pk') ∧
  (∀ e contexts, UtxoAuthorizable.handle_utxo_auth e (sign_map b) contexts
     ≠ Err (ContractError InvalidSignatureFormat)) ∧
  (∀ e payload providers, ProviderAuthorizable.require_provider e payload (sign_map b) providers
     ≠ Err (ContractError InvalidSignatureFormat)).
Proof.
  apply utxo_built_ok in Hbuilt as (_ & _ & _ & Hone & Hty). split_and!.
  - intros signer sig live Hs. exact (Hty _ _ Hs).
  - exact Hone.
  - intros e contexts. by apply handle_utxo_auth_typed.
  - intros e payload providers. by apply require_provider_typed.
Qed.
