(* ===== verification/ChannelOperationBuilder.v ===== *)
(** The builder of channel operations:
    contracts/privacy-channel/src/test/channel_operation_builder.rs.

    It extends the builder of utxo bundles with deposits and withdrawals, and lays out what a
    depositor authorizes.  The theorems compare it with the contract's own checks. *)
From S2P Require Import Prelude Errors Host Primitives Storage HostAuth UtxoCore Channel.
From S2P Require Import ChannelSpec Keys OperationBuilder.

Record ChannelOperationBuilder `{Sdk} := mkChannelOperationBuilder {
  utxo_builder : UTXOOperationBuilder;
  cb_deposit : list (Address * Z * list Condition);
  cb_withdraw : list (Address * Z * list Condition);
  cb_asset : Address;
  deposit_sign_map : gmap Address AccountEd25519Signature;
}.

Module ChannelBuilder.
Section builder.
Context `{ConditionXdr}.
Implicit Types b : ChannelOperationBuilder.

Definition with_utxo_builder u b : ChannelOperationBuilder :=
  mkChannelOperationBuilder _ u (cb_deposit b) (cb_withdraw b) (cb_asset b) (deposit_sign_map b).
Definition with_deposit d b : ChannelOperationBuilder :=
  mkChannelOperationBuilder _ (utxo_builder b) d (cb_withdraw b) (cb_asset b)
    (deposit_sign_map b).
Definition with_withdraw w b : ChannelOperationBuilder :=
  mkChannelOperationBuilder _ (utxo_builder b) (cb_deposit b) w (cb_asset b)
    (deposit_sign_map b).
Definition with_deposit_sign_map m b : ChannelOperationBuilder :=
  mkChannelOperationBuilder _ (utxo_builder b) (cb_deposit b) (cb_withdraw b) (cb_asset b) m.

(** [Deref]: the inner builder's operations on the outer one. *)
Definition deref_mut {A} (m : M UTXOOperationBuilder A) : M ChannelOperationBuilder A :=
  zoom utxo_builder with_utxo_builder m.

Definition generate (channel_contract auth_contract asset : Address) : ChannelOperationBuilder :=
  mkChannelOperationBuilder _ (UtxoBuilder.generate channel_contract auth_contract) [] [] asset ∅.

Definition get_deposit b : list (Address * Z * list Condition) := cb_deposit b.
Definition get_withdraw b : list (Address * Z * list Condition) := cb_withdraw b.

Definition add_deposit (address : Address) (amount : Z) (conditions : list Condition)
    : M ChannelOperationBuilder unit :=
  b ← get_state;
  lift (each (cb_deposit b) (λ '(existing_address, _, existing_conditions),
    (if bool_decide (existing_address = address)
     then panics "Deposit already included for address" else Ok tt) ;;
    asserts (has_no_conflicting_conditions_in_sets conditions existing_conditions)
      "New deposit conditions conflict with existing deposit conditions")) ;;
  lift (each (cb_withdraw b) (λ '(existing_address, _, existing_conditions),
    (if bool_decide (existing_address = address) then
       if negb (equal_condition_sequence existing_conditions conditions) then
         panics "Conditions don't match conditions for this address in the withdraw list"
       else Ok tt
     else Ok tt) ;;
    asserts (has_no_conflicting_conditions_in_sets conditions existing_conditions)
      "New deposit conditions conflict with existing withdraw conditions")) ;;
  put_state (with_deposit (cb_deposit b ++ [(address, amount, conditions)]) b).

Definition add_withdraw (address : Address) (amount : Z) (conditions : list Condition)
    : M ChannelOperationBuilder unit :=
  b ← get_state;
  lift (each (cb_withdraw b) (λ '(existing_address, _, existing_conditions),
    (if bool_decide (existing_address = address)
     then panics "Withdraw already included for address" else Ok tt) ;;
    asserts (has_no_conflicting_conditions_in_sets conditions existing_conditions)
      "New withdraw conditions conflict with existing withdraw conditions")) ;;
  lift (each (cb_deposit b) (λ '(existing_address, _, existing_conditions),
    (if bool_decide (existing_address = address) then
       if negb (equal_condition_sequence existing_conditions conditions) then
         panics "Conditions don't match conditions for this address in the deposit list"
       else Ok tt
     else Ok tt) ;;
    asserts (has_no_conflicting_conditions_in_sets conditions existing_conditions)
      "New withdraw conditions conflict with existing deposit conditions")) ;;
  put_state (with_withdraw (cb_withdraw b ++ [(address, amount, conditions)]) b).

Definition get_operation_bundle b : ChannelOperation :=
  mkChannelOperation _ (UtxoBuilder.get_spend (utxo_builder b))
    (UtxoBuilder.get_create (utxo_builder b)) (cb_deposit b) (cb_withdraw b).

Definition entry_conditions (address : Address) (entry : Address * Z * list Condition)
    : option (list Condition) :=
  let '(existing_address, _, conditions) := entry in
  if bool_decide (existing_address = address) then Some conditions else None.

Definition get_auth_payload_for_address b (address : Address) (live_until_ledger : Z)
    : res AuthPayload :=
  match find_map (entry_conditions address) (cb_deposit b) with
  | Some conditions => Ok (mkAuthPayload _ conditions live_until_ledger)
  | None =>
      match find_map (entry_conditions address) (cb_withdraw b) with
      | Some conditions => Ok (mkAuthPayload _ conditions live_until_ledger)
      | None => panics "Address not found in deposit or withdraw list"
      end
  end.

Definition get_auth_hash_for_address b (address : Address) (live_until_ledger : Z)
    : res (BytesN 32) :=
  payload ← get_auth_payload_for_address b address live_until_ledger;
  Ok (hash_payload payload (address_to_string (channel_contract (utxo_builder b)))).

Definition has_deposit_signature_for_address b (public_key : Address) : bool :=
  bool_decide (is_Some (deposit_sign_map b !! public_key)).

Definition get_deposit_signature b (public_key : Address) : res AccountEd25519Signature :=
  match deposit_sign_map b !! public_key with
  | Some signature => Ok signature
  | None => panics "No signature found for this depositor address"
  end.

Definition add_deposit_signature (public_key : Address) (signature : AccountEd25519Signature)
    : M ChannelOperationBuilder unit :=
  b ← get_state;
  lift (asserts (negb (has_deposit_signature_for_address b public_key))
    "Signature for this depositor address already added") ;;
  put_state (with_deposit_sign_map (<[public_key := signature]> (deposit_sign_map b)) b).

Definition get_contract_deposit_auth_args b (depositor : Address)
    : res (list Val * list Val) :=
  match find_map (λ '(addr, amt, conds),
          if bool_decide (addr = depositor) then Some (conds, amt) else None) (cb_deposit b) with
  | None => panics "Depositor address not found in deposit list"
  | Some (deposit_conditions, amount) =>
      let root_args :=
        match deposit_conditions with [] => [] | _ => [VConditions deposit_conditions] end in
      let sub_args :=
        [VAddress depositor; VAddress (channel_contract (utxo_builder b)); VI128 amount] in
      Ok (root_args, sub_args)
  end.

Definition get_deposit_root_invocation b (depositor : Address)
    : res SorobanAuthorizedInvocation :=
  '(root_args, sub_args) ← get_contract_deposit_auth_args b depositor;
  Ok (mkInvocation
        (mkContractContext _ (channel_contract (utxo_builder b)) "transact" root_args)
        [mkInvocation (mkContractContext _ (cb_asset b) "transfer" sub_args) []]).

Context `{!AuthPreimage}.

Definition get_auth_entry_payload_hash_for_deposit b (depositor : Address)
    (nonce signature_expiration_ledger : Z) : res (BytesN 32) :=
  invocation ← get_deposit_root_invocation b depositor;
  Ok (sha256 (preimage_to_xdr network_id nonce signature_expiration_ledger invocation)).

Definition get_auth_entry_for_deposit b (depositor : Address)
    (nonce signature_expiration_ledger : Z)
    : res (SorobanAuthorizationEntry (list AccountEd25519Signature)) :=
  signature ← get_deposit_signature b depositor;
  root_invocation ← get_deposit_root_invocation b depositor;
  Ok (mkAuthorizationEntry depositor nonce signature_expiration_ledger [signature]
        root_invocation).
End builder.
End ChannelBuilder.

(** ** Builders a client can hold *)

Inductive ChannelBuilderCall `{Sdk} :=
  | CbUtxo (c : UtxoBuilderCall)
  | CbAddDeposit (address : Address) (amount : Z) (conditions : list Condition)
  | CbAddWithdraw (address : Address) (amount : Z) (conditions : list Condition)
  | CbAddDepositSignature (address : Address) (signature : AccountEd25519Signature).

Definition channel_builder_call `{ConditionXdr} (c : ChannelBuilderCall)
    : M ChannelOperationBuilder unit :=
  match c with
  | CbUtxo c => ChannelBuilder.deref_mut (utxo_builder_call c)
  | CbAddDeposit a z cs => ChannelBuilder.add_deposit a z cs
  | CbAddWithdraw a z cs => ChannelBuilder.add_withdraw a z cs
  | CbAddDepositSignature a sig => ChannelBuilder.add_deposit_signature a sig
  end.

(** What a builder has made sure of. *)
Section invariants.
Context `{Sdk}.

Definition channel_builder_ok (b : ChannelOperationBuilder) : Prop :=
  NoDup (((cb_deposit b).*1).*1) ∧ NoDup (((cb_withdraw b).*1).*1) ∧
  sets_apart ((cb_deposit b).*2 ++ (cb_withdraw b).*2) ∧
  ∀ d w, d ∈ cb_deposit b → w ∈ cb_withdraw b → d.1.1 = w.1.1 → d.2 = w.2.
End invariants.

(** ** Lemmas *)

Section channel_builder_lemmas.
Context `{ConditionXdrLaws}.
Implicit Types (b : ChannelOperationBuilder) (cs ds : list Condition).

(** The two scans that [add_deposit] and [add_withdraw] share, over the list the entry joins
    and over the other one. *)
Lemma same_side_scan (l : list (Address * Z * list Condition)) a cs m1 m2 :
  each l (λ '(existing_address, _, existing_conditions),
    (if bool_decide (existing_address = a) then panics m1 else Ok tt) ;;
    asserts (has_no_conflicting_conditions_in_sets cs existing_conditions) m2) = Ok tt →
  (a ∉ (l.*1).*1) ∧ ∀ ds, ds ∈ l.*2 → sets_compatible cs ds.
Proof.
  rewrite each_Ok. intros He. split.
  - intros ([a' z] & -> & ([[a2 z2] ds] & [= -> ->] & Hin)%list_elem_of_fmap)%list_elem_of_fmap.
    specialize (He _ Hin). simpl in He. by rewrite bool_decide_eq_true_2 in He.
  - intros ds ([[a2 z2] ds'] & -> & Hin)%list_elem_of_fmap. specialize (He _ Hin). simpl in He.
    case_bool_decide; [done|]. by apply asserts_Ok, compatible_check in He.
Qed.

Lemma other_side_scan (l : list (Address * Z * list Condition)) a cs m1 m2 :
  each l (λ '(existing_address, _, existing_conditions),
    (if bool_decide (existing_address = a) then
       if negb (equal_condition_sequence existing_conditions cs) then panics m1 else Ok tt
     else Ok tt) ;;
    asserts (has_no_conflicting_conditions_in_sets cs existing_conditions) m2) = Ok tt →
  (∀ w, w ∈ l → w.1.1 = a → w.2 = cs) ∧ ∀ ds, ds ∈ l.*2 → sets_compatible cs ds.
Proof.
  rewrite each_Ok. intros He. split.
  - intros [[a2 z2] ds] Hin. simpl. intros ->. specialize (He _ Hin). simpl in He.
    rewrite bool_decide_eq_true_2 in He by done.
    destruct (equal_condition_sequence ds cs) eqn:Eq; [|done].
    by apply equal_condition_sequence_true in Eq.
  - intros ds ([[a2 z2] ds'] & -> & Hin)%list_elem_of_fmap. specialize (He _ Hin). simpl in He.
    apply res_bind_Ok in He as (v & _ & He). by apply asserts_Ok, compatible_check in He.
Qed.

Lemma add_deposit_Ok a z cs b v b' :
  ChannelBuilder.add_deposit a z cs b = Ok (v, b') →
  b' = ChannelBuilder.with_deposit (cb_deposit b ++ [(a, z, cs)]) b ∧
  (a ∉ ((cb_deposit b).*1).*1) ∧ (∀ w, w ∈ cb_withdraw b → w.1.1 = a → w.2 = cs) ∧
  ∀ ds, ds ∈ (cb_deposit b).*2 ++ (cb_withdraw b).*2 → sets_compatible cs ds.
Proof.
  unfold ChannelBuilder.add_deposit. intros Hr. inv_M.
  repeat match goal with u : unit |- _ => destruct u end.
  rename select (each (cb_deposit _) _ = _) into Hsame. rename select (each (cb_withdraw _) _ = _) into Hother.
  apply same_side_scan in Hsame as [Ha Hsame]. apply other_side_scan in Hother as [Hw Hother].
  split_and!; [done | done | done | set_solver].
Qed.

Lemma add_withdraw_Ok a z cs b v b' :
  ChannelBuilder.add_withdraw a z cs b = Ok (v, b') →
  b' = ChannelBuilder.with_withdraw (cb_withdraw b ++ [(a, z, cs)]) b ∧
  (a ∉ ((cb_withdraw b).*1).*1) ∧ (∀ w, w ∈ cb_deposit b → w.1.1 = a → w.2 = cs) ∧
  ∀ ds, ds ∈ (cb_deposit b).*2 ++ (cb_withdraw b).*2 → sets_compatible cs ds.
Proof.
  unfold ChannelBuilder.add_withdraw. intros Hr. inv_M.
  repeat match goal with u : unit |- _ => destruct u end.
  rename select (each (cb_deposit _) _ = _) into Hother. rename select (each (cb_withdraw _) _ = _) into Hsame.
  apply same_side_scan in Hsame as [Ha Hsame]. apply other_side_scan in Hother as [Hw Hother].
  split_and!; [done | done | done | set_solver].
Qed.

Lemma channel_builder_call_ok c b v b' :
  channel_builder_call c b = Ok (v, b') →
  utxo_builder_ok (utxo_builder b) ∧ channel_builder_ok b →
  utxo_builder_ok (utxo_builder b') ∧ channel_builder_ok b'.
Proof.
  intros Hc [Hu Hb]. destruct c as [c|a z cs|a z cs|a sig]; simpl in Hc.
  - apply zoom_Ok in Hc as (u & Hc & ->). split; [by eapply utxo_builder_call_ok | done].
  - apply add_deposit_Ok in Hc as (-> & Ha & Hw & Hcs). split; [done|].
    destruct Hb as (Hd & Hwd & Hap & Heq). unfold channel_builder_ok. simpl. rewrite !fmap_app. simpl.
    split_and!; [by apply NoDup_snoc | done | by apply sets_apart_middle |].
    intros d w [Hin| ->%list_elem_of_singleton]%elem_of_app Hin' E; [by apply Heq|].
    symmetry. by apply Hw.
  - apply add_withdraw_Ok in Hc as (-> & Ha & Hw & Hcs). split; [done|].
    destruct Hb as (Hd & Hwd & Hap & Heq). unfold channel_builder_ok. simpl. rewrite !fmap_app. simpl.
    split_and!; [done | by apply NoDup_snoc | by rewrite app_assoc; apply sets_apart_snoc |].
    intros d w Hin [Hin'| ->%list_elem_of_singleton]%elem_of_app E; [by apply Heq|].
    by apply Hw.
  - unfold ChannelBuilder.add_deposit_signature in Hc. by inv_M.
Qed.

Lemma channel_built_ok ch au asset calls b :
  for_each calls channel_builder_call (ChannelBuilder.generate ch au asset) = Ok (tt, b) →
  utxo_builder_ok (utxo_builder b) ∧ channel_builder_ok b.
Proof.
  intros Hr. eapply (for_each_invariant
    (λ b, utxo_builder_ok (utxo_builder b) ∧ channel_builder_ok b)); [| |exact Hr].
  - intros c s v s' _ Hok Hc. by eapply channel_builder_call_ok.
  - split; repeat split; try apply NoDup_nil_2; simpl.
    + intros pk pk' [entry Hpk]. by rewrite lookup_empty in Hpk.
    + intros u entry. by rewrite lookup_empty.
    + intros d w Hd. by apply elem_of_nil in Hd.
Qed.

Lemma find_map_deposit (l : list (Address * Z * list Condition)) a z cs :
  NoDup ((l.*1).*1) → (a, z, cs) ∈ l →
  find_map (λ '(addr, amt, conds),
    if bool_decide (addr = a) then Some (conds, amt) else None) l = Some (cs, z).
Proof.
  induction l as [|[[a2 z2] ds] l IH]; simpl; [set_solver|].
  rewrite NoDup_cons. intros [Hn Hnd] [[= <- <- <-]|Hin]%elem_of_cons.
  - by rewrite bool_decide_eq_true_2.
  - case_bool_decide as Ha; [|by apply IH]. subst. destruct Hn.
    apply list_elem_of_fmap. exists (a, z). split; [done|].
    apply list_elem_of_fmap. by exists (a, z, cs).
Qed.
End channel_builder_lemmas.

(** ** Properties *)

(** C38. What the builders assemble passes the contract's structural checks: whatever calls made
    it, the bundle has distinct spends and distinct creates, no address deposits or withdraws
    twice, an address that does both does so under the same conditions, and the conditions of
    two different spends, or of two different external entries, do not conflict. *)
Theorem channel_builder_bundle_well_formed `{ConditionXdrLaws} (ch au asset : Address)
    (calls : list ChannelBuilderCall) (b : ChannelOperationBuilder)
    (Hbuilt : for_each calls channel_builder_call (ChannelBuilder.generate ch au asset)
              = Ok (tt, b)) :
  let op := ChannelBuilder.get_operation_bundle b in
  verify_external_operations (op_deposit op) (op_withdraw op) = Ok tt ∧
  no_duplicate_keys (fst <$> op_spend op) (λ u, u) = true ∧
  no_duplicate_keys (op_create op) fst = true ∧
  sets_apart (snd <$> op_spend op) ∧
  sets_apart ((snd <$> op_deposit op) ++ (snd <$> op_withdraw op)).
Proof.
  apply channel_built_ok in Hbuilt as [(Hs & Hc & Hsap & _) (Hd & Hw & Hap & Heq)].
  simpl. split_and!; [| | |done|done].
  - apply verify_external_Ok. split_and!; [done|done|]. intros a x y cs ds Hin Hin'.
    by apply (Heq _ _ Hin Hin').
  - by apply no_duplicates_true; rewrite list_fmap_id.
  - by apply no_duplicates_true.
Qed.

(** C37. The depositor's entry: for every deposit of a built bundle the builder lays out the
    depositor's authorization of the channel's [transact] with, below it, the transfer the
    channel makes, from the depositor to the channel for the amount.  The root is what
    [deposit_step] asks the depositor to authorize exactly when the deposit has conditions:
    with none the builder passes no argument where the contract passes the empty list, so a
    host that lets only the builder's invocation pass refuses the deposit. *)
Theorem deposit_entry_matches_contract `{Ownable} `{!ConditionXdr} `{!ConditionXdrLaws} {X}
    `{!HostAuth X} `{!Asset X} (ch au asset : Address) (calls : list ChannelBuilderCall)
    (b : ChannelOperationBuilder) (depositor : Address) (amount : Z) (conds : list Condition)
    (callee : ChannelCall → M (ChannelState * X) ChannelRet) (e : Env) (s : ChannelState) (x : X)
    (Hbuilt : for_each calls channel_builder_call (ChannelBuilder.generate ch au asset)
              = Ok (tt, b))
    (Hin : (depositor, amount, conds) ∈ cb_deposit b)
    (Hframe : current_contract_address e = channel_contract (utxo_builder b) ∧
              invoked_function e = "transact") :
  ∃ inv, ChannelBuilder.get_deposit_root_invocation b depositor = Ok inv ∧
    inv_subs inv = [mkInvocation (mkContractContext _ (cb_asset b) "transfer"
      [VAddress depositor; VAddress (channel_contract (utxo_builder b)); VI128 amount]) []] ∧
    (conds ≠ [] →
       PrivacyChannelContract.deposit_step callee e (cb_asset b) (depositor, amount, conds) (s, x)
       = match require_auth_for depositor (inv_function inv) x with
         | Ok x' => (PrivacyChannelContract.transfer callee e (cb_asset b) depositor
                       (channel_contract (utxo_builder b)) amount ;;
                     on_fst (increase_supply amount)) (s, x')
         | Err f => Err f
         end) ∧
    (conds = [] →
       (∀ cc, cc ≠ inv_function inv → require_auth_for depositor cc x = Err (Trap AuthError)) →
       PrivacyChannelContract.deposit_step callee e (cb_asset b) (depositor, amount, conds) (s, x)
       = Err (Trap AuthError)).
Proof.
  apply channel_built_ok in Hbuilt as [_ (Hd & _)]. destruct Hframe as [Hself Hfn].
  unfold ChannelBuilder.get_deposit_root_invocation, ChannelBuilder.get_contract_deposit_auth_args.
  rewrite (find_map_deposit _ _ _ _ Hd Hin). eexists. split; [done|]. split; [done|].
  unfold PrivacyChannelContract.deposit_step, require_auth_for_args. rewrite Hself, Hfn. split.
  - intros Hne. destruct conds as [|c conds]; [done|].
    unfold mbind at 1, M_bind at 1, on_snd at 1, zoom at 1. cbn [fst snd inv_function].
    by destruct (require_auth_for depositor _ x).
  - intros -> Hrefuse. unfold mbind at 1, M_bind at 1, on_snd at 1, zoom at 1.
    cbn [fst snd inv_function] in *. by rewrite Hrefuse.
Qed.
