(* ===== verification/Token.v ===== *)
(** The test token: contracts/token/src/{storage_types,admin,allowance,balance,metadata,
    contract}.rs.

    The three stores of the contract are the fields of [TokenState]; the entry points run over
    [TokenState * X], asking for authorization in the outside state. *)
From S2P Require Import Prelude Errors Host Keeps Primitives HostAuth.

Record AllowanceDataKey `{Sdk} := mkAllowanceDataKey { ak_from : Address; ak_spender : Address }.

Record AllowanceValue := mkAllowanceValue { amount : Z; expiration_ledger : Z }.

Inductive DataKey `{Sdk} :=
  | Allowance (k : AllowanceDataKey)
  | Balance (a : Address)
  | State (a : Address)
  | Admin.

#[export] Instance AllowanceDataKey_eq_dec `{Sdk} : EqDecision AllowanceDataKey.
Proof. solve_decision. Defined.
#[export] Instance DataKey_eq_dec `{Sdk} : EqDecision DataKey.
Proof. solve_decision. Defined.

Definition datakey_code `{Sdk} (k : DataKey) : (Address * Address) + Address + Address + unit :=
  match k with
  | Allowance k => inl (inl (inl (ak_from k, ak_spender k)))
  | Balance a => inl (inl (inr a))
  | State a => inl (inr a)
  | Admin => inr tt
  end.
Definition datakey_decode `{Sdk} (c : (Address * Address) + Address + Address + unit) : DataKey :=
  match c with
  | inl (inl (inl (f, s))) => Allowance (mkAllowanceDataKey _ f s)
  | inl (inl (inr a)) => Balance a
  | inl (inr a) => State a
  | inr _ => Admin
  end.
Lemma datakey_decode_code `{Sdk} (k : DataKey) : datakey_decode (datakey_code k) = k.
Proof. by destruct k as [[]| | |]. Qed.
#[export] Instance DataKey_countable `{Sdk} : Countable DataKey :=
  inj_countable' datakey_code datakey_decode datakey_decode_code.

Record TokenMetadata := mkTokenMetadata { decimal : Z; name : string; symbol : string }.

(** What the contract uses of soroban_token_sdk, and of the SDK's muxed addresses. *)
Class TokenSdk `{Sdk} := {
  MetaState : Type;
  meta_init : MetaState;
  get_metadata : MetaState → option TokenMetadata;
  set_metadata : TokenMetadata → MetaState → MetaState;
  MuxedAddress : Type;
  muxed_address : MuxedAddress → Address;
  muxed_id : MuxedAddress → option Z;
  muxed_val : MuxedAddress → Val;
  (** The muxed form of an address that is not multiplexed. *)
  muxed_from : Address → MuxedAddress;
}.

(** The metadata read are those last written; an address is its own muxed form. *)
Class TokenSdkLaws `{TokenSdk} : Prop := {
  get_set_metadata m st : get_metadata (set_metadata m st) = Some m;
  muxed_from_address a : muxed_address (muxed_from a) = a;
  muxed_from_val a : muxed_val (muxed_from a) = VAddress a;
}.

Inductive TokenEvent `{Sdk} :=
  | EvSetAdmin (admin new_admin : Address)
  | EvApprove (from spender : Address) (amount expiration_ledger : Z)
  | EvTransfer (from to : Address) (to_muxed_id : option Z) (amount : Z)
  | EvBurn (from : Address) (amount : Z).

Record TokenState `{TokenSdk} := mkTokenState {
  tk_admin : option Address;                        (* instance, DataKey::Admin *)
  tk_meta : MetaState;                              (* instance, soroban_token_sdk *)
  tk_live_until : Z;
  tk_persistent : gmap DataKey (Entry Z);           (* DataKey::Balance *)
  tk_temporary : gmap DataKey (Entry AllowanceValue); (* DataKey::Allowance *)
  tk_events : list TokenEvent;
}.

Section setters.
Context `{TokenSdk}.
Implicit Types t : TokenState.
Definition set_tk_admin (a : option Address) t : TokenState :=
  mkTokenState _ _ a (tk_meta t) (tk_live_until t) (tk_persistent t) (tk_temporary t)
    (tk_events t).
Definition set_tk_meta (m : MetaState) t : TokenState :=
  mkTokenState _ _ (tk_admin t) m (tk_live_until t) (tk_persistent t) (tk_temporary t)
    (tk_events t).
Definition set_tk_live_until (l : Z) t : TokenState :=
  mkTokenState _ _ (tk_admin t) (tk_meta t) l (tk_persistent t) (tk_temporary t)
    (tk_events t).
Definition set_tk_persistent (p : gmap DataKey (Entry Z)) t : TokenState :=
  mkTokenState _ _ (tk_admin t) (tk_meta t) (tk_live_until t) p (tk_temporary t)
    (tk_events t).
Definition set_tk_temporary (p : gmap DataKey (Entry AllowanceValue)) t : TokenState :=
  mkTokenState _ _ (tk_admin t) (tk_meta t) (tk_live_until t) (tk_persistent t) p
    (tk_events t).
Definition set_tk_events (evs : list TokenEvent) t : TokenState :=
  mkTokenState _ _ (tk_admin t) (tk_meta t) (tk_live_until t) (tk_persistent t)
    (tk_temporary t) evs.
End setters.

Module TestToken.
Section token.
Context `{TokenSdk} {X : Type} `{!HostAuth X}.
Implicit Types (e : Env) (t : TokenState).

(** storage_types.rs *)
Definition DAY_IN_LEDGERS : Z := 17280.
Definition INSTANCE_BUMP_AMOUNT : Z := 7 * DAY_IN_LEDGERS.
Definition INSTANCE_LIFETIME_THRESHOLD : Z := INSTANCE_BUMP_AMOUNT - DAY_IN_LEDGERS.
Definition BALANCE_BUMP_AMOUNT : Z := 30 * DAY_IN_LEDGERS.
Definition BALANCE_LIFETIME_THRESHOLD : Z := BALANCE_BUMP_AMOUNT - DAY_IN_LEDGERS.

(** admin.rs *)
Definition read_administrator : M TokenState Address :=
  t ← get_state; lift (unwrap (tk_admin t)).
Definition write_administrator (id : Address) : M TokenState unit :=
  modify (set_tk_admin (Some id)).

(** metadata.rs; [get_metadata] traps when there are none. *)
Definition read_metadata : M TokenState TokenMetadata :=
  t ← get_state; lift (unwrap (get_metadata (tk_meta t))).
Definition read_decimal : M TokenState Z := m ← read_metadata; mret (decimal m).
Definition read_name : M TokenState string := m ← read_metadata; mret (name m).
Definition read_symbol : M TokenState string := m ← read_metadata; mret (symbol m).
Definition write_metadata (metadata : TokenMetadata) : M TokenState unit :=
  modify (λ t, set_tk_meta (set_metadata metadata (tk_meta t)) t).

(** balance.rs *)
Definition extend_balance e (key : DataKey) : M TokenState unit :=
  t ← get_state;
  p ← lift (extend_ttl e Persistent key BALANCE_LIFETIME_THRESHOLD BALANCE_BUMP_AMOUNT
              (tk_persistent t));
  put_state (set_tk_persistent p t).

Definition read_balance e (addr : Address) : M TokenState Z :=
  let key := Balance addr in
  t ← get_state;
  match persistent_get key (tk_persistent t) with
  | Some balance => extend_balance e key ;; mret balance
  | None => mret 0
  end.

Definition write_balance e (addr : Address) (amount : Z) : M TokenState unit :=
  let key := Balance addr in
  modify (λ t, set_tk_persistent (persistent_set e key amount (tk_persistent t)) t) ;;
  extend_balance e key.

Definition receive_balance e (addr : Address) (amount : Z) : M TokenState unit :=
  balance ← read_balance e addr;
  total ← lift (add_i128 balance amount);
  write_balance e addr total.

Definition spend_balance e (addr : Address) (amount : Z) : M TokenState unit :=
  balance ← read_balance e addr;
  (if balance <? amount then fail_with (Trap (Panic "insufficient balance")) else mret tt) ;;
  rest ← lift (sub_i128 balance amount);
  write_balance e addr rest.

(** allowance.rs *)
Definition read_allowance e (from spender : Address) : M TokenState AllowanceValue :=
  let key := Allowance (mkAllowanceDataKey _ from spender) in
  t ← get_state;
  mret (match temporary_get e key (tk_temporary t) with
        | Some allowance =>
            if expiration_ledger allowance <? ledger_sequence e
            then mkAllowanceValue 0 (expiration_ledger allowance) else allowance
        | None => mkAllowanceValue 0 0
        end).

Definition write_allowance e (from spender : Address) (amount expiration_ledger : Z)
    : M TokenState unit :=
  let allowance := mkAllowanceValue amount expiration_ledger in
  (if (amount >? 0) && (expiration_ledger <? ledger_sequence e)
   then fail_with (Trap (Panic "expiration_ledger is less than ledger seq when amount > 0"))
   else mret tt) ;;
  let key := Allowance (mkAllowanceDataKey _ from spender) in
  modify (λ t, set_tk_temporary (temporary_set e key allowance (tk_temporary t)) t) ;;
  if amount >? 0 then
    live_for ← lift (unwrap (checked_sub_u32 expiration_ledger (ledger_sequence e)));
    t ← get_state;
    p ← lift (extend_ttl e Temporary key live_for live_for (tk_temporary t));
    put_state (set_tk_temporary p t)
  else mret tt.

Definition spend_allowance e (from spender : Address) (amt : Z) : M TokenState unit :=
  allowance ← read_allowance e from spender;
  (if amount allowance <? amt then fail_with (Trap (Panic "insufficient allowance"))
   else mret tt) ;;
  if amt >? 0 then
    rest ← lift (sub_i128 (amount allowance) amt);
    write_allowance e from spender rest (expiration_ledger allowance)
  else mret tt.

(** contract.rs *)
Definition check_nonnegative_amount (amount : Z) : M TokenState unit :=
  if amount <? 0 then fail_with (Trap (Panic "negative amount is not allowed")) else mret tt.

Definition bump_instance e : M TokenState unit :=
  t ← get_state;
  live ← lift (extend_instance_ttl e INSTANCE_LIFETIME_THRESHOLD INSTANCE_BUMP_AMOUNT
                 (tk_live_until t));
  put_state (set_tk_live_until live t).

Definition publish (ev : TokenEvent) : M TokenState unit :=
  modify (λ t, set_tk_events (tk_events t ++ [ev]) t).

(** [addr.require_auth()] in the call with these arguments. *)
Definition require_auth e (args : list Val) (addr : Address) : M (TokenState * X) unit :=
  on_snd (require_auth_for_args e addr args).

Definition __constructor (admin : Address) (decimal : Z) (name symbol : string)
    : M TokenState unit :=
  (if decimal >? 18 then fail_with (Trap (Panic "Decimal must not be greater than 18"))
   else mret tt) ;;
  write_administrator admin ;;
  write_metadata (mkTokenMetadata decimal name symbol).

Definition mint e (to : Address) (amount : Z) : M (TokenState * X) unit :=
  on_fst (check_nonnegative_amount amount) ;;
  admin ← on_fst read_administrator;
  require_auth e [VAddress to; VI128 amount] admin ;;
  on_fst (bump_instance e) ;;
  on_fst (receive_balance e to amount).

Definition set_admin e (new_admin : Address) : M (TokenState * X) unit :=
  admin ← on_fst read_administrator;
  require_auth e [VAddress new_admin] admin ;;
  on_fst (bump_instance e) ;;
  on_fst (write_administrator new_admin) ;;
  on_fst (publish (EvSetAdmin admin new_admin)).

Definition allowance e (from spender : Address) : M TokenState Z :=
  bump_instance e ;;
  a ← read_allowance e from spender;
  mret (amount a).

Definition approve e (from spender : Address) (amount expiration_ledger : Z)
    : M (TokenState * X) unit :=
  require_auth e [VAddress from; VAddress spender; VI128 amount; VU32 expiration_ledger] from ;;
  on_fst (check_nonnegative_amount amount) ;;
  on_fst (bump_instance e) ;;
  on_fst (write_allowance e from spender amount expiration_ledger) ;;
  on_fst (publish (EvApprove from spender amount expiration_ledger)).

Definition balance e (id : Address) : M TokenState Z :=
  bump_instance e ;; read_balance e id.

Definition transfer e (from : Address) (to_muxed : MuxedAddress) (amount : Z)
    : M (TokenState * X) unit :=
  require_auth e [VAddress from; muxed_val to_muxed; VI128 amount] from ;;
  on_fst (check_nonnegative_amount amount) ;;
  on_fst (bump_instance e) ;;
  on_fst (spend_balance e from amount) ;;
  let to := muxed_address to_muxed in
  on_fst (receive_balance e to amount) ;;
  on_fst (publish (EvTransfer from to (muxed_id to_muxed) amount)).

Definition transfer_from e (spender from to : Address) (amount : Z) : M (TokenState * X) unit :=
  require_auth e [VAddress spender; VAddress from; VAddress to; VI128 amount] spender ;;
  on_fst (check_nonnegative_amount amount) ;;
  on_fst (bump_instance e) ;;
  on_fst (spend_allowance e from spender amount) ;;
  on_fst (spend_balance e from amount) ;;
  on_fst (receive_balance e to amount) ;;
  on_fst (publish (EvTransfer from to None amount)).

Definition burn e (from : Address) (amount : Z) : M (TokenState * X) unit :=
  require_auth e [VAddress from; VI128 amount] from ;;
  on_fst (check_nonnegative_amount amount) ;;
  on_fst (bump_instance e) ;;
  on_fst (spend_balance e from amount) ;;
  on_fst (publish (EvBurn from amount)).

Definition burn_from e (spender from : Address) (amount : Z) : M (TokenState * X) unit :=
  require_auth e [VAddress spender; VAddress from; VI128 amount] spender ;;
  on_fst (check_nonnegative_amount amount) ;;
  on_fst (bump_instance e) ;;
  on_fst (spend_allowance e from spender amount) ;;
  on_fst (spend_balance e from amount) ;;
  on_fst (publish (EvBurn from amount)).

Definition decimals : M TokenState Z := read_decimal.
Definition name : M TokenState string := read_name.
Definition symbol : M TokenState string := read_symbol.
End token.
End TestToken.

(** ** Meaning *)

Section meaning.
Context `{TokenSdk}.
Implicit Types (e : Env) (t : TokenState) (a : Address).

Definition balance_of t a : Z := default 0 (persistent_get (Balance a) (tk_persistent t)).

(** Everything held by anyone. *)
Definition total_balance t : Z := map_sumZ entry_value (tk_persistent t).

(** What [spender] may still take from [from] at this ledger. *)
Definition allowance_of e t (from spender : Address) : Z :=
  match temporary_get e (Allowance (mkAllowanceDataKey _ from spender)) (tk_temporary t) with
  | Some v => if expiration_ledger v <? ledger_sequence e then 0 else amount v
  | None => 0
  end.

(** Only balances are stored, all of them non-negative [i128]s. *)
Definition token_wf t : Prop :=
  map_Forall (λ k en, (∃ a, k = Balance a) ∧ 0 ≤ entry_value en ≤ i128_max)
    (tk_persistent t).

(** The state with the balance of [a] changed by [z]; the rest, lives apart, is the same. *)
Definition moved (a : Address) (z : Z) t t' : Prop :=
  (∀ b, balance_of t' b = balance_of t b + (if decide (b = a) then z else 0)) ∧
  total_balance t' = total_balance t + z ∧
  (token_wf t → 0 ≤ balance_of t a + z ≤ i128_max → token_wf t') ∧
  tk_admin t' = tk_admin t ∧ tk_meta t' = tk_meta t ∧ tk_temporary t' = tk_temporary t ∧
  tk_events t' = tk_events t.
End meaning.

(** ** Calls from outside *)

Inductive TokenCall `{TokenSdk} :=
  | TcMint (to : Address) (amount : Z)
  | TcSetAdmin (new_admin : Address)
  | TcAllowance (from spender : Address)
  | TcApprove (from spender : Address) (amount expiration_ledger : Z)
  | TcBalance (id : Address)
  | TcTransfer (from : Address) (to_muxed : MuxedAddress) (amount : Z)
  | TcTransferFrom (spender from to : Address) (amount : Z)
  | TcBurn (from : Address) (amount : Z)
  | TcBurnFrom (spender from : Address) (amount : Z).

Section calls.
Context `{TokenSdk} {X : Type} `{!HostAuth X}.
Import TestToken.

(** The call, in the frame the host opens for it; what a query returns is dropped. *)
Definition token_call (e : Env) (c : TokenCall) : M (TokenState * X) unit :=
  match c with
  | TcMint to z => mint e to z
  | TcSetAdmin a => set_admin e a
  | TcAllowance f s => on_fst (allowance e f s ;; mret tt)
  | TcApprove f s z l => approve e f s z l
  | TcBalance a => on_fst (balance e a ;; mret tt)
  | TcTransfer f m z => transfer e f m z
  | TcTransferFrom s f a z => transfer_from e s f a z
  | TcBurn f z => burn e f z
  | TcBurnFrom s f z => burn_from e s f z
  end.

Definition credit (a : Address) (z : Z) (b : Address) : Z := if decide (b = a) then z else 0.

(** What a call adds to each balance, and to their sum. *)
Definition call_delta (c : TokenCall) (b : Address) : Z :=
  match c with
  | TcMint to z => credit to z b
  | TcTransfer f m z => credit (muxed_address m) z b - credit f z b
  | TcTransferFrom _ f a z => credit a z b - credit f z b
  | TcBurn f z | TcBurnFrom _ f z => - credit f z b
  | _ => 0
  end.
Definition call_total (c : TokenCall) : Z :=
  match c with
  | TcMint _ z => z
  | TcBurn _ z | TcBurnFrom _ _ z => - z
  | _ => 0
  end.

(** Who must authorize a call, by the state it is made in, and the arguments it must name. *)
Definition call_signer (t : TokenState) (c : TokenCall) : option (Address * list Val) :=
  match c with
  | TcMint to z => a ← tk_admin t; Some (a, [VAddress to; VI128 z])
  | TcSetAdmin n => a ← tk_admin t; Some (a, [VAddress n])
  | TcApprove f s z l => Some (f, [VAddress f; VAddress s; VI128 z; VU32 l])
  | TcTransfer f m z => Some (f, [VAddress f; muxed_val m; VI128 z])
  | TcTransferFrom s f a z => Some (s, [VAddress s; VAddress f; VAddress a; VI128 z])
  | TcBurn f z => Some (f, [VAddress f; VI128 z])
  | TcBurnFrom s f z => Some (s, [VAddress s; VAddress f; VI128 z])
  | TcAllowance _ _ | TcBalance _ => None
  end.

(** The allowance a call draws on: owner, spender and amount. *)
Definition call_draws (c : TokenCall) : option (Address * Address * Z) :=
  match c with
  | TcTransferFrom s f _ z | TcBurnFrom s f z => Some (f, s, z)
  | _ => None
  end.
End calls.

(** ** Lemmas *)

Section token_lemmas.
Context `{TokenSdk} `{!SdkLaws}.
Implicit Types (e : Env) (t : TokenState) (a b : Address).
Import TestToken.

Lemma wf_balance_range t a : token_wf t → 0 ≤ balance_of t a ≤ i128_max.
Proof.
  intros Hwf. unfold balance_of, persistent_get.
  destruct (tk_persistent t !! Balance a) as [en|] eqn:E; simpl; [by destruct (Hwf _ _ E)|].
  unfold i128_max. lia.
Qed.

Lemma moved_zero a t t' :
  (∀ k, persistent_get k (tk_persistent t') = persistent_get k (tk_persistent t)) →
  total_balance t' = total_balance t → (token_wf t → token_wf t') →
  tk_admin t' = tk_admin t → tk_meta t' = tk_meta t → tk_temporary t' = tk_temporary t →
  tk_events t' = tk_events t → moved a 0 t t'.
Proof.
  intros Hp Ht Hwf ? ? ? ?. unfold moved, balance_of. split_and!; try done; [|lia|auto].
  intros b. rewrite Hp. case_decide; lia.
Qed.

Lemma moved_refl a t : moved a 0 t t.
Proof. by apply moved_zero. Qed.

Lemma moved_trans a z t1 t2 t3 :
  moved a 0 t1 t2 → moved a z t2 t3 → moved a z t1 t3.
Proof.
  intros (Hb & Ht & Hw & ? & ? & ? & ?) (Hb' & Ht' & Hw' & ? & ? & ? & ?).
  split_and!; try congruence; [| lia |].
  - intros b. rewrite Hb', Hb. case_decide; lia.
  - intros Hwf Hz. specialize (Hb a). rewrite decide_True in Hb by done.
    apply Hw'; [apply Hw; [done|] | rewrite Hb; lia].
    rewrite Z.add_0_r. by apply wf_balance_range.
Qed.

Lemma bump_instance_run e t : ∃ live, bump_instance e t = Ok (tt, set_tk_live_until live t).
Proof.
  unfold bump_instance, extend_instance_ttl, mbind, M_bind, get_state, lift, put_state.
  pose proof max_entry_ttl_bound as Hmax.
  destruct (ttl_extend_accepts InstanceStorage (ledger_sequence e) (tk_live_until t)
    INSTANCE_LIFETIME_THRESHOLD INSTANCE_BUMP_AMOUNT) as [live ->]; [|by eauto].
  unfold INSTANCE_LIFETIME_THRESHOLD, INSTANCE_BUMP_AMOUNT, DAY_IN_LEDGERS. lia.
Qed.

Lemma extend_balance_run e k t :
  is_Some (tk_persistent t !! k) →
  ∃ p, extend_balance e k t = Ok (tt, set_tk_persistent p t) ∧
    (∀ k', persistent_get k' p = persistent_get k' (tk_persistent t)) ∧
    map_sumZ entry_value p = map_sumZ entry_value (tk_persistent t) ∧
    (token_wf t → token_wf (set_tk_persistent p t)).
Proof.
  intros [en Hk].
  destruct (ttl_extend_accepts Persistent (ledger_sequence e) (live_until en)
    BALANCE_LIFETIME_THRESHOLD BALANCE_BUMP_AMOUNT) as [live Hl].
  { pose proof max_entry_ttl_bound.
    unfold BALANCE_LIFETIME_THRESHOLD, BALANCE_BUMP_AMOUNT, DAY_IN_LEDGERS. lia. }
  assert (Hx : extend_ttl e Persistent k BALANCE_LIFETIME_THRESHOLD BALANCE_BUMP_AMOUNT
    (tk_persistent t) = Ok (<[k := mkEntry (entry_value en) live]> (tk_persistent t))).
  { apply extend_ttl_Ok. eauto. }
  eexists. split_and!.
  - unfold extend_balance, mbind, M_bind, get_state, lift. rewrite Hx. reflexivity.
  - intros k'. by eapply persistent_get_extend.
  - exact (extend_ttl_sum (λ v, v) _ _ _ _ _ _ _ Hx).
  - intros Hwf k' en' Hk'. simpl in Hk'. rewrite lookup_insert in Hk'.
    case_decide; simplify_eq; [exact (Hwf _ _ Hk) | exact (Hwf _ _ Hk')].
Qed.

Lemma read_balance_run e a t :
  ∃ t', read_balance e a t = Ok (balance_of t a, t') ∧ moved a 0 t t'.
Proof.
  unfold read_balance, mbind at 1, M_bind at 1, get_state, balance_of.
  destruct (persistent_get (Balance a) (tk_persistent t)) as [v|] eqn:Hv.
  - destruct (extend_balance_run e (Balance a) t) as (p & Hp & Hg & Hs & Hwf).
    { unfold persistent_get in Hv. destruct (tk_persistent t !! _); [eauto | done]. }
    exists (set_tk_persistent p t). unfold mbind, M_bind. rewrite Hp. split; [done|].
    by apply moved_zero.
  - exists t. split; [done | apply moved_refl].
Qed.

Lemma write_balance_run e a z t :
  ∃ t', write_balance e a z t = Ok (tt, t') ∧ moved a (z - balance_of t a) t t'.
Proof.
  unfold write_balance, modify, mbind, M_bind.
  set (t1 := set_tk_persistent (persistent_set e (Balance a) z (tk_persistent t)) t).
  destruct (extend_balance_run e (Balance a) t1) as (p & Hp & Hg & Hs & Hwf).
  { simpl. destruct (persistent_set_insert e (Balance a) z (tk_persistent t)) as [l ->].
    rewrite lookup_insert_eq. eauto. }
  rewrite Hp. eexists; split; [done|]. unfold moved, balance_of, total_balance. simpl.
  split_and!; try done.
  - intros b. rewrite Hg. simpl. rewrite persistent_get_set.
    destruct (decide (b = a)) as [->|Hne]; [rewrite decide_True by done; simpl; lia|].
    rewrite decide_False by congruence. lia.
  - rewrite Hs. simpl. assert (E : ∀ m : gmap DataKey (Entry Z),
      map_sumZ entry_value (persistent_set e (Balance a) z m) = map_sumZ entry_value m
        - from_option (λ v, v) 0 (persistent_get (Balance a) m) + z)
      by exact (persistent_set_sum (λ v, v) e (Balance a) z).
    rewrite E. destruct (persistent_get (Balance a) (tk_persistent t)); simpl; lia.
  - intros Hw Hz. apply Hwf. intros k en Hk. simpl in Hk.
    destruct (persistent_set_insert e (Balance a) z (tk_persistent t)) as [l E].
    rewrite E, lookup_insert in Hk. case_decide; simplify_eq; [|exact (Hw _ _ Hk)].
    split; [by eexists | simpl; lia].
Qed.

(** Receiving adds the amount, or overflows. *)
Lemma receive_balance_run e a z t :
  if in_i128 (balance_of t a + z)
  then ∃ t', receive_balance e a z t = Ok (tt, t') ∧ moved a z t t'
  else receive_balance e a z t = Err (Trap ArithmeticOverflow).
Proof.
  destruct (read_balance_run e a t) as (t1 & Hr & Hm1).
  unfold receive_balance, mbind, M_bind, lift, add_i128, checked_add. rewrite Hr.
  destruct (in_i128 (balance_of t a + z)); [|done].
  destruct (write_balance_run e a (balance_of t a + z) t1) as (t2 & -> & Hm2).
  exists t2. split; [done|]. pose proof (proj1 Hm1 a) as E. rewrite decide_True in E by done.
  eapply moved_trans; [done|]. by replace z with (balance_of t a + z - balance_of t1 a) by lia.
Qed.

(** Spending takes the amount, or fails for want of it. *)
Lemma spend_balance_run e a z t :
  if balance_of t a <? z
  then spend_balance e a z t = Err (Trap (Panic "insufficient balance"))
  else if in_i128 (balance_of t a - z)
  then ∃ t', spend_balance e a z t = Ok (tt, t') ∧ moved a (- z) t t'
  else spend_balance e a z t = Err (Trap ArithmeticOverflow).
Proof.
  destruct (read_balance_run e a t) as (t1 & Hr & Hm1).
  unfold spend_balance, mbind, M_bind, lift, sub_i128, checked_sub, mret, M_ret. rewrite Hr.
  destruct (balance_of t a <? z); [done|].
  destruct (in_i128 (balance_of t a - z)); [|done].
  destruct (write_balance_run e a (balance_of t a - z) t1) as (t2 & -> & Hm2).
  exists t2. split; [done|]. pose proof (proj1 Hm1 a) as E. rewrite decide_True in E by done.
  eapply moved_trans; [done|]. by replace (- z) with (balance_of t a - z - balance_of t1 a) by lia.
Qed.

Lemma receive_balance_Ok e a z t u t' :
  receive_balance e a z t = Ok (u, t') → balance_of t a + z ≤ i128_max ∧ moved a z t t'.
Proof.
  pose proof (receive_balance_run e a z t) as Hr. destruct (in_i128 _) eqn:E.
  - destruct Hr as (t2 & -> & Hm). intros [= _ <-]. apply in_i128_spec in E. split; [lia|done].
  - by rewrite Hr.
Qed.

Lemma spend_balance_Ok e a z t u t' :
  spend_balance e a z t = Ok (u, t') → z ≤ balance_of t a ∧ moved a (- z) t t'.
Proof.
  pose proof (spend_balance_run e a z t) as Hr.
  destruct (Z.ltb_spec (balance_of t a) z); [by rewrite Hr|]. destruct (in_i128 _) eqn:E.
  - destruct Hr as (t2 & -> & Hm). by intros [= _ <-].
  - by rewrite Hr.
Qed.

Lemma bump_instance_Ok e t u t' :
  bump_instance e t = Ok (u, t') → ∃ live, t' = set_tk_live_until live t.
Proof. destruct (bump_instance_run e t) as [l ->]. intros [= _ <-]. eauto. Qed.

Lemma check_nonnegative_Ok z t u t' :
  check_nonnegative_amount z t = Ok (u, t') ↔ 0 ≤ z ∧ t' = t.
Proof.
  unfold check_nonnegative_amount. destruct (Z.ltb_spec z 0).
  - split; [done | lia].
  - rewrite M_ret_Ok. destruct u. naive_solver.
Qed.

Lemma read_allowance_Ok e f sp t v t' :
  read_allowance e f sp t = Ok (v, t') → t' = t ∧ amount v = allowance_of e t f sp.
Proof.
  unfold read_allowance, allowance_of, mbind, M_bind, get_state. intros [<- <-]%M_ret_Ok.
  split; [done|]. destruct (temporary_get _ _ _) as [w|]; [|done]. by destruct (_ <? _).
Qed.

(** Writing an allowance changes the temporary store only. *)
Lemma write_allowance_frame e f sp z l t u t' :
  write_allowance e f sp z l t = Ok (u, t') → ∃ p, t' = set_tk_temporary p t.
Proof.
  unfold write_allowance. intros (v & t1 & Hc & Hr)%M_bind_Ok.
  assert (t1 = t) as -> by (destruct (_ && _); by inv_M).
  apply M_bind_Ok in Hr as (v2 & t2 & ->%modify_Ok & Hr). destruct (z >? 0).
  - apply M_bind_Ok in Hr as (lf & t3 & [_ <-]%lift_Ok & Hr).
    apply M_bind_Ok in Hr as (t4 & t5 & [-> ->]%get_state_Ok & Hr).
    apply M_bind_Ok in Hr as (p & t6 & [_ <-]%lift_Ok & ->%put_state_Ok). by exists p.
  - apply M_ret_Ok in Hr as [_ <-]. by eexists.
Qed.

Lemma spend_allowance_frame e f sp z t u t' :
  spend_allowance e f sp z t = Ok (u, t') →
  z ≤ allowance_of e t f sp ∧ ∃ p, t' = set_tk_temporary p t.
Proof.
  unfold spend_allowance. intros (v & t1 & [-> Hv]%read_allowance_Ok & Hr)%M_bind_Ok.
  rewrite <- Hv. apply M_bind_Ok in Hr as (v2 & t2 & Hc & Hr).
  destruct (Z.ltb_spec (amount v) z); [by inv_M|]. apply M_ret_Ok in Hc as [_ <-].
  split; [lia|]. destruct (z >? 0).
  - apply M_bind_Ok in Hr as (rest & t3 & [_ <-]%lift_Ok & Hr).
    by apply write_allowance_frame in Hr.
  - apply M_ret_Ok in Hr as [_ <-]. exists (tk_temporary t). by destruct t.
Qed.
End token_lemmas.

Section call_lemmas.
Context `{TokenSdk} `{!SdkLaws} {X : Type} `{!HostAuth X}.
Implicit Types (e : Env) (t : TokenState) (a b : Address) (x : X).
Import TestToken.

(** The effect of a call on the balances. *)
Definition changed (d : Address → Z) (z : Z) t t' : Prop :=
  (∀ b, balance_of t' b = balance_of t b + d b) ∧ total_balance t' = total_balance t + z ∧
  (token_wf t → token_wf t') ∧ tk_admin t' = tk_admin t.

Lemma require_auth_Ok e args a t x u t' x' :
  require_auth e args a (t, x) = Ok (u, (t', x')) ↔ frame_auth e args a x = Ok x' ∧ t' = t.
Proof. unfold require_auth. by rewrite on_snd_Ok, require_auth_for_args_Ok. Qed.

Lemma read_administrator_Ok t a t' :
  read_administrator t = Ok (a, t') ↔ tk_admin t = Some a ∧ t' = t.
Proof.
  unfold read_administrator, mbind, M_bind, get_state. rewrite lift_Ok, unwrap_Ok. naive_solver.
Qed.

Lemma token_publish_Ok ev t u t' : publish ev t = Ok (u, t') ↔ t' = set_tk_events (tk_events t ++ [ev]) t.
Proof. unfold publish. by rewrite modify_Ok. Qed.

Lemma moved_in_changed a z t t' :
  0 ≤ z → balance_of t a + z ≤ i128_max → moved a z t t' → changed (credit a z) z t t'.
Proof.
  intros Hz Hmax (Hb & Ht & Hw & Ha & _). unfold changed, credit. split_and!; try done.
  intros Hwf. apply Hw; [done|]. pose proof (wf_balance_range t a Hwf). lia.
Qed.

Lemma moved_out_changed a z t t' :
  0 ≤ z → z ≤ balance_of t a → moved a (- z) t t' → changed (λ b, - credit a z b) (- z) t t'.
Proof.
  intros Hp Hz (Hb & Ht & Hw & Ha & _). unfold changed, credit. split_and!; try done.
  - intros b. rewrite Hb. case_decide; lia.
  - intros Hwf. apply Hw; [done|]. pose proof (wf_balance_range t a Hwf). lia.
Qed.

Lemma moved_nothing a t t' : moved a 0 t t' → changed (λ _, 0) 0 t t'.
Proof.
  intros (Hb & Ht & Hw & Ha & _). unfold changed. split_and!; try done.
  - intros b. rewrite Hb. case_decide; lia.
  - intros Hwf. apply Hw; [done|]. pose proof (wf_balance_range t a Hwf). lia.
Qed.

Lemma changed_trans d y d' z t1 t2 t3 :
  changed d y t1 t2 → changed d' z t2 t3 → changed (λ b, d b + d' b) (y + z) t1 t3.
Proof.
  intros (Hb & Ht & Hw & Ha) (Hb' & Ht' & Hw' & Ha'). unfold changed.
  split_and!; [|lia|auto|congruence]. intros b. rewrite Hb', Hb. lia.
Qed.

(** Taking from one account and giving to another. *)
Lemma take_give_changed f g z t1 t2 t3 :
  0 ≤ z → z ≤ balance_of t1 f → balance_of t2 g + z ≤ i128_max →
  moved f (- z) t1 t2 → moved g z t2 t3 →
  changed (λ b, credit g z b - credit f z b) 0 t1 t3.
Proof.
  intros Hz Hf Hg Ho%moved_out_changed Hi%moved_in_changed; [|done..].
  destruct (changed_trans _ _ _ _ _ _ _ Ho Hi) as (Hb & Ht & Hw & Ha). unfold changed.
  split_and!; [|lia|done|done]. intros b. rewrite Hb. lia.
Qed.

Lemma mint_Ok e to z t x u t' x' :
  mint e to z (t, x) = Ok (u, (t', x')) →
  0 ≤ z ∧ (∃ a, tk_admin t = Some a ∧ frame_auth e [VAddress to; VI128 z] a x = Ok x') ∧
  changed (credit to z) z t t'.
Proof.
  unfold mint. intros (v1 & [t1 x1] & [[Hz ->]%check_nonnegative_Ok ->]%on_fst_Ok & Hr)%M_bind_Ok.
  apply M_bind_Ok in Hr as (a & [t2 x2] & [[Ha ->]%read_administrator_Ok ->]%on_fst_Ok & Hr).
  apply M_bind_Ok in Hr as (v2 & [t3 x3] & [Hau ->]%require_auth_Ok & Hr).
  apply M_bind_Ok in Hr as (v3 & [t4 x4] & [[l ->]%bump_instance_Ok ->]%on_fst_Ok & Hr).
  apply on_fst_Ok in Hr as [[Hg Hm]%receive_balance_Ok ->].
  split_and!; [done | eauto | by apply moved_in_changed in Hm].
Qed.

Lemma set_admin_Ok e n t x u t' x' :
  set_admin e n (t, x) = Ok (u, (t', x')) →
  (∃ a, tk_admin t = Some a ∧ frame_auth e [VAddress n] a x = Ok x') ∧
  tk_admin t' = Some n ∧ tk_persistent t' = tk_persistent t.
Proof.
  unfold set_admin.
  intros (a & [t2 x2] & [[Ha ->]%read_administrator_Ok ->]%on_fst_Ok & Hr)%M_bind_Ok.
  apply M_bind_Ok in Hr as (v2 & [t3 x3] & [Hau ->]%require_auth_Ok & Hr).
  apply M_bind_Ok in Hr as (v3 & [t4 x4] & [[l ->]%bump_instance_Ok ->]%on_fst_Ok & Hr).
  apply M_bind_Ok in Hr as (v4 & [t5 x5] & [->%modify_Ok ->]%on_fst_Ok & Hr).
  apply on_fst_Ok in Hr as [->%token_publish_Ok ->]. split_and!; [eauto | done | done].
Qed.

Lemma approve_Ok e f sp z l t x u t' x' :
  approve e f sp z l (t, x) = Ok (u, (t', x')) →
  frame_auth e [VAddress f; VAddress sp; VI128 z; VU32 l] f x = Ok x' ∧ 0 ≤ z ∧
  tk_admin t' = tk_admin t ∧ tk_persistent t' = tk_persistent t ∧
  ∃ live t1, write_allowance e f sp z l (set_tk_live_until live t) = Ok (tt, t1) ∧
    tk_temporary t' = tk_temporary t1.
Proof.
  unfold approve. intros (v1 & [t1 x1] & [Hau ->]%require_auth_Ok & Hr)%M_bind_Ok.
  apply M_bind_Ok in Hr as (v2 & [t2 x2] & [[Hz ->]%check_nonnegative_Ok ->]%on_fst_Ok & Hr).
  apply M_bind_Ok in Hr as (v3 & [t3 x3] & [[live ->]%bump_instance_Ok ->]%on_fst_Ok & Hr).
  apply M_bind_Ok in Hr as ([] & [t4 x4] & [Hw ->]%on_fst_Ok & Hr).
  apply on_fst_Ok in Hr as [->%token_publish_Ok ->].
  pose proof Hw as [p ->]%write_allowance_frame. split_and!; eauto.
Qed.

Lemma transfer_Ok e f m z t x u t' x' :
  transfer e f m z (t, x) = Ok (u, (t', x')) →
  frame_auth e [VAddress f; muxed_val m; VI128 z] f x = Ok x' ∧ 0 ≤ z ∧ z ≤ balance_of t f ∧
  changed (λ b, credit (muxed_address m) z b - credit f z b) 0 t t'.
Proof.
  unfold transfer. intros (v1 & [t1 x1] & [Hau ->]%require_auth_Ok & Hr)%M_bind_Ok.
  apply M_bind_Ok in Hr as (v2 & [t2 x2] & [[Hz ->]%check_nonnegative_Ok ->]%on_fst_Ok & Hr).
  apply M_bind_Ok in Hr as (v3 & [t3 x3] & [[live ->]%bump_instance_Ok ->]%on_fst_Ok & Hr).
  apply M_bind_Ok in Hr as (v4 & [t4 x4] & [[Hf Ho]%spend_balance_Ok ->]%on_fst_Ok & Hr).
  apply M_bind_Ok in Hr as (v5 & [t5 x5] & [[Hg Hi]%receive_balance_Ok ->]%on_fst_Ok & Hr).
  apply on_fst_Ok in Hr as [->%token_publish_Ok ->].
  pose proof (take_give_changed _ _ _ _ _ _ Hz Hf Hg Ho Hi). by split_and!.
Qed.

Lemma transfer_from_Ok e sp f g z t x u t' x' :
  transfer_from e sp f g z (t, x) = Ok (u, (t', x')) →
  frame_auth e [VAddress sp; VAddress f; VAddress g; VI128 z] sp x = Ok x' ∧ 0 ≤ z ∧
  z ≤ allowance_of e t f sp ∧ changed (λ b, credit g z b - credit f z b) 0 t t' ∧
  ∃ live t1, spend_allowance e f sp z (set_tk_live_until live t) = Ok (tt, t1) ∧
    tk_temporary t' = tk_temporary t1.
Proof.
  unfold transfer_from. intros (v1 & [t1 x1] & [Hau ->]%require_auth_Ok & Hr)%M_bind_Ok.
  apply M_bind_Ok in Hr as (v2 & [t2 x2] & [[Hz ->]%check_nonnegative_Ok ->]%on_fst_Ok & Hr).
  apply M_bind_Ok in Hr as (v3 & [t3 x3] & [[live ->]%bump_instance_Ok ->]%on_fst_Ok & Hr).
  apply M_bind_Ok in Hr as ([] & [t4 x4] & [Hs ->]%on_fst_Ok & Hr).
  apply M_bind_Ok in Hr as (v5 & [t5 x5] & [[Hf Ho]%spend_balance_Ok ->]%on_fst_Ok & Hr).
  apply M_bind_Ok in Hr as (v6 & [t6 x6] & [[Hg Hi]%receive_balance_Ok ->]%on_fst_Ok & Hr).
  apply on_fst_Ok in Hr as [->%token_publish_Ok ->].
  pose proof Hs as [Ha [p ->]]%spend_allowance_frame.
  pose proof (take_give_changed _ _ _ _ _ _ Hz Hf Hg Ho Hi) as Hc.
  destruct Ho as (_ & _ & _ & _ & _ & Ho & _), Hi as (_ & _ & _ & _ & _ & Hi & _).
  split_and!; [done..|]. eexists _, _. split; [done|]. simpl in *. congruence.
Qed.

Lemma burn_Ok e f z t x u t' x' :
  burn e f z (t, x) = Ok (u, (t', x')) →
  frame_auth e [VAddress f; VI128 z] f x = Ok x' ∧ 0 ≤ z ∧ z ≤ balance_of t f ∧
  changed (λ b, - credit f z b) (- z) t t'.
Proof.
  unfold burn. intros (v1 & [t1 x1] & [Hau ->]%require_auth_Ok & Hr)%M_bind_Ok.
  apply M_bind_Ok in Hr as (v2 & [t2 x2] & [[Hz ->]%check_nonnegative_Ok ->]%on_fst_Ok & Hr).
  apply M_bind_Ok in Hr as (v3 & [t3 x3] & [[live ->]%bump_instance_Ok ->]%on_fst_Ok & Hr).
  apply M_bind_Ok in Hr as (v4 & [t4 x4] & [[Hf Ho]%spend_balance_Ok ->]%on_fst_Ok & Hr).
  apply on_fst_Ok in Hr as [->%token_publish_Ok ->].
  apply moved_out_changed in Ho; [|done..]. by split_and!.
Qed.

Lemma burn_from_Ok e sp f z t x u t' x' :
  burn_from e sp f z (t, x) = Ok (u, (t', x')) →
  frame_auth e [VAddress sp; VAddress f; VI128 z] sp x = Ok x' ∧ 0 ≤ z ∧
  z ≤ allowance_of e t f sp ∧ changed (λ b, - credit f z b) (- z) t t'.
Proof.
  unfold burn_from. intros (v1 & [t1 x1] & [Hau ->]%require_auth_Ok & Hr)%M_bind_Ok.
  apply M_bind_Ok in Hr as (v2 & [t2 x2] & [[Hz ->]%check_nonnegative_Ok ->]%on_fst_Ok & Hr).
  apply M_bind_Ok in Hr as (v3 & [t3 x3] & [[live ->]%bump_instance_Ok ->]%on_fst_Ok & Hr).
  apply M_bind_Ok in Hr as ([] & [t4 x4] & [Hs ->]%on_fst_Ok & Hr).
  apply M_bind_Ok in Hr as (v5 & [t5 x5] & [[Hf Ho]%spend_balance_Ok ->]%on_fst_Ok & Hr).
  apply on_fst_Ok in Hr as [->%token_publish_Ok ->].
  pose proof Hs as [Ha [p ->]]%spend_allowance_frame.
  apply moved_out_changed in Ho; [|done..]. by split_and!.
Qed.

(** Everything a call that returns has done to balances and administrator, and who it had to
    ask. *)
Lemma token_call_Ok e c t x u t' x' :
  token_call e c (t, x) = Ok (u, (t', x')) →
  (∀ b, balance_of t' b = balance_of t b + call_delta c b) ∧
  total_balance t' = total_balance t + call_total c ∧ (token_wf t → token_wf t') ∧
  tk_admin t' = (if c is TcSetAdmin n then Some n else tk_admin t) ∧
  match call_signer t c with
  | Some (a, args) => frame_auth e args a x = Ok x'
  | None => x' = x
  end ∧
  (∀ f s z, call_draws c = Some (f, s, z) → 0 ≤ z ≤ allowance_of e t f s) ∧
  match c with
  | TcMint _ z => 0 ≤ z ∧ is_Some (tk_admin t)
  | TcTransfer _ _ z | TcBurn _ z => 0 ≤ z
  | _ => True
  end.
Proof.
  destruct c as [to z|n|f s|f s z l|a|f m z|s f g z|f z|s f z]; simpl.
  - intros (Hz & (a & Ha & Hau) & Hb & Ht & Hw & Had)%mint_Ok. rewrite Ha in Had |- *.
    split_and!; done || eauto.
  - intros ((a & Ha & Hau) & Hn & Hp)%set_admin_Ok. rewrite Ha.
    unfold balance_of, total_balance, token_wf. rewrite Hp. split_and!; try done; intros; lia.
  - rewrite on_fst_Ok. intros [Hr ->]. unfold allowance in Hr.
    apply M_bind_Ok in Hr as (z & t1 & Hr & [_ <-]%M_ret_Ok).
    apply M_bind_Ok in Hr as (v & t2 & [l ->]%bump_instance_Ok & Hr).
    apply M_bind_Ok in Hr as (w & t3 & [-> _]%read_allowance_Ok & [_ <-]%M_ret_Ok).
    unfold balance_of, total_balance, token_wf. simpl. split_and!; try done; intros; lia.
  - intros (Hau & Hz & Ha & Hp & _)%approve_Ok.
    unfold balance_of, total_balance, token_wf. rewrite Hp. split_and!; try done; intros; lia.
  - rewrite on_fst_Ok. intros [Hr ->]. unfold balance in Hr.
    apply M_bind_Ok in Hr as (z & t1 & Hr & [_ <-]%M_ret_Ok).
    apply M_bind_Ok in Hr as (v & t2 & [l ->]%bump_instance_Ok & Hr).
    destruct (read_balance_run e a (set_tk_live_until l t)) as (t3 & E & Hm). rewrite E in Hr.
    injection Hr as _ <-. apply moved_nothing in Hm as (Hb & Ht & Hw & Ha).
    by split_and!.
  - intros (Hau & Hz & Hf & Hb & Ht & Hw & Had)%transfer_Ok. by split_and!.
  - intros (Hau & Hz & Hal & (Hb & Ht & Hw & Had) & _)%transfer_from_Ok.
    split_and!; try done. by intros ? ? ? [= <- <- <-].
  - intros (Hau & Hz & Hf & Hb & Ht & Hw & Had)%burn_Ok. by split_and!.
  - intros (Hau & Hz & Hal & Hb & Ht & Hw & Had)%burn_from_Ok.
    split_and!; try done. by intros ? ? ? [= <- <- <-].
Qed.
End call_lemmas.

Section allowance_lemmas.
Context `{TokenSdk} `{!SdkLaws}.
Implicit Types (e : Env) (t : TokenState) (f sp : Address).
Import TestToken.

Abbreviation akey f sp := (Allowance (mkAllowanceDataKey _ f sp)).

Lemma temporary_set_insert e (k : DataKey) (v : AllowanceValue) m :
  ∃ l, temporary_set e k v m = <[k := mkEntry v l]> m ∧
    (is_Some (temporary_get e k m) → ledger_sequence e ≤ l).
Proof.
  unfold temporary_set. destruct (temporary_get e k m) as [w|] eqn:E.
  - unfold temporary_get in E. destruct (m !! k) as [old|]; [|done]. eexists; split; [done|].
    intros _. destruct (Z.ltb_spec (live_until old) (ledger_sequence e)); [done|lia].
  - eexists; split; [done|]. by intros [].
Qed.

(** The entry an approval leaves. *)
Lemma write_allowance_Ok e f sp z l t u t' :
  write_allowance e f sp z l t = Ok (u, t') →
  ∃ live, tk_temporary t' = <[akey f sp := mkEntry (mkAllowanceValue z l) live]> (tk_temporary t) ∧
    (is_Some (temporary_get e (akey f sp) (tk_temporary t)) → ledger_sequence e ≤ live) ∧
    (0 < z → ledger_sequence e ≤ l ∧ (l - ledger_sequence e ≤ max_entry_ttl → l ≤ live)).
Proof.
  unfold write_allowance. intros (v & t1 & Hc & Hr)%M_bind_Ok.
  assert (t1 = t ∧ (0 < z → ledger_sequence e ≤ l)) as [-> Hl].
  { destruct (Z.gtb_spec z 0), (Z.ltb_spec l (ledger_sequence e)); simpl in Hc; inv_M;
      split; done || lia. }
  apply M_bind_Ok in Hr as (v2 & t2 & ->%modify_Ok & Hr).
  destruct (temporary_set_insert e (akey f sp) (mkAllowanceValue z l) (tk_temporary t))
    as (l0 & Hset & Hl0).
  destruct (Z.gtb_spec z 0).
  - apply M_bind_Ok in Hr as (lf & t3 & [Hlf <-]%lift_Ok & Hr).
    apply unwrap_Ok, checked_sub_u32_Some in Hlf as [-> _].
    apply M_bind_Ok in Hr as (t4 & t5 & [-> ->]%get_state_Ok & Hr).
    apply M_bind_Ok in Hr as (p & t6 & [Hx <-]%lift_Ok & ->%put_state_Ok).
    simpl in Hx. rewrite Hset in Hx.
    apply extend_ttl_Ok in Hx as (old & live & Hold & Httl & ->).
    rewrite lookup_insert_eq in Hold. injection Hold as <-. simpl in Httl |- *.
    rewrite insert_insert_eq. exists live. pose proof (ttl_extend_mono _ _ _ _ _ _ Httl).
    split_and!; [done | intros Hs; specialize (Hl0 Hs); lia |]. intros Hz. split; [auto|].
    intros Hmax. destruct (decide (l0 - ledger_sequence e < l - ledger_sequence e)); [|lia].
    apply ttl_extend_below in Httl; lia.
  - apply M_ret_Ok in Hr as [_ <-]. simpl. rewrite Hset. exists l0. split_and!; [done..|lia].
Qed.

Lemma allowance_of_insert e m t f sp f' sp' v live :
  tk_temporary t = <[akey f sp := mkEntry v live]> m →
  allowance_of e t f' sp' =
  if decide ((f, sp) = (f', sp'))
  then if (live <? ledger_sequence e) || (expiration_ledger v <? ledger_sequence e)
       then 0 else amount v
  else match temporary_get e (akey f' sp') m with
       | Some w => if expiration_ledger w <? ledger_sequence e then 0 else amount w
       | None => 0
       end.
Proof.
  intros Ht. unfold allowance_of, temporary_get. rewrite Ht, lookup_insert.
  destruct (decide ((f, sp) = (f', sp'))) as [[= -> ->]|Hne].
  - rewrite decide_True by done. simpl. by destruct (live <? ledger_sequence e).
  - by rewrite decide_False by congruence.
Qed.

(** Spending an allowance takes exactly the amount from it. *)
Lemma spend_allowance_Ok e f sp z t u t' :
  0 ≤ z → spend_allowance e f sp z t = Ok (u, t') →
  allowance_of e t' f sp = allowance_of e t f sp - z ∧
  ∀ e' f' sp', (f', sp') ≠ (f, sp) → allowance_of e' t' f' sp' = allowance_of e' t f' sp'.
Proof.
  intros Hz. unfold spend_allowance. intros (v & t1 & Hv & Hr)%M_bind_Ok.
  pose proof Hv as [-> Ha]%read_allowance_Ok.
  apply M_bind_Ok in Hr as (v2 & t2 & Hc & Hr).
  destruct (Z.ltb_spec (amount v) z); [by inv_M|]. apply M_ret_Ok in Hc as [_ <-].
  destruct (Z.gtb_spec z 0) as [Hpos|Hpos].
  2:{ apply M_ret_Ok in Hr as [_ <-]. split; [lia | done]. }
  apply M_bind_Ok in Hr as (rest & t3 & [[-> _]%sub_i128_Ok <-]%lift_Ok & Hr).
  apply write_allowance_Ok in Hr as (live & Ht & Hlive & Hexp). split.
  - rewrite (allowance_of_insert _ _ _ _ _ _ _ _ _ Ht), decide_True by done. simpl.
    unfold read_allowance, mbind, M_bind, get_state in Hv. apply M_ret_Ok in Hv as [Hv _].
    rewrite <- Ha. destruct (temporary_get e (akey f sp) (tk_temporary t)) as [w|];
      [|subst v; simpl in *; lia].
    destruct (Z.ltb_spec (expiration_ledger w) (ledger_sequence e)); [subst v; simpl in *; lia|].
    subst w. specialize (Hlive ltac:(eauto)).
    destruct (Z.ltb_spec live (ledger_sequence e)); [lia|]. simpl.
    destruct (Z.ltb_spec (expiration_ledger v) (ledger_sequence e)); [lia|done].
  - intros e' f' sp' Hne. rewrite (allowance_of_insert _ _ _ _ _ _ _ _ _ Ht).
    by rewrite decide_False by congruence.
Qed.
End allowance_lemmas.

Section transfer_lemmas.
Context `{TokenSdk} `{!SdkLaws} {X : Type} `{!HostAuth X}.
Implicit Types (e : Env) (t : TokenState) (x : X).
Import TestToken.

Lemma require_auth_run e args a t x :
  require_auth e args a (t, x) =
  match frame_auth e args a x with Ok x' => Ok (tt, (t, x')) | Err f => Err f end.
Proof.
  unfold require_auth, on_snd, zoom, require_auth_for_args, frame_auth, mbind, res_bind.
  cbn [fst snd]. by destruct (require_auth_for _ _ x).
Qed.

Lemma transfer_run e f m z t x :
  token_wf t →
  match frame_auth e [VAddress f; muxed_val m; VI128 z] f x with
  | Err g => transfer e f m z (t, x) = Err g
  | Ok x' =>
      if z <? 0 then transfer e f m z (t, x) = Err (Trap (Panic "negative amount is not allowed"))
      else if balance_of t f <? z
      then transfer e f m z (t, x) = Err (Trap (Panic "insufficient balance"))
      else if i128_max <? balance_of t (muxed_address m)
                            + (if decide (f = muxed_address m) then 0 else z)
      then transfer e f m z (t, x) = Err (Trap ArithmeticOverflow)
      else ∃ t', transfer e f m z (t, x) = Ok (tt, (t', x')) ∧ token_wf t' ∧
        (∀ b, balance_of t' b = balance_of t b + (credit (muxed_address m) z b - credit f z b)) ∧
        total_balance t' = total_balance t ∧ tk_temporary t' = tk_temporary t ∧
        tk_admin t' = tk_admin t ∧
        tk_events t' = tk_events t ++ [EvTransfer f (muxed_address m) (muxed_id m) z]
  end.
Proof.
  intros Hwf.
  unfold transfer, on_fst, zoom, check_nonnegative_amount, publish, modify, mret, M_ret, mbind, M_bind.
  rewrite require_auth_run. destruct (frame_auth e _ f x) as [x'|g]; [|done]. cbn [fst snd].
  destruct (Z.ltb_spec z 0) as [Hz|Hz]; [done|].
  cbn [fst snd]. destruct (bump_instance_run e t) as [l ->].
  cbn [fst snd]. set (t1 := set_tk_live_until l t).
  pose proof (spend_balance_run e f z t1) as Hs.
  change (balance_of t1 f) with (balance_of t f) in Hs.
  destruct (Z.ltb_spec (balance_of t f) z) as [Hlt|Hge]; [by rewrite Hs|].
  pose proof (wf_balance_range t f Hwf) as Hf.
  assert (Hin : in_i128 (balance_of t f - z) = true)
    by (apply in_i128_spec; unfold i128_min; lia).
  rewrite Hin in Hs. destruct Hs as (t2 & -> & Ho). cbn [fst snd].
  pose proof (receive_balance_run e (muxed_address m) z t2) as Hr.
  pose proof (wf_balance_range t (muxed_address m) Hwf) as Hto.
  assert (Hb : balance_of t2 (muxed_address m) + z
    = balance_of t (muxed_address m) + (if decide (f = muxed_address m) then 0 else z)).
  { rewrite (proj1 Ho). change (balance_of t1) with (balance_of t).
    destruct (decide (f = muxed_address m)) as [->|];
      [rewrite decide_True by done | rewrite decide_False by congruence]; lia. }
  rewrite Hb in Hr. set (total := balance_of t (muxed_address m)
    + (if decide (f = muxed_address m) then 0 else z)) in *.
  assert (Htot : 0 ≤ total) by (subst total; destruct (decide (f = muxed_address m)); lia).
  destruct (Z.ltb_spec i128_max total) as [Hov|Hle].
  - destruct (in_i128 total) eqn:E; [apply in_i128_spec in E; lia | by rewrite Hr].
  - assert (E : in_i128 total = true) by (apply in_i128_spec; unfold i128_min; lia).
    rewrite E in Hr.
    destruct Hr as (t3 & -> & Hi). cbn [fst snd].
    eexists; split; [done|]. rewrite <- Hb in Hle.
    destruct (take_give_changed _ _ _ _ _ _ Hz Hge Hle Ho Hi) as (Hbal & Hsum & Hw & Ha).
    destruct Ho as (_ & _ & _ & _ & _ & Ho & Heo), Hi as (_ & _ & _ & _ & _ & Hi & Hei).
    split_and!; [by apply Hw | done | | simpl in *; congruence.. |].
    + change (total_balance t3 = total_balance t). rewrite Hsum. change (total_balance t1)
        with (total_balance t). lia.
    + simpl. rewrite Hei, Heo. done.
Qed.

Lemma transfer_from_short e sp f g z t x fl :
  transfer_from e sp f g z (t, x) = Err fl →
  is_Ok (frame_auth e [VAddress sp; VAddress f; VAddress g; VI128 z] sp x) = true → 0 ≤ z →
  allowance_of e t f sp < z → fl = Trap (Panic "insufficient allowance").
Proof.
  unfold transfer_from, on_fst, zoom, check_nonnegative_amount, mret, M_ret, mbind, M_bind.
  rewrite require_auth_run.
  destruct (frame_auth e _ sp x) as [x'|]; [|done]. intros Hrun _ Hz Hlt. cbn [fst snd] in Hrun.
  destruct (Z.ltb_spec z 0); [lia|]. cbn [fst snd] in Hrun.
  destruct (bump_instance_run e t) as [l E]. rewrite E in Hrun. cbn [fst snd] in Hrun.
  assert (Hs : spend_allowance e f sp z (set_tk_live_until l t)
    = Err (Trap (Panic "insufficient allowance"))).
  { destruct (read_allowance e f sp (set_tk_live_until l t)) as [[v t2]|] eqn:Hv; [|done].
    unfold spend_allowance, mbind, M_bind. rewrite Hv.
    apply read_allowance_Ok in Hv as [-> Hv].
    change (allowance_of e (set_tk_live_until l t) f sp) with (allowance_of e t f sp) in Hv.
    destruct (Z.ltb_spec (amount v) z); [done | lia]. }
  rewrite Hs in Hrun. by simplify_eq.
Qed.
End transfer_lemmas.

Section temporary_lemmas.
Context `{TokenSdk} `{!SdkLaws} {X : Type} `{!HostAuth X}.
Implicit Types (e : Env) (t : TokenState) (x : X).
Import TestToken.

(** The allowances of a call that draws on none are untouched. *)
Abbreviation same_temporary := (through tk_temporary eq).

Lemma spend_balance_temporary e a z : keeps same_temporary (spend_balance e a z).
Proof. intros t u t' [_ (_ & _ & _ & _ & _ & Ht & _)]%spend_balance_Ok. by symmetry. Qed.

Lemma receive_balance_temporary e a z : keeps same_temporary (receive_balance e a z).
Proof. intros t u t' [_ (_ & _ & _ & _ & _ & Ht & _)]%receive_balance_Ok. by symmetry. Qed.

Lemma read_balance_temporary e a : keeps same_temporary (read_balance e a).
Proof.
  intros t z t' Hr. destruct (read_balance_run e a t) as (t2 & E & (_ & _ & _ & _ & _ & Ht & _)).
  rewrite E in Hr. injection Hr as _ <-. by symmetry.
Qed.

Lemma bump_instance_temporary e : keeps same_temporary (bump_instance e).
Proof. by intros t u t' [l ->]%bump_instance_Ok. Qed.

Lemma check_nonnegative_temporary z : keeps same_temporary (check_nonnegative_amount z).
Proof. by intros t u t' [_ ->]%check_nonnegative_Ok. Qed.

Lemma token_publish_temporary ev : keeps same_temporary (publish ev).
Proof. by apply keeps_modify. Qed.

Lemma write_administrator_temporary a : keeps same_temporary (write_administrator a).
Proof. by apply keeps_modify. Qed.

Lemma token_require_auth_temporary e args a :
  keeps (through (fst : TokenState * X → TokenState) same_temporary) (require_auth e args a).
Proof. apply keeps_on_snd, _. Qed.

#[local] Hint Resolve spend_balance_temporary receive_balance_temporary read_balance_temporary
  bump_instance_temporary check_nonnegative_temporary token_publish_temporary
  write_administrator_temporary token_require_auth_temporary : keeps.

Lemma quiet_token_call e c :
  call_draws c = None → (∀ f s z l, c ≠ TcApprove f s z l) →
  keeps (through (fst : TokenState * X → TokenState) same_temporary) (token_call e c).
Proof.
  destruct c as [to z|n|f s|f s z l|a|f m z|s f g z|f z|s f z]; intros Hd Ha; try done;
    [..|by destruct (Ha f s z l)| | |]; cbn [token_call];
    unfold mint, set_admin, allowance, balance, transfer, burn, read_administrator,
      read_allowance; keeps.
Qed.

Lemma transfer_temporary e f m z t x u t' x' :
  transfer e f m z (t, x) = Ok (u, (t', x')) → tk_temporary t' = tk_temporary t.
Proof.
  intros Hr. symmetry.
  by apply (quiet_token_call e (TcTransfer f m z) eq_refl ltac:(done) (t, x) u (t', x')).
Qed.

Lemma spend_allowance_temporary e f sp z t u t' k :
  spend_allowance e f sp z t = Ok (u, t') →
  tk_temporary t' !! k = tk_temporary t !! k ∨
  (k = Allowance (mkAllowanceDataKey _ f sp) ∧ 0 < z ≤ allowance_of e t f sp).
Proof.
  intros Hs. pose proof Hs as [Hz _]%spend_allowance_frame. unfold spend_allowance in Hs.
  apply M_bind_Ok in Hs as (v & t1 & [-> _]%read_allowance_Ok & Hr).
  apply M_bind_Ok in Hr as (v2 & t2 & Hc & Hr).
  assert (t2 = t) as -> by (destruct (_ <? _); by inv_M).
  destruct (Z.gtb_spec z 0); [|apply M_ret_Ok in Hr as [_ <-]; by left].
  apply M_bind_Ok in Hr as (rest & t3 & [_ <-]%lift_Ok & Hr).
  apply write_allowance_Ok in Hr as (l & Ht & _). rewrite Ht, lookup_insert.
  case_decide; [right; split; [done | lia] | by left].
Qed.

(** Which allowances a call can change. *)
Lemma token_call_temporary e c t x u t' x' k :
  token_call e c (t, x) = Ok (u, (t', x')) →
  tk_temporary t' !! k = tk_temporary t !! k ∨
  ∃ f s, k = Allowance (mkAllowanceDataKey _ f s) ∧
    ((∃ z l, c = TcApprove f s z l) ∨
     ∃ z, call_draws c = Some (f, s, z) ∧ 0 < z ≤ allowance_of e t f s).
Proof.
  intros Hc. assert (Hq : call_draws c = None → (∀ f s z l, c ≠ TcApprove f s z l) →
    tk_temporary t = tk_temporary t')
    by (intros Hd Ha; exact (quiet_token_call e c Hd Ha _ _ _ Hc)).
  destruct c as [to z|n|f s|f s z l|a|f m z|s f g z|f z|s f z]; try (left; by rewrite Hq);
    cbn [token_call] in Hc; clear Hq.
  - apply approve_Ok in Hc as (_ & _ & _ & _ & live & t1 & (l' & Hw & _)%write_allowance_Ok & Ht).
    rewrite Ht, Hw. simpl. rewrite lookup_insert. case_decide; [right; eauto 10 | by left].
  - apply transfer_from_Ok in Hc as (_ & _ & _ & _ & live & t1 & Hs & Ht). rewrite Ht.
    apply (spend_allowance_temporary _ _ _ _ _ _ _ k) in Hs as [Hs|[-> Hz]]; [by left|].
    right. eauto 10.
  - unfold burn_from in Hc. apply M_bind_Ok in Hc as (v1 & [t1 x1] & [_ ->]%require_auth_Ok & Hr).
    apply M_bind_Ok in Hr as (v2 & [t2 x2] & [[_ ->]%check_nonnegative_Ok ->]%on_fst_Ok & Hr).
    apply M_bind_Ok in Hr as (v3 & [t3 x3] & [[l ->]%bump_instance_Ok ->]%on_fst_Ok & Hr).
    apply M_bind_Ok in Hr as (v4 & [t4 x4] & [Hs ->]%on_fst_Ok & Hr).
    match type of Hr with ?m _ = _ => assert (Hm :
      keeps (through (fst : TokenState * X → TokenState) same_temporary) m) by keeps end.
    apply Hm in Hr. cbv [through fst] in Hr. rewrite <- Hr.
    apply (spend_allowance_temporary _ _ _ _ _ _ _ k) in Hs as [Hs|[-> Hz]]; [by left|].
    right. eauto 10.
Qed.
End temporary_lemmas.

(** ** Properties *)

(** C30. A transfer decides exactly: without the holder's authorization of that very transfer it
    ends as the host says; a negative amount, an amount above the balance and a receiver's
    overflow end it with their own failures; otherwise it returns, has moved the amount from
    one balance to the other (a transfer to oneself changes nothing), kept every other balance,
    the sum, the allowances and the administrator, and published the one event. *)
Theorem transfer_functional `{TokenSdk} `{!SdkLaws} {X} `{!HostAuth X} (e : Env)
    (from : Address) (to_muxed : MuxedAddress) (z : Z) (t : TokenState) (x : X)
    (Hwf : token_wf t) :
  let to := muxed_address to_muxed in
  let run := TestToken.transfer e from to_muxed z (t, x) in
  match frame_auth e [VAddress from; muxed_val to_muxed; VI128 z] from x with
  | Err f => run = Err f
  | Ok x' =>
      if z <? 0 then run = Err (Trap (Panic "negative amount is not allowed"))
      else if balance_of t from <? z then run = Err (Trap (Panic "insufficient balance"))
      else if i128_max <? balance_of t to + (if decide (from = to) then 0 else z)
      then run = Err (Trap ArithmeticOverflow)
      else ∃ t', run = Ok (tt, (t', x')) ∧ token_wf t' ∧
        (∀ b, balance_of t' b = balance_of t b + (credit to z b - credit from z b)) ∧
        total_balance t' = total_balance t ∧
        tk_temporary t' = tk_temporary t ∧ tk_admin t' = tk_admin t ∧
        tk_events t' = tk_events t ++ [EvTransfer from to (muxed_id to_muxed) z]
  end.
Proof. exact (transfer_run e from to_muxed z t x Hwf). Qed.

(** C28. Conservation: over every entry point, a call that returns has changed each balance and
    the sum of all balances by exactly what the call says (only minting adds to the sum, only
    burning takes from it) and keeps balances non-negative and in range; and the administrator
    is as before, unless the call is one of [set_admin] that the administrator in office
    authorized, naming the new one, who is then in office. *)
Theorem token_conserves `{TokenSdk} `{!SdkLaws} {X} `{!HostAuth X} (e : Env) (c : TokenCall)
    (t t' : TokenState) (x x' : X) (Hwf : token_wf t)
    (Hrun : token_call e c (t, x) = Ok (tt, (t', x'))) :
  token_wf t' ∧ (∀ b, balance_of t' b = balance_of t b + call_delta c b) ∧
  total_balance t' = total_balance t + call_total c ∧
  (tk_admin t' = tk_admin t ∨
   ∃ n a, c = TcSetAdmin n ∧ tk_admin t = Some a ∧ frame_auth e [VAddress n] a x = Ok x' ∧
     tk_admin t' = Some n).
Proof.
  pose proof Hrun as (Hb & Ht & Hw & Ha & _)%token_call_Ok. split_and!; [auto | done | done |].
  destruct c as [|n| | | | | | |]; try by left. right.
  apply set_admin_Ok in Hrun as ((a & Had & Hau) & _). by exists n, a.
Qed.

(** C29. Balances are protected: a call after which somebody holds less is a transfer or burn
    that this holder authorized, or one by a spender who authorized it and whose allowance from
    that holder covers what was taken; a call after which somebody holds more without anybody
    holding less is a mint the administrator authorized. *)
Theorem token_balances_protected `{TokenSdk} `{!SdkLaws} {X} `{!HostAuth X} (e : Env)
    (c : TokenCall) (t t' : TokenState) (x x' : X) (b : Address)
    (Hrun : token_call e c (t, x) = Ok (tt, (t', x'))) :
  (balance_of t' b < balance_of t b →
    (∃ args, call_signer t c = Some (b, args) ∧ frame_auth e args b x = Ok x') ∨
    (∃ s args z, call_signer t c = Some (s, args) ∧ frame_auth e args s x = Ok x' ∧
      call_draws c = Some (b, s, z) ∧ balance_of t b - balance_of t' b ≤ z ∧
      z ≤ allowance_of e t b s)) ∧
  (total_balance t < total_balance t' →
    ∃ a args, tk_admin t = Some a ∧ call_signer t c = Some (a, args) ∧
      frame_auth e args a x = Ok x').
Proof.
  apply token_call_Ok in Hrun as (Hb & Ht & _ & _ & Hsig & Hdraw & Hpos). rewrite Hb, Ht.
  unfold call_delta, call_total, credit in *.
  destruct c as [to z|n|f s|f s z l|a|f m z|s f g z|f z|s f z]; simpl in *;
    try specialize (Hdraw _ _ _ eq_refl);
    (split; [intros Hlt; repeat case_decide; subst; try lia; eauto 10 | intros Hlt; try lia]).
  all: try (right; eexists _, _, _; split_and!; [done.. | lia | lia]).
  destruct Hpos as [_ [a Ha]]. rewrite Ha in *. simpl in *. eauto 10.
Qed.

(** Approvals: after an approval (with an expiration the network can keep) the spender may
    take exactly the approved amount at every ledger up to the expiration, and nothing after
    it, whatever was approved before; other allowances and all balances are untouched. *)
Theorem approve_functional `{TokenSdk} `{!SdkLaws} {X} `{!HostAuth X} (e e' : Env)
    (from spender : Address) (z expiration : Z) (t t' : TokenState) (x x' : X)
    (Hrun : TestToken.approve e from spender z expiration (t, x) = Ok (tt, (t', x')))
    (Hmax : expiration - ledger_sequence e ≤ max_entry_ttl) :
  frame_auth e [VAddress from; VAddress spender; VI128 z; VU32 expiration] from x = Ok x' ∧
  0 ≤ z ∧
  allowance_of e' t' from spender = (if ledger_sequence e' <=? expiration then z else 0) ∧
  (∀ f s, (f, s) ≠ (from, spender) → allowance_of e' t' f s = allowance_of e' t f s) ∧
  (∀ b, balance_of t' b = balance_of t b).
Proof.
  apply approve_Ok in Hrun as (Hau & Hz & _ & Hp & live & t1 & Hw & Ht).
  apply write_allowance_Ok in Hw as (l & Hl & _ & Hexp). rewrite <- Ht in Hl. simpl in Hl.
  split_and!; [done | done | | |].
  - rewrite (allowance_of_insert _ _ _ _ _ _ _ _ _ Hl), decide_True by done. simpl.
    destruct (Z.leb_spec (ledger_sequence e') expiration),
      (Z.ltb_spec expiration (ledger_sequence e')); try lia; rewrite ?orb_true_r; [|done].
    destruct (Z.ltb_spec l (ledger_sequence e')); simpl; [|done].
    destruct (decide (0 < z)) as [Hpos|]; [|lia]. destruct (Hexp Hpos); lia.
  - intros f s Hne. rewrite (allowance_of_insert _ _ _ _ _ _ _ _ _ Hl).
    by rewrite decide_False by congruence.
  - intros b. unfold balance_of. by rewrite Hp.
Qed.

(** Delegated transfers draw the allowance down: one that returns was covered by the
    spender's allowance, which is then lower by exactly the amount at the same ledger, while
    every other allowance is as before; a spender whose allowance falls short is refused. *)
Theorem transfer_from_draws_allowance `{TokenSdk} `{!SdkLaws} {X} `{!HostAuth X} (e : Env)
    (spender from to : Address) (z : Z) (t : TokenState) (x : X) :
  match TestToken.transfer_from e spender from to z (t, x) with
  | Ok (_, (t', x')) =>
      frame_auth e [VAddress spender; VAddress from; VAddress to; VI128 z] spender x = Ok x' ∧
      0 ≤ z ≤ allowance_of e t from spender ∧
      allowance_of e t' from spender = allowance_of e t from spender - z ∧
      (∀ e' f s, (f, s) ≠ (from, spender) → allowance_of e' t' f s = allowance_of e' t f s)
  | Err f =>
      is_Ok (frame_auth e [VAddress spender; VAddress from; VAddress to; VI128 z] spender x)
        = true → 0 ≤ z → allowance_of e t from spender < z →
      f = Trap (Panic "insufficient allowance")
  end.
Proof.
  destruct (TestToken.transfer_from e spender from to z (t, x)) as [[[] [t' x']]|f] eqn:Hrun.
  - apply transfer_from_Ok in Hrun as (Hau & Hz & Hal & _ & live & t1 & Hs & Ht).
    apply spend_allowance_Ok in Hs as [Hsame Hother]; [|done].
    assert (Heq : ∀ e' f s, allowance_of e' t' f s = allowance_of e' t1 f s)
      by (intros; unfold allowance_of; by rewrite Ht).
    split_and!; [done | done | done | by rewrite Heq, Hsame |].
    intros e' f s Hne. rewrite Heq. by apply Hother.
  - intros Hau Hz Hal. by eapply transfer_from_short.
Qed.
