(* ===== verification/System.v ===== *)
(** The contracts together: the Quorum Auth contract behind the channel's authorization, and the
    token behind its transfers.

    [CouncilHost] is what the host promises when the address asked is the auth contract: the
    entry's signatures and all its invocations were accepted by [__check_auth].  [TokenWorld]
    puts the token contract in the channel's outside world, and [system_step] is a step of the
    whole. *)
From S2P Require Import Prelude Errors Host Primitives Storage HostAuth Auth ChannelAuth UtxoCore.
From S2P Require Import Channel ChannelSpec Token.

(** ** The authorization contract behind the channel *)

(** What the host shows of the outside state. *)
Class CouncilHost `{Ownable} (X : Type) := {
  council_address : Address;
  council_state : X → AuthState;
  host_ledger : X → Z;
}.

(** Custom accounts, as documented: authorizing an invocation in the name of the contract took
    a successful [__check_auth], at the current ledger, over an entry naming it. *)
Class CouncilLaws `{Ownable} (X : Type) `{!HostAuth X} `{!CouncilHost X} : Prop :=
  council_checked cc x x' :
    require_auth_for council_address cc x = Ok x' →
    ∃ e payload signatures contexts s',
      ledger_sequence e = host_ledger x ∧ Contract cc ∈ contexts ∧
      ChannelAuthContract.__check_auth e payload signatures contexts (council_state x)
      = Ok (tt, s').

(** ** The token behind the channel *)

Section token_world.
Context `{TokenSdk} {Y : Type} `{!HostAuth Y}.

(** The channel's outside world: the token's storage beside the rest. *)
Definition TokenWorld : Type := TokenState * Y.

#[export] Instance token_world_auth : HostAuth TokenWorld := {|
  require_auth_for a cc w := y ← require_auth_for a cc w.2; Ok (w.1, y);
  authorize_as_current_contract e ccs w :=
    y ← authorize_as_current_contract e ccs w.2; Ok (w.1, y);
|}.

(** The frame of the token contract, called by [fn]. *)
Definition token_env (e : Env) (token : Address) (fn : string) : Env :=
  mkEnv _ (ledger_sequence e) (max_live_until_ledger e) (min_persistent_ttl e)
    (min_temporary_ttl e) token fn.

(** [TokenClient::transfer] against the test token: it calls nobody back. *)
#[export] Instance token_asset : Asset TokenWorld := λ e asset from to amount w,
  AssetDone
    match TestToken.transfer (token_env e asset "transfer") from (muxed_from to) amount w with
    | Ok (_, w') => Ok w'
    | Err f => Err f
    end.
End token_world.

Section system.
Context `{Ownable} `{!TokenSdk} `{!ConditionXdr} {Y : Type} `{!HostAuth Y}.
Variables channel token : Address.

(** One step of the deployed system: somebody calls the channel, or somebody calls the token
    directly.  The channel itself calls the token only through its own entry points, so a
    direct call is not one the channel would have to authorize. *)
Inductive system_step : ChannelState * (TokenState * Y) → ChannelState * (TokenState * Y) → Prop :=
  | step_channel depth e c w r w' :
      current_contract_address e = channel → 1 ≤ min_temporary_ttl e →
      PrivacyChannelContract.channel_call (X:=TokenWorld) depth e c w = Ok (r, w') →
      system_step w w'
  | step_token e c s t y t' y' :
      (∀ args, call_signer t c ≠ Some (channel, args)) →
      token_call e c (t, y) = Ok (tt, (t', y')) →
      system_step (s, (t, y)) (s, (t', y'))
  | step_world s t y y' : system_step (s, (t, y)) (s, (t, y')).

(** Nobody holds an allowance on the channel's tokens. *)
Definition no_allowance (t : TokenState) : Prop :=
  ∀ spender en, tk_temporary t !! Allowance (mkAllowanceDataKey _ channel spender) = Some en →
    amount (entry_value en) = 0.

(** The channel can pay: it holds at least the supply it recorded, which is what the unspent
    outputs are worth. *)
Definition solvent (w : ChannelState * (TokenState * Y)) : Prop :=
  let '(s, (t, _)) := w in
  ch_total_supply s ≤ balance_of t channel ∧
  ch_total_supply s = total_unspent (ch_ledger s) ∧
  ch_asset s = Some token ∧ token_wf t ∧ no_allowance t.
End system.

(** ** Lemmas: solvency *)

Section solvency.
Context `{OwnableLaws} `{!SdkLaws} `{!TokenSdk} `{!TokenSdkLaws} `{!ConditionXdr}
  `{!ConditionXdrLaws} {Y : Type} `{!HostAuth Y}.
Variables channel token : Address.
Implicit Types (e : Env) (s : ChannelState) (t : TokenState) (y : Y).
Import PrivacyChannelContract.

Lemma frame_auth_token e args a (w w' : TokenWorld (Y:=Y)) :
  frame_auth e args a w = Ok w' → w'.1 = w.1 ∧ frame_auth e args a w.2 = Ok w'.2.
Proof.
  unfold frame_auth. simpl. rewrite res_bind_Ok. by intros (y & Hy & [= <-]).
Qed.

(** Governance and queries leave the token alone. *)
Lemma quiet_token depth e c s (w : TokenWorld (Y:=Y)) r s' w' :
  (∀ op, c ≠ CcTransact op) →
  channel_call depth e c (s, w) = Ok (r, (s', w')) → w'.1 = w.1.
Proof.
  destruct c as [op|a| |h|u|us| | | |]; intros Hc.
  { by destruct (Hc op). }
  all: destruct depth; cbn [channel_call]; rewrite ?unit_ret_Ok, ?on_fst_ret_Ok;
    try (by intros (b & _ & _ & ->)).
  1,2: intros [(o & (_ & a' & _ & [Hw _]%frame_auth_token)%transfer_ownership_spec & _)%channel_own_call_Ok _]; done.
  1,2: intros [(o & (p & _ & [Hw _]%frame_auth_token & _)%accept_ownership_spec & _)%channel_own_call_Ok _]; done.
  all: unfold upgrade; intros [(v & [s1 w1] & (o & Ho & _)%channel_own_call_Ok & Hr)%M_bind_Ok _];
    apply M_bind_Ok in Hr as (v2 & [s2 w2] & [_ ->]%on_fst_Ok & [_ ->]%on_fst_Ok);
    apply enforce_owner_auth_spec in Ho as (_ & a' & _ & [Hw _]%frame_auth_token); done.
Qed.

(** The channel's tokens cover its supply, and nobody else can move them. *)
Definition funded s t : Prop :=
  ch_total_supply s ≤ balance_of t channel ∧ token_wf t ∧ no_allowance channel t.

(** The host lets no contract authorize a call of its own entry points. *)
Hypothesis no_self_auth : ∀ cc (y y' : Y),
  require_auth_for channel cc y = Ok y' → contract cc ≠ channel.

Lemma transfer_token callee e a f g z s t y u s' t' y' :
  transfer (X:=TokenWorld) callee e a f g z (s, (t, y)) = Ok (u, (s', (t', y'))) →
  s' = s ∧ (token_wf t → token_wf t') ∧ tk_temporary t' = tk_temporary t ∧
  (∀ b, balance_of t' b = balance_of t b + (credit g z b - credit f z b)).
Proof.
  unfold transfer, asset_transfer, token_asset. simpl.
  destruct (TestToken.transfer (token_env e a "transfer") f (muxed_from g) z (t, y))
    as [[v [t2 y2]]|] eqn:E; [|done]. intros [= _ <- <- <-].
  pose proof E as Ht%transfer_temporary.
  apply transfer_Ok in E as (_ & _ & _ & Hb & _ & Hw & _). rewrite muxed_from_address in Hb.
  by split_and!.
Qed.

Lemma deposit_step_funded callee e a d s t y u s' t' y' :
  current_contract_address e = channel → funded s t →
  deposit_step (X:=TokenWorld) callee e a d (s, (t, y)) = Ok (u, (s', (t', y'))) →
  funded s' t' ∧ ch_asset s' = ch_asset s.
Proof.
  destruct d as [[from z] conds]. intros He (Hsup & Hwf & Hno). unfold deposit_step.
  intros (v & [s1 [t1 y1]] & [Ha%require_auth_for_args_Ok ->]%on_snd_Ok & Hr)%M_bind_Ok.
  apply frame_auth_token in Ha as [Ht1 Ha]. simpl in Ht1, Ha. subst t1.
  assert (Hne : from ≠ channel).
  { intros ->. apply no_self_auth in Ha. by rewrite He in Ha. }
  apply M_bind_Ok in Hr as (v2 & [s2 [t2 y2]] & Htr & Hr).
  apply transfer_token in Htr as (-> & Hw & Htmp & Hb).
  apply on_fst_Ok in Hr as [[_ ->]%increase_supply_Ok [= -> ->]]. split; [|done].
  unfold funded, no_allowance. rewrite Htmp. split_and!; [|auto|exact Hno].
  rewrite Hb, He. unfold credit. rewrite decide_True by done. rewrite decide_False by done.
  unfold ch_total_supply in *. simpl. lia.
Qed.

Lemma withdraw_step_funded callee e a d s t y u s' t' y' :
  current_contract_address e = channel → 0 < d.1.2 → funded s t →
  withdraw_step (X:=TokenWorld) callee e a d (s, (t, y)) = Ok (u, (s', (t', y'))) →
  funded s' t' ∧ ch_asset s' = ch_asset s.
Proof.
  destruct d as [[to z] conds]. simpl. intros He Hpos (Hsup & Hwf & Hno). unfold withdraw_step.
  intros (v & [s1 [t1 y1]] & [Ha ->]%on_snd_Ok & Hr)%M_bind_Ok.
  apply res_bind_Ok in Ha as (w & Ha & [= _ ->]). simpl in Ha.
  apply res_bind_Ok in Ha as (y2' & _ & [= <- <-]).
  apply M_bind_Ok in Hr as (v2 & [s2 [t2 y2]] & Htr & Hr).
  apply transfer_token in Htr as (-> & Hw & Htmp & Hb).
  apply on_fst_Ok in Hr as [[_ ->]%decrease_supply_Ok [= -> ->]]. split; [|done].
  unfold funded, no_allowance. rewrite Htmp. split_and!; [|auto|exact Hno].
  rewrite Hb, He. unfold credit. rewrite (decide_True (P:=channel = channel)) by done.
  unfold ch_total_supply in *. simpl. case_decide; lia.
Qed.

Lemma execute_funded callee e dep wd s t y u s' t' y' :
  current_contract_address e = channel → Forall (λ p, 0 < p.1.2) wd → funded s t →
  execute_external_operations (X:=TokenWorld) callee e dep wd (s, (t, y))
  = Ok (u, (s', (t', y'))) → funded s' t'.
Proof.
  intros He Hpos Hf. unfold execute_external_operations.
  intros (a & [s1 w1] & [(Has & ->)%read_asset_Ok ->]%on_fst_Ok & Hr)%M_bind_Ok.
  apply M_bind_Ok in Hr as (v & [s2 [t2 y2]] & Hd & Hw).
  apply (for_each_invariant (λ w, funded w.1 w.2.1)) in Hd.
  - apply (for_each_invariant (λ w, funded w.1 w.2.1)) in Hw; [done | | done].
    intros p [s3 [t3 y3]] v' [s4 [t4 y4]] Hp Hi Hstep.
    eapply withdraw_step_funded in Hstep as [? _]; [done | done | | done].
    rewrite Forall_forall in Hpos. by apply Hpos.
  - intros p [s3 [t3 y3]] v' [s4 [t4 y4]] _ Hi Hstep.
    by eapply deposit_step_funded in Hstep as [? _].
  - done.
Qed.

Lemma transact_funded callee e op s t y u s' t' y' :
  current_contract_address e = channel → funded s t →
  transact (X:=TokenWorld) callee e op (s, (t, y)) = Ok (u, (s', (t', y'))) → funded s' t'.
Proof.
  intros He Hf. unfold transact.
  intros (v1 & [s1 x1] & [[live ->]%channel_bump_Ok ->]%on_fst_Ok & Hr)%M_bind_Ok.
  apply M_bind_Ok in Hr as (v2 & [s2 x2] & [(_ & Hs2)%enter_guard_Ok ->]%on_fst_Ok & Hr).
  apply M_bind_Ok in Hr as ([[b td] tw] & [s3 x3] & [Hpre [= <- <-]]%lift_Ok & Hr).
  apply pre_process_Ok in Hpre as ((_ & _ & (Hpos & _) & _) & _ & _ & _).
  apply M_bind_Ok in Hr as (r & [s4 [t4 y4]] & Hb & Hr).
  apply M_bind_Ok in Hr as (v5 & [s5 [t5 y5]] & Hx & Hr).
  apply on_fst_Ok in Hr as [->%modify_Ok [= -> ->]].
  unfold on_utxo_world in Hb. apply zoom_Ok in Hb as ([us w] & Hb & Hs4).
  cbn [fst snd] in Hb, Hs4. injection Hs4 as -> <-.
  apply process_bundle_Ok in Hb as (_ & _ & (a & _ & [Ht _]%frame_auth_token) & _).
  simpl in Ht. subst t4 s2. by eapply execute_funded in Hx.
Qed.

Lemma call_funded depth e c s t y r s' t' y' :
  current_contract_address e = channel → 1 ≤ min_temporary_ttl e → funded s t →
  channel_call (X:=TokenWorld) depth e c (s, (t, y)) = Ok (r, (s', (t', y'))) → funded s' t'.
Proof.
  intros He Hmin Hf Hrun. destruct c as [op| | | | | | | | |].
  2-10: pose proof Hrun as Ht%quiet_token; [|done]; simpl in Ht; subst t';
    apply quiet_call in Hrun as (_ & Hs & _); [|done];
    unfold funded, ch_total_supply in *; by rewrite Hs.
  destruct depth as [|d]; [done|]. rewrite channel_call_transact in Hrun.
  apply unit_ret_Ok in Hrun as [Hrun _]. by eapply transact_funded in Hrun.
Qed.

(** Nothing can be drawn from the channel, and a direct call that the channel need not
    authorize leaves its tokens and allowances. *)
Lemma no_allowance_drawn e t sp : no_allowance channel t → allowance_of e t channel sp ≤ 0.
Proof.
  intros Hno. unfold allowance_of, temporary_get.
  destruct (tk_temporary t !! _) as [en|] eqn:E; [|lia]. apply Hno in E.
  destruct (live_until en <? ledger_sequence e); [lia|].
  destruct (expiration_ledger _ <? _); lia.
Qed.

Lemma token_call_spares e c t y t' y' :
  (∀ args, call_signer t c ≠ Some (channel, args)) → no_allowance channel t →
  token_call e c (t, y) = Ok (tt, (t', y')) → 0 ≤ call_delta c channel.
Proof.
  intros Hsig Hno (_ & _ & _ & _ & _ & Hdraw & Hpos)%token_call_Ok.
  pose proof (λ sp, no_allowance_drawn e t sp Hno) as Hzero. unfold call_delta, credit in *.
  destruct c as [to z|n|f sp|f sp z l|a|f m z|sp f g z|f z|sp f z]; simpl in *; try lia.
  + case_decide; lia.
  + rewrite (decide_False (P:=channel = f)) by (intros <-; by eapply Hsig).
    case_decide; lia.
  + specialize (Hdraw _ _ _ eq_refl). specialize (Hzero sp).
    destruct (decide (channel = f)) as [<-|]; case_decide; lia.
  + rewrite decide_False by (intros <-; by eapply Hsig). lia.
  + specialize (Hdraw _ _ _ eq_refl). specialize (Hzero sp).
    destruct (decide (channel = f)) as [<-|]; lia.
Qed.

Lemma token_call_funded e c s t y t' y' :
  (∀ args, call_signer t c ≠ Some (channel, args)) → funded s t →
  token_call e c (t, y) = Ok (tt, (t', y')) → funded s t'.
Proof.
  intros Hsig (Hsup & Hwf & Hno) Hrun.
  pose proof (token_call_spares _ _ _ _ _ _ Hsig Hno Hrun).
  pose proof (λ k, token_call_temporary _ _ _ _ _ _ _ k Hrun) as Htmp.
  apply token_call_Ok in Hrun as (Hb & _ & Hw & _). unfold funded.
  split_and!; [rewrite Hb; lia | auto |].
  intros sp en Hk. destruct (Htmp (Allowance (mkAllowanceDataKey _ channel sp)))
    as [E|(f & s2 & [= <- <-] & [(z & l & ->)|(z & _ & Hz)])].
  - rewrite E in Hk. by apply Hno in Hk.
  - simpl in Hsig. by destruct (Hsig [VAddress channel; VAddress sp; VI128 z; VU32 l]).
  - pose proof (no_allowance_drawn e t sp Hno). lia.
Qed.

Lemma step_solvent w w' :
  system_step channel w w' → solvent channel token w → solvent channel token w'.
Proof.
  intros Hstep. destruct Hstep as [d e c [s [t y]] r [s' [t' y']] He Hmin Hrun
    |e c s t y t' y' Hsig Hrun|s t y y'].
  - intros (Hsup & Htot & Has & Hwf & Hno).
    pose proof Hrun as (_ & Hd & Has' & _)%channel_call_funds; [|done].
    apply call_funded in Hrun as (Hsup' & Hwf' & Hno'); [|done..|by split_and!].
    unfold solvent. split_and!; [done | lia | congruence | done | done].
  - intros (Hsup & Htot & Has & Hwf & Hno).
    apply (token_call_funded _ _ s) in Hrun as (Hsup' & Hwf' & Hno'); [|done|by split_and!].
    by split_and!.
  - done.
Qed.
End solvency.

(** ** Lemmas: what the council's authorization of a bundle means *)

Section council.
Context `{Ownable} `{!SdkLaws} {X : Type} `{!HostAuth X} `{!CouncilHost X} `{!CouncilLaws X}.

Lemma requirements_empty (l : list (BytesN 65 * list Condition)) :
  NoDup (l.*1) → calculate_auth_requirements l = ∅ → l = [].
Proof.
  intros Hnd Hemp. destruct l as [|[u conds] l]; [done|].
  assert (Hk : calculate_auth_requirements ((u, conds) :: l) !! SKP256 u = Some conds).
  { unfold calculate_auth_requirements. rewrite requirements_fold by done. simpl.
    by rewrite decide_True by done. }
  by rewrite Hemp, lookup_empty in Hk.
Qed.

Lemma requirements_lookup (l : list (BytesN 65 * list Condition)) u conds :
  NoDup (l.*1) → (u, conds) ∈ l → calculate_auth_requirements l !! SKP256 u = Some conds.
Proof.
  intros Hnd Hin. unfold calculate_auth_requirements. rewrite requirements_fold by done.
  destruct (list_find _ l) as [[i [v cs]]|] eqn:E.
  - apply list_find_Some in E as (Hi & Hv & _). simpl in *. subst v. f_equal.
    apply list_elem_of_lookup in Hin as [j Hj].
    assert (i = j) as ->; [|congruence].
    eapply (NoDup_lookup (l.*1)); [done|..]; by rewrite list_lookup_fmap, ?Hi, ?Hj.
  - apply list_find_None in E. rewrite Forall_forall in E. by destruct (E _ Hin).
Qed.
End council.

Section council.
Context `{Ownable} `{!SdkLaws} `{!ConditionXdr} `{!ConditionXdrLaws} {X} `{!HostAuth X} `{!Asset X}.
Context `{!CouncilHost X} `{!CouncilLaws X}.

(** The signatures behind a [transact] that returns. *)
Lemma transact_signed depth (e : Env) (op : ChannelOperation) (s s' : ChannelState) (x x' : X) :
  1 ≤ min_temporary_ttl e → host_ledger x = ledger_sequence e →
  us_auth (ch_utxo s) = Some council_address →
  PrivacyChannelContract.transact (PrivacyChannelContract.channel_call depth e) e op (s, x)
    = Ok (tt, (s', x')) →
  ∃ payload signatures,
    (∃ pk entry, signatures !! SKProvider pk = Some entry ∧
       provider_entry_valid e payload (au_providers (council_state x)) pk entry) ∧
    ∀ u conds, (u, conds) ∈ op_spend op →
      conds ≠ [] ∧ owner_signed e signatures (current_contract_address e) u conds.
Proof.
  intros Hmin Hnow Hbound Hrun.
  apply transact_Ok in Hrun as (_ & _ & [Hnd _] & _ & _ & (a & y & Ha & Hreq) & _); [|done].
  apply NoDup_fmap_1 in Hnd. rewrite Hbound in Ha. injection Ha as <-.
  apply council_checked in Hreq as (e' & payload & sigs & ctxs & s2 & He & Hin & Hok).
  rewrite Hnow in He. apply check_auth_accepts in Hok as ((pk & entry & Hpk & Hp) & Hctx).
  exists payload, sigs. split.
  { exists pk, entry. split; [done|]. unfold provider_entry_valid in *. by rewrite <- He. }
  intros u conds Hu. pose proof (requirements_lookup _ _ _ Hnd Hu) as Hk.
  destruct (Hctx _ Hin) as (cc & [= <-] & Hargs). unfold bundle_auth_args in Hargs. simpl in Hargs.
  rewrite decide_False in Hargs by (intros E; by rewrite E, lookup_empty in Hk).
  destruct Hargs as [|(reqs & rest & [= <- <-] & Hne & Hown)]; [done|]. split; [by eapply Hne|].
  destruct (Hown _ _ Hk) as (sig & vu & Hs & Hvu & Hv). exists sig, vu. by rewrite <- He.
Qed.
End council.

(** ** Properties *)

(** C3. Solvency of the system: however the channel and the token are called, in any order, by
    anyone, within or across transactions, the channel always holds at least as many tokens as
    its unspent outputs are worth, and nobody ever gets an allowance on them. *)
Theorem system_solvent `{OwnableLaws} `{!SdkLaws} `{!TokenSdk} `{!TokenSdkLaws}
    `{!ConditionXdr} `{!ConditionXdrLaws} {Y} `{!HostAuth Y} (channel token : Address)
    (no_self_auth : ∀ cc (y y' : Y), require_auth_for channel cc y = Ok y' →
                                     contract cc ≠ channel)
    (w w' : ChannelState * (TokenState * Y))
    (Hw : solvent channel token w) (Hsteps : rtc (system_step channel) w w') :
  solvent channel token w'.
Proof. induction Hsteps as [|w1 w2 w3 Hstep _ IH]; [done|]. by eapply IH, step_solvent. Qed.

(** C1. Who must have signed a transaction: when [transact] returns on a channel bound to the
    Quorum Auth contract, a registered provider signed it with a live signature, and for every
    spent utxo the holder of its P256 key signed, live and for this channel, the very
    conditions listed with the spend, which are not empty. *)
Theorem transact_needs_owner_and_provider `{Ownable} `{!SdkLaws} `{!ConditionXdr}
    `{!ConditionXdrLaws} {X} `{!HostAuth X} `{!Asset X} `{!CouncilHost X} `{!CouncilLaws X}
    (depth : nat) (e : Env) (op : ChannelOperation) (s s' : ChannelState) (x x' : X)
    (Hmin : 1 ≤ min_temporary_ttl e) (Hnow : host_ledger x = ledger_sequence e)
    (Hbound : us_auth (ch_utxo s) = Some council_address)
    (Hrun : PrivacyChannelContract.transact (PrivacyChannelContract.channel_call depth e) e op
              (s, x) = Ok (tt, (s', x'))) :
  ∃ payload signatures,
    (∃ pk entry, signatures !! SKProvider pk = Some entry ∧
       provider_entry_valid e payload (au_providers (council_state x)) pk entry) ∧
    ∀ u conds, (u, conds) ∈ op_spend op →
      conds ≠ [] ∧ owner_signed e signatures (current_contract_address e) u conds.
Proof. by eapply transact_signed. Qed.
