(* ===== verification/Binding.v ===== *)
(** What a signature over a payload binds ([hash_payload] of modules/primitives/src/lib.rs): how
    the payload can be read, and what this means for the owner of an output the channel spends. *)
From S2P Require Import Prelude Errors Host Primitives Storage HostAuth Auth ChannelAuth UtxoCore.
From S2P Require Import Channel ChannelSpec System.

Section meaning.
Context `{Sdk}.
Implicit Types cs : list Condition.

(** The amounts are [i128]s. *)
Definition amounts_typed cs : Prop :=
  Forall wf_external (deposits cs) ∧ Forall wf_external (withdraws cs) ∧
  Forall (λ p, in_i128 p.2 = true) (creates cs) ∧
  Forall (λ p, in_i128 p.2 = true) (integrations cs).

(** The deposits and withdrawals, as the payload lists them. *)
Definition externals cs : list (Address * Z) := deposits cs ++ withdraws cs.

(** The payload after the creates. *)
Definition payload_tail (p : AuthPayload) : Bytes :=
  mjoin (enc_external <$> externals (conditions p))
    ++ mjoin (enc_integration <$> integrations (conditions p))
    ++ u32_to_le_bytes (live_until_ledger p).

(** The hash tells these two byte strings apart. *)
Definition no_collision (a b : Bytes) : Prop := sha256 a = sha256 b → a = b.
End meaning.

(** ** Lemmas *)

Section parsing.
Context `{SdkLaws}.
Implicit Types cs : list Condition.

Lemma payload_split (p : AuthPayload) contract :
  payload_bytes p contract =
  contract ++ mjoin (enc_create <$> creates (conditions p)) ++ payload_tail p.
Proof.
  rewrite payload_bytes_groups. unfold payload_tail, externals.
  by rewrite fmap_app, join_app, <- !app_assoc.
Qed.

Lemma address_block_head a l : head (address_to_string a ++ l) ≠ Some Init.Byte.x04.
Proof.
  destruct (address_to_string_head a) as [Ha|Ha]; destruct (address_to_string a); simplify_eq/=;
    done.
Qed.

(** Only the expiry can start with the first byte of a create. *)
Lemma payload_tail_head (p : AuthPayload) :
  head (payload_tail p) = Some Init.Byte.x04 → length (payload_tail p) = 4%nat.
Proof.
  unfold payload_tail. destruct (externals (conditions p)) as [|[a z] ws].
  - destruct (integrations (conditions p)) as [|[[a us] z] rest].
    + intros _. apply length_le_bytes.
    + simpl. unfold enc_integration at 1. simpl. rewrite <- !app_assoc.
      by intros []%address_block_head.
  - simpl. unfold enc_external at 1. simpl. rewrite <- !app_assoc. by intros []%address_block_head.
Qed.

(** Well-formed creates at the front are read as creates, whatever the other payload holds. *)
Lemma creates_prefix us us' rest q :
  Forall wf_create us → Forall (λ p, in_i128 p.2 = true) us' →
  mjoin (enc_create <$> us) ++ rest = mjoin (enc_create <$> us') ++ payload_tail q →
  ∃ us'', us' = us ++ us'' ∧ rest = mjoin (enc_create <$> us'') ++ payload_tail q.
Proof.
  intros Hus. revert us'. induction Hus as [|u us Hu _ IH]; intros us' Hus' E; [by exists us'|].
  destruct Hus' as [|u' us' Hu' Hus']; simpl in E; rewrite <- ?app_assoc in E.
  - assert (Hh : head (payload_tail q) = Some Init.Byte.x04).
    { rewrite <- E. destruct Hu as [Hu _]. unfold enc_create. by destruct (to_array u.1). }
    apply payload_tail_head in Hh. rewrite <- E, length_app, length_enc_create in Hh. lia.
  - apply app_inj_1 in E as [E1 E2]; [|by rewrite !length_enc_create].
    assert (wf_create u').
    { split; [|done]. unfold enc_create in E1.
      apply app_inj_1 in E1 as [E1 _]; [|by rewrite !length_to_array]. rewrite <- E1. apply Hu. }
    apply enc_create_inj in E1 as ->; [|done..].
    destruct (IH _ Hus' E2) as (us'' & -> & ->). by exists us''.
Qed.

(** A list of conditions with no externals and no integrations is its creates. *)
Lemma only_creates cs :
  externals cs = [] → integrations cs = [] → cs = (λ p, Create p.1 p.2) <$> creates cs.
Proof.
  unfold externals. intros [Hd Hw]%app_nil Hi.
  induction cs as [|[u a|a z|a z|a us z] cs IH]; simplify_eq/=; [done|]. f_equal. by apply IH.
Qed.

Lemma elem_of_creates cs u a : Create u a ∈ cs ↔ (u, a) ∈ creates cs.
Proof. unfold creates. rewrite list_elem_of_omap. split; [naive_solver|]. intros ([] & ? & ?); naive_solver. Qed.

Lemma elem_of_withdraws cs a z : ExtWithdraw a z ∈ cs ↔ (a, z) ∈ withdraws cs.
Proof. unfold withdraws. rewrite list_elem_of_omap. split; [naive_solver|]. intros ([] & ? & ?); naive_solver. Qed.

Lemma elem_of_integrations cs a us z : ExtIntegration a us z ∈ cs ↔ (a, us, z) ∈ integrations cs.
Proof. unfold integrations. rewrite list_elem_of_omap. split; [naive_solver|]. intros ([] & ? & ?); naive_solver. Qed.

Lemma elem_of_deposits cs a z : ExtDeposit a z ∈ cs ↔ (a, z) ∈ deposits cs.
Proof. unfold deposits. rewrite list_elem_of_omap. split; [naive_solver|]. intros ([] & ? & ?); naive_solver. Qed.
End parsing.

Section reading_externals.
Context `{SdkLaws}.
Implicit Types (ws rest : list (Address * Z)) (ints : list (Address * list (BytesN 65) * Z)).

(** Two runs of external blocks are read in step, until one of them ends. *)
Lemma externals_prefix ws ws' t t' :
  Forall wf_external ws → Forall wf_external ws' →
  mjoin (enc_external <$> ws) ++ t = mjoin (enc_external <$> ws') ++ t' →
  (∃ more, ws' = ws ++ more) ∨
  (∃ rest, ws = ws' ++ rest ∧ mjoin (enc_external <$> rest) ++ t = t').
Proof.
  intros Hws. revert ws'. induction Hws as [|w ws Hw Hws IH]; intros ws' Hws' E; [left; by eexists|].
  destruct Hws' as [|w' ws' Hw' Hws']; [right; by exists (w :: ws)|].
  simpl in E. rewrite <- !app_assoc in E.
  apply app_inj_1 in E as [Ew%enc_external_inj E]; [|by rewrite ?length_enc_external..]. subst w'.
  destruct (IH ws' Hws' E) as [[more ->]|(rest & -> & Er)]; [left; by exists more | right; by exists rest].
Qed.

(** An integration that lists no key is encoded like an external. *)
Lemma enc_integration_nil a z : enc_integration (a, [], z) = enc_external (a, z).
Proof. done. Qed.

Lemma externals_in_integrations rest t ints :
  Forall wf_external rest → Forall (λ i, in_i128 i.2 = true) ints → Forall (λ i, i.1.2 = []) ints →
  mjoin (enc_external <$> rest) ++ t = mjoin (enc_integration <$> ints) →
  ∀ a z, (a, z) ∈ rest → (a, [], z) ∈ ints.
Proof.
  intros Hrest His Hnil. revert ints His Hnil.
  induction Hrest as [|w rest Hw _ IH]; intros ints His Hnil E a z Haz; [by apply not_elem_of_nil in Haz|].
  destruct ints as [|[[a' us] z'] ints].
  { apply (f_equal length) in E. simpl in E. rewrite !length_app, length_enc_external in E. simpl in E. lia. }
  apply Forall_cons in His as [Hi His], Hnil as [Hu Hnil]. simpl in *. subst us.
  rewrite enc_integration_nil, <- app_assoc in E.
  apply app_inj_1 in E as [Ew%enc_external_inj E]; [|by rewrite ?length_enc_external..]. subst w.
  apply elem_of_cons in Haz as [[= <- <-]|Haz]; [by left | right; by eapply IH].
Qed.

Lemma mjoin_cons {A} (l : list A) ls : mjoin (l :: ls) = l ++ mjoin ls.
Proof. done. Qed.

Lemma length_enc_externals ws : length (mjoin (enc_external <$> ws)) = (72 * length ws)%nat.
Proof.
  induction ws as [|w ws IH]; [done|]. rewrite fmap_cons. rewrite mjoin_cons.
  rewrite length_app, length_enc_external, IH, length_cons. lia.
Qed.

Lemma length_enc_integration i : length (enc_integration i) = (72 + 65 * length i.1.2)%nat.
Proof.
  assert (Hk : ∀ us : list (BytesN 65), length (mjoin (to_array <$> us)) = (65 * length us)%nat).
  { induction us as [|u us IH]; [done|]. rewrite fmap_cons. rewrite mjoin_cons.
    rewrite length_app, length_to_array, IH, length_cons. lia. }
  unfold enc_integration, i128_to_le_bytes.
  rewrite !length_app, length_address_to_string, length_le_bytes, Hk. lia.
Qed.

Lemma length_enc_integrations ints :
  length (mjoin (enc_integration <$> ints))
  = (72 * length ints + 65 * sum_list_with (λ i, length i.1.2) ints)%nat.
Proof.
  induction ints as [|i ints IH]; [done|]. rewrite fmap_cons. rewrite mjoin_cons. cbn [sum_list_with].
  rewrite length_app, length_enc_integration, IH, length_cons. lia.
Qed.

(** Keys can make up for externals only 72 at a time. *)
Lemma integration_keys_short rest ints :
  (length rest ≤ 65)%nat → mjoin (enc_external <$> rest) = mjoin (enc_integration <$> ints) →
  Forall (λ i, i.1.2 = []) ints.
Proof.
  intros Hshort E%(f_equal length). rewrite length_enc_externals, length_enc_integrations in E.
  assert (Hz : sum_list_with (λ i, length i.1.2) ints = 0%nat).
  { destruct ints as [|i ints]; [done|]. rewrite length_cons in E. lia. }
  clear E Hshort. induction ints as [|[[a us] z] ints IH]; constructor; simpl in Hz.
  - destruct us; simpl in *; [done | lia].
  - apply IH. lia.
Qed.
End reading_externals.

Section binding.
Context `{SdkLaws}.
Implicit Types cs : list Condition.

(** What equal payloads have in common, when the creates of the first are well formed. *)
Lemma payload_creates cs0 cs live0 live contract :
  Forall wf_create (creates cs0) → Forall (λ p, in_i128 p.2 = true) (creates cs) →
  payload_bytes (mkAuthPayload _ cs0 live0) contract
    = payload_bytes (mkAuthPayload _ cs live) contract →
  ∃ more, creates cs = creates cs0 ++ more ∧
    payload_tail (mkAuthPayload _ cs0 live0)
    = mjoin (enc_create <$> more) ++ payload_tail (mkAuthPayload _ cs live).
Proof.
  intros Hwf Hty. rewrite !payload_split. intros E%app_inv_head. simpl in E.
  by apply (creates_prefix _ _ _ (mkAuthPayload _ cs live)) in E.
Qed.

(** A payload of creates only is read in one way. *)
Lemma payload_creates_only cs0 cs live0 live contract :
  Forall wf_create (creates cs0) → Forall (λ p, in_i128 p.2 = true) (creates cs) →
  externals cs0 = [] → integrations cs0 = [] →
  payload_bytes (mkAuthPayload _ cs0 live0) contract
    = payload_bytes (mkAuthPayload _ cs live) contract → cs = cs0.
Proof.
  intros Hwf Hty He0 Hi0 E. apply payload_creates in E as (more & Hc & E); [|done..].
  unfold payload_tail in E. simpl in E. rewrite He0, Hi0 in E. simpl in E.
  apply (f_equal length) in E.
  rewrite !length_app in E. unfold u32_to_le_bytes in E. rewrite !length_le_bytes in E.
  assert (more = []) as ->.
  { destruct more as [|p more]; [done|]. simpl in E. rewrite length_app, length_enc_create in E. lia. }
  assert (Hext : externals cs = []).
  { destruct (externals cs) as [|p ws]; [done|].
    simpl in E. rewrite length_app, length_enc_external in E. lia. }
  assert (Hint : integrations cs = []).
  { destruct (integrations cs) as [|[[a us] z] is']; [done|]. simpl in E.
    unfold enc_integration at 1 in E. rewrite !length_app, length_address_to_string in E. lia. }
  rewrite (only_creates cs), (only_creates cs0) by done. by rewrite Hc, app_nil_r.
Qed.

(** The expiry is always the last four bytes. *)
Lemma payload_expiry p q contract :
  in_u32 (live_until_ledger p) = true → in_u32 (live_until_ledger q) = true →
  payload_bytes p contract = payload_bytes q contract →
  live_until_ledger p = live_until_ledger q.
Proof.
  intros Hp Hq. rewrite !payload_split. unfold payload_tail. rewrite !app_assoc.
  intros [_ E]%app_inj_2; [by apply u32_to_le_bytes_inj|].
  unfold u32_to_le_bytes. by rewrite !length_le_bytes.
Qed.

(** Where an external of the first of two equal payloads can have gone in the second: it is an
    external there too, or an integration that lists no key, or its bytes are among the keys of
    integrations (possible between lists of more than 65 externals only), or they follow a create
    whose key starts like an address. *)
Lemma payload_external_goes cs0 cs live0 live contract a z :
  amounts_typed cs0 → amounts_typed cs → Forall wf_create (creates cs0) →
  payload_bytes (mkAuthPayload _ cs0 live0) contract
    = payload_bytes (mkAuthPayload _ cs live) contract →
  (a, z) ∈ externals cs0 →
  (a, z) ∈ externals cs ∨ (a, [], z) ∈ integrations cs ∨
  (∃ a' us z', us ≠ [] ∧ (a', us, z') ∈ integrations cs ∧
     (integrations cs0 = [] → (65 < length (externals cs0))%nat)) ∨
  (∃ k b, (k, b) ∈ creates cs ∧ head (to_array k) ≠ Some Init.Byte.x04).
Proof.
  intros (Hd0 & Hw0 & _ & Hi0) (Hd & Hw & Hc & Hi) Hwf E Haz.
  apply payload_creates in E as (more & Hmore & E); [|done..].
  destruct more as [|[k b] more].
  2:{ right; right; right. exists k, b. split; [rewrite Hmore; set_solver|]. intros Hk.
      assert (Hh : head (payload_tail (mkAuthPayload _ cs0 live0)) = Some Init.Byte.x04).
      { rewrite E. simpl. unfold enc_create at 1. simpl. by destruct (to_array k). }
      apply payload_tail_head in Hh. rewrite E in Hh. simpl in Hh.
      rewrite !length_app, length_enc_create in Hh. lia. }
  unfold payload_tail in E. simpl in E.
  apply externals_prefix in E as [[ms Hms]|(rest & Hrest & E)]; [| |by apply Forall_app..].
  { left. rewrite Hms. apply elem_of_app. by left. }
  rewrite Hrest in Haz. apply elem_of_app in Haz as [Haz|Haz]; [by left|]. right.
  rewrite app_assoc in E. apply app_inj_2 in E as [E _];
    [|unfold u32_to_le_bytes; by rewrite !length_le_bytes].
  assert (Hwr : Forall wf_external rest).
  { assert (Hall : Forall wf_external (externals cs0)) by by apply Forall_app.
    rewrite Hrest in Hall. by apply Forall_app in Hall as [_ ?]. }
  destruct (decide (Forall (λ i, i.1.2 = []) (integrations cs))) as [Hnil|Hnil].
  { left. by eapply externals_in_integrations. }
  right; left. pose proof Hnil as ([[a' us] z'] & Hin & Hus)%not_Forall_Exists%Exists_exists; [|apply _].
  exists a', us, z'. split_and!; [done..|]. intros Hno. rewrite Hrest, length_app.
  destruct (decide (length rest ≤ 65)%nat) as [Hs|]; [|lia]. destruct Hnil.
  apply (integration_keys_short rest); [done|]. rewrite <- E, Hno. simpl. by rewrite app_nil_r.
Qed.

(** Between well-formed lists without integrations the payload forgets only where the deposits
    end and the withdrawals begin. *)
Lemma payload_externals cs0 cs live0 live contract :
  Forall wf_create (creates cs0) → Forall wf_create (creates cs) →
  Forall wf_external (externals cs0) → Forall wf_external (externals cs) →
  integrations cs0 = [] → integrations cs = [] →
  payload_bytes (mkAuthPayload _ cs0 live0) contract
    = payload_bytes (mkAuthPayload _ cs live) contract →
  creates cs0 = creates cs ∧ externals cs0 = externals cs.
Proof.
  intros Hc0 Hc Hx0 Hx Hi0 Hi. rewrite !payload_split. intros E%app_inv_head.
  unfold payload_tail in E. simpl in E. rewrite Hi0, Hi in E. simpl in E.
  apply create_blocks_inj in E as (-> & -> & _); [done..| |]; apply length_le_bytes.
Qed.
End binding.

(** ** Properties *)

(** C25. Exactly what the signed payload binds.  Between condition lists without integrations
    whose create keys are SEC1 points, with [i128] amounts and [u32] expiries, two payloads for a
    contract are equal exactly when they have the same creates in the same order, the same
    addresses and amounts of deposits and withdrawals in the same order, and the same expiry: what
    is lost is which of these are deposits and which are withdrawals, and the order between
    different kinds, nothing else. *)
Theorem payload_ambiguity_exact `{SdkLaws} (p q : AuthPayload) (contract : Bytes)
    (Hcreates : Forall wf_create (creates (conditions p)) ∧
                Forall wf_create (creates (conditions q)))
    (Hexternals : Forall wf_external (externals (conditions p)) ∧
                  Forall wf_external (externals (conditions q)))
    (Hno : integrations (conditions p) = [] ∧ integrations (conditions q) = [])
    (Hlive : in_u32 (live_until_ledger p) = true ∧ in_u32 (live_until_ledger q) = true) :
  payload_bytes p contract = payload_bytes q contract ↔
  creates (conditions p) = creates (conditions q) ∧
  externals (conditions p) = externals (conditions q) ∧
  live_until_ledger p = live_until_ledger q.
Proof.
  destruct p as [cs0 live0], q as [cs live], Hcreates, Hexternals, Hno, Hlive; simpl in *. split.
  - intros E. destruct (payload_externals cs0 cs live0 live contract) as [-> ->]; [done..|].
    split_and!; [done..|]. by apply (payload_expiry (mkAuthPayload _ cs0 live0)
      (mkAuthPayload _ cs live) contract).
  - intros (Hc & Hx & ->). rewrite !payload_split. unfold payload_tail. simpl. congruence.
Qed.

(** C2. What an owner is protected from.  When [transact] returns and spends the output of the
    key [u], that key signed a payload that had not expired; and for any conditions and expiry the
    owner may have meant by it (their amounts [i128]s, their create keys SEC1 points, no collision
    of the hash), whatever conditions the bundle gives: the expiry was the owner's; every [Create]
    the owner meant is in the ledger with its amount; if the owner meant creates only, the bundle's
    conditions are the owner's; and every withdrawal the owner meant was executed, unless the
    bundle's conditions hold, in its place, one of the four things the payload does not tell from
    it: a deposit by the same address of the same amount; an integration with the same address and
    amount and no keys; an integration with keys (when the owner meant no integrations, this takes
    more than 65 deposits and withdrawals among what the owner meant); or a create whose key is
    not an SEC1 point. *)
Theorem owner_is_protected `{Ownable} `{!SdkLaws} `{!ConditionXdr} `{!ConditionXdrLaws} {X}
    `{!HostAuth X} `{!Asset X} `{!CouncilHost X} `{!CouncilLaws X}
    (depth : nat) (e : Env) (op : ChannelOperation) (s s' : ChannelState) (x x' : X)
    (u : BytesN 65) (conds : list Condition) (channel := address_to_string (current_contract_address e))
    (Hmin : 1 ≤ min_temporary_ttl e) (Hnow : host_ledger x = ledger_sequence e)
    (Hbound : us_auth (ch_utxo s) = Some council_address)
    (Hrun : PrivacyChannelContract.transact (PrivacyChannelContract.channel_call depth e) e op
              (s, x) = Ok (tt, (s', x')))
    (Hu : (u, conds) ∈ op_spend op) (Htyped : amounts_typed conds) :
  ∃ sig live, ledger_sequence e ≤ live ∧
    secp256r1_verify u (hash_payload (mkAuthPayload _ conds live) channel) sig = true ∧
    ∀ meant live0, amounts_typed meant → Forall wf_create (creates meant) →
      hash_payload (mkAuthPayload _ meant live0) channel
        = hash_payload (mkAuthPayload _ conds live) channel →
      no_collision (payload_bytes (mkAuthPayload _ meant live0) channel)
        (payload_bytes (mkAuthPayload _ conds live) channel) →
      (in_u32 live0 = true → in_u32 live = true → ledger_sequence e ≤ live0) ∧
      (∀ k a, Create k a ∈ meant → ch_ledger s' !! Store.utxo_key k = Some a) ∧
      (externals meant = [] → integrations meant = [] → conds = meant) ∧
      (∀ a z, ExtWithdraw a z ∈ meant →
         (∃ cs, (a, z, cs) ∈ op_withdraw op) ∨
         ExtDeposit a z ∈ conds ∨
         ExtIntegration a [] z ∈ conds ∨
         (∃ a' us z', us ≠ [] ∧ ExtIntegration a' us z' ∈ conds ∧
            (integrations meant = [] → (65 < length (externals meant))%nat)) ∨
         (∃ k b, Create k b ∈ conds ∧ head (to_array k) ≠ Some Init.Byte.x04)).
Proof.
  pose proof (transact_signed _ _ _ _ _ _ _ Hmin Hnow Hbound Hrun) as (payload & sigs & _ & Hown).
  pose proof (signed_effects_done _ _ _ _ _ _ _ _ Hmin Hrun) as (Hcreated & Hpaid & _).
  destruct (Hown u conds Hu) as [_ (sig & live & _ & Hlive & Hsig)].
  exists sig, live. split_and!; [done|done|].
  intros meant live0 Hmeant Hwf Hhash Hno. apply Hno in Hhash as E. clear Hno Hhash.
  assert (Hin : ∀ c, c ∈ conds → c ∈ mjoin (snd <$> op_spend op) ++ mjoin (snd <$> op_deposit op)).
  { intros c Hcin. apply elem_of_app. left. apply list_elem_of_join. exists conds.
    split; [done|]. by apply (list_elem_of_fmap_2 snd _ (u, conds)). }
  split_and!.
  - intros Hl0 Hl. apply payload_expiry in E; [|done..]. simpl in E. lia.
  - intros k a Hk. apply Hcreated, Hin, elem_of_creates.
    apply payload_creates in E as (more & -> & _); [|done|apply Htyped].
    apply elem_of_app. left. by apply elem_of_creates.
  - intros He Hi. eapply payload_creates_only; [done|apply Htyped|done..].
  - intros a z Haz%elem_of_withdraws.
    destruct (payload_external_goes meant conds live0 live channel a z)
      as [Hx|[Hx|[(a' & us & z' & Hus & Hx & Hlen)|(k & b & Hx & Hk)]]];
      [done..|apply elem_of_app; by right| | | |].
    + apply elem_of_app in Hx as [Hx|Hx]; [right; left; by apply elem_of_deposits | left].
      by apply Hpaid, Hin, elem_of_withdraws.
    + right; right; left. by apply elem_of_integrations.
    + do 3 right. left. exists a', us, z'. by rewrite elem_of_integrations.
    + do 4 right. exists k, b. by rewrite elem_of_creates.
Qed.
