(* ===== verification/SystemLive.v ===== *)
(** The way out: a bundle of outputs whose owners and whose provider signed is executed by the
    channel, the Quorum Auth contract and the token together, and its recipients are paid; and so is
    one that reads the owners' signatures in a way they did not mean.

    [TransactionLaws] is what the host promises of a transaction that carries an entry of the
    auth contract, and of a contract that authorizes its own sub-calls. *)
From S2P Require Import Prelude Errors Host Primitives Storage HostAuth Auth ChannelAuth UtxoCore.
From S2P Require Import Channel ChannelSpec ChannelLive ChannelBounds Token System.

(** The transaction carries an unused entry in the name of the auth contract: its payload, its
    signatures and the invocations it covers. *)
Class Transaction `{Ownable} (Y : Type) `{!CouncilHost Y} := {
  entry_attached : Y → BytesN 32 → Signatures → list Context → Prop;
}.

(** As documented: the host asks [__check_auth] about such an entry and authorizes the
    invocations it covers when it returns; and a contract that authorizes a call to another one
    may make it. *)
Class TransactionLaws `{Ownable} (Y : Type) `{!HostAuth Y} `{!CouncilHost Y} `{!Transaction Y}
    : Prop := {
  entry_accepted e payload signatures contexts s' cc y :
    entry_attached y payload signatures contexts → Contract cc ∈ contexts →
    contract cc ≠ council_address → ledger_sequence e = host_ledger y →
    ChannelAuthContract.__check_auth e payload signatures contexts (council_state y)
    = Ok (tt, s') →
    ∃ y', require_auth_for council_address cc y = Ok y';
  invoker_accepted e cc y :
    contract cc ≠ current_contract_address e → current_contract_address e ≠ council_address →
    ∃ y1 y2, authorize_as_current_contract e [cc] y = Ok y1 ∧
      require_auth_for (current_contract_address e) cc y1 = Ok y2;
}.

(** What withdrawals pay to an address, and whether its balance has room for them. *)
Definition paid_to `{Sdk} (ext : list (Address * Z * list Condition)) (b : Address) : Z :=
  sumZ (λ p, credit p.1.1 p.1.2 b) ext.

Definition has_room `{TokenSdk} (channel : Address) (t : TokenState)
    (ext : list (Address * Z * list Condition)) : Prop :=
  Forall (λ p, p.1.1 ≠ channel → balance_of t p.1.1 + p.1.2 ≤ i128_max) ext.

(** ** Lemmas *)

Section recipients.
Context `{Sdk}.
Implicit Types ext : list (Address * Z * list Condition).

(** A recipient gets what its withdrawal says, and everybody else nothing. *)
Lemma paid_to_not_elem ext b : b ∉ ext.*1.*1 → paid_to ext b = 0.
Proof.
  unfold paid_to. induction ext as [|[[b' w] cs'] ext IH]; intros Hb; [done|].
  simpl in *. rewrite IH by set_solver. unfold credit. rewrite decide_False; [done | set_solver].
Qed.

Lemma paid_to_elem ext to z cs :
  NoDup (ext.*1.*1) → (to, z, cs) ∈ ext → paid_to ext to = z.
Proof.
  induction ext as [|[[to' z'] cs'] ext IH]; simpl; [set_solver|].
  rewrite NoDup_cons. intros [Hn Hnd] Hin. unfold paid_to. simpl. fold (paid_to ext to).
  apply elem_of_cons in Hin as [[= -> -> ->]|Hin]; unfold credit.
  - rewrite decide_True, paid_to_not_elem by done. lia.
  - assert (to ≠ to').
    { intros ->. apply Hn. change to' with (to', z, cs).1.1. by do 2 apply list_elem_of_fmap_2. }
    rewrite decide_False, IH by done. lia.
Qed.

Lemma paid_to_range ext b :
  Forall (λ p, 0 < p.1.2) ext → 0 ≤ paid_to ext b ≤ external_total ext.
Proof.
  induction 1 as [|[[to z] cs] ext Hz _ IH]; [done|].
  unfold paid_to, external_total, credit in *. simpl in *. case_decide; lia.
Qed.
End recipients.

Section exit.
Context `{Ownable} `{!SdkLaws} `{!TokenSdk} `{!TokenSdkLaws} `{!ConditionXdr}
  `{!ConditionXdrLaws} {Y : Type} `{!HostAuth Y} `{!CouncilHost Y} `{!Transaction Y}
  `{!TransactionLaws Y}.
Implicit Types (e : Env) (t : TokenState) (y : Y) (ext : list (Address * Z * list Condition)).

(** One withdrawal: the channel authorizes the transfer, and the token makes it. *)
Lemma withdrawal_settles e token to z t y :
  token_wf t → 0 ≤ z ≤ balance_of t (current_contract_address e) →
  (to ≠ current_contract_address e → balance_of t to + z ≤ i128_max) →
  token ≠ current_contract_address e → current_contract_address e ≠ council_address →
  ∃ y1 t' y',
    authorize_as_current_contract e
      [mkContractContext _ token "transfer"
         [VAddress (current_contract_address e); VAddress to; VI128 z]] (t, y) = Ok (t, y1) ∧
    quiet_transfer e token (current_contract_address e) to z (t, y1) (t', y') ∧
    token_wf t' ∧
    ∀ b, balance_of t' b
      = balance_of t b + (credit to z b - credit (current_contract_address e) z b).
Proof.
  intros Hwf Hz Hroom Htok Hself.
  destruct (invoker_accepted e (mkContractContext _ token "transfer"
    [VAddress (current_contract_address e); VAddress to; VI128 z]) y) as (y1 & y2 & H1' & H2');
    [done..|]. exists y1.
  pose proof (transfer_run (token_env e token "transfer") (current_contract_address e)
    (muxed_from to) z t y1 Hwf) as Hr.
  rewrite muxed_from_address, muxed_from_val in Hr. unfold frame_auth in Hr. simpl in Hr.
  rewrite H2' in Hr. destruct (Z.ltb_spec z 0); [lia|].
  destruct (Z.ltb_spec (balance_of t (current_contract_address e)) z); [lia|].
  rewrite (proj2 (Z.ltb_ge _ _)) in Hr.
  - destruct Hr as (t' & Ht & Hw & Hb & _). exists t', y2. split_and!; [| |done|done].
    + simpl. by rewrite H1'.
    + unfold quiet_transfer, asset_transfer, token_asset. by rewrite Ht.
  - pose proof (wf_balance_range t to Hwf). case_decide; [lia|]. apply Hroom. congruence.
Qed.

Lemma withdrawals_settle e token ext t y :
  token_wf t → Forall (λ p, 0 < p.1.2) ext → NoDup (ext.*1.*1) →
  external_total ext ≤ balance_of t (current_contract_address e) →
  has_room (current_contract_address e) t ext →
  token ≠ current_contract_address e → current_contract_address e ≠ council_address →
  ∃ t' y', withdraws_settle e token ext (t, y) (t', y') ∧ token_wf t' ∧
    ∀ b, balance_of t' b
      = balance_of t b + (paid_to ext b - credit (current_contract_address e) (external_total ext) b).
Proof.
  revert t y. induction ext as [|[[to z] cs] ext IH]; intros t y Hwf Hpos Hnd Htot Hroom Htok Hself.
  - exists t, y. split_and!; [constructor | done |]. intros b. unfold credit, paid_to. simpl.
    case_decide; lia.
  - apply Forall_cons in Hpos as [Hz Hpos], Hroom as [Hto Hroom]. apply NoDup_cons in Hnd as [Hn Hnd].
    rewrite external_total_cons in *. cbn [fst snd] in *.
    pose proof (external_total_nonneg _ Hpos).
    destruct (withdrawal_settles e token to z t y) as (y1 & t1 & y2 & Ha & Ht & Hw1 & Hb1);
      [done | lia | done.. |].
    destruct (IH t1 y2) as (t' & y' & Hset & Hw' & Hb'); try done.
    + rewrite Hb1. unfold credit. repeat case_decide; (congruence || lia).
    + unfold has_room in *. rewrite Forall_forall in *. intros p Hp Hne.
      assert (p.1.1 ≠ to).
      { intros <-. apply Hn. by do 2 apply list_elem_of_fmap_2. }
      specialize (Hroom p Hp Hne). rewrite Hb1. unfold credit. repeat case_decide; (congruence || lia).
    + exists t', y'. split_and!; [by econstructor | done |]. intros b. rewrite Hb', Hb1.
      unfold paid_to, credit. simpl. fold (credit to z b). unfold credit. repeat case_decide; lia.
Qed.
End exit.

Section council_accepts.
Context `{Ownable} `{!SdkLaws} {Y : Type} `{!HostAuth Y} `{!CouncilHost Y} `{!Transaction Y}
  `{!TransactionLaws Y}.

(** The auth contract authorizes a bundle whose owners and provider signed. *)
Lemma council_accepts e op payload signatures (y : Y) :
  let cc := mkContractContext _ (current_contract_address e) (invoked_function e)
              (bundle_auth_args (op_bundle op)) in
  entry_attached y payload signatures [Contract cc] →
  current_contract_address e ≠ council_address → ledger_sequence e = host_ledger y →
  Z.of_nat (length (map_keys signatures)) ≤ u32_max →
  (∃ pk, is_Some (signatures !! SKProvider pk)) →
  (∀ pk entry, signatures !! SKProvider pk = Some entry →
     provider_entry_valid e payload (au_providers (council_state y)) pk entry) →
  NoDup ((op_spend op).*1) →
  (∀ u conds, (u, conds) ∈ op_spend op →
     conds ≠ [] ∧ owner_signed e signatures (current_contract_address e) u conds) →
  ∃ y', frame_auth e (bundle_auth_args (op_bundle op)) council_address y = Ok y'.
Proof.
  intros cc Hentry Hself Hnow Hsize Hpk Hprov Hnd Hown.
  destruct (check_auth_run e payload signatures [Contract cc] (council_state y)) as [s' Hrun];
    [done.. | | by eapply entry_accepted; [exact Hentry | left | | | exact Hrun]].
  intros c ->%list_elem_of_singleton. eexists. split; [done|]. simpl. unfold bundle_auth_args.
  case_decide as Hreq; [by left | right]. eexists _, []. split; [done|].
  pose proof (λ k cs, calculate_auth_requirements_correct (op_spend op) k cs Hnd) as Hr. simpl. split.
  - intros signer conds (u & -> & Hin)%Hr. by apply (Hown u).
  - intros pk conds (u & [= <-] & Hin)%Hr. by apply Hown.
Qed.
End council_accepts.

Section signed_exit.
Context `{Ownable} `{!SdkLaws} `{!TokenSdk} `{!TokenSdkLaws} `{!ConditionXdr}
  `{!ConditionXdrLaws} {Y : Type} `{!HostAuth Y} `{!CouncilHost Y} `{!Transaction Y}
  `{!TransactionLaws Y}.

(** A valid bundle without deposits that balances, that the owners and the provider signed, runs
    through, and moves the tokens of its withdrawals. *)
Lemma signed_exit_run (admin token : Address) depth e op s t (y : Y) payload signatures :
  let channel := current_contract_address e in
  channel_reachable (X:=TokenWorld (Y:=Y)) admin council_address token s →
  ch_total_supply s ≤ balance_of t channel → token_wf t →
  token ≠ channel → channel ≠ council_address →
  ledger_sequence e = host_ledger y → 1 ≤ min_temporary_ttl e →
  op_valid op → op_deposit op = [] →
  spendable (ch_ledger s) ((op_spend op).*1) → creatable (ch_ledger s) (op_create op) →
  spent_total (ch_ledger s) ((op_spend op).*1)
    = created_total (op_create op) + external_total (op_withdraw op) →
  has_room channel t (op_withdraw op) →
  entry_attached y payload signatures
    [Contract (mkContractContext _ channel (invoked_function e) (bundle_auth_args (op_bundle op)))] →
  Z.of_nat (length (map_keys signatures)) ≤ u32_max →
  (∃ pk, is_Some (signatures !! SKProvider pk)) →
  (∀ pk entry, signatures !! SKProvider pk = Some entry →
     provider_entry_valid e payload (au_providers (council_state y)) pk entry) →
  (∀ u conds, (u, conds) ∈ op_spend op →
     conds ≠ [] ∧ owner_signed e signatures channel u conds) →
  ∃ s' t' y',
    PrivacyChannelContract.transact (X:=TokenWorld (Y:=Y))
      (PrivacyChannelContract.channel_call depth e) e op (s, (t, y)) = Ok (tt, (s', (t', y'))) ∧
    ∀ b, balance_of t' b = balance_of t b
      + (paid_to (op_withdraw op) b - credit channel (external_total (op_withdraw op)) b).
Proof.
  intros channel Hreach Hsup Htw Htok Hself Hnow Hmin Hv Hdep Hsp Hcr Hbal Hroom Hentry Hsize Hpk
    Hprov Hown.
  apply channel_history in Hreach as (Hs & Hwf & Has & Hau & _ & Hguard & Hr).
  pose proof Hv as (_ & _ & (Hpos & _ & Hnd) & _).
  pose proof (spent_le_total _ _ Hwf Hsp). pose proof (created_total_nonneg _ _ Hcr).
  pose proof (wf_balance_range t channel Htw).
  destruct (council_accepts e op payload signatures y) as [y1 Hreq]; try done.
  { by eapply spendable_NoDup_keys. }
  destruct (withdrawals_settle e token (op_withdraw op) t y1) as (t' & y' & Hset & _ & Hb);
    [done | done | done | fold channel; lia | done | done | done |].
  destruct (transact_run (X:=TokenWorld (Y:=Y)) (PrivacyChannelContract.channel_call depth e) e op s
    (t, y) (t, y1) (t, y1) (t', y') council_address token) as [s' Hrun]; try done.
  - unfold guarded, temporary_get. rewrite Hguard. by intros [].
  - rewrite Hdep. unfold external_total at 1. simpl. lia.
  - rewrite Hdep. unfold external_total. simpl. lia.
  - lia.
  - rewrite Hdep. unfold external_total. simpl. lia.
  - unfold frame_auth in *. simpl. by rewrite Hreq.
  - rewrite Hdep. constructor.
  - by exists s', t', y'.
Qed.

(** The ledger and the supply after an operation without deposits. *)
Lemma exit_ledger depth e op s s' (x x' : TokenWorld (Y:=Y)) :
  1 ≤ min_temporary_ttl e → op_deposit op = [] →
  PrivacyChannelContract.transact (X:=TokenWorld (Y:=Y))
    (PrivacyChannelContract.channel_call depth e) e op (s, x) = Ok (tt, (s', x')) →
  ch_ledger s' = bundle_ledger (ch_ledger s) ((op_spend op).*1) (op_create op) ∧
  ch_total_supply s' = ch_total_supply s - external_total (op_withdraw op).
Proof.
  intros Hmin Hdep Hrun. apply transact_Ok in Hrun as (_ & _ & _ & _ & _ & _ & _ & HL & Hsup & _); [|done].
  split; [done|]. rewrite Hsup, Hdep. unfold external_total at 1. simpl. lia.
Qed.

(** A live signature on one withdrawal is one on a deposit by the same address, and on an
    integration of it without keys. *)
Lemma disguised_signature e signatures channel u victim z conds :
  owner_signed e signatures channel u [ExtWithdraw victim z] →
  conds = [ExtDeposit victim z] ∨ conds = [ExtIntegration victim [] z] →
  owner_signed e signatures channel u conds.
Proof.
  intros (sig & vu & Hs & Hvu & Hv) Hconds. exists sig, vu. split; [exact Hs|]. split; [exact Hvu|].
  destruct Hconds as [-> | ->]; exact Hv.
Qed.

(** The spend under a disguise, paid to anybody, breaks no rule of the channel. *)
Lemma disguised_op_valid u victim anyone z conds :
  0 < z ≤ i128_max → conds = [ExtDeposit victim z] ∨ conds = [ExtIntegration victim [] z] →
  op_valid (mkChannelOperation _ [(u, conds)] [] [] [(anyone, z, [])]).
Proof.
  intros Hz Hconds.
  assert (Hone : ∃ c, conds = [c] ∧ is_execution_bound c = false)
    by (destruct Hconds as [-> | ->]; by eexists).
  destruct Hone as (c & -> & Hc). split_and!.
  - intros c1 c2 Hc1 Hc2. unfold op_conditions in *. simpl in *.
    rewrite list_elem_of_singleton in Hc1, Hc2. subst. apply conflict_irrefl.
  - unfold external_ok, external_total, i128_max. simpl. split_and!; [constructor | lia | constructor].
  - unfold external_ok, external_total. simpl. split_and!; [by repeat constructor; simpl; lia | lia |].
    apply NoDup_singleton.
  - set_solver.
  - intros c' Hc'. unfold signed_effects in Hc'. simpl in Hc'.
    rewrite list_elem_of_filter, list_elem_of_singleton in Hc'. destruct Hc' as [Hb ->].
    by rewrite Hc in Hb.
Qed.
End signed_exit.

(** ** Properties *)

(** C6. Signed funds can leave.  In any state a deployed channel reaches, while its tokens cover
    its supply (which [system_solvent] keeps so), a valid bundle without deposits over unspent and
    free entries that balances, carried by a transaction whose entry has the live signature of
    a registered provider and, for each spent utxo, its owner's live signature over the
    conditions, is executed, if the recipients' balances have room: the council accepts it, the
    channel authorizes its transfers and the token makes them; every recipient is paid its
    withdrawal, nobody else's balance changes but the channel's, and the ledger and the supply
    are those of the bundle. *)
Theorem signed_exit_executes `{Ownable} `{!SdkLaws} `{!TokenSdk} `{!TokenSdkLaws}
    `{!ConditionXdr} `{!ConditionXdrLaws} {Y} `{!HostAuth Y} `{!CouncilHost Y} `{!Transaction Y}
    `{!TransactionLaws Y} (admin token : Address) (depth : nat) (e : Env) (op : ChannelOperation)
    (s : ChannelState) (t : TokenState) (y : Y) (payload : BytesN 32) (signatures : Signatures)
    (channel := current_contract_address e)
    (Hreach : channel_reachable (X:=TokenWorld (Y:=Y)) admin council_address token s)
    (Hfunds : ch_total_supply s ≤ balance_of t channel ∧ token_wf t)
    (Hself : token ≠ channel ∧ channel ≠ council_address)
    (Hnow : ledger_sequence e = host_ledger y ∧ 1 ≤ min_temporary_ttl e)
    (Hop : op_valid op ∧ op_deposit op = [])
    (Hledger : spendable (ch_ledger s) ((op_spend op).*1) ∧
               creatable (ch_ledger s) (op_create op))
    (Hbal : spent_total (ch_ledger s) ((op_spend op).*1)
            = created_total (op_create op) + external_total (op_withdraw op))
    (Hroom : has_room channel t (op_withdraw op))
    (Hentry : entry_attached y payload signatures
       [Contract (mkContractContext _ channel (invoked_function e)
                    (bundle_auth_args (op_bundle op)))])
    (Hprovider : Z.of_nat (length (map_keys signatures)) ≤ u32_max ∧
       (∃ pk, is_Some (signatures !! SKProvider pk)) ∧
       ∀ pk entry, signatures !! SKProvider pk = Some entry →
         provider_entry_valid e payload (au_providers (council_state y)) pk entry)
    (Howners : ∀ u conds, (u, conds) ∈ op_spend op →
       conds ≠ [] ∧ owner_signed e signatures channel u conds) :
  ∃ s' t' y',
    PrivacyChannelContract.transact (X:=TokenWorld (Y:=Y))
      (PrivacyChannelContract.channel_call depth e) e op (s, (t, y)) = Ok (tt, (s', (t', y'))) ∧
    (∀ to z conds, (to, z, conds) ∈ op_withdraw op → to ≠ channel →
       balance_of t' to = balance_of t to + z) ∧
    (∀ b, b ∉ (op_withdraw op).*1.*1 → b ≠ channel → balance_of t' b = balance_of t b) ∧
    ch_ledger s' = bundle_ledger (ch_ledger s) ((op_spend op).*1) (op_create op) ∧
    ch_total_supply s' = ch_total_supply s - external_total (op_withdraw op).
Proof.
  destruct Hfunds, Hself, Hnow, Hop as [Hv Hdep], Hledger, Hprovider as (? & ? & ?).
  pose proof Hv as (_ & _ & (_ & _ & Hnd) & _).
  destruct (signed_exit_run admin token depth e op s t y payload signatures)
    as (s' & t' & y' & Hrun & Hb); try done.
  exists s', t', y'. split; [exact Hrun|].
  apply exit_ledger in Hrun as [HL Hsup']; [|done..]. split_and!; [| |done..].
  - intros to z conds Hin Hne. rewrite Hb, (paid_to_elem _ _ _ _ Hnd Hin). unfold credit.
    rewrite decide_False by done. lia.
  - intros b Hn Hne. rewrite Hb, paid_to_not_elem by done. unfold credit.
    rewrite decide_False by done. lia.
Qed.

(** C20. What a signature does not bind.  The live signature of an output's owner on one withdrawal
    of its whole amount to an address also signs a deposit by that address, and an integration of
    it without keys, for the three hash alike, and neither of these is execution-bound.  So in any
    state a deployed channel reaches, while its tokens cover its supply, a bundle that spends the
    output under either of them and pays the amount to any other account, neither that address nor
    the channel, whose balance has room, needs only a registered provider's signature to be
    executed: the council accepts the owner's, [transact] returns, the other account is paid, the
    address that was signed for is not, and the output is spent. *)
Theorem withdrawal_can_be_redirected `{Ownable} `{!SdkLaws} `{!TokenSdk} `{!TokenSdkLaws}
    `{!ConditionXdr} `{!ConditionXdrLaws} {Y} `{!HostAuth Y} `{!CouncilHost Y} `{!Transaction Y}
    `{!TransactionLaws Y} (admin token : Address) (depth : nat) (e : Env) (s : ChannelState)
    (t : TokenState) (y : Y) (payload : BytesN 32) (signatures : Signatures)
    (u : BytesN 65) (victim anyone : Address) (z : Z) (conds : list Condition)
    (op := mkChannelOperation _ [(u, conds)] [] [] [(anyone, z, [])])
    (channel := current_contract_address e)
    (Hsigned : owner_signed e signatures channel u [ExtWithdraw victim z])
    (Hconds : conds = [ExtDeposit victim z] ∨ conds = [ExtIntegration victim [] z])
    (Hunspent : ch_ledger s !! Store.utxo_key u = Some z ∧ 0 < z)
    (Hreach : channel_reachable (X:=TokenWorld (Y:=Y)) admin council_address token s)
    (Hfunds : ch_total_supply s ≤ balance_of t channel ∧ token_wf t)
    (Hself : token ≠ channel ∧ channel ≠ council_address)
    (Hnow : ledger_sequence e = host_ledger y ∧ 1 ≤ min_temporary_ttl e)
    (Hothers : anyone ≠ channel ∧ victim ≠ channel ∧ victim ≠ anyone)
    (Hroom : balance_of t anyone + z ≤ i128_max)
    (Hentry : entry_attached y payload signatures
       [Contract (mkContractContext _ channel (invoked_function e)
                    (bundle_auth_args (op_bundle op)))])
    (Hprovider : Z.of_nat (length (map_keys signatures)) ≤ u32_max ∧
       (∃ pk, is_Some (signatures !! SKProvider pk)) ∧
       ∀ pk entry, signatures !! SKProvider pk = Some entry →
         provider_entry_valid e payload (au_providers (council_state y)) pk entry) :
  ∃ s' t' y',
    PrivacyChannelContract.transact (X:=TokenWorld (Y:=Y))
      (PrivacyChannelContract.channel_call depth e) e op (s, (t, y)) = Ok (tt, (s', (t', y'))) ∧
    balance_of t' anyone = balance_of t anyone + z ∧
    balance_of t' victim = balance_of t victim ∧
    balance_of t' channel = balance_of t channel - z ∧
    ch_ledger s' !! Store.utxo_key u = Some 0.
Proof.
  destruct Hunspent as [Hu Hz], Hfunds as [Hsup Htw], Hself, Hnow, Hothers as (Hac & Hvc & Hva).
  destruct Hprovider as (? & ? & ?).
  assert (Hsp : spendable (ch_ledger s) [u]).
  { split; [apply NoDup_singleton|]. intros u' ->%list_elem_of_singleton. by exists z. }
  assert (Hval : spent_total (ch_ledger s) [u] = z).
  { unfold spent_total, unspent_amount. simpl. rewrite Hu. simpl. lia. }
  assert (Hmax : z ≤ i128_max).
  { pose proof Hreach as (Hs & Hwf & _)%channel_history.
    pose proof (spent_le_total _ _ Hwf Hsp). pose proof (wf_balance_range t channel Htw).
    unfold channel in *. lia. }
  destruct (signed_exit_run admin token depth e op s t y payload signatures)
    as (s' & t' & y' & Hrun & Hb); try done.
  - by apply (disguised_op_valid u victim anyone z conds).
  - split; [constructor|]. intros c Hc. by apply not_elem_of_nil in Hc.
  - etrans; [exact Hval|]. unfold created_total, external_total. simpl. lia.
  - by apply Forall_singleton.
  - intros u' conds' [= -> ->]%list_elem_of_singleton. split; [by destruct Hconds as [-> | ->]|].
    by eapply disguised_signature.
  - exists s', t', y'. split; [exact Hrun|].
    apply exit_ledger in Hrun as [HL _]; [|done..].
    rewrite !Hb, HL. unfold paid_to, external_total, credit. simpl.
    repeat case_decide; try done. split_and!; [lia..|].
    unfold bundle_ledger, created_map, spent_map. simpl. rewrite lookup_union_r by apply lookup_empty.
    apply lookup_union_Some_l, lookup_insert_eq.
Qed.
