(* ===== verification/SystemClient.v ===== *)
(** The client and the contracts together: what a channel operation builder assembles, signed as it
    says, is executed by the channel, the Quorum Auth contract and the token.

    [AccountLaws] is what the host promises of accounts that sign with their own key: it checks
    the signature of an entry the transaction carries, and lets the entry's invocations pass. *)
From S2P Require Import Prelude Errors Host Primitives Helpers Storage HostAuth Auth ChannelAuth.
From S2P Require Import UtxoCore Channel ChannelSpec ChannelLive ChannelBounds Keys OperationBuilder.
From S2P Require Import ChannelOperationBuilder ChannelRefinement ChannelHistory ChannelOrder Token.
From S2P Require Import System SystemLive.

(** The transaction carries an unused entry in the name of an account. *)
Class Accounts `{Sdk} (Y : Type) := {
  account_entry : Y → SorobanAuthorizationEntry (list AccountEd25519Signature) → Prop;
}.

(** The payload an entry's signature is over. *)
Definition entry_payload_hash `{AuthPreimage} {S} (entry : SorobanAuthorizationEntry S) : BytesN 32 :=
  sha256 (preimage_to_xdr network_id (cred_nonce entry) (cred_expiration_ledger entry)
            (root_invocation entry)).

(** As documented, for accounts whose own key is their signer: a live entry with that key's
    signature authorizes its root invocation and then the call below it; authorizing an address
    uses up no other address's entry, and the ledger does not close in between. *)
Class AccountLaws `{Ownable} (Y : Type) `{!AuthPreimage} `{!HostAuth Y} `{!CouncilHost Y}
    `{!Accounts Y} : Prop := {
  account_accepted y entry pk signature root sub :
    account_entry y entry → cred_address entry = address_from_ed25519_pk_bytes pk →
    cred_signature entry = [mkAccountEd25519Signature pk signature] →
    host_ledger y ≤ cred_expiration_ledger entry →
    ed25519_verify pk (to_array (entry_payload_hash entry)) signature = true →
    root_invocation entry = mkInvocation root [mkInvocation sub []] →
    contract root ≠ cred_address entry → contract sub ≠ cred_address entry →
    ∃ y1 y2, require_auth_for (cred_address entry) root y = Ok y1 ∧
      require_auth_for (cred_address entry) sub y1 = Ok y2;
  entries_kept a cc y y' entry :
    require_auth_for a cc y = Ok y' → account_entry y entry → cred_address entry ≠ a →
    account_entry y' entry;
  clock_kept a cc y y' : require_auth_for a cc y = Ok y' → host_ledger y' = host_ledger y;
}.

(** A depositor's entry for its deposit, signed and live. *)
Definition deposit_signed `{Ownable} {Y} `{!AuthPreimage} `{!CouncilHost Y} `{!Accounts Y}
    (e : Env) (token : Address) (y : Y) (d : Address * Z * list Condition) : Prop :=
  ∃ entry pk signature,
    account_entry y entry ∧ cred_address entry = d.1.1 ∧
    d.1.1 = address_from_ed25519_pk_bytes pk ∧
    cred_signature entry = [mkAccountEd25519Signature pk signature] ∧
    host_ledger y ≤ cred_expiration_ledger entry ∧
    ed25519_verify pk (to_array (entry_payload_hash entry)) signature = true ∧
    root_invocation entry
    = mkInvocation
        (mkContractContext _ (current_contract_address e) (invoked_function e) [VConditions d.2])
        [mkInvocation (mkContractContext _ token "transfer"
           [VAddress d.1.1; VAddress (current_contract_address e); VI128 d.1.2]) []].

(** ** Lemmas: deposits *)

Section deposits.
Context `{Ownable} `{!SdkLaws} `{!TokenSdk} `{!TokenSdkLaws} `{!ConditionXdr}
  `{!ConditionXdrLaws} {Y : Type} `{!AuthPreimage} `{!HostAuth Y} `{!CouncilHost Y} `{!Accounts Y}
  `{!AccountLaws Y}.
Implicit Types (e : Env) (t : TokenState) (y : Y) (ext : list (Address * Z * list Condition)).

(** A signed deposit stays signed while others are authorized. *)
Lemma deposit_signed_kept e token a cc y y' d :
  require_auth_for a cc y = Ok y' → d.1.1 ≠ a →
  deposit_signed e token y d → deposit_signed e token y' d.
Proof.
  intros Hreq Hne (entry & pk & sig & Hen & Ha & Hpk & Hsig & Hlive & Hv & Hroot).
  exists entry, pk, sig. split_and!; try done.
  - eapply entries_kept; [done..|]. by rewrite Ha.
  - by rewrite (clock_kept _ _ _ _ Hreq).
Qed.

(** One deposit: the depositor authorizes it and the token moves it to the channel. *)
Lemma deposit_settles e token from z cs t y :
  let channel := current_contract_address e in
  deposit_signed e token y (from, z, cs) → token_wf t →
  from ≠ channel → from ≠ token → 0 ≤ z ≤ balance_of t from →
  balance_of t channel + z ≤ i128_max →
  ∃ y1 t' y',
    frame_auth e [VConditions cs] from (t, y) = Ok (t, y1) ∧
    quiet_transfer e token from channel z (t, y1) (t', y') ∧ token_wf t' ∧
    (∀ b, balance_of t' b = balance_of t b + (credit channel z b - credit from z b)) ∧
    ∀ d, d.1.1 ≠ from → deposit_signed e token y d → deposit_signed e token y' d.
Proof.
  cbv zeta. intros (entry & pk & sig & Hen & Ha & Hpk & Hsig & Hlive & Hv & Hroot) Hwf Hself Htok
    Hz Hmax.
  simpl in Ha, Hpk.
  destruct (account_accepted _ _ _ _ _ _ Hen (eq_trans Ha Hpk) Hsig Hlive Hv Hroot)
    as (y1 & y2 & H1' & H2'); [simpl; congruence..|]. rewrite Ha in H1', H2'. simpl in H1', H2'.
  pose proof (transfer_run (token_env e token "transfer") from
    (muxed_from (current_contract_address e)) z t y1 Hwf) as Hr.
  rewrite muxed_from_address, muxed_from_val in Hr. unfold frame_auth in Hr. simpl in Hr.
  rewrite H2' in Hr. destruct (Z.ltb_spec z 0); [lia|].
  destruct (Z.ltb_spec (balance_of t from) z); [lia|].
  rewrite decide_False in Hr by done. rewrite (proj2 (Z.ltb_ge _ _)) in Hr by done.
  destruct Hr as (t' & Ht & Hw & Hb & _). exists y1, t', y2. split_and!; [| |done|done|].
  - unfold frame_auth. simpl. by rewrite H1'.
  - unfold quiet_transfer, asset_transfer, token_asset. by rewrite Ht.
  - intros d Hne Hd. eapply deposit_signed_kept; [exact H2' | done |].
    by eapply deposit_signed_kept.
Qed.

Lemma deposits_settle_signed e token ext t y :
  let channel := current_contract_address e in
  token_wf t → Forall (λ p, 0 < p.1.2) ext → NoDup (ext.*1.*1) →
  Forall (deposit_signed e token y) ext →
  Forall (λ p, p.1.1 ≠ channel ∧ p.1.1 ≠ token ∧ p.1.2 ≤ balance_of t p.1.1) ext →
  balance_of t channel + external_total ext ≤ i128_max →
  ∃ t' y', deposits_settle e token ext (t, y) (t', y') ∧ token_wf t' ∧
    ∀ b, balance_of t' b
      = balance_of t b + (credit channel (external_total ext) b - paid_to ext b).
Proof.
  cbv zeta. revert t y. induction ext as [|[[from z] cs] ext IH];
    intros t y Hwf Hpos Hnd Hsig Hcan Hmax.
  - exists t, y. split_and!; [constructor | done |]. intros b. unfold credit, paid_to. simpl.
    case_decide; lia.
  - apply Forall_cons in Hpos as [Hz Hpos], Hsig as [Hs Hsig], Hcan as [(Hc & Htok & Hle) Hcan].
    apply NoDup_cons in Hnd as [Hn Hnd]. rewrite external_total_cons in *. cbn [fst snd] in *.
    pose proof (external_total_nonneg _ Hpos).
    destruct (deposit_settles e token from z cs t y) as (y1 & t1 & y2 & Ha & Ht & Hw1 & Hb1 & Hkeep);
      [done | done | done | done | lia | lia |].
    assert (Hne : ∀ p, p ∈ ext → p.1.1 ≠ from).
    { intros p Hp <-. apply Hn. by do 2 apply list_elem_of_fmap_2. }
    destruct (IH t1 y2) as (t' & y' & Hset & Hw' & Hb'); try done.
    + rewrite Forall_forall in *. intros p Hp. apply Hkeep; [by apply Hne | by apply Hsig].
    + rewrite Forall_forall in *. intros p Hp. destruct (Hcan p Hp) as (? & ? & ?).
      specialize (Hne p Hp). split_and!; [done | done |]. rewrite Hb1. unfold credit.
      repeat case_decide; (congruence || lia).
    + rewrite Hb1. unfold credit. repeat case_decide; (congruence || lia).
    + exists t', y'. split_and!; [by econstructor | done |]. intros b. rewrite Hb', Hb1.
      unfold paid_to, credit. simpl. unfold credit. repeat case_decide; lia.
Qed.
End deposits.

(** ** Lemmas: an authorized bundle *)

Section bundle.
Context `{Ownable} `{!SdkLaws} `{!TokenSdk} `{!TokenSdkLaws} `{!ConditionXdr}
  `{!ConditionXdrLaws} {Y : Type} `{!AuthPreimage} `{!HostAuth Y} `{!CouncilHost Y}
  `{!Transaction Y} `{!TransactionLaws Y} `{!Accounts Y} `{!AccountLaws Y}.

(** The deposits can be made, and every balance has room for what it receives. *)
Definition balances_suffice (channel token : Address) (t : TokenState) (op : ChannelOperation)
    : Prop :=
  Forall (λ p, p.1.1 ≠ channel ∧ p.1.1 ≠ token ∧ p.1.2 ≤ balance_of t p.1.1) (op_deposit op) ∧
  balance_of t channel + external_total (op_deposit op) ≤ i128_max ∧
  has_room channel t (op_withdraw op).

(** What is left is the channel's and the token's part. *)
Lemma authorized_bundle_run (admin token : Address) depth e op s t (y y1 : Y) :
  let channel := current_contract_address e in
  channel_reachable (X:=TokenWorld (Y:=Y)) admin council_address token s →
  ch_total_supply s ≤ balance_of t channel → token_wf t →
  token ≠ channel → channel ≠ council_address → 1 ≤ min_temporary_ttl e →
  op_valid op → executable (ch_ledger s) op → balances_suffice channel token t op →
  frame_auth e (bundle_auth_args (op_bundle op)) council_address y = Ok y1 →
  Forall (deposit_signed e token y1) (op_deposit op) →
  ∃ s' t' y',
    PrivacyChannelContract.transact (X:=TokenWorld (Y:=Y))
      (PrivacyChannelContract.channel_call depth e) e op (s, (t, y)) = Ok (tt, (s', (t', y'))) ∧
    (∀ b, b ≠ channel → balance_of t' b
       = balance_of t b - paid_to (op_deposit op) b + paid_to (op_withdraw op) b) ∧
    ch_ledger s' = execute (ch_ledger s) op ∧
    ch_total_supply s' = ch_total_supply s + external_total (op_deposit op)
      - external_total (op_withdraw op).
Proof.
  cbv zeta. intros (Hs & Hwf & Has & Hau & _ & Hguard & _)%channel_history Hsup Htw Htok Hself Hmin
    Hv (Hsp & Hcr & Hbal) (Hdep & Hmax & Hroom) Hreq Hsig.
  pose proof Hv as (_ & (Hdpos & _ & Hdnd) & (Hwpos & _ & Hwnd) & _).
  pose proof (spent_le_total _ _ Hwf Hsp). pose proof (created_total_nonneg _ _ Hcr).
  pose proof (external_total_nonneg _ Hdpos). pose proof (external_total_nonneg _ Hwpos).
  destruct (deposits_settle_signed e token (op_deposit op) t y1) as (t1 & y2 & Hset1 & Hw1 & Hb1);
    try done.
  assert (Hch : paid_to (op_deposit op) (current_contract_address e) = 0).
  { apply paid_to_not_elem. rewrite Forall_forall in Hdep.
    intros (p & Ep & (q & -> & Hq)%list_elem_of_fmap)%list_elem_of_fmap.
    destruct (Hdep q Hq) as [Hn _]. by apply Hn. }
  assert (Hother : ∀ b, b ≠ current_contract_address e →
    balance_of t1 b = balance_of t b - paid_to (op_deposit op) b).
  { intros b Hb. rewrite Hb1. unfold credit. rewrite decide_False by done. lia. }
  destruct (withdrawals_settle e token (op_withdraw op) t1 y2) as (t' & y' & Hset2 & _ & Hb2);
    try done.
  { rewrite Hb1, Hch. unfold credit. rewrite decide_True by done. lia. }
  { unfold has_room in *. eapply Forall_impl; [exact Hroom|]. intros p Hp Hne. simpl in *.
    rewrite Hother by done. pose proof (paid_to_range _ p.1.1 Hdpos). specialize (Hp Hne). lia. }
  destruct (transact_run (X:=TokenWorld (Y:=Y)) (PrivacyChannelContract.channel_call depth e) e op s
    (t, y) (t, y1) (t1, y2) (t', y') council_address token) as [s' Hrun]; try done; try lia.
  - unfold guarded, temporary_get. rewrite Hguard. by intros [].
  - unfold frame_auth in *. simpl. by rewrite Hreq.
  - exists s', t', y'. split; [exact Hrun|].
    apply transact_Ok in Hrun as (_ & _ & _ & _ & _ & _ & _ & HL & Hsup' & _); [|done].
    split_and!; [| exact HL | exact Hsup'].
    intros b Hne. rewrite Hb2, Hother by done. unfold credit. rewrite decide_False by done. lia.
Qed.
End bundle.

(** ** Lemmas: the builder's entries *)

Section built.
Context `{ConditionXdrLaws} `{!SdkLaws} `{!Ownable} `{!AuthPreimage}.

(** A builder stays bound to the contracts it was made for. *)
Definition built_for (ch au asset : Address) (b : ChannelOperationBuilder) : Prop :=
  channel_contract (utxo_builder b) = ch ∧ auth_contract (utxo_builder b) = au ∧
  cb_asset b = asset.

Lemma utxo_call_bound c b v b' :
  utxo_builder_call c b = Ok (v, b') →
  channel_contract b' = channel_contract b ∧ auth_contract b' = auth_contract b.
Proof.
  destruct c; simpl; unfold UtxoBuilder.add_spend, UtxoBuilder.add_create,
    UtxoBuilder.add_spend_signature, UtxoBuilder.add_ed25519_signature,
    UtxoBuilder.add_provider_signature, UtxoBuilder.set_signature; intros Hr; by inv_M.
Qed.

Lemma channel_built_for ch au asset calls b :
  for_each calls channel_builder_call (ChannelBuilder.generate ch au asset) = Ok (tt, b) →
  built_for ch au asset b.
Proof.
  intros Hr. eapply (for_each_invariant (built_for ch au asset)); [| |exact Hr]; [|done].
  intros c s v s' _ (Hch & Hau & Has) Hc. unfold built_for.
  destruct c as [c|a z cs|a z cs|a sig]; simpl in Hc.
  - apply zoom_Ok in Hc as (u & Hc & ->). apply utxo_call_bound in Hc as [E1 E2]. simpl.
    by rewrite E1, E2.
  - by apply add_deposit_Ok in Hc as (-> & _).
  - by apply add_withdraw_Ok in Hc as (-> & _).
  - unfold ChannelBuilder.add_deposit_signature in Hc. by inv_M.
Qed.

(** The depositor signed the entry the builder lays out for it, and the transaction carries it. *)
Definition deposit_entry_signed {Y} `{!CouncilHost Y} `{!Accounts Y} (b : ChannelOperationBuilder)
    (y : Y) (d : Address * Z * list Condition) : Prop :=
  ∃ nonce expiration entry pk signature h,
    ChannelBuilder.get_auth_entry_for_deposit b d.1.1 nonce expiration = Ok entry ∧
    account_entry y entry ∧ host_ledger y ≤ expiration ∧
    d.1.1 = address_from_ed25519_pk_bytes pk ∧
    ChannelBuilder.get_deposit_signature b d.1.1 = Ok (mkAccountEd25519Signature pk signature) ∧
    ChannelBuilder.get_auth_entry_payload_hash_for_deposit b d.1.1 nonce expiration = Ok h ∧
    ed25519_verify pk (to_array h) signature = true.

Lemma built_deposit_signed {Y} `{!CouncilHost Y} `{!Accounts Y} e b (y : Y) d :
  channel_builder_ok b → d ∈ cb_deposit b → d.2 ≠ [] →
  current_contract_address e = channel_contract (utxo_builder b) →
  invoked_function e = "transact" →
  deposit_entry_signed b y d → deposit_signed e (cb_asset b) y d.
Proof.
  destruct d as [[from z] cs]. simpl. intros (Hnd & _) Hin Hne Hch Hfn
    (nonce & expiration & entry & pk & sig & h & Hen & Hcar & Hlive & Hpk & Hsig & Hh & Hv).
  simpl in *.
  unfold ChannelBuilder.get_auth_entry_for_deposit,
    ChannelBuilder.get_auth_entry_payload_hash_for_deposit, ChannelBuilder.get_deposit_root_invocation,
    ChannelBuilder.get_contract_deposit_auth_args in *.
  rewrite (find_map_deposit _ _ _ _ Hnd Hin) in Hen, Hh. rewrite Hsig in Hen. cbn in Hen, Hh.
  injection Hen as <-. injection Hh as <-. destruct cs as [|c cs]; [done|].
  eexists _, pk, sig. split; [exact Hcar|]. split_and!; try done.
  simpl. by rewrite Hch, Hfn.
Qed.

(** The auth contract accepts the builder's entry for the call the channel makes. *)
Lemma built_council_accepts {Y} `{!HostAuth Y} `{!CouncilHost Y} `{!Transaction Y}
    `{!TransactionLaws Y} e b (y : Y) sigs nonce expiration :
  let u := utxo_builder b in
  let payload := UtxoBuilder.get_auth_entry_payload_hash_for_bundle u nonce expiration in
  utxo_builder_ok u → (∀ w conds, (w, conds) ∈ b_spend u → conds ≠ []) → owners_signed e u →
  UtxoBuilder.build_signatures u = Ok sigs →
  Z.of_nat (length (map_keys sigs)) ≤ u32_max →
  (∀ pk entry, sigs !! SKProvider pk = Some entry →
     provider_entry_valid e payload (au_providers (council_state y)) pk entry) →
  entry_attached y payload sigs [Contract (inv_function (UtxoBuilder.get_root_invocation u))] →
  current_contract_address e = channel_contract u → invoked_function e = "transact" →
  channel_contract u ≠ council_address → ledger_sequence e = host_ledger y →
  ∃ y', frame_auth e (bundle_auth_args (op_bundle (ChannelBuilder.get_operation_bundle b)))
          council_address y = Ok y'.
Proof.
  cbv zeta. intros Hok Hconds Hown Hsigs Hsize Hprov Hatt Hch Hfn Hself Hnow.
  pose proof (root_invocation_authorized _ _ _ Hok Hconds Hown Hsigs) as Hctx.
  apply build_signatures_Ok in Hsigs as Hb. destruct Hb as (-> & _ & Hpk).
  destruct (check_auth_run e (UtxoBuilder.get_auth_entry_payload_hash_for_bundle (utxo_builder b)
    nonce expiration) (sign_map (utxo_builder b))
    [Contract (inv_function (UtxoBuilder.get_root_invocation (utxo_builder b)))] (council_state y))
    as [s' Hrun]; [done..| by intros c ->%list_elem_of_singleton |].
  unfold frame_auth. rewrite Hch, Hfn.
  by eapply entry_accepted; [exact Hatt | left | | | exact Hrun].
Qed.
End built.

(** ** Properties *)

