(* ===== verification/SystemRefinement.v ===== *)
(** The deployed system as a bank: an abstract machine that holds a ledger of outputs and a
    balance per account, and the simulation of the channel, the Quorum Auth contract and the
    token together by it.

    The machine is a transition function on labels ([bank_do]) and a predicate saying when a
    label may occur ([bank_allows]).  It knows no storage, no guard, no nesting, no allowance and
    no time to live. *)
From S2P Require Import Prelude Errors Host Primitives Storage HostAuth Auth ChannelAuth UtxoCore.
From S2P Require Import Channel ChannelSpec ChannelLive ChannelHistory ChannelOrder Token.
From S2P Require Import System SystemLive.

(** ** The abstract machine *)

Record Bank `{Sdk} := mkBank { bank_ledger : Ledger; bank_held : Address → Z }.
Arguments mkBank {_} _ _.

(** What can be seen of a step: an operation executed in the frame [e] while these providers were
    registered, a call of the token from outside, or anything else.  Both say what the host's
    state was before and after, which is where it keeps what has been authorized. *)
Inductive SystemLabel `{TokenSdk} {Y : Type} :=
  | Operation (e : Env) (providers : ProviderSet) (op : ChannelOperation) (y y' : Y)
  | TokenCalled (e : Env) (c : TokenCall) (y y' : Y)
  | Silent.
Arguments SystemLabel {_ _} Y.

(** Each element of a list takes the state on, in order. *)
Fixpoint passes {A S} (R : A → S → S → Prop) (l : list A) (s s' : S) : Prop :=
  match l with
  | [] => s' = s
  | x :: l => ∃ s1, R x s s1 ∧ passes R l s1 s'
  end.

Section machine.
Context `{Ownable} `{!TokenSdk} `{!ConditionXdr} {Y : Type} `{!HostAuth Y}
  `{!CouncilHost (TokenWorld (Y:=Y))}.
Variables channel token : Address.
Implicit Types (b : Bank) (l : SystemLabel Y) (ls : list (SystemLabel Y)) (a : Address) (y : Y).

(** Two banks that hold the same. *)
#[export] Instance bank_equiv : Equiv Bank := λ b b',
  bank_ledger b = bank_ledger b' ∧ ∀ a, bank_held b a = bank_held b' a.

(** What an operation adds to a balance: the withdrawals to it less its deposits; the channel is
    the other side of both. *)
Definition operation_moves (op : ChannelOperation) a : Z :=
  paid_to (op_withdraw op) a - paid_to (op_deposit op) a
  + credit channel (external_total (op_deposit op) - external_total (op_withdraw op)) a.

Definition label_moves l a : Z :=
  match l with
  | Operation _ _ op _ _ => operation_moves op a
  | TokenCalled _ c _ _ => call_delta c a
  | Silent => 0
  end.

(** The transition function. *)
Definition bank_do b l : Bank :=
  mkBank (if l is Operation _ _ op _ _ then execute (bank_ledger b) op else bank_ledger b)
    (λ a, bank_held b a + label_moves l a).
Definition bank_run b ls : Bank := foldl bank_do b ls.

(** The depositor authorizes its conditions, and then the transfer of its tokens to the channel. *)
Definition depositor_agrees (e : Env) (d : Address * Z * list Condition) y y' : Prop :=
  ∃ y1, frame_auth e [VConditions d.2] d.1.1 y = Ok y1 ∧
    frame_auth (token_env e token "transfer")
      [VAddress d.1.1; VAddress (current_contract_address e); VI128 d.1.2] d.1.1 y1 = Ok y'.

(** The channel authorizes the transfer of a withdrawal, and the host accepts it as the
    channel's. *)
Definition channel_pays (e : Env) (d : Address * Z * list Condition) y y' : Prop :=
  let self := current_contract_address e in
  let args := [VAddress self; VAddress d.1.1; VI128 d.1.2] in
  ∃ y1, authorize_as_current_contract e [mkContractContext _ token "transfer" args] y = Ok y1 ∧
    frame_auth (token_env e token "transfer") args self y1 = Ok y'.

(** A registered provider and the owner of every spent output signed; the host accepted the
    bundle as authorized by the auth contract, each deposit as its depositor's and each
    withdrawal as the channel's, one after the other, and nothing else. *)
Definition operation_authorized (e : Env) (providers : ProviderSet) (op : ChannelOperation) y y'
    : Prop :=
  current_contract_address e = channel ∧
  (∃ payload signatures,
    (∃ pk entry, signatures !! SKProvider pk = Some entry ∧
       provider_entry_valid e payload providers pk entry) ∧
    ∀ u conds, (u, conds) ∈ op_spend op →
      conds ≠ [] ∧ owner_signed e signatures channel u conds) ∧
  ∃ y1 y2, frame_auth e (bundle_auth_args (op_bundle op)) council_address y = Ok y1 ∧
    passes (depositor_agrees e) (op_deposit op) y1 y2 ∧
    passes (channel_pays e) (op_withdraw op) y2 y'.

(** Whoever moves tokens by a call of the token authorized this very call. *)
Definition mover_agrees (e : Env) (c : TokenCall) y y' : Prop :=
  ∃ t a args, call_signer t c = Some (a, args) ∧ frame_auth e args a y = Ok y'.

(** When a label may occur. *)
Definition bank_allows b l : Prop :=
  match l with
  | Operation e providers op y y' =>
      op_valid op ∧ executable (bank_ledger b) op ∧
      (∀ d, d ∈ op_deposit op → d.1.1 ≠ channel ∧ d.1.2 ≤ bank_held b d.1.1) ∧
      operation_authorized e providers op y y'
  | TokenCalled e c y y' =>
      0 ≤ call_delta c channel ∧
      ∀ a, call_delta c a < 0 → 0 ≤ bank_held b a + call_delta c a ∧ mover_agrees e c y y'
  | Silent => True
  end.

Fixpoint bank_admits b ls : Prop :=
  match ls with
  | [] => True
  | l :: ls => bank_allows b l ∧ bank_admits (bank_do b l) ls
  end.

(** The outputs are backed by the channel's tokens. *)
Definition bank_backed b : Prop :=
  wf_ledger (bank_ledger b) ∧ total_unspent (bank_ledger b) ≤ bank_held b channel.
End machine.

(** ** The concrete system, with labels *)

Section labelled.
Context `{Ownable} `{!TokenSdk} `{!ConditionXdr} {Y : Type} `{!HostAuth Y}.
Context `{!CouncilHost (TokenWorld (Y:=Y))}.
Variable channel : Address.

Abbreviation SystemState := (ChannelState * TokenWorld (Y:=Y))%type.

(** What [system_step] does, with what is seen of it; operations run at the host's ledger. *)
Inductive labelled_step : SystemState → SystemLabel Y → SystemState → Prop :=
  | label_operation depth e op s t y r s' t' y'
      (frame := PrivacyChannelContract.enter_frame e (CcTransact op)) :
      current_contract_address e = channel → 1 ≤ min_temporary_ttl e →
      host_ledger (t, y) = ledger_sequence e →
      PrivacyChannelContract.channel_call depth e (CcTransact op) (s, (t, y))
        = Ok (r, (s', (t', y'))) →
      labelled_step (s, (t, y)) (Operation frame (au_providers (council_state (t, y))) op y y')
        (s', (t', y'))
  | label_other depth e c w r w' :
      current_contract_address e = channel → 1 ≤ min_temporary_ttl e →
      (∀ op, c ≠ CcTransact op) →
      PrivacyChannelContract.channel_call depth e c w = Ok (r, w') →
      labelled_step w Silent w'
  | label_token e c s t y t' y' :
      (∀ args, call_signer t c ≠ Some (channel, args)) →
      token_call e c (t, y) = Ok (tt, (t', y')) →
      labelled_step (s, (t, y)) (TokenCalled e c y y') (s, (t', y'))
  | label_world s t y y' : labelled_step (s, (t, y)) Silent (s, (t, y')).

Inductive labelled_run : SystemState → list (SystemLabel Y) → SystemState → Prop :=
  | run_nothing w : labelled_run w [] w
  | run_step w l w1 ls w2 :
      labelled_step w l w1 → labelled_run w1 ls w2 → labelled_run w (l :: ls) w2.

(** What the bank sees of a state. *)
Definition bank_of (w : SystemState) : Bank := mkBank (ch_ledger w.1) (balance_of w.2.1).
End labelled.

(** ** Lemmas: the abstract machine *)

Section machine_lemmas.
Context `{SdkLaws} `{!Ownable} `{!TokenSdk} `{!ConditionXdr} {Y : Type} `{!HostAuth Y}
  `{!CouncilHost (TokenWorld (Y:=Y))}.
Variables channel token : Address.
Implicit Types (b : Bank) (l : SystemLabel Y) (ls : list (SystemLabel Y)) (a : Address).

#[export] Instance bank_equivalence : Equivalence (≡@{Bank}).
Proof.
  split.
  - by intros [L h].
  - intros b b' [? Hh]. by split; [|intros a; rewrite Hh].
  - intros b b' b'' [? Hh] [? Hh']. split; [congruence|]. intros a. by rewrite Hh, Hh'.
Qed.

#[export] Instance bank_do_proper : Proper ((≡) ==> (=) ==> (≡)) (bank_do (Y:=Y) channel).
Proof.
  intros b b' [HL Hh] l _ <-. split; simpl; [by rewrite HL|]. intros a. by rewrite Hh.
Qed.

#[export] Instance bank_run_proper : Proper ((≡) ==> (=) ==> (≡)) (bank_run (Y:=Y) channel).
Proof.
  intros b b' Hb ls _ <-. revert b b' Hb. induction ls as [|l ls IH]; intros b b' Hb; [done|].
  simpl. apply IH. by rewrite Hb.
Qed.

#[export] Instance bank_allows_proper :
  Proper ((≡) ==> (=) ==> iff) (bank_allows (Y:=Y) channel token).
Proof.
  intros b b' [HL Hh] l _ <-. destruct l as [e providers op y y'|e c y y'|]; simpl; [| |done].
  - rewrite HL. by setoid_rewrite Hh.
  - by setoid_rewrite Hh.
Qed.

#[export] Instance bank_backed_proper : Proper ((≡) ==> iff) (bank_backed channel).
Proof. intros b b' [HL Hh]. unfold bank_backed. by rewrite HL, Hh. Qed.

#[export] Instance bank_admits_proper :
  Proper ((≡) ==> (=) ==> iff) (bank_admits (Y:=Y) channel token).
Proof.
  intros b b' Hb ls _ <-. revert b b' Hb. induction ls as [|l ls IH]; intros b b' Hb; [done|].
  simpl. f_equiv; [by apply bank_allows_proper | by apply IH, bank_do_proper].
Qed.

(** The balances after a run are the first ones and what the labels moved. *)
Lemma bank_run_held b ls a :
  bank_held (bank_run channel b ls) a = bank_held b a + sumZ (λ l, label_moves channel l a) ls.
Proof.
  revert b. induction ls as [|l ls IH]; intros b; [simpl; lia|].
  change (bank_run channel b (l :: ls)) with (bank_run channel (bank_do channel b l) ls).
  rewrite IH. simpl. lia.
Qed.

(** What a label takes from somebody who is not the channel was agreed to. *)
Lemma label_loss b l a :
  a ≠ channel → bank_allows (Y:=Y) channel token b l → label_moves channel l a < 0 →
  (∃ e c y y', l = TokenCalled e c y y' ∧ call_delta c a < 0 ∧ mover_agrees e c y y') ∨
  ∃ e providers op y y' z conds, l = Operation e providers op y y' ∧
    (a, z, conds) ∈ op_deposit op ∧ operation_authorized channel token e providers op y y'.
Proof.
  intros Hne. destruct l as [e providers op y y'|e c y y'|]; simpl; [| |lia].
  - intros ((_ & _ & (Hpos & _) & _) & _ & _ & Hauth) Hlt. right.
    unfold operation_moves, credit in Hlt. rewrite decide_False in Hlt by done.
    pose proof (paid_to_range _ a Hpos). destruct (decide (a ∈ (op_deposit op).*1.*1)) as [Hin|Hn].
    + apply list_elem_of_fmap in Hin as ([a' z] & -> & Hin).
      apply list_elem_of_fmap in Hin as ([[a2 z2] conds] & [= -> ->] & Hin).
      by exists e, providers, op, y, y', z2, conds.
    + rewrite (paid_to_not_elem _ _ Hn) in Hlt. lia.
  - intros [_ Hm] Hlt. left. exists e, c, y, y'. by destruct (Hm a Hlt).
Qed.

Lemma bank_loss b ls a :
  a ≠ channel → bank_admits (Y:=Y) channel token b ls → sumZ (λ l, label_moves channel l a) ls < 0 →
  (∃ e c y y', TokenCalled e c y y' ∈ ls ∧ call_delta c a < 0 ∧ mover_agrees e c y y') ∨
  ∃ e providers op y y' z conds, Operation e providers op y y' ∈ ls ∧
    (a, z, conds) ∈ op_deposit op ∧ operation_authorized channel token e providers op y y'.
Proof.
  intros Hne. revert b. induction ls as [|l ls IH]; intros b; simpl; [lia|]. intros [Hl Hls] Hlt.
  destruct (Z.ltb_spec (label_moves channel l a) 0) as [Hneg|].
  - destruct (label_loss _ _ _ Hne Hl Hneg)
      as [(e & c & y & y' & -> & ?)|(e & p & op & y & y' & z & cs & -> & ?)];
      [left; exists e, c, y, y' | right; exists e, p, op, y, y', z, cs]; (split; [by left | done]).
  - destruct (IH _ Hls) as [(e & c & y & y' & Hin & ?)|(e & p & op & y & y' & z & cs & Hin & ?)];
      [lia | left; exists e, c, y, y' | right; exists e, p, op, y, y', z, cs];
      (split; [by right | done]).
Qed.

(** The machine keeps its outputs backed, by the rules on labels alone. *)
Lemma bank_do_backed b l :
  bank_backed channel b → bank_allows (Y:=Y) channel token b l →
  bank_backed channel (bank_do channel b l).
Proof.
  intros [Hwf Hle]. destruct l as [e providers op y y'|e c y y'|]; simpl.
  - intros (Hv & (Hsp & Hcr & Hbal) & Hdep & _). unfold bank_backed. simpl.
    pose proof Hv as (_ & (Hpos & _) & (Hpos' & _) & _).
    assert (paid_to (op_deposit op) channel = 0).
    { apply paid_to_not_elem. intros (p & Hp & Hin)%list_elem_of_fmap.
      apply list_elem_of_fmap in Hin as (d & -> & Hin). by destruct (Hdep d Hin) as [[] _]. }
    pose proof (paid_to_range _ channel Hpos').
    unfold execute. rewrite (bundle_total _ _ _ Hsp Hcr). split.
    + eapply evolves_wf; [by apply bundle_evolves | done].
    + unfold operation_moves, credit. rewrite decide_True by done. lia.
  - intros [Hc _]. split; simpl; [done | lia].
  - intros _. split; simpl; [done | lia].
Qed.

Lemma bank_run_backed b ls :
  bank_backed channel b → bank_admits (Y:=Y) channel token b ls →
  bank_backed channel (bank_run channel b ls).
Proof.
  revert b. induction ls as [|l ls IH]; intros b Hb; [done|]. intros [Hl Hls]. simpl.
  apply IH; [by eapply bank_do_backed | done].
Qed.
End machine_lemmas.

(** ** Lemmas: the token's part of an operation *)

Section settlement.
Context `{Ownable} `{!SdkLaws} `{!TokenSdk} `{!TokenSdkLaws} `{!ConditionXdr}
  `{!ConditionXdrLaws} {Y : Type} `{!HostAuth Y} `{!CouncilHost (TokenWorld (Y:=Y))}.
Variables channel token : Address.
Implicit Types (e : Env) (s : ChannelState) (t : TokenState) (y : Y)
  (d : Address * Z * list Condition) (ext : list (Address * Z * list Condition)).
Import PrivacyChannelContract.

(** The host lets no contract authorize a call of its own entry points. *)
Hypothesis no_self_auth : ∀ cc (y y' : Y),
  require_auth_for channel cc y = Ok y' → contract cc ≠ channel.

Lemma transfer_moves callee e f g z s t y u s' t' y' :
  transfer (X:=TokenWorld) callee e token f g z (s, (t, y)) = Ok (u, (s', (t', y'))) →
  s' = s ∧ 0 ≤ z ≤ balance_of t f ∧
  frame_auth (token_env e token "transfer") [VAddress f; VAddress g; VI128 z] f y = Ok y' ∧
  (∀ a, balance_of t' a = balance_of t a + (credit g z a - credit f z a)).
Proof.
  unfold transfer, asset_transfer, token_asset. simpl.
  destruct (TestToken.transfer (token_env e token "transfer") f (muxed_from g) z (t, y))
    as [[v [t2 y2]]|] eqn:E; [|done]. intros [= _ <- <- <-].
  apply transfer_Ok in E as (Ha & Hz & Hle & Hb & _).
  rewrite muxed_from_val in Ha. rewrite muxed_from_address in Hb. by split_and!.
Qed.

Lemma deposit_moves callee e d s t y u s' t' y' :
  current_contract_address e = channel →
  deposit_step (X:=TokenWorld) callee e token d (s, (t, y)) = Ok (u, (s', (t', y'))) →
  d.1.1 ≠ channel ∧ d.1.2 ≤ balance_of t d.1.1 ∧ depositor_agrees token e d y y' ∧
  (∀ a, balance_of t' a = balance_of t a + (credit channel d.1.2 a - credit d.1.1 d.1.2 a)).
Proof.
  destruct d as [[from z] conds]. intros He. unfold deposit_step.
  intros (v & [s1 [t1 y1]] & [Ha%require_auth_for_args_Ok ->]%on_snd_Ok & Hr)%M_bind_Ok.
  apply frame_auth_token in Ha as [Ht1 Ha]. simpl in Ht1, Ha. subst t1.
  apply M_bind_Ok in Hr as (v2 & [s2 [t2 y2]] & Htr & Hr).
  apply transfer_moves in Htr as (-> & Hz & Hta & Hb).
  apply on_fst_Ok in Hr as [_ [= -> ->]]. rewrite He in Hb. cbn [fst snd].
  split_and!; [| lia | by exists y1 | done].
  intros ->. apply no_self_auth in Ha. by rewrite He in Ha.
Qed.

Lemma withdraw_moves callee e d s t y u s' t' y' :
  current_contract_address e = channel →
  withdraw_step (X:=TokenWorld) callee e token d (s, (t, y)) = Ok (u, (s', (t', y'))) →
  channel_pays token e d y y' ∧
  (∀ a, balance_of t' a = balance_of t a + (credit d.1.1 d.1.2 a - credit channel d.1.2 a)).
Proof.
  destruct d as [[to z] cs]. intros He. unfold withdraw_step.
  intros (v1 & [s2 [t2 y2]] & [Ha ->]%on_snd_Ok & Hd)%M_bind_Ok.
  apply res_bind_Ok in Ha as (w & Ha & [= _ ->]). simpl in Ha.
  apply res_bind_Ok in Ha as (y3 & Ha & [= <- <-]).
  apply M_bind_Ok in Hd as (v2 & [s3 [t3 y4]] & Htr & Hd).
  apply transfer_moves in Htr as (-> & _ & Hta & Hb).
  apply on_fst_Ok in Hd as [_ [= -> ->]]. rewrite He in Hb. split; [by exists y3 | done].
Qed.

(** What one depositor still holds is untouched by the other deposits. *)
Lemma deposits_move callee e ext s t y u s' t' y' :
  current_contract_address e = channel → NoDup (ext.*1.*1) →
  for_each ext (deposit_step (X:=TokenWorld) callee e token) (s, (t, y))
    = Ok (u, (s', (t', y'))) →
  (∀ d, d ∈ ext → d.1.1 ≠ channel ∧ d.1.2 ≤ balance_of t d.1.1) ∧
  passes (depositor_agrees token e) ext y y' ∧
  (∀ a, balance_of t' a
     = balance_of t a + (credit channel (external_total ext) a - paid_to ext a)).
Proof.
  intros He. revert s t y. induction ext as [|d ext IH]; intros s t y Hnd; cbn [for_each passes].
  - intros [_ [= <- <- <-]]%M_ret_Ok. split_and!; [by intros d ?%elem_of_nil | done |]. intros a.
    unfold credit, external_total, paid_to. simpl. case_decide; lia.
  - intros (v & [s1 [t1 y1]] & Hd & Hr)%M_bind_Ok. simpl in Hnd.
    apply NoDup_cons in Hnd as [Hn Hnd].
    apply deposit_moves in Hd as (Hc & Hle & Hag & Hb); [|done].
    apply IH in Hr as (Hall & Hpass & Hb'); [|done]. split_and!; [|by exists y1|].
    + intros d' [->|Hin]%elem_of_cons; [done|]. destruct (Hall d' Hin) as (? & Hle').
      split; [done|]. rewrite Hb in Hle'. unfold credit in Hle'.
      assert (d'.1.1 ≠ d.1.1).
      { intros E. apply Hn. rewrite <- E. by do 2 apply list_elem_of_fmap_2. }
      by rewrite !decide_False, Z.add_0_r in Hle'.
    + intros a. rewrite Hb', Hb, external_total_cons. unfold paid_to, credit. simpl.
      unfold credit. repeat case_decide; lia.
Qed.

Lemma withdraws_move callee e ext s t y u s' t' y' :
  current_contract_address e = channel →
  for_each ext (withdraw_step (X:=TokenWorld) callee e token) (s, (t, y))
    = Ok (u, (s', (t', y'))) →
  passes (channel_pays token e) ext y y' ∧
  ∀ a, balance_of t' a
     = balance_of t a + (paid_to ext a - credit channel (external_total ext) a).
Proof.
  intros He. revert s t y. induction ext as [|d ext IH]; intros s t y; cbn [for_each passes].
  - intros [_ [= <- <- <-]]%M_ret_Ok. split; [done|]. intros a.
    unfold credit, external_total, paid_to. simpl. case_decide; lia.
  - intros (v & [s1 [t1 y1]] & Hd & Hr)%M_bind_Ok.
    apply withdraw_moves in Hd as [Hp Hb]; [|done]. apply IH in Hr as [Hpass Hb'].
    split; [by exists y1|]. intros a. rewrite Hb', Hb, external_total_cons.
    unfold paid_to, credit. simpl. unfold credit. repeat case_decide; lia.
Qed.

(** What happened to the balances and to the host when [transact] returned. *)
Lemma transact_moves callee e op s t y u s' t' y' :
  current_contract_address e = channel → ch_asset s = Some token →
  us_auth (ch_utxo s) = Some council_address →
  transact (X:=TokenWorld) callee e op (s, (t, y)) = Ok (u, (s', (t', y'))) →
  (∀ d, d ∈ op_deposit op → d.1.1 ≠ channel ∧ d.1.2 ≤ balance_of t d.1.1) ∧
  (∃ y1 y2, frame_auth e (bundle_auth_args (op_bundle op)) council_address y = Ok y1 ∧
     passes (depositor_agrees token e) (op_deposit op) y1 y2 ∧
     passes (channel_pays token e) (op_withdraw op) y2 y') ∧
  (∀ a, balance_of t' a = balance_of t a + operation_moves channel op a).
Proof.
  intros He Has Hau. unfold transact.
  intros (v1 & [s1 x1] & [[live ->]%channel_bump_Ok ->]%on_fst_Ok & Hr)%M_bind_Ok.
  apply M_bind_Ok in Hr as (v2 & [s2 x2] & [(_ & Hs2)%enter_guard_Ok ->]%on_fst_Ok & Hr).
  apply M_bind_Ok in Hr as ([[b td] tw] & [s3 x3] & [Hpre [= <- <-]]%lift_Ok & Hr).
  apply pre_process_Ok in Hpre as ((_ & (_ & _ & Hnd) & _) & -> & _ & _).
  apply M_bind_Ok in Hr as (r & [s4 [t4 y4]] & Hb & Hr).
  apply M_bind_Ok in Hr as (v5 & [s5 [t5 y5]] & Hx & Hr).
  apply on_fst_Ok in Hr as [_ [= -> ->]].
  unfold on_utxo_world in Hb. apply zoom_Ok in Hb as ([us w] & Hb & Hs4).
  cbn [fst snd] in Hb, Hs4. injection Hs4 as -> <-.
  apply process_bundle_Ok in Hb as (_ & _ & (a & Ha & [Ht Hreq]%frame_auth_token) & _).
  simpl in Ht, Hreq. subst t4 s2. simpl in Ha. rewrite Hau in Ha. injection Ha as <-.
  unfold execute_external_operations in Hx.
  apply M_bind_Ok in Hx as (a' & [s6 w6] & [(Has' & ->)%read_asset_Ok Hw6]%on_fst_Ok & Hx).
  subst w6. simpl in Has'. rewrite Has in Has'. injection Has' as <-.
  apply M_bind_Ok in Hx as (v & [s7 [t7 y7]] & Hd & Hw).
  apply deposits_move in Hd as (Hall & Hpd & Hb1); [|done..].
  apply withdraws_move in Hw as [Hpw Hb2]; [|done].
  split_and!; [done | by exists y4, y7 |]. intros a'. rewrite Hb2, Hb1.
  unfold operation_moves, credit. case_decide; lia.
Qed.
End settlement.

(** ** Lemmas: the simulation *)

Section simulation.
Context `{OwnableLaws} `{!SdkLaws} `{!TokenSdk} `{!TokenSdkLaws} `{!ConditionXdr}
  `{!ConditionXdrLaws} {Y : Type} `{!HostAuth Y} `{!CouncilHost (TokenWorld (Y:=Y))}
  `{!CouncilLaws (TokenWorld (Y:=Y))}.
Variables channel token : Address.
Implicit Types (w : ChannelState * TokenWorld (Y:=Y)) (l : SystemLabel Y).
Import PrivacyChannelContract.

Hypothesis no_self_auth : ∀ cc (y y' : Y),
  require_auth_for channel cc y = Ok y' → contract cc ≠ channel.

(** What holds of a solvent channel bound to the auth contract. *)
Definition in_service w : Prop :=
  solvent channel token w ∧ wf_ledger (ch_ledger w.1) ∧
  us_auth (ch_utxo w.1) = Some council_address.

Lemma labelled_system_step w l w' : labelled_step channel w l w' → system_step channel w w'.
Proof. destruct 1; by econstructor. Qed.

Lemma labelled_in_service w l w' :
  labelled_step channel w l w' → in_service w → in_service w'.
Proof.
  intros Hstep (Hsol & Hwf & Hau). split.
  { eapply step_solvent; [done | by eapply labelled_system_step | done]. }
  destruct Hstep as [d e op s t y r s' t' y' fr He Hmin _ Hrun
    |d e c [s w] r [s' w'] He Hmin _ Hrun| |];
    [..|done|done];
    apply channel_call_funds in Hrun as (Hev & _ & _ & Hau' & _); try done;
    (split; [by eapply evolves_wf | simpl in *; congruence]).
Qed.

Lemma operation_simulated depth e op s t (y : Y) r s' t' y'
    (fr := enter_frame e (CcTransact op)) :
  current_contract_address e = channel → 1 ≤ min_temporary_ttl e →
  host_ledger (t, y) = ledger_sequence e → in_service (s, (t, y)) →
  channel_call (X:=TokenWorld) depth e (CcTransact op) (s, (t, y)) = Ok (r, (s', (t', y'))) →
  let l := Operation fr (au_providers (council_state (t, y))) op y y' in
  bank_allows (Y:=Y) channel token (bank_of (s, (t, y))) l ∧
  bank_of (s', (t', y')) ≡ bank_do channel (bank_of (s, (t, y))) l.
Proof.
  intros He Hmin Hnow ((_ & _ & Has & _) & _ & Hau) Hrun. destruct depth as [|d]; [done|].
  rewrite channel_call_transact in Hrun. apply unit_ret_Ok in Hrun as [Hrun _].
  pose proof Hrun as (_ & Hv & Hsp & Hcr & Hbal & _ & _ & HL & _)%transact_Ok; [|done].
  pose proof Hrun as (Hdep & Hhost & Hb)%(transact_moves channel token no_self_auth); [|done..].
  pose proof Hrun as Hsig%transact_signed; [|done..].
  change (current_contract_address fr = channel) in He. fold fr in Hsig. rewrite He in Hsig.
  by split.
Qed.

Lemma token_call_simulated e c s t (y : Y) t' y' :
  (∀ args, call_signer t c ≠ Some (channel, args)) → in_service (s, (t, y)) →
  token_call e c (t, y) = Ok (tt, (t', y')) →
  bank_allows (Y:=Y) channel token (bank_of (s, (t, y))) (TokenCalled e c y y') ∧
  bank_of (s, (t', y')) ≡ bank_do channel (bank_of (s, (t, y))) (TokenCalled e c y y').
Proof.
  intros Hsig ((_ & _ & _ & Hwf & Hno) & _) Hrun.
  pose proof (token_call_spares _ _ _ _ _ _ _ Hsig Hno Hrun) as Hch.
  apply token_call_Ok in Hrun as (Hb & _ & Hw & _ & Hau & _ & Hpos). split; [|by split].
  split; [done|]. intros a Ha. simpl. rewrite <- Hb. split.
  { by apply wf_balance_range, Hw. }
  destruct (call_signer t c) as [[sp args]|] eqn:Hs; [by exists t, sp, args|].
  destruct c; simpl in *; try done. unfold credit in Ha. case_decide; lia.
Qed.

Lemma labelled_simulated w l w' :
  labelled_step channel w l w' → in_service w →
  bank_allows (Y:=Y) channel token (bank_of w) l ∧ bank_of w' ≡ bank_do channel (bank_of w) l.
Proof.
  intros Hstep Hin. destruct Hstep as [d e op s t y r s' t' y' fr He Hmin Hnow Hrun
    |d e c [s [t y]] r [s' [t' y']] He Hmin Hc Hrun|e c s t y t' y' Hsig Hrun|s t y y'].
  - by eapply operation_simulated.
  - pose proof Hrun as Ht%quiet_token; [|done]. simpl in Ht. subst t'.
    apply quiet_call in Hrun as [HL _]; [|done]. split; [done|]. split; simpl; [done|].
    intros a. by rewrite Z.add_0_r.
  - by apply token_call_simulated.
  - split; [done|]. split; simpl; [done|]. intros a. by rewrite Z.add_0_r.
Qed.

Lemma labelled_run_simulated w ls w' :
  labelled_run channel w ls w' → in_service w →
  bank_admits (Y:=Y) channel token (bank_of w) ls ∧ bank_of w' ≡ bank_run channel (bank_of w) ls ∧
  in_service w'.
Proof.
  induction 1 as [w|w l w1 ls w2 Hstep _ IH]; intros Hin; [by split_and!|].
  pose proof (labelled_simulated _ _ _ Hstep Hin) as [Hl Hb].
  destruct (IH (labelled_in_service _ _ _ Hstep Hin)) as (Had & Hrun & Hin').
  split_and!; [split; [done|] | | done].
  - by apply (bank_admits_proper channel token _ _ Hb ls ls eq_refl).
  - etrans; [exact Hrun|]. exact (bank_run_proper channel _ _ Hb ls ls eq_refl).
Qed.
End simulation.

(** ** Properties *)

(** C4. The deployed system refines a bank.  Take the channel, the Quorum Auth contract and the
    token in a state where the channel is bound and solvent, and any run of calls, by anyone,
    in any order.  The abstract machine allows every label of the run: each executed operation
    was valid and balanced, spent unspent and created free outputs, was signed by a provider
    registered at that moment and by the owner of each spent output, and took from the host
    exactly the auth contract's authorization, then each depositor's, who had the tokens, for
    its conditions and its transfer, then the channel's own for each withdrawal.  Running the
    machine on the labels gives the ledger and every balance of the final state, and the outputs
    are still backed by the channel's tokens. *)
Theorem system_refines_bank `{OwnableLaws} `{!SdkLaws} `{!TokenSdk} `{!TokenSdkLaws}
    `{!ConditionXdr} `{!ConditionXdrLaws} {Y} `{!HostAuth Y} `{!CouncilHost (TokenWorld (Y:=Y))}
    `{!CouncilLaws (TokenWorld (Y:=Y))} (channel token : Address)
    (no_self_auth : ∀ cc (y y' : Y), require_auth_for channel cc y = Ok y' →
                                     contract cc ≠ channel)
    (w w' : ChannelState * TokenWorld (Y:=Y)) (ls : list (SystemLabel Y))
    (Hw : solvent channel token w) (Hwf : wf_ledger (ch_ledger w.1))
    (Hbound : us_auth (ch_utxo w.1) = Some council_address)
    (Hrun : labelled_run channel w ls w') :
  bank_admits (Y:=Y) channel token (bank_of w) ls ∧
  bank_of w' ≡ bank_run channel (bank_of w) ls ∧
  bank_backed channel (bank_of w').
Proof.
  destruct (labelled_run_simulated channel token no_self_auth w ls w' Hrun) as (Had & Hb & _);
    [done|]. split_and!; [done | done |]. rewrite Hb. eapply bank_run_backed; [|done].
  destruct w as [s [t y]], Hw as (Hsup & Htot & _). split; [done|]. simpl in *. lia.
Qed.

(** C5. Accounts and their losses.  After any run, every balance is the one before plus what
    the labels moved; and whoever else than the channel holds less than before has either been
    debited by a call of the token that its mover authorized, or made a deposit in an operation
    that took its authorization of the deposit's conditions and of the transfer. *)
Theorem losses_are_agreed `{OwnableLaws} `{!SdkLaws} `{!TokenSdk} `{!TokenSdkLaws}
    `{!ConditionXdr} `{!ConditionXdrLaws} {Y} `{!HostAuth Y} `{!CouncilHost (TokenWorld (Y:=Y))}
    `{!CouncilLaws (TokenWorld (Y:=Y))} (channel token : Address)
    (no_self_auth : ∀ cc (y y' : Y), require_auth_for channel cc y = Ok y' →
                                     contract cc ≠ channel)
    (w w' : ChannelState * TokenWorld (Y:=Y)) (ls : list (SystemLabel Y))
    (Hw : solvent channel token w) (Hwf : wf_ledger (ch_ledger w.1))
    (Hbound : us_auth (ch_utxo w.1) = Some council_address)
    (Hrun : labelled_run channel w ls w') (a : Address) :
  balance_of w'.2.1 a = balance_of w.2.1 a + sumZ (λ l, label_moves channel l a) ls ∧
  (a ≠ channel → balance_of w'.2.1 a < balance_of w.2.1 a →
   (∃ e c y y', TokenCalled e c y y' ∈ ls ∧ call_delta c a < 0 ∧ mover_agrees e c y y') ∨
   ∃ e providers op y y' z conds, Operation e providers op y y' ∈ ls ∧
     (a, z, conds) ∈ op_deposit op ∧ operation_authorized channel token e providers op y y').
Proof.
  destruct (labelled_run_simulated channel token no_self_auth w ls w' Hrun) as (Had & [_ Hb] & _);
    [done|]. specialize (Hb a). rewrite bank_run_held in Hb. simpl in Hb. split; [exact Hb|].
  intros Hne Hlt. eapply bank_loss; [done | done | lia].
Qed.
