(* ===== verification/SampleWorld.v ===== *)
(** A concrete outside world, used by the witnesses and the executable scenarios only.

    It has an access-control library, a host that keeps one council entry, the invocations
    accounts have authorized and those contracts have authorized for themselves, and a token
    SDK.  The scenario's actors and states are at the end. *)
From S2P Require Import Prelude Errors Host Primitives SampleSdk Storage HostAuth Auth ChannelAuth.
From S2P Require Import UtxoCore Channel ChannelSpec Keys Snapshot OperationBuilder ChannelOperationBuilder.
From S2P Require Import Token System SystemLive SystemClient.

(** ** Libraries *)

(** Owner and pending owner; a proposal is made by the owner, completed by the other. *)
#[export] Instance sample_ownable : Ownable := {|
  OwnState := option SampleAddress * option SampleAddress;
  own_init := (None, None);
  get_owner o := o.1;
  pending_owner _ o := o.2;
  set_owner _ a o :=
    match o.1 with Some _ => Err (Trap (LibraryPanic 1)) | None => Ok (Some a, None) end;
  enforce_owner_auth X ra _ ox :=
    match ox.1.1 with
    | Some a => x' ← ra a ox.2; Ok (ox.1, x')
    | None => Err (Trap (LibraryPanic 2))
    end;
  transfer_ownership X ra _ new _ ox :=
    match ox.1.1 with
    | Some a => x' ← ra a ox.2; Ok ((ox.1.1, Some new), x')
    | None => Err (Trap (LibraryPanic 2))
    end;
  accept_ownership X ra _ ox :=
    match ox.1.2 with
    | Some p => x' ← ra p ox.2; Ok ((Some p, None), x')
    | None => Err (Trap (LibraryPanic 3))
    end;
  UpgradeState := option (BytesN 32);
  upgrade_init := None;
  upgrade_wasm _ h _ := Ok (Some h);
|}.

#[export] Instance sample_ownable_laws : OwnableLaws.
Proof.
  split; simpl.
  - intros e a [[b|] p] o' Hs; simplify_eq/=; done.
  - intros X ra e [[a|] p] x o' x'; simpl; [|split; [done | by intros (_ & ? & ? & _)]].
    rewrite res_bind_Ok. split.
    + intros (y & Hy & [= <- <-]). eauto.
    + intros (-> & ? & [= <-] & Hy). eauto.
  - intros X ra e new live [[a|] p] x o' x'; simpl; [|done].
    rewrite res_bind_Ok. intros (y & Hy & [= <- <-]). eauto.
  - intros X ra e [o [p|]] x o' x'; simpl; [|done].
    rewrite res_bind_Ok. intros (y & Hy & [= <- <-]). eauto.
Qed.

#[export] Instance sample_token_sdk : TokenSdk := {|
  MetaState := option TokenMetadata;
  meta_init := None;
  get_metadata st := st;
  set_metadata m _ := Some m;
  MuxedAddress := SampleAddress * option Z;
  muxed_address m := m.1;
  muxed_id m := m.2;
  muxed_val m := VAddress m.1;
  muxed_from a := (a, None);
|}.

#[export] Instance sample_token_sdk_laws : TokenSdkLaws.
Proof. by split. Qed.

(** Keys are their public keys; the signer always returns a high signature. *)
#[export] Instance sample_signing_keys : SigningKeys := {|
  NativeSigningKey := BytesN 32;
  signing_key_from_bytes := λ k, k;
  verifying_key_bytes := λ k, k;
  native_sign := sample_ed25519_sig;
  P256SigningKey := BytesN 65;
  P256Signature := BytesN 32 * BytesN 32 * bool;
  encoded_point := λ k, k;
  from_sec1_bytes_ok _ := true;
  verify_prehash pk h sig :=
    bool_decide (sig.1 = (from_array 32 (take 32 (drop 1 (to_array pk))), h));
  sign_prehash pk h := Some (from_array 32 (take 32 (drop 1 (to_array pk))), h, true);
  s_is_high sig := sig.2;
  normalize_s sig := Some (sig.1, false);
  sig_r sig := sig.1.1;
  sig_s sig := sig.1.2;
|}.

#[export] Instance sample_signing_keys_laws : SigningKeysLaws.
Proof.
  split; simpl.
  - intros k msg. by apply bool_decide_eq_true.
  - done.
  - intros k h sig [= <-]. by apply bool_decide_eq_true.
  - eauto.
  - intros pk h sig sig' [= <-] Hv. done.
  - intros pk h sig Hv%bool_decide_eq_true _. apply bool_decide_eq_true. rewrite Hv. simpl.
    unfold sample_p256_sig. do 2 f_equal. unfold from_array, resize_bytes. simpl.
    apply resize_all_alt. rewrite length_take, length_drop, length_to_array. done.
Qed.

#[export] Instance sample_preimage : AuthPreimage := {|
  network_id := from_array 32 (replicate 32 Init.Byte.x77);
  preimage_to_xdr net nonce expiration inv :=
    to_array net ++ le_bytes 8 nonce ++ u32_to_le_bytes expiration
      ++ address_to_string (contract (inv_function inv));
|}.

(** A table of the strkeys the tests use. *)
#[export] Instance sample_strkey : StrKey := {|
  address_from_str s :=
    find_map (λ '(public, secret),
      if bool_decide (s = str_bytes public) then
        match hex_to_bytes (str_bytes secret) with
        | Ok key => Some (Helpers.address_from_ed25519_pk_bytes key)
        | Err _ => None
        end
      else None) snapshot_keys;
|}.

(** ** The host *)

Definition sample_bytes (n : nat) (b : byte) : BytesN n := from_array n (replicate n b).

Definition sample_contract (b : byte) : SampleAddress :=
  SamplePayload (ContractIdHash (sample_bytes 32 b)).
Definition sample_account (b : byte) : SampleAddress :=
  SamplePayload (AccountIdPublicKeyEd25519 (sample_bytes 32 b)).

Definition sample_council : Address := sample_contract Init.Byte.x03.

Record SampleHost := mkSampleHost {
  sh_ledger : Z;
  sh_council : AuthState;
  sh_entry : BytesN 32 * Signatures * list Context;
  sh_signed : list (SampleAddress * ContractContext);
  sh_invoker : list (SampleAddress * ContractContext);
}.

Definition sample_env_at (seq : Z) (self : SampleAddress) (fn : string) : Env :=
  mkEnv _ seq (seq + 3110400) 120960 16 self fn.

Definition sample_require_auth (a : SampleAddress) (cc : ContractContext) (h : SampleHost) :
    res SampleHost :=
  if bool_decide (contract cc = a) then Err (Trap AuthError)
  else if bool_decide (a = sample_council) then
    let '(payload, sigs, ctxs) := sh_entry h in
    if bool_decide (Contract cc ∈ ctxs) then
      match ChannelAuthContract.__check_auth (sample_env_at (sh_ledger h) sample_council "check")
              payload sigs ctxs (sh_council h) with
      | Ok (_, s') => Ok (mkSampleHost (sh_ledger h) s' (sh_entry h) (sh_signed h) (sh_invoker h))
      | Err f => Err f
      end
    else Err (Trap AuthError)
  else if bool_decide ((a, cc) ∈ sh_signed h) || bool_decide ((a, cc) ∈ sh_invoker h) then Ok h
  else Err (Trap AuthError).

#[export] Instance sample_host_auth : HostAuth SampleHost := {|
  require_auth_for := sample_require_auth;
  authorize_as_current_contract e ccs h :=
    Ok (mkSampleHost (sh_ledger h) (sh_council h) (sh_entry h) (sh_signed h)
          (((λ cc, (current_contract_address e, cc)) <$> ccs) ++ sh_invoker h));
|}.

Abbreviation SampleWorld := (TokenWorld (Y:=SampleHost)).

#[export] Instance sample_council_host : CouncilHost SampleWorld := {|
  council_address := sample_council;
  council_state w := sh_council w.2;
  host_ledger w := sh_ledger w.2;
|}.

#[export] Instance sample_council_laws : CouncilLaws SampleWorld.
Proof.
  intros cc [t h] [t' h']. simpl. rewrite res_bind_Ok. intros (h2 & Hr & _).
  unfold sample_require_auth in Hr. destruct (bool_decide (contract cc = _)); [done|].
  rewrite bool_decide_eq_true_2 in Hr by done.
  destruct (sh_entry h) as [[payload sigs] ctxs]. case_bool_decide; [|done].
  destruct (ChannelAuthContract.__check_auth _ _ _ _ _) as [[[] s']|] eqn:E; [|done].
  eexists _, payload, sigs, ctxs, s'. split; [|split; [done | exact E]]. done.
Qed.

#[export] Instance sample_host_council : CouncilHost SampleHost := {|
  council_address := sample_council;
  council_state := sh_council;
  host_ledger := sh_ledger;
|}.

#[export] Instance sample_transaction : Transaction SampleHost := {|
  entry_attached h payload sigs ctxs := sh_entry h = (payload, sigs, ctxs);
|}.

(** The check looks at nothing of its frame but the current ledger. *)
Lemma check_auth_frame (e e' : Env) payload sigs ctxs s :
  ledger_sequence e = ledger_sequence e' →
  ChannelAuthContract.__check_auth e payload sigs ctxs s
  = ChannelAuthContract.__check_auth e' payload sigs ctxs s.
Proof. destruct e, e'. simpl. by intros ->. Qed.

#[export] Instance sample_transaction_laws : TransactionLaws SampleHost.
Proof.
  split.
  - intros e payload sigs ctxs s' cc h Hentry Hcc Hne Hnow Hrun. simpl in *. subst.
    unfold sample_require_auth. rewrite bool_decide_eq_false_2, bool_decide_eq_true_2, Hentry by done.
    rewrite bool_decide_eq_true_2 by done.
    rewrite (check_auth_frame _ e) by done. rewrite Hrun. by eexists.
  - intros e cc h Hne Hself. eexists _, _. split; [done|]. simpl. unfold sample_require_auth.
    rewrite bool_decide_eq_false_2, (bool_decide_eq_false_2 (_ = sample_council)) by done. simpl.
    rewrite (bool_decide_eq_true_2 (_ ∈ _ :: _)) by set_solver. by rewrite orb_true_r.
Qed.

(** An account's entry is carried when both its invocations were signed. *)
#[export] Instance sample_accounts : Accounts SampleHost := {|
  account_entry h entry :=
    Forall (λ cc, (cred_address entry, cc) ∈ sh_signed h)
      (inv_function (root_invocation entry) :: (inv_function <$> inv_subs (root_invocation entry)));
|}.

Lemma sample_auth_kept (a : SampleAddress) (cc : ContractContext) (h h' : SampleHost) :
  sample_require_auth a cc h = Ok h' → sh_signed h' = sh_signed h ∧ sh_ledger h' = sh_ledger h.
Proof.
  unfold sample_require_auth. case_bool_decide; [done|]. case_bool_decide.
  - destruct (sh_entry h) as [[payload sigs] ctxs]. case_bool_decide; [|done].
    destruct (ChannelAuthContract.__check_auth _ _ _ _ _) as [[[] s']|]; [|done]. by intros [= <-].
  - destruct (_ || _); [|done]. by intros [= <-].
Qed.

#[export] Instance sample_account_laws : AccountLaws SampleHost.
Proof.
  split.
  - intros h entry pk sig root sub Hcar Ha _ _ _ Hroot Hr Hs. simpl in *. rewrite Hroot in Hcar.
    apply Forall_cons in Hcar as [H1 [H2 _]%Forall_cons]. simpl in *.
    assert (cred_address entry ≠ sample_council) by (rewrite Ha; by intros [=]).
    exists h, h. unfold sample_require_auth. by split; repeat case_bool_decide.
  - intros a cc h h' entry [Hs _]%sample_auth_kept Hcar _. simpl in *. by rewrite Hs.
  - by intros a cc h h' [_ Hl]%sample_auth_kept.
Qed.

Lemma sample_no_self_auth (cc : ContractContext) (h h' : SampleHost) (a : SampleAddress) :
  require_auth_for a cc h = Ok h' → contract cc ≠ a.
Proof. simpl. unfold sample_require_auth. by case_bool_decide. Qed.

(** What an account did not sign, it does not authorize. *)
Lemma sample_refuses (a : SampleAddress) (cc : ContractContext) (h : SampleHost) :
  a ≠ sample_council → (a, cc) ∉ sh_signed h → (a, cc) ∉ sh_invoker h →
  sample_require_auth a cc h = Err (Trap AuthError).
Proof.
  intros Ha Hs Hi. unfold sample_require_auth. case_bool_decide; [done|].
  rewrite (bool_decide_eq_false_2 (a = sample_council)) by done.
  by rewrite (bool_decide_eq_false_2 _ Hs), (bool_decide_eq_false_2 _ Hi).
Qed.

(** ** The scenario *)

Definition channel_addr : Address := sample_contract Init.Byte.x01.
Definition token_addr : Address := sample_contract Init.Byte.x02.
Definition admin_addr : Address := sample_account Init.Byte.x0a.
Definition victim : Address := sample_account Init.Byte.x0b.
Definition attacker : Address := sample_account Init.Byte.x0c.
Definition provider_pk : BytesN 32 := sample_bytes 32 Init.Byte.x09.
Definition utxo_1 : BytesN 65 := from_array 65 (Init.Byte.x04 :: replicate 64 Init.Byte.x11).
Definition utxo_2 : BytesN 65 := from_array 65 (Init.Byte.x04 :: replicate 64 Init.Byte.x22).

Definition channel_env (fn : string) : Env := sample_env_at 100 channel_addr fn.
Definition token_frame (fn : string) : Env := sample_env_at 100 token_addr fn.
Definition council_env (fn : string) : Env := sample_env_at 100 sample_council fn.

Definition council_0 : AuthState :=
  mkAuthState _ _ (Some admin_addr, None)
    {[Helpers.address_from_ed25519_pk_bytes provider_pk]} 1000000 None [].

Definition token_0 : TokenState :=
  mkTokenState _ _ (Some admin_addr) None 1000000
    {[Balance victim := mkEntry 500 1000000]} ∅ [].

(** The payload the host hashes for the council's entry, and the provider's signature. *)
Definition tx_payload : BytesN 32 := sample_bytes 32 Init.Byte.x55.
Definition provider_sigs : Signatures :=
  {[SKProvider provider_pk :=
      (SigEd25519 (sample_ed25519_sig provider_pk (to_array tx_payload)), 1000)]}.

(** The owner of [u] signs conditions for the channel, live until ledger 1000. *)
Definition owner_sig (u : BytesN 65) (conds : list Condition) : Signature :=
  SigP256 (sample_p256_sig u
    (hash_payload (mkAuthPayload _ conds 1000) (address_to_string channel_addr))).

Definition transact_context (args : list Val) : ContractContext :=
  mkContractContext _ channel_addr "transact" args.

Definition host_with (sigs : Signatures) (ctxs : list Context)
    (signed : list (SampleAddress * ContractContext)) : SampleHost :=
  mkSampleHost 100 council_0 (tx_payload, sigs, ctxs) signed [].

Definition after {A S} (r : res (A * S)) (dflt : S) : S :=
  match r with Ok (_, s) => s | Err _ => dflt end.

Definition as_world (t : TokenState) (h : SampleHost) : SampleWorld := (t, h).

(** The channel, as its constructor leaves it. *)
Definition deploy_host : SampleHost :=
  host_with ∅ [] [(admin_addr, mkContractContext _ channel_addr "__constructor"
    [VAddress admin_addr; VAddress sample_council; VAddress token_addr])].
Definition channel_blank : ChannelState := channel_init 1000.
Definition deploy_run :=
  PrivacyChannelContract.__constructor (channel_env "__constructor") admin_addr sample_council
    token_addr (channel_blank, as_world token_0 deploy_host).
Definition channel_0 : ChannelState := (after deploy_run (channel_blank, as_world token_0 deploy_host)).1.

(** The victim deposits 100, for a utxo. *)
Definition deposit_op : ChannelOperation :=
  mkChannelOperation _ [] [(utxo_1, 100)] [(victim, 100, [Create utxo_1 100])] [].
Definition deposit_host : SampleHost :=
  host_with provider_sigs [Contract (transact_context [])]
    [(victim, transact_context [VConditions [Create utxo_1 100]]);
     (victim, mkContractContext _ token_addr "transfer"
                [VAddress victim; VAddress channel_addr; VI128 100])].
Definition deposit_world : SampleWorld := as_world token_0 deposit_host.
Definition run_transact (op : ChannelOperation) (s : ChannelState) (w : SampleWorld) :=
  PrivacyChannelContract.transact (PrivacyChannelContract.channel_call 2 (channel_env "transact"))
    (channel_env "transact") op (s, w).
Definition deposit_run := run_transact deposit_op channel_0 deposit_world.
Definition deposited : ChannelState * SampleWorld := after deposit_run (channel_0, deposit_world).

(** The victim signs one withdrawal of it to itself, and its execution. *)
Definition victim_sigs : Signatures :=
  <[SKP256 utxo_1 := (owner_sig utxo_1 [ExtWithdraw victim 100], 1000)]> provider_sigs.
Definition withdraw_op : ChannelOperation :=
  mkChannelOperation _ [(utxo_1, [ExtWithdraw victim 100])] [] [] [(victim, 100, [])].
Definition spend_host (op : ChannelOperation) : SampleHost :=
  host_with victim_sigs
    [Contract (transact_context [VRequirements (calculate_auth_requirements (op_spend op))])] [].
Definition withdraw_world : SampleWorld := as_world deposited.2.1 (spend_host withdraw_op).
Definition withdraw_run := run_transact withdraw_op deposited.1 withdraw_world.

(** The provider submits something else under the same signature. *)
Definition redirect_op : ChannelOperation :=
  mkChannelOperation _ [(utxo_1, [ExtDeposit victim 100])] [] [] [(attacker, 100, [])].
Definition redirect_world : SampleWorld := as_world deposited.2.1 (spend_host redirect_op).
Definition redirect_run := run_transact redirect_op deposited.1 redirect_world.
Definition integration_op : ChannelOperation :=
  mkChannelOperation _ [(utxo_1, [ExtIntegration victim [] 100])] [] [] [(attacker, 100, [])].
Definition integration_run :=
  run_transact integration_op deposited.1 (as_world deposited.2.1 (spend_host integration_op)).

(** A client builds the withdrawal: the owner signs the hash the builder gives it, the provider
    the hash of the entry. *)
Definition unsigned_calls : list UtxoBuilderCall :=
  [BcAddSpend utxo_1 [ExtWithdraw victim 60; Create utxo_2 40]; BcAddCreate utxo_2 40].
Definition fresh_builder : UTXOOperationBuilder := UtxoBuilder.generate channel_addr sample_council.
Definition unsigned_builder : UTXOOperationBuilder :=
  after (for_each unsigned_calls utxo_builder_call fresh_builder) fresh_builder.
Definition ok_or_else {A} (r : res A) (dflt : A) : A := match r with Ok a => a | Err _ => dflt end.
Definition owner_signature : BytesN 64 :=
  ok_or_else (h ← UtxoBuilder.get_auth_hash_for_spend unsigned_builder utxo_1 1000;
              P256Keys.sign_with_key utxo_1 h) (sample_bytes 64 Init.Byte.x00).
Definition entry_payload : BytesN 32 :=
  UtxoBuilder.get_auth_entry_payload_hash_for_bundle unsigned_builder 7 1000.
Definition provider_account : Ed25519Account := Ed25519Keys.from_signing_key provider_pk.
Definition signed_calls : list UtxoBuilderCall :=
  unsigned_calls ++
  [BcAddSpendSignature utxo_1 owner_signature 1000;
   BcAddProviderSignature (ed_address provider_account)
     (Ed25519Keys.sign provider_account entry_payload) 1000].
Definition signed_builder : UTXOOperationBuilder :=
  after (for_each signed_calls utxo_builder_call fresh_builder) fresh_builder.

Definition deposit_calls : list ChannelBuilderCall :=
  [CbUtxo (BcAddCreate utxo_1 100); CbAddDeposit victim 100 [Create utxo_1 100];
   CbAddDeposit attacker 5 []; CbAddWithdraw victim 7 [Create utxo_1 100]].
Definition fresh_channel_builder : ChannelOperationBuilder :=
  ChannelBuilder.generate channel_addr sample_council token_addr.
Definition deposit_builder : ChannelOperationBuilder :=
  after (for_each deposit_calls channel_builder_call fresh_channel_builder) fresh_channel_builder.

(** A client fills a builder with a spend, a create, a deposit and a withdrawal, and has it
    signed by the owner, the depositor and the provider. *)
Definition mixed_conditions : list Condition := [ExtWithdraw victim 60; Create utxo_2 90].
Definition mixed_calls : list ChannelBuilderCall :=
  [CbUtxo (BcAddSpend utxo_1 mixed_conditions); CbUtxo (BcAddCreate utxo_2 90);
   CbAddDeposit victim 50 [Create utxo_2 90]; CbAddWithdraw victim 60 [Create utxo_2 90]].
Definition unsigned_mixed : ChannelOperationBuilder :=
  after (for_each mixed_calls channel_builder_call fresh_channel_builder) fresh_channel_builder.
Definition mixed_owner_signature : BytesN 64 :=
  ok_or_else (h ← UtxoBuilder.get_auth_hash_for_spend (utxo_builder unsigned_mixed) utxo_1 1000;
              P256Keys.sign_with_key utxo_1 h) (sample_bytes 64 Init.Byte.x00).
Definition mixed_payload : BytesN 32 :=
  UtxoBuilder.get_auth_entry_payload_hash_for_bundle (utxo_builder unsigned_mixed) 7 1000.
Definition victim_account : Ed25519Account :=
  Ed25519Keys.from_signing_key (sample_bytes 32 Init.Byte.x0b).
Definition mixed_deposit_payload : BytesN 32 :=
  ok_or_else (ChannelBuilder.get_auth_entry_payload_hash_for_deposit unsigned_mixed victim 8 1000)
    (sample_bytes 32 Init.Byte.x00).
Definition signed_mixed_calls : list ChannelBuilderCall :=
  mixed_calls ++
  [CbUtxo (BcAddSpendSignature utxo_1 mixed_owner_signature 1000);
   CbUtxo (BcAddProviderSignature (ed_address provider_account)
     (Ed25519Keys.sign provider_account mixed_payload) 1000);
   CbAddDepositSignature victim
     (Ed25519Keys.sign_for_transaction victim_account mixed_deposit_payload)].
Definition mixed_builder : ChannelOperationBuilder :=
  after (for_each signed_mixed_calls channel_builder_call fresh_channel_builder)
    fresh_channel_builder.
Definition mixed_op : ChannelOperation := ChannelBuilder.get_operation_bundle mixed_builder.
Definition no_entry {S} (sigs : S) : SorobanAuthorizationEntry S :=
  mkAuthorizationEntry channel_addr 0 0 sigs (mkInvocation (transact_context []) []).
Definition mixed_entry : SorobanAuthorizationEntry Signatures :=
  ok_or_else (UtxoBuilder.get_auth_entry (utxo_builder mixed_builder) 7 1000) (no_entry ∅).
Definition mixed_deposit_entry : SorobanAuthorizationEntry (list AccountEd25519Signature) :=
  ok_or_else (ChannelBuilder.get_auth_entry_for_deposit mixed_builder victim 8 1000) (no_entry []).

(** The host with the entries the builder lays out. *)
Definition mixed_host : SampleHost :=
  mkSampleHost 100 council_0
    (mixed_payload, cred_signature mixed_entry,
     [Contract (inv_function (root_invocation mixed_entry))])
    ((λ cc, (cred_address mixed_deposit_entry, cc)) <$>
       inv_function (root_invocation mixed_deposit_entry)
         :: (inv_function <$> inv_subs (root_invocation mixed_deposit_entry))) [].

Definition run_summary (r : res (unit * (ChannelState * SampleWorld))) :
    option (Z * Z * Z * Z * option Z) :=
  match r with
  | Ok (_, (s, (t, _))) =>
      Some (ch_total_supply s, balance_of t channel_addr, balance_of t victim,
            balance_of t attacker, ch_ledger s !! Store.utxo_key utxo_1)
  | Err _ => None
  end.

Example deposit_scenario : run_summary deposit_run = Some (100, 100, 400, 0, Some 100).
Proof. vm_compute. reflexivity. Qed.

Example withdraw_scenario : run_summary withdraw_run = Some (0, 0, 500, 0, Some 0).
Proof. vm_compute. reflexivity. Qed.

(** The tokens the victim signed for itself end with the attacker. *)
Example redirect_scenario : run_summary redirect_run = Some (0, 0, 400, 100, Some 0).
Proof. vm_compute. reflexivity. Qed.

Example integration_scenario : run_summary integration_run = Some (0, 0, 400, 100, Some 0).
Proof. vm_compute. reflexivity. Qed.

(** The bundle of the builder, executed after the deposit. *)
Definition mixed_run :=
  run_transact mixed_op deposited.1 (as_world deposited.2.1 mixed_host).

Example mixed_scenario : run_summary mixed_run = Some (90, 90, 410, 0, Some 0).
Proof. vm_compute. reflexivity. Qed.
