(* ===== verification/Regression.v ===== *)
(** The audit regressions of the channel, contracts/privacy-channel/src/test/{moon01,moon05,
    moon06}.rs, replayed on the model: the same bundles, evaluated, end as the tests say.  Left out
    is the extra create of a pure transfer, which fails as the excessive fee does.

    The world is the one of [SampleWorld]; a bundle is given directly where a test goes through
    the builder, whose bundles [SystemClient] treats.  That a rejected bundle moves nothing is
    the rollback of [res]: a failure carries no state. *)
From S2P Require Import Prelude Errors Host Primitives SampleSdk Storage HostAuth Auth UtxoCore.
From S2P Require Import Channel Token System SampleWorld.

(** ** A funded channel *)

Definition utxo_of (b : byte) : BytesN 65 := from_array 65 (Init.Byte.x04 :: replicate 64 b).
Definition utxo_src : BytesN 65 := utxo_of Init.Byte.xa1.
Definition utxo_src2 : BytesN 65 := utxo_of Init.Byte.xa2.
Definition utxo_x : BytesN 65 := utxo_of Init.Byte.xb1.
Definition utxo_y : BytesN 65 := utxo_of Init.Byte.xb2.
Definition destination : Address := sample_account Init.Byte.x0d.

(** [fund_utxos]: the depositor holds the total and deposits it for these outputs. *)
Definition fund_conditions (creates : list (BytesN 65 * Z)) : list Condition :=
  (λ c, Create c.1 c.2) <$> creates.
Definition fund_op (creates : list (BytesN 65 * Z)) (total : Z) : ChannelOperation :=
  mkChannelOperation _ [] creates [(victim, total, fund_conditions creates)] [].
Definition fund_world (creates : list (BytesN 65 * Z)) (total : Z) : SampleWorld :=
  as_world
    (mkTokenState _ _ (Some admin_addr) None 1000000 {[Balance victim := mkEntry total 1000000]}
       ∅ [])
    (host_with provider_sigs [Contract (transact_context [])]
       [(victim, transact_context [VConditions (fund_conditions creates)]);
        (victim, mkContractContext _ token_addr "transfer"
                   [VAddress victim; VAddress channel_addr; VI128 total])]).
Definition funded_channel (creates : list (BytesN 65 * Z)) (total : Z)
    : ChannelState * SampleWorld :=
  after (run_transact (fund_op creates total) channel_0 (fund_world creates total))
    (channel_0, fund_world creates total).

(** The bundle is signed by the provider and, with the conditions it lists, by every owner. *)
Definition signed_host (op : ChannelOperation) : SampleHost :=
  host_with
    (foldr (λ '(u, conds) sigs, <[SKP256 u := (owner_sig u conds, 1000)]> sigs) provider_sigs
       (op_spend op))
    [Contract (transact_context [VRequirements (calculate_auth_requirements (op_spend op))])] [].

(** What the tests look at: the supply, some outputs and some accounts; or the failure. *)
Definition observe (utxos : list (BytesN 65)) (accounts : list Address)
    (r : res (unit * (ChannelState * SampleWorld))) : failure + (Z * list Z * list Z) :=
  match r with
  | Ok (_, (s, (t, _))) =>
      inr (ch_total_supply s,
           (λ u, default (-1) (ch_ledger s !! Store.utxo_key u)) <$> utxos,
           balance_of t <$> accounts)
  | Err f => inl f
  end.
Definition replay (creates : list (BytesN 65 * Z)) (total : Z) (op : ChannelOperation) :=
  let '(s, (t, _)) := funded_channel creates total in run_transact op s (as_world t (signed_host op)).

(** ** MOON-01: signed effects are bound to the execution *)

Example moon01_redirect_spend_output_to_attacker_withdraw_is_rejected :
  observe [] [] (replay [(utxo_src, 500)] 500
    (mkChannelOperation _ [(utxo_src, [Create utxo_x 500])] [] [] [(attacker, 500, [])]))
  = inl (ContractError UnauthorizedOperation).
Proof. vm_compute. reflexivity. Qed.

Example moon01_redirect_spend_output_to_attacker_create_is_rejected :
  observe [] [] (replay [(utxo_src, 500)] 500
    (mkChannelOperation _ [(utxo_src, [Create utxo_x 500])] [(utxo_y, 500)] [] []))
  = inl (ContractError UnauthorizedOperation).
Proof. vm_compute. reflexivity. Qed.

(** Each spend signs the whole set of outputs. *)
Example moon01_multispend_full_outputset_is_accepted :
  observe [utxo_src; utxo_src2; utxo_x; utxo_y] []
    (replay [(utxo_src, 300); (utxo_src2, 200)] 500
       (mkChannelOperation _
          [(utxo_src, [Create utxo_x 200; Create utxo_y 300]);
           (utxo_src2, [Create utxo_x 200; Create utxo_y 300])]
          [(utxo_x, 200); (utxo_y, 300)] [] []))
  = inr (500, [0; 0; 200; 300], []).
Proof. vm_compute. reflexivity. Qed.

Example moon01_legit_withdraw_is_accepted :
  observe [utxo_x; utxo_src] [destination]
    (replay [(utxo_src, 500)] 500
       (mkChannelOperation _ [(utxo_src, [ExtWithdraw destination 400; Create utxo_x 100])]
          [(utxo_x, 100)] [] [(destination, 400, [])]))
  = inr (100, [100; 0], [400]).
Proof. vm_compute. reflexivity. Qed.

(** The provider's fee is what the signer left. *)
Example moon01_provider_fee_within_residual_is_accepted :
  observe [utxo_src; utxo_x; utxo_y] []
    (replay [(utxo_src, 1000)] 1000
       (mkChannelOperation _ [(utxo_src, [Create utxo_x 995])] [(utxo_x, 995); (utxo_y, 5)] [] []))
  = inr (1000, [0; 995; 5], []).
Proof. vm_compute. reflexivity. Qed.

Example moon01_provider_fee_exceeding_residual_is_rejected :
  observe [] []
    (replay [(utxo_src, 1000)] 1000
       (mkChannelOperation _ [(utxo_src, [Create utxo_x 995])] [(utxo_x, 995); (utxo_y, 50)] [] []))
  = inl (ContractError UnbalancedBundle).
Proof. vm_compute. reflexivity. Qed.

(** ** MOON-05: external amounts are positive *)

Example moon05_zero_withdraw_amount_is_rejected :
  observe [] [] (run_transact (mkChannelOperation _ [] [] [] [(destination, 0, [])]) channel_0
    (as_world token_0 (host_with ∅ [] [])))
  = inl (ContractError InvalidExternalAmount).
Proof. vm_compute. reflexivity. Qed.

Example moon05_negative_deposit_amount_is_rejected :
  observe [] [] (run_transact (mkChannelOperation _ [] [] [(destination, -1, [])] []) channel_0
    (as_world token_0 (host_with ∅ [] [])))
  = inl (ContractError InvalidExternalAmount).
Proof. vm_compute. reflexivity. Qed.

(** ** MOON-06: an asset that calls [transact] back *)

Section reentrant_asset.

(** [mock_all_auths], and the asset whose [transfer] makes an empty [transact]. *)
#[local] Instance mock_all_auths : HostAuth unit := {|
  require_auth_for _ _ x := Ok x;
  authorize_as_current_contract _ _ x := Ok x;
|}.
Definition empty_op : ChannelOperation := mkChannelOperation _ [] [] [] [].
#[local] Instance reentrant_asset : Asset unit := λ _ _ _ _ _ x,
  AssetCalls (CcTransact empty_op) x (λ r,
    match r with Ok (_, x') => AssetDone (Ok x') | Err f => AssetDone (Err f) end).

Definition mock_channel : ChannelState :=
  (after (PrivacyChannelContract.__constructor (channel_env "__constructor") admin_addr
            sample_council token_addr (channel_blank, tt)) (channel_blank, tt)).1.

Definition failure_of {A} (r : res A) : option failure :=
  match r with Ok _ => None | Err f => Some f end.

Example moon06_reentrant_asset_call_is_rejected :
  failure_of (PrivacyChannelContract.channel_call 3 (channel_env "transact")
    (CcTransact (mkChannelOperation _ [] [(utxo_x, 100)]
                   [(victim, 100, [Create utxo_x 100])] [])) (mock_channel, tt))
  = Some (ContractError ReentrantCall).
Proof. vm_compute. reflexivity. Qed.

(** The call the asset makes would return, were the guard not up. *)
Example moon06_inner_call_alone_returns :
  is_Ok (PrivacyChannelContract.channel_call 2 (channel_env "transact") (CcTransact empty_op)
           (mock_channel, tt)) = true.
Proof. vm_compute. reflexivity. Qed.
End reentrant_asset.
