(* ===== verification/Witnesses.v ===== *)
(** Concrete instances of the properties: each lemma applies one property in the sample world,
    at an input where its hypotheses hold. *)
From S2P Require Import Prelude Errors Host Primitives SampleSdk Helpers Storage HostAuth Auth.
From S2P Require Import ChannelAuth UtxoCore Channel ChannelSpec ChannelLive ChannelBounds.
From S2P Require Import ChannelRefinement ChannelHistory ChannelOrder Lifetimes UtxoTestContract.
From S2P Require Import AuthTestContract Keys Snapshot OperationBuilder ChannelOperationBuilder.
From S2P Require Import Token System Binding SystemLive SystemClient SystemRefinement SampleWorld.

(** An equation between two closed computations. *)
Ltac by_running := match goal with |- ?a = ?b => vm_cast_no_check (@eq_refl _ b) end.

(** A computation that returns equals what [after] takes from it: only the success is computed,
    never the state. *)
Definition returns {A S} `{EqDecision A} (a : A) (r : res (A * S)) : bool :=
  match r with Ok (b, _) => bool_decide (b = a) | Err _ => false end.

Lemma returns_after {A S T} `{EqDecision A} (a : A) (r : res (A * (S * T))) (d : S * T) :
  returns a r = true → r = Ok (a, ((after r d).1, (after r d).2)).
Proof. destruct r as [[b [s t]]|f]; [|done]. by intros ->%bool_decide_eq_true. Qed.

Lemma returns_state {A S} `{EqDecision A} (a : A) (r : res (A * S)) (d : S) :
  returns a r = true → r = Ok (a, after r d).
Proof. destruct r as [[b s]|f]; [|done]. by intros ->%bool_decide_eq_true. Qed.

Lemma is_Ok_or_else {A} (r : res A) (d : A) : is_Ok r = true → r = Ok (ok_or_else r d).
Proof. by destruct r. Qed.

#[export] Instance ChannelRet_eq_dec `{Sdk} : EqDecision ChannelRet.
Proof. solve_decision. Defined.

(** ** Modules *)

Lemma ed25519_address_roundtrip_witness :
  address_to_ed25519_pk_bytes (address_from_ed25519_pk_bytes provider_pk) = Ok provider_pk.
Proof. apply (ed25519_address_roundtrip provider_pk). reflexivity. Defined.

Lemma equal_condition_sequence_decides_witness :
  [Create utxo_1 5; ExtWithdraw victim 3] = [Create utxo_1 5; ExtWithdraw victim 3].
Proof. apply equal_condition_sequence_decides. by_running. Defined.

Definition binding_payload : AuthPayload :=
  mkAuthPayload _ [Create utxo_1 5; ExtWithdraw victim 3] 1000.

(** The kinds are grouped, so their order in the list does not matter. *)
Definition swapped_payload : AuthPayload :=
  mkAuthPayload _ [ExtWithdraw victim 3; Create utxo_1 5] 1000.

Lemma payload_binds_creates_and_withdraws_witness :
  creates (conditions binding_payload) = creates (conditions swapped_payload) ∧
  withdraws (conditions binding_payload) = withdraws (conditions swapped_payload) ∧
  live_until_ledger binding_payload = live_until_ledger swapped_payload.
Proof.
  apply (payload_binds_creates_and_withdraws binding_payload swapped_payload
    (address_to_string channel_addr)).
  - split; reflexivity.
  - split; reflexivity.
  - repeat constructor; by_running.
  - repeat constructor; by_running.
  - repeat constructor; by_running.
  - repeat constructor; by_running.
  - split; reflexivity.
  - reflexivity.
Defined.

Lemma payload_confuses_withdraw_with_deposit_witness :
  hash_payload (mkAuthPayload _ [ExtDeposit victim 100] 1000) (address_to_string channel_addr) =
  hash_payload (mkAuthPayload _ [ExtWithdraw victim 100] 1000) (address_to_string channel_addr).
Proof. apply (payload_confuses_withdraw_with_deposit [ExtWithdraw victim 100]). reflexivity. Defined.

Lemma payload_ambiguity_exact_witness :
  payload_bytes binding_payload (address_to_string channel_addr) =
  payload_bytes (mkAuthPayload _ [ExtDeposit victim 3; Create utxo_1 5] 1000)
    (address_to_string channel_addr).
Proof.
  apply payload_ambiguity_exact.
  - split; repeat constructor; by_running.
  - split; repeat constructor; by_running.
  - split; reflexivity.
  - split; reflexivity.
  - split_and!; reflexivity.
Defined.

(** ** Storage *)

Definition storage_env : Env := channel_env "transact".
Definition storage_run := Store.create storage_env utxo_1 7 ∅.
Definition storage_1 : UtxoStorage := after storage_run ∅.
Definition storage_spend_run := Store.spend storage_env utxo_1 storage_1.
Definition storage_2 : UtxoStorage := after storage_spend_run ∅.

Lemma store_refines_ledger_witness :
  observe (Store.spend storage_env utxo_1 storage_1)
  = ledger_spend (Store.utxo_key utxo_1) (amounts storage_1).
Proof. exact (proj2 (proj2 (store_refines_ledger storage_env utxo_1 7 storage_1))). Defined.

Lemma store_keeps_alive_witness :
  lives_for storage_env (29 * 17280) (Store.utxo_key utxo_1) storage_1.
Proof.
  apply (store_keeps_alive storage_env utxo_1 ∅ storage_1 7 0). left.
  by_running.
Defined.

Lemma store_history_safe_witness :
  wf_ledger (amounts storage_2) ∧
  Store.create storage_env utxo_1 3 storage_2 = Err (ContractError UtxoAlreadyExists).
Proof.
  destruct (store_history_safe storage_2 storage_2) as (Hwf & _ & Hspent).
  - intros k a Hk. assert (Hall : map_to_list (amounts storage_2) = [(Store.utxo_key utxo_1, 0)])
      by (by_running).
    apply elem_of_map_to_list in Hk. rewrite Hall, list_elem_of_singleton in Hk.
    apply (f_equal snd) in Hk. cbn [snd] in Hk. cbv beta. rewrite Hk. lia.
  - constructor.
  - split; [exact Hwf|]. apply (Hspent storage_env utxo_1 3); [by_running | lia].
Defined.

(** ** Authorization *)

Lemma require_provider_sound_complete_witness :
  ProviderAuthorizable.require_provider (council_env "check") tx_payload provider_sigs
    (au_providers council_0) = Ok tt.
Proof.
  apply require_provider_sound_complete; [vm_compute; discriminate|].
  split; [exists provider_pk; vm_compute; eauto|].
  intros pk entry He. unfold provider_sigs in He.
  apply lookup_singleton_Some in He as [[= <-] <-]. split_and!.
  - set_solver.
  - cbn. lia.
  - change (ed25519_verify provider_pk (to_array tx_payload)
      (sample_ed25519_sig provider_pk (to_array tx_payload)) = true). by_running.
Defined.

Definition owner_host (cc : ContractContext) : SampleHost := host_with ∅ [] [(admin_addr, cc)].
Definition add_context : ContractContext :=
  mkContractContext _ sample_council "add_provider" [VAddress victim].
Definition add_run :=
  auth_call (council_env "add_provider") (AuAddProvider victim) (council_0, owner_host add_context).
Definition add_after : AuthState * SampleHost := after add_run (council_0, owner_host add_context).
Lemma add_run_eq : add_run = Ok (tt, (add_after.1, add_after.2)).
Proof. apply (returns_after tt add_run (council_0, owner_host add_context)). by_running. Qed.

Definition fresh_council_run :=
  ChannelAuthContract.__constructor (council_env "__constructor") admin_addr (auth_blank 1000).
Definition fresh_council : AuthState := after fresh_council_run (auth_blank 1000).
Definition fresh_add_run :=
  auth_call (council_env "add_provider") (AuAddProvider victim)
    (fresh_council, owner_host add_context).
Definition fresh_added : AuthState * SampleHost :=
  after fresh_add_run (fresh_council, owner_host add_context).

Lemma provider_registry_is_event_log_witness :
  au_providers fresh_added.1 = replay (au_events fresh_added.1).
Proof.
  apply (provider_registry_is_event_log (X:=SampleHost)).
  exists (council_env "__constructor"), 1000, admin_addr, fresh_council. split.
  - by_running.
  - apply rtc_once. exists (council_env "add_provider"), (AuAddProvider victim),
      (owner_host add_context), fresh_added.2. by_running.
Defined.

Lemma governance_is_gated_witness :
  ∃ owner, get_owner (au_own council_0) = Some owner ∧
    frame_auth (council_env "add_provider") [VAddress victim] owner (owner_host add_context)
    = Ok add_after.2.
Proof.
  apply (proj1 (governance_is_gated (council_env "add_provider") (AuAddProvider victim) council_0
    add_after.1 (owner_host add_context) add_after.2 add_run_eq)).
  right. right. intros E. apply (f_equal length) in E. vm_compute in E. discriminate E.
Defined.

Lemma provider_management_functional_witness :
  is_Ok (ChannelAuthContract.add_provider (council_env "add_provider") victim
           (council_0, owner_host add_context)) = true.
Proof.
  rewrite (proj1 (provider_management_functional (council_env "add_provider") victim admin_addr
    council_0 (owner_host add_context) (owner_host add_context) eq_refl
    ltac:(by_running))).
  by_running.
Defined.

Definition check_contexts : list Context :=
  [Contract (transact_context [VRequirements (calculate_auth_requirements (op_spend withdraw_op))])].
Definition check_run :=
  ChannelAuthContract.__check_auth (council_env "check") tx_payload victim_sigs check_contexts
    council_0.
Lemma check_run_eq : check_run = Ok (tt, after check_run council_0).
Proof. apply (returns_state tt check_run council_0). by_running. Qed.

Lemma check_auth_sound_witness :
  context_authorized (council_env "check") victim_sigs
    (Contract (transact_context [VRequirements (calculate_auth_requirements (op_spend withdraw_op))])).
Proof. apply (check_auth_sound _ _ _ _ _ _ check_run_eq). left. Defined.

(** Without the owner's signature the check names what is missing. *)
Definition unsigned_check_run :=
  ChannelAuthContract.__check_auth (council_env "check") tx_payload provider_sigs check_contexts
    council_0.
Lemma unsigned_check_run_eq : unsigned_check_run = Err (ContractError MissingSignature).
Proof. by_running. Qed.

Lemma check_auth_decides_witness :
  ∃ c, c ∈ check_contexts ∧
    context_defect (council_env "check") provider_sigs c (ContractError MissingSignature) ∧
    ~ context_authorized (council_env "check") provider_sigs c.
Proof.
  pose proof (check_auth_decides (council_env "check") tx_payload provider_sigs check_contexts
    council_0 ltac:(vm_compute; discriminate)) as H.
  fold unsigned_check_run in H. rewrite unsigned_check_run_eq in H.
  destruct H as [[Hd _]|[_ Hc]]; [|exact Hc].
  exfalso. inversion Hd as [|? ? ? ? Hb|]; subst. inversion Hb.
Defined.

(** ** UTXO accounting *)

Definition all_events : Features := mkFeatures false false.
Definition bundle_reqs : AuthRequirements :=
  calculate_auth_requirements [(utxo_1, [Create utxo_2 100])].
Definition bundle_1 : InternalBundle := mkInternalBundle _ [utxo_1] [(utxo_2, 100)] bundle_reqs.
Definition utxos_0 : UtxoState :=
  mkUtxoState _ {[Store.utxo_key utxo_1 := mkEntry 100 1000000]} (Some sample_council) [].
Definition bundle_host : SampleHost :=
  host_with (<[SKP256 utxo_1 := (owner_sig utxo_1 [Create utxo_2 100], 1000)]> provider_sigs)
    [Contract (transact_context [VRequirements bundle_reqs])] [].
Definition bundle_run :=
  UtxoHandler.process_bundle all_events (channel_env "transact") bundle_1 0 0 (utxos_0, bundle_host).
Definition bundle_after : UtxoState * SampleHost := after bundle_run (utxos_0, bundle_host).
Lemma bundle_run_eq : bundle_run = Ok (0, (bundle_after.1, bundle_after.2)).
Proof. apply (returns_after 0 bundle_run (utxos_0, bundle_host)). by_running. Qed.

Lemma process_bundle_sound_witness :
  us_events bundle_after.1 = [UtxoEvent "utxo" utxo_1 "spend" 100;
    UtxoEvent "utxo" utxo_2 "create" 100; BundleEvent "bundle" [utxo_1] [(utxo_2, 100)] 0 0].
Proof.
  destruct (process_bundle_sound all_events (channel_env "transact") bundle_1 0 0 utxos_0
    bundle_after.1 bundle_host bundle_after.2 0 bundle_run_eq)
    as (_ & _ & _ & _ & _ & _ & _ & Hev).
  rewrite Hev. by_running.
Defined.

Lemma process_bundle_conserves_witness :
  total_unspent (ledger_of bundle_after.1) = total_unspent (ledger_of utxos_0) + 0 - 0.
Proof.
  exact (proj1 (process_bundle_conserves all_events (channel_env "transact") bundle_1 0 0 utxos_0
    bundle_after.1 bundle_host bundle_after.2 0 bundle_run_eq)).
Defined.

Definition bundle_req_run :=
  frame_auth (channel_env "transact") (bundle_auth_args bundle_1) sample_council bundle_host.
Lemma process_bundle_complete_witness :
  ∃ s', UtxoHandler.process_bundle all_events (channel_env "transact") bundle_1 0 0
          (utxos_0, bundle_host) = Ok (0, (s', ok_or_else bundle_req_run bundle_host)).
Proof.
  refine (process_bundle_complete all_events (channel_env "transact") bundle_1 0 0 utxos_0
    bundle_host _ sample_council _ _ _ _ _ _).
  - split; [apply NoDup_singleton|]. intros u Hu. apply list_elem_of_singleton in Hu. rewrite Hu.
    exists 100. split; [by_running | lia].
  - split; [apply NoDup_singleton|]. intros c Hc. apply list_elem_of_singleton in Hc. rewrite Hc.
    split; [by_running | cbn; lia].
  - reflexivity.
  - apply is_Ok_or_else. by_running.
  - by_running.
  - split_and!; [lia | lia | vm_compute; discriminate].
Defined.

Definition twice : InternalBundle := mkInternalBundle _ [utxo_1; utxo_1] [] ∅.

Lemma process_bundle_rejects_witness :
  UtxoHandler.process_bundle all_events (channel_env "transact") twice 0 0 (utxos_0, bundle_host)
  = Err (ContractError RepeatedSpendUtxo).
Proof.
  apply (proj1 (process_bundle_rejects all_events (channel_env "transact") twice 0 0 utxos_0
    bundle_host)).
  intros Hnd. apply NoDup_cons in Hnd as [Hn _]. apply Hn. left.
Defined.

Lemma calculate_auth_requirements_correct_witness :
  bundle_reqs !! SKP256 utxo_1 = Some [Create utxo_2 100].
Proof.
  apply (calculate_auth_requirements_correct [(utxo_1, [Create utxo_2 100])]).
  - apply NoDup_singleton.
  - exists utxo_1. split; [reflexivity | left].
Defined.

Lemma single_operations_refine_ledger_witness :
  match UtxoHandler.spend all_events (channel_env "spend") utxo_1 utxos_0 with
  | Ok (a, s') => ledger_spend (Store.utxo_key utxo_1) (ledger_of utxos_0) = Ok (a, ledger_of s') ∧
                  us_auth s' = us_auth utxos_0
  | Err f => ledger_spend (Store.utxo_key utxo_1) (ledger_of utxos_0) = Err f
  end.
Proof.
  assert (Hwf : wf_ledger (ledger_of utxos_0)).
  { intros k a Hk. assert (Hall : map_to_list (ledger_of utxos_0) = [(Store.utxo_key utxo_1, 100)])
      by by_running.
    apply elem_of_map_to_list in Hk. rewrite Hall, list_elem_of_singleton in Hk.
    apply (f_equal snd) in Hk. cbn [snd] in Hk. cbv beta. rewrite Hk. lia. }
  pose proof (single_operations_refine_ledger all_events (channel_env "spend") utxo_1 5 utxos_0 Hwf)
    as Hs. cbv zeta in Hs. destruct Hs as [_ Hs]. exact Hs.
Defined.

(** ** The test contracts *)

Definition mint_run :=
  utxo_test_call all_events (channel_env "mint") (UtMint [(utxo_2, 7)]) (utxos_0, bundle_host).
Definition minted : UtxoState * SampleHost := after mint_run (utxos_0, bundle_host).

Lemma utxo_test_contract_accounts_witness : total_unspent (ledger_of minted.1) = 107.
Proof.
  assert (Hwf : wf_ledger (ledger_of utxos_0)).
  { intros k a Hk. assert (Hall : map_to_list (ledger_of utxos_0) = [(Store.utxo_key utxo_1, 100)])
      by by_running.
    apply elem_of_map_to_list in Hk. rewrite Hall, list_elem_of_singleton in Hk.
    apply (f_equal snd) in Hk. cbn [snd] in Hk. cbv beta. rewrite Hk. lia. }
  assert (Hrun : utxo_test_call all_events (channel_env "mint") (UtMint [(utxo_2, 7)])
    (utxos_0, bundle_host) = Ok (tt, (minted.1, minted.2)))
    by (apply (returns_after tt mint_run (utxos_0, bundle_host)); by_running).
  destruct (utxo_test_contract_accounts all_events (channel_env "mint") (UtMint [(utxo_2, 7)])
    utxos_0 minted.1 bundle_host minted.2 Hwf Hrun) as [Ht _].
  rewrite Ht. by_running.
Defined.

Lemma auth_test_contract_agrees_witness :
  is_Ok (AuthModuleTestContract.__check_auth (council_env "check") tx_payload victim_sigs
    check_contexts (au_providers council_0)) = true.
Proof.
  rewrite (auth_test_contract_agrees (council_env "check") tx_payload victim_sigs check_contexts
    council_0). by_running.
Defined.

(** ** The operation builders *)

Lemma key_pairs_sign_verifiably_witness :
  ∃ bytes, P256Keys.sign_p256 (mkP256KeyPair _ _ utxo_1 utxo_1) tx_payload = Ok bytes ∧
    secp256r1_verify utxo_1 tx_payload bytes = true.
Proof.
  destruct key_pairs_sign_verifiably as [Hsign _].
  exact (Hsign utxo_1 (mkP256KeyPair _ _ utxo_1 utxo_1) tx_payload _ eq_refl eq_refl).
Defined.

(** The five accounts of the recorded ledger, and their keys. *)
Definition recorded_account : Ed25519Account := Ed25519Keys.from_signing_key provider_pk.
Definition recorded :=
  ok_or_else get_snapshot_g_accounts (recorded_account, recorded_account, recorded_account,
    recorded_account, recorded_account).

Lemma snapshot_accounts_load_witness :
  Forall2 account_loads snapshot_keys
    [recorded.1.1.1.1; recorded.1.1.1.2; recorded.1.1.2; recorded.1.2; recorded.2].
Proof.
  apply snapshot_accounts_load. rewrite <- !surjective_pairing.
  apply is_Ok_or_else. by_running.
Defined.

Lemma deposit_built : for_each deposit_calls channel_builder_call
  (ChannelBuilder.generate channel_addr sample_council token_addr) = Ok (tt, deposit_builder).
Proof. by_running. Qed.

Lemma signed_built : for_each signed_calls utxo_builder_call
  (UtxoBuilder.generate channel_addr sample_council) = Ok (tt, signed_builder).
Proof. by_running. Qed.

Lemma channel_builder_bundle_well_formed_witness :
  verify_external_operations (cb_deposit deposit_builder) (cb_withdraw deposit_builder) = Ok tt.
Proof.
  exact (proj1 (channel_builder_bundle_well_formed _ _ _ _ _ deposit_built)).
Defined.

Lemma signed_spends :
  b_spend signed_builder = [(utxo_1, [ExtWithdraw victim 60; Create utxo_2 40])].
Proof. by_running. Qed.

Definition provider_signature : BytesN 64 := Ed25519Keys.sign provider_account entry_payload.

Lemma signed_sign_map : sign_map signed_builder =
  <[SKProvider provider_pk := (SigEd25519 provider_signature, 1000)]>
    {[SKP256 utxo_1 := (SigP256 owner_signature, 1000)]}.
Proof. by_running. Qed.

Lemma signed_by_owner : owners_signed (council_env "check") signed_builder.
Proof.
  intros u conds sig live Hin Hs. rewrite signed_spends in Hin.
  apply list_elem_of_singleton in Hin as [= -> ->].
  rewrite signed_sign_map, lookup_insert_ne, lookup_singleton_eq in Hs by done.
  injection Hs as <- <-. split; [cbn; lia|].
  exists (ok_or_else (UtxoBuilder.get_auth_hash_for_spend signed_builder utxo_1 1000) tx_payload).
  split; by_running.
Qed.

Definition built_entry : SorobanAuthorizationEntry Signatures :=
  mkAuthorizationEntry sample_council 7 1000 (sign_map signed_builder)
    (UtxoBuilder.get_root_invocation signed_builder).

Lemma built_entry_is_authorized_witness :
  ∃ council', ChannelAuthContract.__check_auth (council_env "check")
    (UtxoBuilder.get_auth_entry_payload_hash_for_bundle signed_builder 7 1000)
    (cred_signature built_entry) [Contract (inv_function (root_invocation built_entry))] council_0
    = Ok (tt, council').
Proof.
  refine (proj2 (proj2 (built_entry_is_authorized channel_addr sample_council signed_calls
    signed_builder (council_env "check") council_0 7 1000 built_entry signed_built _ _
    signed_by_owner _ _))).
  - rewrite signed_spends. by intros u conds [= -> ->]%list_elem_of_singleton.
  - vm_compute. discriminate.
  - rewrite signed_sign_map. intros pk entry [[[= <-] <-]|[_ Hs]]%lookup_insert_Some.
    + split_and!; [set_solver | cbn; lia | cbn [signature_valid fst]; by_running].
    + by apply lookup_singleton_Some in Hs as [? _].
  - by_running.
Defined.

Lemma built_signatures_well_typed_witness :
  signature_fits (SKP256 utxo_1) (SigP256 owner_signature) = true.
Proof.
  refine (proj1 (built_signatures_well_typed channel_addr sample_council signed_calls
    signed_builder signed_built) (SKP256 utxo_1) (SigP256 owner_signature) 1000 _).
  rewrite signed_sign_map. by rewrite lookup_insert_ne, lookup_singleton_eq.
Defined.

(** The attacker's account signed what the builder laid out for its deposit. *)
Definition refusing_world : SampleWorld :=
  as_world token_0 (host_with provider_sigs [] [(attacker, transact_context [])]).

Lemma deposit_entry_matches_contract_witness :
  PrivacyChannelContract.deposit_step (X := SampleWorld)
    (PrivacyChannelContract.channel_call 2 (channel_env "transact")) (channel_env "transact")
    token_addr (attacker, 5, []) (channel_0, refusing_world) = Err (Trap AuthError).
Proof.
  destruct (deposit_entry_matches_contract (X := SampleWorld) channel_addr sample_council token_addr
    deposit_calls deposit_builder attacker 5 []
    (PrivacyChannelContract.channel_call 2 (channel_env "transact")) (channel_env "transact")
    channel_0 refusing_world deposit_built) as (inv & Hinv & _ & _ & Hempty).
  - assert (Hd : cb_deposit deposit_builder = [(victim, 100, [Create utxo_1 100]); (attacker, 5, [])])
      by by_running. rewrite Hd. right. left.
  - split; by_running.
  - apply Hempty; [done|]. intros cc Hne.
    assert (E : ChannelBuilder.get_deposit_root_invocation deposit_builder attacker = Ok
      (mkInvocation (transact_context []) [mkInvocation (mkContractContext _ token_addr "transfer"
        [VAddress attacker; VAddress channel_addr; VI128 5]) []])) by by_running.
    rewrite E in Hinv. injection Hinv as <-. cbn [inv_function] in Hne.
    cbn [require_auth_for token_world_auth sample_host_auth refusing_world as_world snd].
    rewrite sample_refuses; [reflexivity | | |].
    + apply (bool_decide_eq_false_1 (attacker = sample_council)). by_running.
    + cbn [sh_signed host_with]. intros Hin. apply list_elem_of_singleton in Hin. congruence.
    + apply not_elem_of_nil.
Defined.

(** ** The channel *)

Definition tenv : Env := channel_env "transact".
Lemma tenv_min : 1 ≤ min_temporary_ttl tenv.
Proof. cbn. lia. Qed.
Lemma deposit_run_eq : deposit_run = Ok (tt, (deposited.1, deposited.2)).
Proof. apply (returns_after tt deposit_run (channel_0, deposit_world)). by_running. Qed.

Lemma transact_sound_witness : op_valid deposit_op ∧ ch_total_supply deposited.1 = 100.
Proof.
  destruct (transact_sound 2 tenv deposit_op channel_0 deposited.1 deposit_world deposited.2
    tenv_min deposit_run_eq) as (_ & Hv & _ & _ & _ & _ & _ & _ & Hs & _).
  split; [exact Hv|]. rewrite Hs. by_running.
Defined.

Lemma transact_binds_signed_effects_witness :
  ch_ledger deposited.1 !! Store.utxo_key utxo_1 = Some 100.
Proof.
  apply (proj1 (transact_binds_signed_effects 2 tenv deposit_op channel_0 deposited.1
    deposit_world deposited.2 tenv_min deposit_run_eq)).
  change (Create utxo_1 100 ∈ [Create utxo_1 100]). left.
Defined.

Definition call_run := PrivacyChannelContract.channel_call 3 tenv (CcTransact deposit_op)
                         (channel_0, deposit_world).
Definition called : ChannelState * SampleWorld := after call_run (channel_0, deposit_world).
Lemma call_run_eq : call_run = Ok (RetUnit, (called.1, called.2)).
Proof. apply (returns_after RetUnit call_run (channel_0, deposit_world)). by_running. Qed.

Lemma calls_keep_alive_witness :
  ledger_sequence tenv + 6 * 17280 ≤ ch_live_until called.1 ∧
  lives_for tenv (29 * 17280) (Store.utxo_key utxo_1) (us_utxos (ch_utxo called.1)).
Proof.
  destruct (calls_keep_alive 3 tenv (CcTransact deposit_op) channel_0 called.1 called.1
    deposit_world called.2 RetUnit call_run_eq ltac:(apply rtc_refl)) as (_ & Hl & Hu).
  split; [by eapply Hl|]. apply Hu; [|left; by eexists].
  change (utxo_1 ∈ [utxo_1]). left.
Defined.
Lemma deploy_run_eq :
  deploy_run = Ok (tt, (channel_0, (after deploy_run (channel_blank, as_world token_0 deploy_host)).2)).
Proof. apply (returns_after tt deploy_run (channel_blank, as_world token_0 deploy_host)). by_running. Qed.

Lemma channel_0_reachable :
  channel_reachable (X:=SampleWorld) admin_addr sample_council token_addr channel_0.
Proof. exact (reach_deploy _ _ _ _ 1000 _ _ channel_0 deploy_run_eq). Qed.

Lemma called_reachable :
  channel_reachable (X:=SampleWorld) admin_addr sample_council token_addr called.1.
Proof.
  refine (reach_call _ _ _ 3 tenv (CcTransact deposit_op) deposit_world called.2 RetUnit
    channel_0 _ channel_0_reachable tenv_min call_run_eq).
Qed.

Lemma channel_history_invariant_witness :
  ch_total_supply called.1 = total_unspent (ch_ledger called.1).
Proof.
  exact (proj1 (channel_history_invariant (X:=SampleWorld) admin_addr sample_council token_addr
    called.1 called_reachable)).
Defined.

Lemma called_trace :
  channel_trace (X:=SampleWorld) admin_addr sample_council token_addr
    [(CcTransact deposit_op, RetUnit)] called.1.
Proof.
  refine (trace_call _ _ _ [] 3 tenv (CcTransact deposit_op) deposit_world called.2 RetUnit
    channel_0 _ _ tenv_min call_run_eq).
  exact (trace_deploy _ _ _ _ 1000 _ _ channel_0 deploy_run_eq).
Qed.

Lemma channel_refines_machine_witness :
  ∃ a, abs_trace (abs_init sample_council token_addr) [(CcTransact deposit_op, RetUnit)] a ∧
    represents called.1 a.
Proof. exact (channel_refines_machine (X:=SampleWorld) admin_addr _ _ _ _ called_trace). Defined.

Lemma ledger_is_history_witness : ch_ledger called.1 !! Store.utxo_key utxo_1 = Some 100.
Proof.
  destruct (ledger_is_history (X:=SampleWorld) admin_addr _ _ _ _ called_trace)
    as (_ & _ & _ & Hledger & _).
  apply Hledger. right. split; [apply not_elem_of_nil | left].
Defined.

(** The deposit is not executed twice. *)
Lemma transaction_order_witness :
  is_Ok (PrivacyChannelContract.transact (PrivacyChannelContract.channel_call 2 tenv) tenv deposit_op
    (deposited.1, deposit_world)) = false.
Proof.
  destruct (PrivacyChannelContract.transact _ _ _ _) as [[[] [s' x']]|f] eqn:E; [exfalso|reflexivity].
  refine (proj1 (proj2 (transaction_order (X:=SampleWorld) admin_addr sample_council token_addr 2 tenv
    deposit_op channel_0 deposited.1 deposit_world deposited.2 channel_0_reachable tenv_min
    deposit_run_eq)) _ deposited.1 s' _ _); [by right | apply rtc_refl |].
  exists 2%nat, tenv, deposit_world, x'. exact (conj tenv_min E).
Defined.

Lemma channel_amounts_bounded_witness : 0 ≤ ch_total_supply called.1 ≤ i128_max.
Proof.
  exact (proj1 (channel_amounts_bounded (X:=SampleWorld) admin_addr sample_council token_addr
    called.1 called_reachable)).
Defined.

Lemma unsigned_effects_bounded_by_residual_witness : unsigned_effects deposit_op = [].
Proof.
  apply (unsigned_effects_bounded_by_residual 2 tenv deposit_op channel_0 deposited.1
    deposit_world deposited.2 tenv_min deposit_run_eq). by_running.
Defined.

Lemma nested_calls_terminate_witness :
  PrivacyChannelContract.channel_call (X:=SampleWorld) 2 tenv (CcTransact deposit_op)
    (channel_0, deposit_world)
  = PrivacyChannelContract.call_body
      (PrivacyChannelContract.channel_call 2
         (PrivacyChannelContract.enter_frame tenv (CcTransact deposit_op)))
      tenv (CcTransact deposit_op) (channel_0, deposit_world).
Proof.
  apply (nested_calls_terminate (X:=SampleWorld) (PrivacyChannelContract.channel_call 2));
    [reflexivity | exact tenv_min].
Defined.

Definition mid_transact : ChannelState :=
  set_ch_temporary {[PrivacyChannelContract.REENTRANCY_GUARD := mkEntry true 1000]} channel_0.

Lemma reentrancy_is_shut_witness :
  PrivacyChannelContract.channel_call 1 tenv (CcTransact deposit_op) (mid_transact, deposit_world)
  = Err (ContractError ReentrantCall).
Proof.
  refine (proj1 (proj1 (reentrancy_is_shut (X:=SampleWorld) tenv tenv_min) mid_transact
    deposit_world _) 0%nat deposit_op).
  exists true. by_running.
Defined.

Lemma pre_process_decides_witness : op_valid withdraw_op.
Proof.
  refine (proj1 (proj1 (pre_process_decides withdraw_op (op_bundle withdraw_op) 0 100) _)).
  by_running.
Defined.

Definition empty_deposit : ChannelOperation := mkChannelOperation _ [] [] [(victim, 0, [])] [].
Lemma channel_0_unguarded : ¬ guarded tenv channel_0.
Proof. intros [b Hb]. vm_compute in Hb. discriminate. Qed.

Lemma transact_rejects_witness :
  run_transact empty_deposit channel_0 deposit_world = Err (ContractError InvalidExternalAmount).
Proof.
  refine (proj2 (proj2 (transact_rejects _ empty_deposit)) InvalidExternalAmount tenv channel_0
    deposit_world _ channel_0_unguarded).
  apply rejected_deposit.
  - intros c d Hc. apply elem_of_nil in Hc as [].
  - exists [], (victim, 0, []), []. split; [reflexivity|].
    split; [split; [constructor | vm_compute; discriminate]|].
    left. split; [cbn; lia | reflexivity].
Defined.

Definition asset_after (r : asset_run SampleWorld) (dflt : SampleWorld) : SampleWorld :=
  match r with AssetDone (Ok w) => w | _ => dflt end.
Definition settle_1 : SampleWorld :=
  ok_or_else (frame_auth tenv [] sample_council deposit_world) deposit_world.
Definition settle_2 : SampleWorld :=
  ok_or_else (frame_auth tenv [VConditions [Create utxo_1 100]] victim settle_1) settle_1.
Definition settle_3 : SampleWorld :=
  asset_after (asset_transfer tenv token_addr victim channel_addr 100 settle_2) settle_2.

Lemma quiet_after (r : asset_run SampleWorld) (d : SampleWorld) :
  match r with AssetDone a => is_Ok a | _ => false end = true → r = AssetDone (Ok (asset_after r d)).
Proof. by destruct r as [[w|f]|]. Qed.

Lemma transact_complete_witness :
  ∃ s', run_transact deposit_op channel_0 deposit_world = Ok (tt, (s', settle_3)).
Proof.
  refine (proj2 (proj2 (transact_complete _ tenv deposit_op channel_0 deposit_world settle_1
    settle_3 settle_3 sample_council token_addr channel_0_unguarded _ _ _ _ _ _ _)) _ _);
    [| | | | | | | vm_compute; discriminate..].
  - refine (proj1 (proj1 (pre_process_Ok deposit_op (op_bundle deposit_op) 100 0) _)). by_running.
  - split; by_running.
  - split; (split; [apply NoDup_singleton || constructor|]).
    + intros u Hu. apply elem_of_nil in Hu as [].
    + intros c Hc. apply list_elem_of_singleton in Hc. rewrite Hc. split; [by_running | cbn; lia].
  - by_running.
  - split; vm_compute; discriminate.
  - apply is_Ok_or_else. by_running.
  - split; [|constructor].
    refine (deposits_cons tenv token_addr victim 100 _ [] settle_1 settle_2 settle_3 settle_3 _ _ _).
    + apply is_Ok_or_else. by_running.
    + unfold quiet_transfer. apply quiet_after. by_running.
    + constructor.
Defined.

Definition set_admin_world : SampleWorld :=
  as_world token_0 (host_with ∅ [] [(admin_addr,
    mkContractContext _ channel_addr "set_admin" [VAddress victim])]).
Definition set_admin_run :=
  PrivacyChannelContract.set_admin (channel_env "set_admin") victim (channel_0, set_admin_world).
Definition admin_proposed : ChannelState * SampleWorld :=
  after set_admin_run (channel_0, set_admin_world).
Lemma set_admin_run_eq : set_admin_run = Ok (tt, (admin_proposed.1, admin_proposed.2)).
Proof. apply (returns_after tt set_admin_run (channel_0, set_admin_world)). by_running. Qed.

Lemma channel_governance_gated_witness :
  get_owner (ch_own admin_proposed.1) = get_owner (ch_own channel_0).
Proof.
  exact (proj1 (proj2 (proj1 (channel_governance_gated (channel_env "set_admin") channel_0
    admin_proposed.1 set_admin_world admin_proposed.2) victim set_admin_run_eq))).
Defined.

(** ** The token *)

Lemma token_0_wf : token_wf token_0.
Proof.
  apply map_Forall_singleton. split; [by exists victim | split; vm_compute; discriminate].
Qed.

Definition tf_env : Env := token_frame "transfer".
Definition token_host (a : Address) (fn : string) (args : list Val) : SampleHost :=
  host_with ∅ [] [(a, mkContractContext _ token_addr fn args)].
Definition tf_host : SampleHost :=
  token_host victim "transfer" [VAddress victim; VAddress attacker; VI128 100].
Definition tf_call : TokenCall := TcTransfer victim (attacker, None) 100.
Definition tf_run := token_call tf_env tf_call (token_0, tf_host).
Definition tf_after : TokenState * SampleHost := after tf_run (token_0, tf_host).
Lemma tf_run_eq : tf_run = Ok (tt, (tf_after.1, tf_after.2)).
Proof. apply (returns_after tt tf_run (token_0, tf_host)). by_running. Qed.

Lemma transfer_functional_witness :
  ∃ t', TestToken.transfer tf_env victim (attacker, None) 100 (token_0, tf_host)
        = Ok (tt, (t', tf_host)) ∧ total_balance t' = total_balance token_0.
Proof.
  pose proof (transfer_functional tf_env victim (attacker, None) 100 token_0 tf_host token_0_wf)
    as Hf.
  cbv zeta in Hf.
  replace (frame_auth tf_env _ victim tf_host) with (Ok tf_host) in Hf by (symmetry; by_running).
  replace (100 <? 0) with false in Hf by by_running. cbv iota in Hf.
  replace (balance_of token_0 victim <? 100) with false in Hf by (symmetry; by_running).
  replace (i128_max <? _) with false in Hf by (symmetry; by_running). cbv iota in Hf.
  destruct Hf as (t' & Hr & _ & _ & Ht & _). exists t'. split; [exact Hr | exact Ht].
Defined.

Lemma token_conserves_witness :
  token_wf tf_after.1 ∧ total_balance tf_after.1 = total_balance token_0 + 0.
Proof.
  destruct (token_conserves tf_env tf_call token_0 tf_after.1 tf_host tf_after.2 token_0_wf
    tf_run_eq) as (Hw & _ & Ht & _).
  split; [exact Hw | exact Ht].
Defined.

Lemma token_balances_protected_witness :
  (∃ args, call_signer token_0 tf_call = Some (victim, args) ∧
     frame_auth tf_env args victim tf_host = Ok tf_after.2) ∨
  (∃ s args z, call_signer token_0 tf_call = Some (s, args) ∧
     frame_auth tf_env args s tf_host = Ok tf_after.2 ∧ call_draws tf_call = Some (victim, s, z) ∧
     balance_of token_0 victim - balance_of tf_after.1 victim ≤ z ∧
     z ≤ allowance_of tf_env token_0 victim s).
Proof.
  refine (proj1 (token_balances_protected tf_env tf_call token_0 tf_after.1 tf_host tf_after.2
    victim tf_run_eq) _).
  apply Z.ltb_lt. by_running.
Defined.

Definition ap_env : Env := token_frame "approve".
Definition ap_host : SampleHost :=
  token_host victim "approve" [VAddress victim; VAddress attacker; VI128 60; VU32 500].
Definition ap_run := TestToken.approve ap_env victim attacker 60 500 (token_0, ap_host).
Definition ap_after : TokenState * SampleHost := after ap_run (token_0, ap_host).
Lemma ap_run_eq : ap_run = Ok (tt, (ap_after.1, ap_after.2)).
Proof. apply (returns_after tt ap_run (token_0, ap_host)). by_running. Qed.

Lemma approve_functional_witness :
  allowance_of (sample_env_at 400 token_addr "allowance") ap_after.1 victim attacker = 60.
Proof.
  refine (proj1 (proj2 (proj2 (approve_functional ap_env
    (sample_env_at 400 token_addr "allowance") victim attacker 60 500 token_0 ap_after.1 ap_host
    ap_after.2 ap_run_eq _)))).
  vm_compute. discriminate.
Defined.

Definition tff_env : Env := token_frame "transfer_from".
Definition tff_host : SampleHost :=
  token_host attacker "transfer_from"
    [VAddress attacker; VAddress victim; VAddress admin_addr; VI128 25].
Definition tff_run :=
  TestToken.transfer_from tff_env attacker victim admin_addr 25 (ap_after.1, tff_host).
Definition tff_after : TokenState * SampleHost := after tff_run (ap_after.1, tff_host).
Lemma tff_run_eq : tff_run = Ok (tt, (tff_after.1, tff_after.2)).
Proof. apply (returns_after tt tff_run (ap_after.1, tff_host)). by_running. Qed.

Lemma transfer_from_draws_allowance_witness :
  allowance_of tff_env tff_after.1 victim attacker
  = allowance_of tff_env ap_after.1 victim attacker - 25.
Proof.
  pose proof (transfer_from_draws_allowance tff_env attacker victim admin_addr 25 ap_after.1
    tff_host) as Hd.
  change (TestToken.transfer_from tff_env attacker victim admin_addr 25 (ap_after.1, tff_host))
    with tff_run in Hd.
  rewrite tff_run_eq in Hd. exact (proj1 (proj2 (proj2 Hd))).
Defined.

(** ** The system *)

Lemma channel_0_solvent : solvent channel_addr token_addr (channel_0, deposit_world).
Proof.
  split; [vm_compute; discriminate|]. split; [by_running|]. split; [by_running|].
  split; [exact token_0_wf|]. intros sp en Hk. cbn [tk_temporary token_0] in Hk.
  by rewrite lookup_empty in Hk.
Qed.

Lemma system_solvent_witness :
  ch_total_supply called.1 ≤ balance_of called.2.1 channel_addr.
Proof.
  assert (Hstep : system_step channel_addr (channel_0, deposit_world)
    (called.1, (called.2.1, called.2.2))).
  { refine (step_channel channel_addr 3 tenv (CcTransact deposit_op) _ RetUnit _ eq_refl tenv_min _).
    rewrite <- (surjective_pairing called.2). exact call_run_eq. }
  exact (proj1 (system_solvent channel_addr token_addr
    (λ cc y y', sample_no_self_auth cc y y' channel_addr) _ _ channel_0_solvent
    (rtc_once _ _ Hstep))).
Defined.

Definition withdrawn : ChannelState * SampleWorld := after withdraw_run (deposited.1, withdraw_world).
Lemma withdraw_run_eq :
  PrivacyChannelContract.transact (PrivacyChannelContract.channel_call 2 tenv) tenv withdraw_op
    (deposited.1, withdraw_world) = Ok (tt, (withdrawn.1, withdrawn.2)).
Proof. apply (returns_after tt withdraw_run (deposited.1, withdraw_world)). by_running. Qed.

Lemma transact_needs_owner_and_provider_witness :
  ∃ signatures, owner_signed tenv signatures channel_addr utxo_1 [ExtWithdraw victim 100].
Proof.
  assert (Hnow : host_ledger withdraw_world = ledger_sequence tenv) by by_running.
  assert (Hbound : us_auth (ch_utxo deposited.1) = Some council_address) by by_running.
  destruct (transact_needs_owner_and_provider (X:=SampleWorld) 2 tenv withdraw_op deposited.1
    withdrawn.1 withdraw_world withdrawn.2 tenv_min Hnow Hbound withdraw_run_eq)
    as (payload & sigs & _ & Hown).
  exists sigs. apply (Hown utxo_1 [ExtWithdraw victim 100]). left.
Defined.

Lemma owner_is_protected_witness : ∃ cs, (victim, 100, cs) ∈ op_withdraw withdraw_op.
Proof.
  assert (Hnow : host_ledger withdraw_world = ledger_sequence tenv) by by_running.
  assert (Hbound : us_auth (ch_utxo deposited.1) = Some council_address) by by_running.
  assert (Htyped : amounts_typed [ExtWithdraw victim 100])
    by (split_and!; repeat constructor; by_running).
  destruct (owner_is_protected (X:=SampleWorld) 2 tenv withdraw_op deposited.1 withdrawn.1
    withdraw_world withdrawn.2 utxo_1 [ExtWithdraw victim 100] tenv_min Hnow Hbound
    withdraw_run_eq ltac:(left) Htyped) as (sig & live & _ & _ & Hmeant).
  destruct (Hmeant [ExtWithdraw victim 100] live Htyped ltac:(constructor) eq_refl
    ltac:(intros _; reflexivity)) as (_ & _ & _ & Hpaid).
  destruct (Hpaid victim 100 ltac:(left))
    as [Hw|[Hd|[Hd|[(a & us & z & _ & Hd & _)|(k & b & Hd & _)]]]];
    [exact Hw | apply list_elem_of_singleton in Hd; discriminate Hd ..].
Defined.

Lemma victim_signed : owner_signed tenv victim_sigs channel_addr utxo_1 [ExtWithdraw victim 100].
Proof.
  exists (sample_p256_sig utxo_1 (hash_payload (mkAuthPayload _ [ExtWithdraw victim 100] 1000)
    (address_to_string channel_addr))), 1000.
  split; [by_running|]. split; [cbn; lia | by_running].
Qed.

(** The deposit, and time passing outside, as the bank sees them. *)
Definition deposit_label : SystemLabel SampleHost :=
  Operation (PrivacyChannelContract.enter_frame tenv (CcTransact deposit_op))
    (au_providers council_0) deposit_op deposit_host called.2.2.

Lemma deposit_labelled :
  labelled_run channel_addr (channel_0, deposit_world) [deposit_label; Silent]
    (called.1, (called.2.1, spend_host withdraw_op)).
Proof.
  refine (run_step _ _ _ (called.1, (called.2.1, called.2.2)) _ _ _ _).
  { refine (label_operation channel_addr 3 tenv deposit_op channel_0 token_0 deposit_host RetUnit
      _ _ _ eq_refl tenv_min eq_refl _). rewrite <- (surjective_pairing called.2).
    exact call_run_eq. }
  refine (run_step _ _ _ _ _ _ _ (run_nothing _ _)). apply label_world.
Qed.

Lemma channel_0_bound :
  wf_ledger (ch_ledger channel_0) ∧ us_auth (ch_utxo channel_0) = Some (council_address (X:=SampleWorld)).
Proof.
  split; [|by_running]. assert (E : ch_ledger channel_0 = ∅) by by_running. rewrite E.
  apply map_Forall_empty.
Qed.

Lemma system_refines_bank_witness :
  bank_ledger (bank_run channel_addr (bank_of (channel_0, deposit_world)) [deposit_label; Silent])
  = ch_ledger called.1.
Proof.
  destruct (system_refines_bank channel_addr token_addr
    (λ cc y y', sample_no_self_auth cc y y' channel_addr) _ _ _ channel_0_solvent
    (proj1 channel_0_bound) (proj2 channel_0_bound) deposit_labelled) as (_ & [HL _] & _).
  exact (eq_sym HL).
Defined.

Lemma losses_are_agreed_witness :
  ∃ e providers y y',
    operation_authorized (Y:=SampleHost) channel_addr token_addr e providers deposit_op y y'.
Proof.
  destruct (losses_are_agreed channel_addr token_addr
    (λ cc y y', sample_no_self_auth cc y y' channel_addr) _ _ _ channel_0_solvent
    (proj1 channel_0_bound) (proj2 channel_0_bound) deposit_labelled victim) as [Hb Hloss].
  change (sumZ _ _) with (-100) in Hb.
  destruct (Hloss ltac:(discriminate) ltac:(lia))
    as [(e & c & y & y' & Hin & _)|(e & p & op & y & y' & z & cs & Hin & _ & Ha)].
  - apply elem_of_cons in Hin as [Hin|Hin%list_elem_of_singleton]; discriminate Hin.
  - exists e, p, y, y'.
    apply elem_of_cons in Hin as [Hin|Hin%list_elem_of_singleton]; [|discriminate Hin].
    apply (f_equal (λ l, match l with Operation _ _ o _ _ => o | _ => op end)) in Hin.
    cbn [deposit_label] in Hin. rewrite Hin in Ha. exact Ha.
Defined.

(** The victim leaves with what it deposited. *)
Lemma called_tokens_wf : token_wf called.2.1.
Proof.
  destruct channel_0_solvent as (Hsup & _ & _ & Hwf & Hno).
  refine (proj1 (proj2 (call_funded channel_addr (λ cc y y', sample_no_self_auth cc y y' channel_addr)
    3 tenv (CcTransact deposit_op) channel_0 token_0 deposit_host RetUnit called.1 called.2.1
    called.2.2 eq_refl tenv_min (conj Hsup (conj Hwf Hno)) _))).
  rewrite <- (surjective_pairing called.2). exact call_run_eq.
Qed.

Lemma victim_sigs_provider pk entry :
  victim_sigs !! SKProvider pk = Some entry →
  provider_entry_valid tenv tx_payload (au_providers council_0) pk entry.
Proof.
  unfold victim_sigs, provider_sigs. rewrite lookup_insert_ne by done.
  intros [[= <-] <-]%lookup_singleton_Some. split_and!; [set_solver | cbn; lia |].
  change (ed25519_verify provider_pk (to_array tx_payload)
    (sample_ed25519_sig provider_pk (to_array tx_payload)) = true). by_running.
Qed.

Lemma signed_exit_executes_witness :
  ∃ s' t' y', run_transact withdraw_op called.1 (called.2.1, spend_host withdraw_op)
    = Ok (tt, (s', (t', y'))) ∧ balance_of t' victim = balance_of called.2.1 victim + 100.
Proof.
  destruct (signed_exit_executes (Y:=SampleHost) admin_addr token_addr 2 tenv withdraw_op called.1
    called.2.1 (spend_host withdraw_op) tx_payload victim_sigs)
    as (s' & t' & y' & Hrun & Hpaid & _).
  - exact called_reachable.
  - split; [vm_compute; discriminate | exact called_tokens_wf].
  - split; by intros [=].
  - split; [by_running | exact tenv_min].
  - split; [|by_running].
    refine (proj1 (proj1 (pre_process_Ok withdraw_op (op_bundle withdraw_op) 0 100) _)). by_running.
  - split; (split; [apply NoDup_singleton || constructor|]).
    + intros u Hu. apply list_elem_of_singleton in Hu. rewrite Hu. exists 100. split; [by_running | lia].
    + intros c Hc. apply elem_of_nil in Hc as [].
  - by_running.
  - apply Forall_singleton. intros _. vm_compute. discriminate.
  - change (sh_entry (spend_host withdraw_op) = (tx_payload, victim_sigs,
      [Contract (transact_context (bundle_auth_args (op_bundle withdraw_op)))])). by_running.
  - split; [vm_compute; discriminate|]. split; [exists provider_pk; vm_compute; eauto|].
    exact victim_sigs_provider.
  - intros u conds Hin. apply list_elem_of_singleton in Hin. injection Hin as -> ->.
    split; [discriminate | exact victim_signed].
  - exists s', t', y'. split; [exact Hrun|]. apply (Hpaid victim 100 []); [left | by intros [=]].
Defined.

Lemma withdrawal_can_be_redirected_witness :
  ∃ s' t' y', run_transact redirect_op called.1 (called.2.1, spend_host redirect_op)
    = Ok (tt, (s', (t', y'))) ∧
    balance_of t' attacker = balance_of called.2.1 attacker + 100 ∧
    balance_of t' victim = balance_of called.2.1 victim.
Proof.
  destruct (withdrawal_can_be_redirected (Y:=SampleHost) admin_addr token_addr 2 tenv called.1
    called.2.1 (spend_host redirect_op) tx_payload victim_sigs utxo_1 victim attacker 100
    [ExtDeposit victim 100]) as (s' & t' & y' & Hrun & Hpaid & Hlost & _).
  - exact victim_signed.
  - by left.
  - split; [by_running | lia].
  - exact called_reachable.
  - split; [vm_compute; discriminate | exact called_tokens_wf].
  - split; by intros [=].
  - split; [by_running | exact tenv_min].
  - split_and!; by intros [=].
  - vm_compute. discriminate.
  - change (sh_entry (spend_host redirect_op) = (tx_payload, victim_sigs,
      [Contract (transact_context (bundle_auth_args (op_bundle redirect_op)))])). by_running.
  - split; [vm_compute; discriminate|]. split; [exists provider_pk; vm_compute; eauto|].
    exact victim_sigs_provider.
  - exists s', t', y'. split; [exact Hrun|]. by split.
Defined.

(** The builder's bundle, executed on the channel after the deposit. *)
Lemma mixed_built : for_each signed_mixed_calls channel_builder_call
  (ChannelBuilder.generate channel_addr council_address token_addr) = Ok (tt, mixed_builder).
Proof. apply (returns_state tt _ fresh_channel_builder). by_running. Qed.

Lemma mixed_spend : b_spend (utxo_builder mixed_builder) = [(utxo_1, mixed_conditions)].
Proof. by_running. Qed.

Lemma mixed_deposit : cb_deposit mixed_builder = [(victim, 50, [Create utxo_2 90])].
Proof. by_running. Qed.

Definition mixed_provider_signature : BytesN 64 := Ed25519Keys.sign provider_account mixed_payload.

Lemma mixed_sign_map : sign_map (utxo_builder mixed_builder) =
  <[SKProvider provider_pk := (SigEd25519 mixed_provider_signature, 1000)]>
    {[SKP256 utxo_1 := (SigP256 mixed_owner_signature, 1000)]}.
Proof. by_running. Qed.

Lemma mixed_signed_by_owner : owners_signed tenv (utxo_builder mixed_builder).
Proof.
  intros u conds sig live Hin Hs. rewrite mixed_spend in Hin.
  apply list_elem_of_singleton in Hin as [= -> ->].
  rewrite mixed_sign_map, lookup_insert_ne, lookup_singleton_eq in Hs by done.
  injection Hs as <- <-. split; [cbn; lia|].
  exists (ok_or_else (UtxoBuilder.get_auth_hash_for_spend (utxo_builder mixed_builder) utxo_1 1000)
    tx_payload).
  split; by_running.
Qed.

Lemma mixed_signed_by_provider pk entry :
  sign_map (utxo_builder mixed_builder) !! SKProvider pk = Some entry →
  provider_entry_valid tenv mixed_payload (au_providers council_0) pk entry.
Proof.
  rewrite mixed_sign_map. intros [[[= <-] <-]|[_ Hs]]%lookup_insert_Some.
  - split_and!; [set_solver | cbn; lia | cbn [signature_valid fst]; by_running].
  - by apply lookup_singleton_Some in Hs as [? _].
Qed.

Lemma mixed_signed_by_depositor :
  deposit_entry_signed mixed_builder mixed_host (victim, 50, [Create utxo_2 90]).
Proof.
  exists 8, 1000, mixed_deposit_entry, (sample_bytes 32 Init.Byte.x0b),
    (Ed25519Keys.sign victim_account mixed_deposit_payload), mixed_deposit_payload.
  split; [by_running|]. split; [|split; [vm_compute; discriminate|]].
  - apply Forall_forall. intros cc Hcc. apply list_elem_of_fmap. by exists cc.
  - split; [reflexivity|]. split_and!; by_running.
Qed.

Lemma mixed_op_valid : op_valid mixed_op.
Proof.
  refine (proj1 (proj1 (pre_process_Ok mixed_op (op_bundle mixed_op) 50 60) _)). by_running.
Qed.

Lemma mixed_op_eq : mixed_op =
  mkChannelOperation _ [(utxo_1, mixed_conditions)] [(utxo_2, 90)]
    [(victim, 50, [Create utxo_2 90])] [(victim, 60, [Create utxo_2 90])].
Proof. by_running. Qed.

Lemma mixed_executable : executable (ch_ledger called.1) mixed_op.
Proof.
  rewrite mixed_op_eq. unfold executable. cbn [op_spend op_create op_deposit op_withdraw].
  split_and!; [split; [apply NoDup_singleton|] | split; [apply NoDup_singleton|] |].
  - intros u Hu. apply list_elem_of_singleton in Hu. rewrite Hu. exists 100.
    split; [by_running | lia].
  - intros c Hc. apply list_elem_of_singleton in Hc. rewrite Hc. split; [by_running | cbn; lia].
  - by_running.
Qed.

Lemma mixed_balances : balances_suffice channel_addr token_addr called.2.1 mixed_op.
Proof.
  rewrite mixed_op_eq. unfold balances_suffice, has_room. cbn [op_deposit op_withdraw].
  split_and!.
  - apply Forall_singleton. split_and!; [by intros [=] | by intros [=] | vm_compute; discriminate].
  - vm_compute. discriminate.
  - apply Forall_singleton. intros _. vm_compute. discriminate.
Qed.

